(* ===== verification/_CoqProject ===== *)
-Q . S2P
Prelude.v
PyValue.v
Json.v
Isotime.v
Domain.v
Meta.v
PyFloat.v
RedisClient.v
StateMachine.v
Backend.v
MemoryBackend.v
Graph.v
Dependency.v
Security.v
Idempotency.v
Observability.v
Queue.v
Concurrency.v
ResourcePool.v
Dispatcher.v
Fallback.v
Worker.v
Admin.v
Maintenance.v
FanOut.v
Deadlock.v
Capacity.v
HeapQ.v
Priority.v
SqlBackend.v
RedisBackend.v
RedisTheorems.v
Hybrid.v
FairShare.v
Callbacks.v
CallbackTheorems.v
Mcp.v
Http.v
Policies.v
Config.v
Conformance.v
Registry.v
Exclusion.v
Drain.v
Pipeline.v
MockBackend.v
Suites.v
Schema.v
SqlDispatch.v
