(* ===== verification/Prelude.v ===== *)
(** * Verification of cloud_dog_jobs

    A model of the job library under [src/cloud_dog_jobs] and the theorems that
    make it correct. File names below are those of the source, relative to that
    directory, and the files of this development that model them.

    ** The program

    A client submits a [JobRequest] to the queue ([queue.py]), which checks the
    payload ([security/]), deduplicates by key ([idempotency/manager.py]), checks
    dependencies for cycles ([scheduler/dependency.py]) and enqueues a [Job]
    ([domain/models.py]) into a backend ([backends/]: memory, SQL, Redis, or
    Redis with SQL). A worker ([worker/worker.py]) asks the dispatcher
    ([scheduler/dispatcher.py]) for a job whose dependencies, concurrency limits
    ([scheduler/concurrency.py]) and resources ([scheduler/resource_pool.py])
    admit it, claims it, runs its handler and reports the outcome, failures going
    through the fallback policies ([extensions/fallback_policies.py]). Beside
    this path stand the administration ([admin/]), maintenance ([maintenance/],
    [ttl/], [polling/]), fan-out ([fanout/manager.py]), callbacks
    ([callbacks/manager.py]), the broker ([broker/]), and the outer interfaces:
    MCP tools ([mcp/], [async_jobs/]) and HTTP ([api/fastapi/]).

    ** How it is modelled

    A method of an object with state [S] is a function of the monad [M S]: it
    reads and writes [S], may raise (a [result] is a value or an exception), and
    reads the clock and [uuid4], two oracles. [wp m s Q] says that [m], run from
    [s] under any oracles, ends in a result and state with [Q]; methods are total
    functions, so this is total correctness. An object that owns another runs the
    methods of the latter with [zoom]. A lock makes a method one step; an
    interleaving of clients is a sequence of methods, and where there is no lock
    around them, of single SQL statements, Redis commands or halves of a method.
    Objects that are shared by reference are identified by their key in the
    object that stores them; [deref] and [assign] of the backend interface say
    whether a job handed out is the stored one (memory) or a copy.

    Values: integers are [Z]; times are microseconds; a dictionary is its list of
    items in insertion order ([Dict]) or a [gmap] where only lookups matter;
    strings are their UTF-8 bytes, with [lower] and the escapes of [repr] those
    of ASCII; a JSON float is its [repr], a computed float a [SpecFloat] binary64
    number. Loops over lists are folds; the recursions that are not structural
    carry fuel, and each has a theorem that its fuel is enough: the graph searches
    of [Graph] and [Deadlock] run on the number of keys, the JSON reader on the
    length of the text, [run_forever] on its bound.

    ** The files

    - [Prelude]: the monad, [wp] and its rules, [keeps], record update, [Dict],
      lists, sorting, automation ([wp_steps], the hint database [py]).
    - [PyValue], [Json], [Isotime], [Meta], [PyFloat]: Python values, [json.dumps]
      and [json.loads] with their round trip, ISO dates with theirs, the metadata
      column ([storage/sqlalchemy/models.py], [backends/redis_backend.py]),
      floats and conversions.
    - [Domain]: [domain/enums.py], [domain/models.py]. [StateMachine]:
      [domain/state_machine.py], [extensions/state_extensions.py].
    - [Backend]: the interface [backends/base.py] as a class, its specification
      (the abstract queue, a map from identifiers to statuses) and the contract
      the clients are proved against: every operation is one of the abstract
      queue, and what [dequeue], [get] and [all_jobs] hand out are the jobs the
      backend holds ([contents]). [MemoryBackend], [SqlBackend] (with
      [storage/sqlalchemy/]) and [Hybrid] implement it; [Schema]: the declared
      tables, their creation, the types of the rows; [RedisClient] is the
      interface of Redis commands with its laws, [RedisBackend] the backend and
      its Lua scripts, [RedisTheorems] its theorems. A lease in Redis may expire
      at any moment, so Redis and the hybrid backend are proved to simulate the
      abstract queue rather than to meet the contract.
    - [Graph], [Dependency], [Concurrency], [ResourcePool], [Dispatcher],
      [Policies]: [scheduler/]. [Fallback]: [extensions/fallback_policies.py].
      [Worker]: [worker/]. [Exclusion]: a worker among other clients of one
      in-memory backend. [Drain]: what a worker alone on it achieves. [Pipeline]:
      the queue, the backend and the worker together. [SqlDispatch]: the
      dispatcher over the SQL backend.
    - [Security]: [security/]. [Idempotency]: [idempotency/manager.py].
      [Observability]: [observability/]. [Queue]: [queue.py].
    - [Admin]: [admin/]. [Maintenance]: [maintenance/reaper.py], [ttl/],
      [polling/poller.py]. [FanOut]: [fanout/manager.py].
    - [Deadlock], [Capacity], [HeapQ] and [Priority], [FairShare], [Registry]:
      [broker/deadlock.py], [capacity.py], [priority.py] over the standard
      library's [heapq], [fairshare.py], [registry.py].
    - [Callbacks], [CallbackTheorems]: [callbacks/manager.py].
    - [Mcp]: [mcp/job_tools.py], [async_jobs/mcp_adapter.py]. [Http]:
      [api/fastapi/]. [Config]: [config/models.py], [backends/registry.py].
      [Conformance]: the basic suite of [testing/conformance.py]; [Suites]: the
      two that run a worker, and [testing/fixtures.py]; [MockBackend]:
      [testing/mock_backends.py].

    ** What the theorems show

    - The whole path: jobs submitted with dependencies on earlier jobs of no lower
      priority all succeed under a worker whose limits admit each of them alone
      ([submitted_plan_runs], from [lone_worker_drains]); with a priority inversion
      the worker can starve ([blocked_head_starves]). However other clients
      interleave, a job that nobody requeues is run at most once ([job_runs_once]).
    - Life of a job: a worker that ran a job, whatever its handler did, has given
      back every slot (a type without a handler is the one leak), and the final
      status is the one its handler and fallback policy call for; a dispatcher
      selects exactly the eligible ones of the jobs it was offered; submission
      enqueues exactly one job, once per key, and rejects what it should before
      anything is changed.
    - Backends: memory, SQL, Redis and the hybrid answer any sequence of requests
      like the abstract queue; a job is claimed at most once however requests, SQL
      statements or Redis commands interleave; what is stored is read back;
      dequeue follows priority; leases that expire are reaped; the rows of the
      [jobs] table keep the types it declares ([sql_rows_typed]) and the constructor
      upgrades the schema and may run again ([schema_upgrade]).
    - Components: acyclicity of the dependency and deadlock graphs with complete
      and terminating searches; limits, pools and capacities are respected and
      refine the sets of their holders; the history of the calls of any clients
      keeps the tenants' quotas, and no call is refused that they allow
      ([fairshare_within_quota]); the priority queue is a heap that simulates a
      sorted list; sweeps and bulk actions touch exactly the stored jobs they
      should; the secret scan is exact.
    - Outside: webhook delivery is bounded, stops at the first success and is
      recorded; registrations survive a restart; HTTP requests pass the permission
      check; the MCP tools never raise and tell the status of the queue; a
      registered service is visible to every process; backoff is bounded.
    - What the code gets wrong is proved too, in theorems named after the defect,
      such as [sql_dispatch_blind] (over SQL dependencies and pools are not
      enforced), [redis_release_race], [redis_requeue_lost], [hybrid_enqueue_split],
      [failed_enqueue_poisons_key], [heartbeat_resurrects], [sweep_naive_raises]
      (over databases without time zones maintenance raises), [fairshare_race].

    ** Assumptions

    Code outside the repository is an interface with laws, each with an instance
    that satisfies them: the SQL tables ([SqlLaws], [CallbackLaws]) and the
    database's catalog ([EngineLaws]), Redis ([RedisLaws]), path matching of the
    web framework ([literal_prefix]), the C library's [pow], [random.uniform],
    [repr] of floats. Handlers, notifiers, permission checkers and endpoints are
    parameters. Clock readings lie in the
    range of [datetime]; of their order, only [submitted_plan_runs] and
    [fairshare_within_quota] assume anything (that the clock does not go
    backwards).

    A database keeps a row as it is given except for the two times: [db_time] is
    its precision and [keeps_zone] says whether datetimes come back aware, as
    PostgreSQL's do, or naive, as those of SQLite and MySQL ([db_rows] has an
    instance of each). A job says of its datetimes whether they are naive
    ([naive_times]), and arithmetic with an aware [now] then raises ([elapsed]).
    A JSON column gives back an equal value; MySQL sorts the keys of an object,
    which Python's dictionaries compare equal, and the model keeps their order.

    ** Not modelled

    The rows of [job_call_logs] and [job_deliveries], which nothing writes or
    reads; the [async] variants, which run the same method in a thread; sleeping
    between polls; the texts of Python's own conversion errors; non-ASCII case
    folding; exception classes and constant identifiers without behaviour ([domain/errors.py], [traceability_ids.py]). *)

From Stdlib Require Export Ascii ZArith Lia.
From stdpp Require Export base tactics list strings gmap sorting finite pretty.

#[export] Set Default Goal Selector "!".
#[export] Set Warnings "-clear-no-such-hyp,-register-all,-postfix-notation-not-level-1".

Declare Scope py_scope.
Delimit Scope py_scope with py.
Open Scope py_scope.

Create HintDb py discriminated.

(** ** Exceptions and results

    An exception carries the Python class and the message it was built with;
    [UserError] stands for exceptions raised by caller-supplied code (handlers,
    notifiers), whose class the library never inspects. *)
Inductive exn : Type :=
  | ValueError (msg : string)
  | KeyError (msg : string)
  | PermissionError (msg : string)
  | RuntimeError (msg : string)
  | TimeoutError (msg : string)
  | DependencyCycleError (msg : string)
  | UserError (cls msg : string).

#[export] Instance exn_eq_dec : EqDecision exn.
Proof. solve_decision. Defined.

Inductive result (A : Type) : Type :=
  | Ok (a : A)
  | Err (x : exn).
Arguments Ok {A} a.
Arguments Err {A} x.

#[export] Instance result_eq_dec {A} `{EqDecision A} : EqDecision (result A).
Proof. solve_decision. Defined.

Definition is_ok {A} (r : result A) : bool :=
  match r with Ok _ => true | Err _ => false end.

(** ** The effect monad

    A method of an object with state [S] reads and writes that state, may raise,
    and may consult the two sources of non-determinism the library uses: the
    wall clock ([datetime.now], [time.time]) and [uuid4].  Both are oracles: a
    stream of readings and a position in it. Times are integers counting
    microseconds since the epoch, the resolution of [datetime], whose range
    (year 1 to year 9999) a clock stays in. *)
Definition datetime_ok (t : Z) : Prop := (-62135596800000000 ≤ t ≤ 253402300799999999)%Z.

Record clock : Type := Clock {
  reading :> nat → Z;
  reading_ok : ∀ n, datetime_ok (reading n);
}.

Record env : Type := Env {
  env_clock : clock;
  env_uuid : nat → string;
  env_ticks : nat;
  env_ids : nat;
}.

Definition M (S A : Type) : Type := S → env → result A * S * env.

#[export] Instance M_ret {S} : MRet (M S) := λ A a s e, (Ok a, s, e).
#[export] Instance M_bind {S} : MBind (M S) := λ A B f m s e,
  match m s e with
  | (Ok a, s', e') => f a s' e'
  | (Err x, s', e') => (Err x, s', e')
  end.

Section effects.
Context {S : Type}.

Definition raise {A} (x : exn) : M S A := λ s e, (Err x, s, e).
Definition gets {A} (f : S → A) : M S A := λ s e, (Ok (f s), s, e).
Definition get_state : M S S := λ s e, (Ok s, s, e).
Definition modify (f : S → S) : M S unit := λ s e, (Ok tt, f s, e).

Definition utcnow : M S Z := λ s e,
  (Ok (env_clock e (env_ticks e)), s,
   Env (env_clock e) (env_uuid e) (1 + env_ticks e) (env_ids e)).
Definition uuid4 : M S string := λ s e,
  (Ok (env_uuid e (env_ids e)), s,
   Env (env_clock e) (env_uuid e) (env_ticks e) (1 + env_ids e)).

(** [try: m  except Exception as x: h x] *)
Definition try_except {A} (m : M S A) (h : exn → M S A) : M S A := λ s e,
  match m s e with
  | (Err x, s', e') => h x s' e'
  | o => o
  end.

(** [try: m  finally: f] *)
Definition try_finally {A} (m : M S A) (f : M S unit) : M S A := λ s e,
  let '(r, s1, e1) := m s e in
  match f s1 e1 with
  | (Ok _, s2, e2) => (r, s2, e2)
  | (Err x, s2, e2) => (Err x, s2, e2)
  end.

(** A [for] loop over a list with an accumulator. *)
Fixpoint foldM {A B} (f : B → A → M S B) (acc : B) (l : list A) : M S B :=
  match l with
  | [] => mret acc
  | x :: l => acc' ← f acc x; foldM f acc' l
  end.
End effects.

(** A method of a component object, run on the object that owns it. *)
Definition zoom {S T A} (get : S → T) (put : T → S → S) (m : M T A) : M S A := λ s e,
  let '(r, t, e') := m (get s) e in (r, put t s, e').

(** A method of an optional component ([if self._x is not None: ...]): [None]
    when there is no component. *)
Definition zoom_opt {S T A} (get : S → option T) (put : T → S → S) (m : M T A)
    : M S (option A) := λ s e,
  match get s with
  | None => (Ok None, s, e)
  | Some t =>
    let '(r, t', e') := m t e in
    (match r with Ok a => Ok (Some a) | Err x => Err x end, put t' s, e')
  end.

(** ** Weakest preconditions

    [wp m s Q]: whatever the clock and the identifier source answer, running
    [m] from [s] ends with a result and a state satisfying [Q].  Programs are
    total functions, so this is total correctness. *)
Definition wp {S A} (m : M S A) (s : S) (Q : result A → S → Prop) : Prop :=
  ∀ e, let '(r, s', _) := m s e in Q r s'.

Lemma bind_ret {S A T} (a : A) (f : A → M S T) : (mret a ≫= f : M S T) = f a.
Proof. done. Qed.

Section wp_rules.
Context {S : Type}.
Implicit Types (s : S).

Lemma wp_mono {A} (m : M S A) s (Q R : result A → S → Prop) :
  wp m s Q → (∀ r s', Q r s' → R r s') → wp m s R.
Proof. intros H HQR e. specialize (H e). destruct (m s e) as [[??]?]. auto. Qed.

Lemma wp_conj {A} (m : M S A) s (Q R : result A → S → Prop) :
  wp m s Q → wp m s R → wp m s (λ r s', Q r s' ∧ R r s').
Proof. intros H1 H2 e. specialize (H1 e). specialize (H2 e).
  destruct (m s e) as [[??]?]. auto. Qed.

Lemma wp_ret {A} (a : A) s Q : Q (Ok a) s → wp (mret a : M S A) s Q.
Proof. intros H e. exact H. Qed.

Lemma wp_raise {A} x s (Q : result A → S → Prop) : Q (Err x) s → wp (raise x) s Q.
Proof. intros H e. exact H. Qed.

Lemma wp_gets {A} (f : S → A) s Q : Q (Ok (f s)) s → wp (gets f) s Q.
Proof. intros H e. exact H. Qed.

Lemma wp_get_state s Q : Q (Ok s) s → wp get_state s Q.
Proof. intros H e. exact H. Qed.

Lemma wp_modify (f : S → S) s Q : Q (Ok tt) (f s) → wp (modify f) s Q.
Proof. intros H e. exact H. Qed.

Lemma wp_utcnow s Q : (∀ t, datetime_ok t → Q (Ok t) s) → wp utcnow s Q.
Proof. intros H e. apply H, reading_ok. Qed.

Lemma wp_uuid4 s Q : (∀ u, Q (Ok u) s) → wp uuid4 s Q.
Proof. intros H e. apply H. Qed.

Lemma wp_bind {A B} (m : M S A) (f : A → M S B) s Q :
  wp m s (λ r s', match r with Ok a => wp (f a) s' Q | Err x => Q (Err x) s' end) →
  wp (m ≫= f) s Q.
Proof.
  intros H e. specialize (H e). unfold mbind, M_bind.
  destruct (m s e) as [[[a|x] s'] e']; [apply H | exact H].
Qed.

Lemma wp_try {A} (m : M S A) (h : exn → M S A) s Q :
  wp m s (λ r s', match r with Ok a => Q (Ok a) s' | Err x => wp (h x) s' Q end) →
  wp (try_except m h) s Q.
Proof.
  intros H e. specialize (H e). unfold try_except.
  destruct (m s e) as [[[a|x] s'] e']; [exact H | apply H].
Qed.

Lemma wp_finally {A} (m : M S A) (f : M S unit) s Q :
  wp m s (λ r s', wp f s' (λ rf s'',
    match rf with Ok _ => Q r s'' | Err x => Q (Err x) s'' end)) →
  wp (try_finally m f) s Q.
Proof.
  intros H e. specialize (H e). unfold try_finally.
  destruct (m s e) as [[r s1] e1]. specialize (H e1).
  destruct (f s1 e1) as [[[[]|x] s2] e2]; exact H.
Qed.

(** Loop rule: [I done acc] holds after the prefix [done]; an iteration
    either extends it or raises in a state that meets the postcondition. *)
Lemma wp_foldM {A B} (f : B → A → M S B) (I : list A → B → S → Prop)
    (l : list A) acc s Q :
  I [] acc s →
  (∀ done x todo acc s, l = done ++ x :: todo → I done acc s →
     wp (f acc x) s (λ r s', match r with
       | Ok acc' => I (done ++ [x]) acc' s' | Err x => Q (Err x) s' end)) →
  (∀ acc s, I l acc s → Q (Ok acc) s) →
  wp (foldM f acc l) s Q.
Proof.
  intros H0 Hstep Hpost.
  enough (∀ todo done acc s, l = done ++ todo → I done acc s →
            wp (foldM f acc todo) s Q) by (by eapply (H l [])).
  clear H0 acc s. induction todo as [|x todo IH]; intros done acc s Hl HI; simpl.
  - apply wp_ret, Hpost. by rewrite Hl, app_nil_r.
  - apply wp_bind. eapply wp_mono; [by eapply Hstep|].
    intros [acc'|y] s' HQ; [|done].
    eapply IH; [|exact HQ]. by rewrite Hl, <- app_assoc.
Qed.
End wp_rules.

(** The result of the last call, wrapped. *)
Lemma wp_map_inv {S A B} (m : M S A) (g : A → B) (s : S) Q :
  wp (a ← m; mret (g a)) s Q →
  wp m s (λ r s', Q (match r with Ok a => Ok (g a) | Err x => Err x end) s').
Proof.
  intros H e. specialize (H e). unfold mbind, M_bind in H. by destruct (m s e) as [[[a|x] s'] e'].
Qed.

Lemma wp_zoom {S T A} (get : S → T) (put : T → S → S) (m : M T A) s Q :
  wp m (get s) (λ r t, Q r (put t s)) → wp (zoom get put m) s Q.
Proof.
  intros H e. specialize (H e). unfold zoom. destruct (m (get s) e) as [[r t] e']. exact H.
Qed.

Lemma wp_zoom_opt {S T A} (get : S → option T) (put : T → S → S) (m : M T A) s Q :
  match get s with
  | None => Q (Ok None) s
  | Some t => wp m t (λ r t',
      Q match r with Ok a => Ok (Some a) | Err x => Err x end (put t' s))
  end →
  wp (zoom_opt get put m) s Q.
Proof.
  intros H e. unfold zoom_opt. destruct (get s) as [t|]; [|exact H].
  specialize (H e). destruct (m t e) as [[r t'] e']. exact H.
Qed.

(** [wp_steps] runs the straight-line part of a method symbolically. *)
Ltac wp_step :=
  lazymatch goal with
  | |- wp (mret _) _ _ => apply wp_ret
  | |- wp (raise _) _ _ => apply wp_raise
  | |- wp (gets _) _ _ => apply wp_gets
  | |- wp get_state _ _ => apply wp_get_state
  | |- wp (modify _) _ _ => apply wp_modify
  | |- wp utcnow _ _ => apply wp_utcnow; intros ? _
  | |- wp uuid4 _ _ => apply wp_uuid4; intros ?
  | |- wp (_ ≫= _) _ _ => apply wp_bind
  | |- wp (try_except _ _) _ _ => apply wp_try
  | |- wp (try_finally _ _) _ _ => apply wp_finally
  | |- wp (zoom _ _ _) _ _ => apply wp_zoom
  end.
Ltac wp_steps := repeat (wp_step; cbn beta iota).

(** One concrete environment, and the state a method leaves in it. *)
Definition in_range (t : Z) : Z := Z.max (-62135596800000000) (Z.min 253402300799999999 t).
Lemma in_range_ok t : datetime_ok (in_range t).
Proof. unfold datetime_ok, in_range. lia. Qed.
Definition clock_of (f : nat → Z) : clock := Clock (λ n, in_range (f n)) (λ n, in_range_ok (f n)).
Definition env0 : env := Env (clock_of Z.of_nat) pretty 0 0.
Definition after {S A} (m : M S A) (s : S) : S := (m s env0).1.2.
Definition answer {S A} (m : M S A) (s : S) : result A := (m s env0).1.1.

Lemma wp_after {S A} (m : M S A) s Q : wp m s Q → Q (answer m s) (after m s).
Proof. intros H. specialize (H env0). unfold answer, after. by destruct (m s env0) as [[??]?]. Qed.

(** ** One environment

    [runs e m s Q] says what [m] does in the environment [e]; [now_at e] is the
    next reading of its clock. *)
Definition runs {S A} (e : env) (m : M S A) (s : S) (Q : result A → S → env → Prop) : Prop :=
  let '(r, s', e') := m s e in Q r s' e'.

Lemma runs_bind {S A T} e (m : M S A) (g : A → M S T) s (Q : result T → S → env → Prop) :
  runs e m s (λ r s' e', match r with Ok a => runs e' (g a) s' Q | Err x => Q (Err x) s' e' end) →
  runs e (m ≫= g) s Q.
Proof. unfold runs, mbind, M_bind. by destruct (m s e) as [[[a|x] s1] e1]. Qed.

Lemma runs_mono {S A} e (m : M S A) s (Q Q' : result A → S → env → Prop) :
  runs e m s Q → (∀ r s' e', Q r s' e' → Q' r s' e') → runs e m s Q'.
Proof. unfold runs. destruct (m s e) as [[r s'] e']. auto. Qed.

Lemma runs_wp {S A} e (m : M S A) s (Q : result A → S → env → Prop) :
  wp m s (λ r s', ∀ e', Q r s' e') → runs e m s Q.
Proof. intros H. specialize (H e). unfold runs. by destruct (m s e) as [[r s'] e']. Qed.

Lemma runs_ret {S A} e (a : A) (s : S) (Q : result A → S → env → Prop) : Q (Ok a) s e → runs e (mret a) s Q.
Proof. done. Qed.

Lemma runs_zoom {S T A} e get put (m : M T A) (s : S) (Q : result A → S → env → Prop) :
  runs e m (get s) (λ r t, Q r (put t s)) → runs e (zoom get put m) s Q.
Proof. unfold runs, zoom. by destruct (m (get s) e) as [[r t] e']. Qed.

Definition now_at (e : env) : Z := env_clock e (env_ticks e).

Definition tick (e : env) : env := Env (env_clock e) (env_uuid e) (S (env_ticks e)) (env_ids e).

Lemma runs_utcnow {S A} e (f : Z → M S A) s (Q : result A → S → env → Prop) :
  runs (tick e) (f (now_at e)) s Q → runs e (utcnow ≫= f) s Q.
Proof. done. Qed.

Lemma runs_get_state {S A} e (f : S → M S A) s (Q : result A → S → env → Prop) :
  runs e (f s) s Q → runs e (get_state ≫= f) s Q.
Proof. done. Qed.

Lemma runs_modify {S A} e g (f : unit → M S A) s (Q : result A → S → env → Prop) :
  runs e (f tt) (g s) Q → runs e (modify g ≫= f) s Q.
Proof. done. Qed.

(** A clock that does not run backwards, and a later moment of it. *)
Definition forward (e : env) : Prop := ∀ i k, i ≤ k → (env_clock e i ≤ env_clock e k)%Z.

Definition later (e e' : env) : Prop := env_clock e' = env_clock e ∧ env_ticks e ≤ env_ticks e'.

#[export] Instance later_preorder : PreOrder later.
Proof.
  split; [done|]. intros e1 e2 e3 [E12 H12] [E23 H23]. split; [congruence|lia].
Qed.

Lemma later_tick e : later e (tick e).
Proof. split; [done|]. simpl. lia. Qed.

Lemma later_forward e e' : later e e' → forward e → forward e'.
Proof. unfold later, forward. by intros [-> _]. Qed.

Lemma later_now e e' : forward e → later e e' → (now_at e ≤ now_at e')%Z.
Proof. unfold now_at. intros Hf [-> Ht]. by apply Hf. Qed.

(** A method that reads the clock first. *)
Lemma runs_now {S A} e (f : Z → M S A) s (Q : result A → S → Prop) :
  wp (f (now_at e)) s Q → runs e (utcnow ≫= f) s (λ r s' _, Q r s').
Proof. intros H. apply runs_bind. exact (runs_wp _ _ _ _ (wp_mono _ _ _ _ H (λ r s' HQ e', HQ)) ). Qed.

(** ** Relations every run respects

    [keeps R m]: from any state, however it ends, [m] leaves a state related to
    the first by [R]. The rules follow the syntax of a method. *)
Definition keeps {S A} (R : relation S) (m : M S A) : Prop := ∀ s, wp m s (λ _ s', R s s').

Section keeps.
Context {S : Type} (R : relation S) `{!PreOrder R}.

Lemma keeps_pure {A} (m : M S A) : (∀ s, wp m s (λ _ s', s' = s)) → keeps R m.
Proof using Type*. intros H s. eapply wp_mono; [apply H|]. by intros r s' ->. Qed.

Lemma keeps_ret {A} (a : A) : keeps R (mret a).
Proof using Type*. intros s. by wp_steps. Qed.
Lemma keeps_raise {A} x : keeps R (raise x : M S A).
Proof using Type*. intros s. by wp_steps. Qed.
Lemma keeps_gets {A} (f : S → A) : keeps R (gets f).
Proof using Type*. intros s. by wp_steps. Qed.
Lemma keeps_modify f : (∀ s, R s (f s)) → keeps R (modify f).
Proof using Type*. intros H s. by wp_steps. Qed.

Lemma keeps_bind {A T} (m : M S A) (f : A → M S T) :
  keeps R m → (∀ a, keeps R (f a)) → keeps R (m ≫= f).
Proof using Type*.
  intros Hm Hf s. wp_steps. eapply wp_mono; [apply Hm|]. intros [a|x] s' H; [|done].
  eapply wp_mono; [apply Hf|]. simpl. intros _ s'' ?. by etrans.
Qed.

Lemma keeps_try {A} (m : M S A) h : keeps R m → (∀ x, keeps R (h x)) → keeps R (try_except m h).
Proof using Type*.
  intros Hm Hh s. wp_steps. eapply wp_mono; [apply Hm|]. intros [a|x] s' H; [done|].
  eapply wp_mono; [apply Hh|]. simpl. intros _ s'' ?. by etrans.
Qed.

Lemma keeps_finally {A} (m : M S A) f : keeps R m → keeps R f → keeps R (try_finally m f).
Proof using Type*.
  intros Hm Hf s. wp_steps. eapply wp_mono; [apply Hm|]. intros r s' H.
  simpl in H. eapply wp_mono; [apply Hf|]. simpl. intros [] s'' ?; by etrans.
Qed.

Lemma keeps_foldM {A T} (f : T → A → M S T) acc l :
  (∀ acc x, keeps R (f acc x)) → keeps R (foldM f acc l).
Proof using Type*.
  intros Hf. revert acc. induction l as [|x l IH]; intros acc; [apply keeps_ret|].
  simpl. apply keeps_bind; auto.
Qed.

Lemma keeps_zoom {T A} (Rt : relation T) get put (m : M T A) :
  keeps Rt m → (∀ s t, Rt (get s) t → R s (put t s)) → keeps R (zoom get put m).
Proof using Type*. intros Hm Hp s. wp_steps. eapply wp_mono; [apply Hm|]. auto. Qed.
End keeps.

#[export] Hint Resolve keeps_ret keeps_raise keeps_gets keeps_bind keeps_try keeps_finally keeps_foldM : py.

(** ** Attribute assignment

    [r <| f := v |>] is the record [r] with field [f] set to [v].  The setter is
    found by instance search: the field is abstracted out of the eta-expansion
    of the record type, which each record declares as its [Eta] instance. *)
Class Eta (R : Type) := eta : R → R.
Class FieldSet {R T : Type} (proj : R → T) := set_field : T → R → R.
Ltac field_setter proj :=
  lazymatch type of proj with
  | ?R → ?T =>
    let inst := constr:(_ : Eta R) in
    let body := eval hnf in inst in
    lazymatch eval pattern proj in body with
    | ?g proj => let g' := eval cbv beta in (λ (v : T) (r : R), g (λ _ : R, v) r) in exact g'
    end
  end.
#[export] Hint Extern 1 (FieldSet ?proj) => field_setter proj : typeclass_instances.
Notation "r <| f := v |>" := (set_field (proj := f) v r)
  (at level 12, left associativity, f constr at level 100, format "r <| f  :=  v |>") : py_scope.

(** ** Python dictionaries

    A [dict] with string keys, as the list of its items in insertion order:
    assigning to an existing key keeps its position, a new key goes last, and
    iteration follows the list.  (Where only lookups matter the files use
    stdpp's [gmap].) *)
Module Dict.
Section dict.
Context {V : Type}.
Implicit Types (d : list (string * V)) (k : string) (v : V).

Definition keys d : list string := d.*1.
Definition values d : list V := d.*2.

(** [d.get(k)] *)
Fixpoint get k d : option V :=
  match d with
  | [] => None
  | (k', v) :: d => if decide (k = k') then Some v else get k d
  end.

(** [d.get(k, default)] *)
Definition get_default k v d : V := default v (get k d).

(** [d[k] = v] *)
Fixpoint set k v d : list (string * V) :=
  match d with
  | [] => [(k, v)]
  | (k', v') :: d => if decide (k = k') then (k', v) :: d else (k', v') :: set k v d
  end.

(** [d.pop(k, None)], the dictionary that is left *)
Fixpoint pop k d : list (string * V) :=
  match d with
  | [] => []
  | (k', v') :: d => if decide (k = k') then d else (k', v') :: pop k d
  end.

(** Mutating the object stored under [k], when there is one. *)
Definition update k (f : V → V) d : list (string * V) :=
  match get k d with Some v => set k (f v) d | None => d end.

(** Keys of a Python dictionary are unique. *)
Definition wf d : Prop := NoDup (keys d).

Lemma keys_cons k v d : keys ((k, v) :: d) = k :: keys d.
Proof. done. Qed.

Lemma get_set_eq k v d : get k (set k v d) = Some v.
Proof.
  induction d as [|[k' v'] d IH]; simpl; [by rewrite decide_True|].
  case_decide as H; simpl; [by rewrite decide_True | by rewrite decide_False].
Qed.

Lemma get_set_ne k k' v d : k ≠ k' → get k' (set k v d) = get k' d.
Proof.
  intros Hne. induction d as [|[k0 v0] d IH]; simpl;
    repeat (case_decide; simpl); naive_solver.
Qed.

Lemma get_set k k' v d : get k' (set k v d) = if decide (k = k') then Some v else get k' d.
Proof. case_decide; [subst; apply get_set_eq | by apply get_set_ne]. Qed.

Lemma get_update k k' f d :
  get k' (update k f d) = if decide (k = k') then f <$> get k' d else get k' d.
Proof.
  unfold update. case_decide; subst.
  - destruct (get k' d) eqn:E; simpl; [apply get_set_eq | done].
  - destruct (get k d); [by apply get_set_ne | done].
Qed.

Lemma elem_of_keys k d : k ∈ keys d ↔ is_Some (get k d).
Proof.
  induction d as [|[k' v'] d IH]; simpl.
  - split; [by intros ?%elem_of_nil | by intros []].
  - rewrite elem_of_cons, IH. case_decide; [|naive_solver].
    split; [eauto | by left].
Qed.

Lemma get_None k d : get k d = None ↔ k ∉ keys d.
Proof. rewrite elem_of_keys, eq_None_not_Some. done. Qed.

Lemma keys_set k v d : keys (set k v d) = if decide (k ∈ keys d) then keys d else keys d ++ [k].
Proof.
  induction d as [|[k' v'] d IH]; simpl set; rewrite ?keys_cons.
  - by rewrite decide_False by apply not_elem_of_nil.
  - destruct (decide (k = k')) as [->|Hne]; rewrite keys_cons.
    + by rewrite decide_True by left.
    + rewrite IH. destruct (decide (k ∈ keys d)).
      * by rewrite decide_True by (by right).
      * rewrite decide_False; [done | set_solver].
Qed.

Lemma keys_update k f d : keys (update k f d) = keys d.
Proof.
  unfold update. destruct (get k d) eqn:E; [|done].
  rewrite keys_set, decide_True; [done|]. apply elem_of_keys; eauto.
Qed.

Lemma wf_nil : wf [].
Proof. constructor. Qed.

Lemma wf_set k v d : wf d → wf (set k v d).
Proof.
  unfold wf. intros H. rewrite keys_set. case_decide; [done|].
  apply NoDup_app. split_and!; [done | set_solver | apply NoDup_singleton].
Qed.

Lemma wf_update k f d : wf d → wf (update k f d).
Proof. unfold wf. by rewrite keys_update. Qed.

Lemma elem_of_pop_keys k k' d : k' ∈ keys (pop k d) → k' ∈ keys d.
Proof. induction d as [|[k0 v0] d IH]; simpl; [done|]. case_decide; set_solver. Qed.

Lemma wf_pop k d : wf d → wf (pop k d).
Proof.
  unfold wf. induction d as [|[k0 v0] d IH]; simpl; [done|].
  rewrite NoDup_cons. intros [? ?]. case_decide; [done|].
  rewrite keys_cons, NoDup_cons. split; [|auto]. by intros ?%elem_of_pop_keys.
Qed.

Lemma get_pop k k' d : wf d → get k' (pop k d) = if decide (k = k') then None else get k' d.
Proof.
  unfold wf. induction d as [|[k0 v0] d IH]; simpl; [by case_decide|].
  rewrite NoDup_cons. intros [Hk Hd]. destruct (decide (k = k0)) as [->|Hne]; simpl.
  - destruct (decide (k0 = k')) as [->|]; [by apply get_None|].
    by rewrite decide_False by done.
  - rewrite (IH Hd). destruct (decide (k' = k0)) as [->|]; [|done].
    by rewrite decide_False by done.
Qed.

Lemma elem_of_get k v d : wf d → (k, v) ∈ d ↔ get k d = Some v.
Proof.
  unfold wf. induction d as [|[k0 v0] d IH]; simpl.
  - split; [by intros ?%elem_of_nil | done].
  - rewrite NoDup_cons. intros [Hk Hd]. rewrite elem_of_cons, (IH Hd).
    case_decide; subst; split; try naive_solver.
    intros [|Hg]; [naive_solver|]. destruct Hk. apply elem_of_keys; eauto.
Qed.

Lemma elem_of_values v d : wf d → v ∈ values d ↔ ∃ k, get k d = Some v.
Proof.
  intros Hd. unfold values. rewrite list_elem_of_fmap. split.
  - intros [[k v'] [-> H]]. exists k. by apply elem_of_get.
  - intros [k H]. exists (k, v). split; [done|]. by apply elem_of_get.
Qed.

Lemma get_pop_values k d v : wf d → v ∈ values (pop k d) → v ∈ values d.
Proof.
  intros Hd. rewrite !elem_of_values by auto using wf_pop.
  intros [k' H]. rewrite get_pop in H by done. case_decide; [done|eauto].
Qed.
End dict.
#[global] Arguments keys : simpl never.
#[global] Arguments values : simpl never.
End Dict.

(** [dict[str, V]] *)
Abbreviation dict V := (list (string * V)).

Lemma set_fresh {V} k v (d : dict V) : Dict.get k d = None → Dict.set k v d = d ++ [(k, v)].
Proof.
  induction d as [|[k' v'] d IH]; [done|]. simpl. case_decide; [done|]. intros Hk. by rewrite IH.
Qed.

#[export] Hint Resolve Dict.wf_nil Dict.wf_set Dict.wf_update Dict.wf_pop : py.

(** ** Lists: slicing and stable sorting *)

(** [l[:n]]: a negative bound counts from the end. *)
Definition slice_to {A} (n : Z) (l : list A) : list A :=
  if (0 <=? n)%Z then take (Z.to_nat n) l else take (length l - Z.to_nat (- n)) l.

Lemma slice_to_prefix {A} n (l : list A) : slice_to n l `prefix_of` l.
Proof. unfold slice_to. case_match; apply prefix_take. Qed.

Lemma slice_to_sublist {A} n (l : list A) : slice_to n l `sublist_of` l.
Proof. unfold slice_to. case_match; apply sublist_take. Qed.

Lemma slice_to_nonneg {A} (n : Z) (l : list A) :
  (0 ≤ n)%Z → slice_to n l = take (Z.to_nat n) l.
Proof. intros H. unfold slice_to. by rewrite (proj2 (Z.leb_le _ _) H). Qed.

Lemma elem_of_slice_to {A} n (l : list A) x : x ∈ slice_to n l → x ∈ l.
Proof. intros H. eapply elem_of_prefix; [done | apply slice_to_prefix]. Qed.

(** The first element of a list that passes a test. *)
Fixpoint find_by {A} (f : A → bool) (l : list A) : option A :=
  match l with
  | [] => None
  | x :: l => if f x then Some x else find_by f l
  end.

Lemma find_by_Some {A} (f : A → bool) l x : find_by f l = Some x → x ∈ l ∧ f x = true.
Proof.
  induction l as [|y l IH]; simpl; [done|].
  destruct (f y) eqn:E; [intros [= ->]; by split; [left|]|].
  intros [??]%IH. by split; [right|].
Qed.

Lemma filter_nil_iff {A} (P : A → Prop) `{∀ x, Decision (P x)} (l : list A) :
  filter P l = [] ↔ Forall (λ x, ¬ P x) l.
Proof.
  induction l as [|x l IH]; [done|]. rewrite filter_cons, Forall_cons, <- IH.
  case_decide; naive_solver.
Qed.

Lemma filter_all {A} (P : A → Prop) `{∀ x, Decision (P x)} (l : list A) :
  Forall P l → filter P l = l.
Proof. induction 1 as [|x l Hx _ IH]; [done|]. by rewrite filter_cons, decide_True, IH. Qed.

(** [l.sort(key=...)] is stable. [leb] compares the keys of two elements; the
    model is insertion sort, which puts an element before the first one whose
    key is not smaller. *)
Section stable_sort.
Context {A : Type} (leb : A → A → bool).

Fixpoint sort_insert (x : A) (l : list A) : list A :=
  match l with
  | [] => [x]
  | y :: l' => if leb x y then x :: l else y :: sort_insert x l'
  end.

Definition stable_sort (l : list A) : list A := foldr sort_insert [] l.

Lemma sort_insert_perm x l : sort_insert x l ≡ₚ x :: l.
Proof.
  induction l as [|y l IH]; simpl; [done|]. case_match; [done|].
  rewrite IH. apply Permutation_swap.
Qed.

Lemma stable_sort_perm l : stable_sort l ≡ₚ l.
Proof. induction l as [|x l IH]; simpl; [done|]. by rewrite sort_insert_perm, IH. Qed.

Context (leb_total : ∀ x y, leb x y = true ∨ leb y x = true).
Context (leb_trans : ∀ x y z, leb x y = true → leb y z = true → leb x z = true).

Lemma sort_insert_sorted x l :
  StronglySorted leb l → StronglySorted leb (sort_insert x l).
Proof using leb_total leb_trans.
  induction 1 as [|y l Hl IH Hy]; simpl; [by repeat constructor|].
  destruct (leb x y) eqn:E.
  - constructor; [by constructor|]. constructor; [by rewrite E|].
    eapply Forall_impl; [exact Hy|]. simpl. intros z Hz.
    apply Is_true_true. apply Is_true_true in Hz. eauto.
  - constructor; [done|]. rewrite sort_insert_perm. constructor; [|done].
    destruct (leb_total x y); [congruence|]. by apply Is_true_true.
Qed.

Lemma stable_sort_sorted l : StronglySorted leb (stable_sort l).
Proof using leb_total leb_trans.
  induction l; simpl; [constructor|]. by apply sort_insert_sorted.
Qed.

Lemma stable_sort_sorted_by (R : A → A → Prop) l :
  (∀ x y, leb x y = true → R x y) → StronglySorted R (stable_sort l).
Proof using leb_total leb_trans.
  intros HR. induction (stable_sort_sorted l) as [|x l' _ IH Hx]; constructor; [done|].
  eapply Forall_impl; [exact Hx|]. intros y Hy. by apply HR, Is_true_true.
Qed.

(** Stability: among the elements with one fixed key the input order is kept. *)
Lemma sort_insert_filter x l (P : A → bool) :
  (∀ y, P x = true → P y = true → leb x y = true) →
  filter P (sort_insert x l) = filter P (x :: l).
Proof.
  intros HP. induction l as [|y l IH]; simpl; [done|].
  destruct (leb x y) eqn:E; [done|].
  rewrite filter_cons, IH, !filter_cons.
  destruct (decide (P y)) as [Hy|]; destruct (decide (P x)) as [Hx|]; try done.
  apply Is_true_true in Hx, Hy. rewrite HP in E; done.
Qed.

Lemma stable_sort_filter l (P : A → bool) :
  (∀ x y, P x = true → P y = true → leb x y = true) →
  filter P (stable_sort l) = filter P l.
Proof.
  intros HP. induction l as [|x l IH]; simpl; [done|].
  rewrite sort_insert_filter by eauto. by rewrite !filter_cons, IH.
Qed.

(** Sorting a part of the list gives that part of the sorted list. *)
Lemma sort_insert_least x l : Forall (λ y, leb x y = true) l → sort_insert x l = x :: l.
Proof. destruct 1 as [|y l Hy _]; simpl; [done|by rewrite Hy]. Qed.

Lemma filter_sort_insert (P : A → Prop) `{∀ x, Decision (P x)} x l :
  StronglySorted leb l →
  filter P (sort_insert x l) = if decide (P x) then sort_insert x (filter P l) else filter P l.
Proof using leb_trans.
  induction 1 as [|y l Hl IH Hy]; simpl.
  { rewrite filter_cons, filter_nil. by case_decide. }
  destruct (leb x y) eqn:E.
  - rewrite filter_cons. case_decide; [|done]. rewrite sort_insert_least; [done|].
    apply Forall_forall. intros z [_ Hz]%list_elem_of_filter.
    apply elem_of_cons in Hz as [->|Hz]; [done|]. rewrite Forall_forall in Hy.
    eapply leb_trans; [exact E|]. by apply Is_true_true, Hy.
  - rewrite !filter_cons, IH. repeat case_decide; simpl; rewrite ?E; done.
Qed.

Lemma filter_stable_sort (P : A → Prop) `{∀ x, Decision (P x)} l :
  filter P (stable_sort l) = stable_sort (filter P l).
Proof using leb_total leb_trans.
  induction l as [|x l IH]; simpl; [done|].
  rewrite filter_sort_insert by by apply stable_sort_sorted.
  rewrite filter_cons. case_decide; simpl; by rewrite IH.
Qed.
End stable_sort.

(** An element stays before another that it is allowed to precede. *)
Lemma sort_insert_before {A} (leb : A → A → bool) x y l :
  y ∈ l → leb x y = true → [x; y] `sublist_of` sort_insert leb x l.
Proof.
  intros Hy Hxy. induction l as [|z l IH]; [by apply elem_of_nil in Hy|]. simpl. destruct (leb x z) eqn:E.
  - apply sublist_skip, singleton_sublist_l. done.
  - apply elem_of_cons in Hy as [->|Hy]; [congruence|]. by apply sublist_cons, IH.
Qed.

Lemma sort_insert_sublist {A} (leb : A → A → bool) x l : l `sublist_of` sort_insert leb x l.
Proof. induction l as [|y l IH]; simpl; [by repeat constructor|]. by case_match; constructor. Qed.

Lemma stable_sort_before {A} (leb : A → A → bool) x y l :
  [x; y] `sublist_of` l → leb x y = true → [x; y] `sublist_of` stable_sort leb l.
Proof.
  intros Hsub Hxy. induction l as [|z l IH]; [by inversion Hsub|].
  inversion Hsub as [|? ? ? Hy|? ? ? Hl]; subst; simpl.
  - apply sort_insert_before; [|done]. rewrite stable_sort_perm. by apply singleton_sublist_l.
  - etrans; [by apply IH|]. apply sort_insert_sublist.
Qed.

Lemma sublist_pair {A} (l : list A) i k x y :
  l !! i = Some x → l !! k = Some y → i < k → [x; y] `sublist_of` l.
Proof.
  revert i k. induction l as [|z l IH]; intros [|i] [|k] Hi Hk Hlt; simplify_eq/=; try lia.
  - apply sublist_skip, singleton_sublist_l. by eapply list_elem_of_lookup_2.
  - apply sublist_cons. apply (IH i k); [done|done|lia].
Qed.

Lemma filter_sublist_pair {A} (P : A → Prop) `{∀ x, Decision (P x)} x y (l : list A) :
  [x; y] `sublist_of` l → P x → P y → [x; y] `sublist_of` filter P l.
Proof.
  intros Hsub Hx Hy. induction l as [|z l IH]; [by inversion Hsub|]. rewrite filter_cons.
  inversion Hsub as [|? ? ? Hy'|? ? ? Hl]; subst.
  - rewrite decide_True by done. apply sublist_skip, singleton_sublist_l.
    apply list_elem_of_filter. split; [done|]. by apply singleton_sublist_l.
  - case_decide; [apply sublist_cons|]; by apply IH.
Qed.

(** The sorting key is all that counts. *)
Lemma fmap_stable_sort {A C} (leb : A → A → bool) (leb' : C → C → bool) (f : A → C) l :
  (∀ x y, leb' (f x) (f y) = leb x y) → f <$> stable_sort leb l = stable_sort leb' (f <$> l).
Proof.
  intros Hf. induction l as [|x l IH]; [done|].
  change (f <$> sort_insert leb x (stable_sort leb l) = sort_insert leb' (f x) (stable_sort leb' (f <$> l))).
  rewrite <- IH. clear IH. generalize (stable_sort leb l). intros k.
  induction k as [|y k IH]; [done|]. rewrite fmap_cons. cbn [sort_insert]. rewrite Hf.
  destruct (leb x y); [done|]. by rewrite fmap_cons, IH.
Qed.

Lemma fmap_filter {A C} (f : A → C) (P : A → Prop) (Q : C → Prop)
    `{∀ x, Decision (P x)} `{∀ x, Decision (Q x)} (l : list A) :
  (∀ x, x ∈ l → P x ↔ Q (f x)) → f <$> filter P l = filter Q (f <$> l).
Proof.
  induction l as [|x l IH]; intros Hl; [done|]. rewrite fmap_cons, !filter_cons.
  rewrite <- IH by (intros; apply Hl; by right). pose proof (Hl x ltac:(left)).
  repeat case_decide; naive_solver.
Qed.

(** ** Maps *)

Lemma alter_const_insert {V} (m : gmap string V) k v :
  is_Some (m !! k) → alter (λ _, v) k m = <[k := v]> m.
Proof.
  intros [w Hw]. apply map_eq. intros k'.
  rewrite lookup_alter, lookup_insert. case_decide; [subst; by rewrite Hw | done].
Qed.

Lemma alter_const_None {V} (m : gmap string V) k v : m !! k = None → alter (λ _, v) k m = m.
Proof. intros Hk. apply alter_id. intros x. by rewrite Hk. Qed.

(** Counters: [d.get(k, 0)] of a dictionary that is only looked up. *)
Definition count (m : gmap string Z) (k : string) : Z := default 0%Z (m !! k).

Lemma count_insert m k v k' : count (<[k := v]> m) k' = if decide (k = k') then v else count m k'.
Proof. unfold count. rewrite lookup_insert. by case_decide. Qed.
