(* ===== verification/PyValue.v ===== *)
(** * Python values

    The values a job payload is made of ([dict\[str, Any\]]), their [repr], and
    the string operations the library applies to them. A string is its sequence
    of UTF-8 bytes; [lower] and the escapes of [repr] are those of ASCII, other
    bytes are kept. A float is represented by its [repr]. *)

From S2P Require Import Prelude.

Inductive pyval : Type :=
  | PNone
  | PBool (b : bool)
  | PInt (z : Z)
  | PFloat (repr : string)
  | PStr (s : string)
  | PList (l : list pyval)
  | PDict (d : dict pyval).

(** Induction with the hypotheses for the elements of lists and dictionaries. *)
Section pyval_induction.
Context (P : pyval → Prop).
Context (HNone : P PNone) (HBool : ∀ b, P (PBool b)) (HInt : ∀ z, P (PInt z)).
Context (HFloat : ∀ r, P (PFloat r)) (HStr : ∀ s, P (PStr s)).
Context (HList : ∀ l, Forall P l → P (PList l)).
Context (HDict : ∀ d : dict pyval, Forall (λ kv, P kv.2) d → P (PDict d)).

Fixpoint pyval_rect' (v : pyval) : P v :=
  match v with
  | PNone => HNone
  | PBool b => HBool b
  | PInt z => HInt z
  | PFloat r => HFloat r
  | PStr s => HStr s
  | PList l => HList l
      ((fix go (l : list pyval) : Forall P l :=
         match l with
         | [] => Forall_nil_2 _
         | x :: l => Forall_cons_2 _ _ _ (pyval_rect' x) (go l)
         end) l)
  | PDict d => HDict d
      ((fix go (d : dict pyval) : Forall (λ kv, P kv.2) d :=
         match d with
         | [] => Forall_nil_2 _
         | kv :: d => Forall_cons_2 _ _ _ (pyval_rect' kv.2) (go d)
         end) d)
  end.
End pyval_induction.

#[export] Instance pyval_eq_dec : EqDecision pyval.
Proof.
  refine (fix go (v w : pyval) : Decision (v = w) :=
    match v, w with
    | PNone, PNone => left eq_refl
    | PBool a, PBool b => cast_if (decide (a = b))
    | PInt a, PInt b => cast_if (decide (a = b))
    | PFloat a, PFloat b => cast_if (decide (a = b))
    | PStr a, PStr b => cast_if (decide (a = b))
    | PList a, PList b => cast_if (@list_eq_dec _ go a b)
    | PDict a, PDict b => cast_if (@list_eq_dec _ (@prod_eq_dec _ _ _ go) a b)
    | _, _ => right _
    end); clear go; abstract congruence.
Defined.

(** [bool(v)]. A float is falsy when it is a zero. *)
Definition truthy (v : pyval) : bool :=
  match v with
  | PNone => false
  | PBool b => b
  | PInt z => negb (z =? 0)%Z
  | PFloat r => negb (bool_decide (r = "0.0" ∨ r = "-0.0"))
  | PStr s => negb (bool_decide (s = ""))
  | PList l => negb (bool_decide (l = []))
  | PDict d => negb (bool_decide (d = []))
  end.

(** [bool(s)] for a string, and for an optional string ([str | None]). *)
Definition truthy_str (s : string) : bool := negb (bool_decide (s = "")).
Definition truthy_opt_str (s : option string) : bool :=
  match s with Some s => truthy_str s | None => false end.

(** ** [str.lower] and substring tests *)

Definition lower_ascii (c : ascii) : ascii :=
  let n := N_of_ascii c in
  if (N.leb 65 n && N.leb n 90)%bool then ascii_of_N (n + 32) else c.

Fixpoint lower (s : string) : string :=
  match s with
  | EmptyString => EmptyString
  | String c s => String (lower_ascii c) (lower s)
  end.

(** [s.startswith(sub)] *)
Fixpoint starts_with (sub s : string) : bool :=
  match sub, s with
  | EmptyString, _ => true
  | String a sub, String b s => bool_decide (a = b) && starts_with sub s
  | String _ _, EmptyString => false
  end.

(** [sub in s] *)
Fixpoint contains (sub s : string) : bool :=
  starts_with sub s ||
  match s with
  | EmptyString => false
  | String _ s => contains sub s
  end.

Lemma starts_with_spec sub s : starts_with sub s = true ↔ ∃ t, s = sub +:+ t.
Proof.
  revert s. induction sub as [|a sub IH]; intros s; simpl.
  - split; [by exists s | done].
  - destruct s as [|b s]; simpl.
    { split; [done | by intros [? [=]]]. }
    rewrite andb_true_iff, bool_decide_eq_true, IH. split.
    + intros [-> [t ->]]. by exists t.
    + intros [t [= -> ->]]. split; [done | by exists t].
Qed.

Lemma contains_spec sub s : contains sub s = true ↔ ∃ p t, s = p +:+ sub +:+ t.
Proof.
  induction s as [|c s IH]; simpl; rewrite orb_true_iff, starts_with_spec.
  - split.
    + intros [[t Ht]|[=]]. by exists "", t.
    + intros (p & t & H). left. destruct p; [by exists t | done].
  - rewrite IH. split.
    + intros [[t Ht] | (p & t & ->)]; [by exists "", t | by exists (String c p), t].
    + intros ([|a p] & t & H); [left; by exists t | right].
      simpl in H. injection H as -> ->. by exists p, t.
Qed.

(** [any(token in s for token in tokens)] *)
Definition any_in (tokens : list string) (s : string) : bool :=
  existsb (λ token, contains token s) tokens.
#[global] Arguments any_in : simpl never.

(** One of the tokens occurs in the string. *)
Definition mentions (tokens : list string) (s : string) : Prop :=
  ∃ token p t, token ∈ tokens ∧ s = p +:+ token +:+ t.

Lemma any_in_spec tokens s : any_in tokens s = true ↔ mentions tokens s.
Proof.
  unfold any_in, mentions. rewrite existsb_exists.
  setoid_rewrite <- list_elem_of_In. setoid_rewrite contains_spec. naive_solver.
Qed.

#[export] Instance mentions_dec tokens s : Decision (mentions tokens s).
Proof. refine (cast_if (decide (any_in tokens s = true))); by rewrite <- any_in_spec. Defined.

(** ** [repr] and [str] *)

Definition dquote : ascii := ascii_of_N 34.
Definition squote : ascii := ascii_of_N 39.
Definition backslash : ascii := ascii_of_N 92.

Definition hex_digit (n : N) : ascii :=
  if (n <? 10)%N then ascii_of_N (48 + n) else ascii_of_N (87 + n).

Definition repr_char (quote c : ascii) : string :=
  let n := N_of_ascii c in
  if bool_decide (c = backslash) then String backslash (String backslash "")
  else if bool_decide (c = quote) then String backslash (String quote "")
  else if (n =? 9)%N then String backslash "t"
  else if (n =? 10)%N then String backslash "n"
  else if (n =? 13)%N then String backslash "r"
  else if ((n <? 32) || (n =? 127))%N%bool then
    String backslash (String "x" (String (hex_digit (n / 16)) (String (hex_digit (n mod 16)) "")))
  else String c "".

Fixpoint concat_map (f : ascii → string) (s : string) : string :=
  match s with
  | EmptyString => EmptyString
  | String c s => f c +:+ concat_map f s
  end.

(** Single quotes, unless the string has one and no double quote. *)
Definition repr_str (s : string) : string :=
  let quote :=
    if contains (String squote "") s && negb (contains (String dquote "") s)
    then dquote else squote in
  String quote "" +:+ concat_map (repr_char quote) s +:+ String quote "".

Fixpoint join (sep : string) (l : list string) : string :=
  match l with
  | [] => ""
  | [s] => s
  | s :: l => s +:+ sep +:+ join sep l
  end.

Fixpoint py_repr (v : pyval) : string :=
  match v with
  | PNone => "None"
  | PBool b => if b then "True" else "False"
  | PInt z => pretty z
  | PFloat r => r
  | PStr s => repr_str s
  | PList l => "[" +:+ join ", " (map py_repr l) +:+ "]"
  | PDict d => "{" +:+ join ", " (map (λ kv, repr_str kv.1 +:+ ": " +:+ py_repr kv.2) d) +:+ "}"
  end.

Definition py_str (v : pyval) : string :=
  match v with PStr s => s | v => py_repr v end.

Example py_repr_ex :
  py_repr (PDict [("a", PInt (-3)); ("it's", PList [PNone; PStr "x"; PBool true])]) =
  "{'a': -3, " +:+ String dquote "it's" +:+ String dquote ": [None, 'x', True]}".
Proof. vm_compute. reflexivity. Qed.

(** [str(exc)]: a [KeyError] shows the [repr] of its argument. *)
Definition exn_str (x : exn) : string :=
  match x with
  | KeyError m => repr_str m
  | ValueError m | PermissionError m | RuntimeError m | TimeoutError m
  | DependencyCycleError m | UserError _ m => m
  end.

(** ** Datetimes

    [datetime.isoformat] of a UTC datetime given in microseconds since the
    epoch: the proleptic Gregorian calendar counted in eras of 400 years that
    begin on 1 March. *)
Definition civil_from_days (days : Z) : Z * Z * Z :=
  let z := (days + 719468)%Z in
  let era := (z / 146097)%Z in
  let doe := (z mod 146097)%Z in
  let yoe := ((doe - doe / 1460 + doe / 36524 - doe / 146096) / 365)%Z in
  let doy := (doe - (365 * yoe + yoe / 4 - yoe / 100))%Z in
  let mp := ((5 * doy + 2) / 153)%Z in
  let d := (doy - (153 * mp + 2) / 5 + 1)%Z in
  let m := (if mp <? 10 then mp + 3 else mp - 9)%Z in
  ((yoe + era * 400 + (if m <=? 2 then 1 else 0))%Z, m, d).

(** [f"{n:0{width}d}"] for a number that is not negative. *)
Definition pad (width : nat) (n : Z) : string :=
  let s := pretty n in
  String.concat "" (replicate (width - String.length s) "0") +:+ s.

Definition isoformat (t : Z) : string :=
  let secs := (t / 1000000)%Z in
  let us := (t mod 1000000)%Z in
  let '(y, m, d) := civil_from_days (secs / 86400) in
  let s := (secs mod 86400)%Z in
  pad 4 y +:+ "-" +:+ pad 2 m +:+ "-" +:+ pad 2 d +:+ "T" +:+
  pad 2 (s / 3600) +:+ ":" +:+ pad 2 (s / 60 mod 60) +:+ ":" +:+ pad 2 (s mod 60) +:+
  (if (us =? 0)%Z then "" else "." +:+ pad 6 us) +:+ "+00:00".

Example isoformat_ex :
  isoformat 1709210096000789 = "2024-02-29T12:34:56.000789+00:00" ∧
  isoformat (-1000000) = "1969-12-31T23:59:59+00:00".
Proof. split; vm_compute; reflexivity. Qed.
