(* ===== verification/Json.v ===== *)
(** * JSON

    [json.dumps] and [json.loads] of the standard library with their default
    arguments, as the Redis backend, the SQL rows and the callback table use
    them. [dumps] writes ASCII: a Python string is its UTF-8 bytes, so its code
    points are decoded first and written as [\uXXXX], in two halves above
    [U+FFFF]. [loads] is the recursive descent of the decoder; its fuel bounds
    the nesting and is always enough ([value_fuel]). A float literal is kept as
    it is written, which is its [repr] when [dumps] wrote it; what depends on
    the machine (the digit limit of [int], the recursion limit) is left out. *)

From S2P Require Import Prelude PyValue.

Local Open Scope N_scope.

(** ** UTF-8 *)

Definition byte (n : N) : ascii := ascii_of_N n.
Definition code (c : ascii) : N := N_of_ascii c.

(** A Unicode scalar value: no surrogate. *)
Definition scalar (n : N) : Prop := n < 55296 ∨ (57344 ≤ n ∧ n < 1114112).

Definition utf8 (n : N) : string :=
  if n <? 128 then String (byte n) ""
  else if n <? 2048 then String (byte (192 + n / 64)) (String (byte (128 + n mod 64)) "")
  else if n <? 65536 then
    String (byte (224 + n / 4096)) (String (byte (128 + n / 64 mod 64))
      (String (byte (128 + n mod 64)) ""))
  else
    String (byte (240 + n / 262144)) (String (byte (128 + n / 4096 mod 64))
      (String (byte (128 + n / 64 mod 64)) (String (byte (128 + n mod 64)) ""))).

Fixpoint utf8_encode (l : list N) : string :=
  match l with [] => EmptyString | n :: l => utf8 n +:+ utf8_encode l end.

(** The code points of a string. A byte that starts no sequence stands for
    itself; a Python string has none. *)
Fixpoint code_points (s : string) : list N :=
  match s with
  | EmptyString => []
  | String a s1 =>
    let n := code a in
    if n <? 192 then n :: code_points s1
    else match s1 with
    | EmptyString => [n]
    | String b s2 =>
      if n <? 224 then ((n - 192) * 64 + (code b - 128)) :: code_points s2
      else match s2 with
      | EmptyString => n :: code_points s1
      | String c s3 =>
        if n <? 240 then ((n - 224) * 4096 + (code b - 128) * 64 + (code c - 128)) :: code_points s3
        else match s3 with
        | EmptyString => n :: code_points s1
        | String d s4 =>
          ((n - 240) * 262144 + (code b - 128) * 4096 + (code c - 128) * 64 + (code d - 128))
            :: code_points s4
        end
      end
    end
  end.

Definition python_str (s : string) : Prop := ∃ l, Forall scalar l ∧ s = utf8_encode l.

Lemma app_cons c s t : String c s +:+ t = String c (s +:+ t).
Proof. done. Qed.
Lemma app_nil t : "" +:+ t = t.
Proof. done. Qed.
Lemma app_assoc_str s t u : (s +:+ t) +:+ u = s +:+ t +:+ u.
Proof. induction s as [|c s IH]; [done|]. by rewrite !app_cons, IH. Qed.
Lemma app_nil_end s : s +:+ "" = s.
Proof. induction s as [|c s IH]; [done|]. by rewrite app_cons, IH. Qed.

Lemma code_byte n : n < 256 → code (byte n) = n.
Proof. apply N_ascii_embedding. Qed.

(** ASCII text is Python text. *)
Fixpoint ascii_text (s : string) : bool :=
  match s with EmptyString => true | String c s => (code c <? 128) && ascii_text s end.

Lemma python_str_ascii s : ascii_text s = true → python_str s.
Proof.
  induction s as [|c s IH]; [by exists []|]. cbn [ascii_text]. intros [Hc%N.ltb_lt Hs]%andb_true_iff.
  destruct (IH Hs) as (l & Hl & ->). exists (code c :: l). split; [constructor; [left; lia|done]|].
  cbn [utf8_encode]. unfold utf8. rewrite (proj2 (N.ltb_lt _ _) Hc). rewrite app_cons, app_nil.
  f_equal. symmetry. apply ascii_N_embedding.
Qed.

Lemma code_points_utf8 n s : scalar n → code_points (utf8 n +:+ s) = n :: code_points s.
Proof.
  intros Hn. assert (Hb : n < 1114112) by (unfold scalar in Hn; lia). unfold utf8.
  destruct (N.ltb_spec n 128); [|destruct (N.ltb_spec n 2048); [|destruct (N.ltb_spec n 65536)]];
    rewrite !app_cons, app_nil; cbn [code_points];
    rewrite !code_byte by (zify; Z.to_euclidean_division_equations; lia);
    repeat match goal with |- context [?a <? ?b] =>
      destruct (N.ltb_spec a b); try (zify; Z.to_euclidean_division_equations; lia) end;
    try reflexivity; f_equal; zify; Z.to_euclidean_division_equations; lia.
Qed.

Lemma code_points_encode l : Forall scalar l → code_points (utf8_encode l) = l.
Proof.
  induction 1 as [|n l Hn _ IH]; [done|]. cbn [utf8_encode]. rewrite code_points_utf8 by done.
  by rewrite IH.
Qed.

(** ** Writing strings *)

Definition hex4 (n : N) : string :=
  String (hex_digit (n / 4096)) (String (hex_digit (n / 256 mod 16))
    (String (hex_digit (n / 16 mod 16)) (String (hex_digit (n mod 16)) ""))).

Definition unicode_escape (n : N) : string := String backslash (String "u" (hex4 n)).

(** [ESCAPE_ASCII] and [py_encode_basestring_ascii] *)
Definition escape (n : N) : string :=
  if n =? 34 then String backslash (String dquote "")
  else if n =? 92 then String backslash (String backslash "")
  else if n =? 10 then String backslash "n"
  else if n =? 13 then String backslash "r"
  else if n =? 9 then String backslash "t"
  else if n =? 12 then String backslash "f"
  else if n =? 8 then String backslash "b"
  else if (32 <=? n) && (n <=? 126) then String (byte n) ""
  else if n <? 65536 then unicode_escape n
  else unicode_escape (55296 + (n - 65536) / 1024) +:+ unicode_escape (56320 + (n - 65536) mod 1024).

Fixpoint escape_all (l : list N) : string :=
  match l with [] => EmptyString | n :: l => escape n +:+ escape_all l end.

Definition dumps_str (s : string) : string :=
  String dquote (escape_all (code_points s) +:+ String dquote "").

(** ** Reading strings

    What a string literal is made of: bytes that stand for themselves, and the
    16-bit units of [\u] escapes, two of which may make one code point. *)
Inductive piece : Type := Raw (c : ascii) | Unit (n : N).

Definition hex_value (c : ascii) : option N :=
  let n := code c in
  if (48 <=? n) && (n <=? 57) then Some (n - 48)
  else if (97 <=? n) && (n <=? 102) then Some (n - 87)
  else if (65 <=? n) && (n <=? 70) then Some (n - 55)
  else None.

Definition hex4_value (a b c d : ascii) : option N :=
  match hex_value a, hex_value b, hex_value c, hex_value d with
  | Some a, Some b, Some c, Some d => Some (a * 4096 + b * 256 + c * 16 + d)
  | _, _, _, _ => None
  end.

(** The character a one-letter escape stands for. *)
Definition unescape (c : ascii) : option ascii :=
  let n := code c in
  if (n =? 34) || (n =? 92) || (n =? 47) then Some c
  else if n =? 98 then Some (byte 8)
  else if n =? 102 then Some (byte 12)
  else if n =? 110 then Some (byte 10)
  else if n =? 114 then Some (byte 13)
  else if n =? 116 then Some (byte 9)
  else None.

(** The pieces up to the closing quote, and what follows it. A control
    character in a literal is an error. *)
Fixpoint pieces (s : string) : option (list piece * string) :=
  match s with
  | EmptyString => None
  | String c s1 =>
    if code c =? 34 then Some ([], s1)
    else if code c =? 92 then
      match s1 with
      | EmptyString => None
      | String e s2 =>
        if code e =? 117 then
          match s2 with
          | String h1 (String h2 (String h3 (String h4 s3))) =>
            match hex4_value h1 h2 h3 h4 with
            | Some n => prod_map (cons (Unit n)) id <$> pieces s3
            | None => None
            end
          | _ => None
          end
        else match unescape e with
             | Some c => prod_map (cons (Raw c)) id <$> pieces s2
             | None => None
             end
      end
    else if code c <? 32 then None
    else prod_map (cons (Raw c)) id <$> pieces s1
  end.

Definition high_half (n : N) : bool := (55296 <=? n) && (n <=? 56319).
Definition low_half (n : N) : bool := (56320 <=? n) && (n <=? 57343).

Fixpoint assemble (l : list piece) : string :=
  match l with
  | [] => EmptyString
  | Raw c :: l => String c (assemble l)
  | Unit n :: l1 =>
    match l1 with
    | Unit m :: l2 =>
      if high_half n && low_half m
      then utf8 (65536 + (n - 55296) * 1024 + (m - 56320)) +:+ assemble l2
      else utf8 n +:+ assemble l1
    | _ => utf8 n +:+ assemble l1
    end
  end.

(** The rest of a string literal, after its opening quote. *)
Definition loads_str (s : string) : option (string * string) := prod_map assemble id <$> pieces s.

(** *** Round trip of strings *)

Lemma hex_value_digit d : d < 16 → hex_value (hex_digit d) = Some d.
Proof.
  intros Hd.
  assert (Hall : Forall (λ d, hex_value (hex_digit d) = Some d) (N.of_nat <$> seq 0 16))
    by (apply (bool_decide_unpack _); by vm_compute).
  rewrite Forall_forall in Hall. apply Hall, list_elem_of_fmap.
  exists (N.to_nat d). rewrite elem_of_seq. lia.
Qed.

Lemma hex4_value_digits n : n < 65536 →
  hex4_value (hex_digit (n / 4096)) (hex_digit (n / 256 mod 16)) (hex_digit (n / 16 mod 16))
    (hex_digit (n mod 16)) = Some n.
Proof.
  intros Hn. unfold hex4_value.
  rewrite !hex_value_digit by (zify; Z.to_euclidean_division_equations; lia).
  f_equal. zify; Z.to_euclidean_division_equations; lia.
Qed.

(** The pieces [escape n] is read as. *)
Definition written (n : N) : list piece :=
  if (n =? 34) || (n =? 92) || (n =? 10) || (n =? 13) || (n =? 9) || (n =? 12) || (n =? 8)
     || (32 <=? n) && (n <=? 126) then [Raw (byte n)]
  else if n <? 65536 then [Unit n]
  else [Unit (55296 + (n - 65536) / 1024); Unit (56320 + (n - 65536) mod 1024)].

Lemma pieces_unicode n s : n < 65536 →
  pieces (unicode_escape n +:+ s) = prod_map (cons (Unit n)) id <$> pieces s.
Proof.
  intros Hn. unfold unicode_escape, hex4. rewrite !app_cons, app_nil.
  cbn [pieces]. by rewrite hex4_value_digits.
Qed.

Lemma pieces_raw c s : 32 ≤ code c → code c ≠ 34 → code c ≠ 92 →
  pieces (String c s) = prod_map (cons (Raw c)) id <$> pieces s.
Proof.
  intros H1 H2 H3. cbn [pieces].
  rewrite (proj2 (N.eqb_neq _ _) H2), (proj2 (N.eqb_neq _ _) H3).
  by rewrite (proj2 (N.ltb_ge _ _) H1).
Qed.

Lemma prod_map_twice {A B} (f g : A → A) (o : option (A * B)) :
  prod_map f id <$> (prod_map g id <$> o) = prod_map (f ∘ g) id <$> o.
Proof. by destruct o as [[]|]. Qed.

Lemma pieces_escape n s : scalar n →
  pieces (escape n +:+ s) = prod_map (app (written n)) id <$> pieces s.
Proof.
  intros Hn. unfold escape, written.
  repeat match goal with |- context [n =? ?k] =>
    destruct (N.eqb_spec n k) as [->|]; [cbn [N.eqb Pos.eqb]; cbn iota; by rewrite !app_cons, app_nil|] end.
  cbn [orb]. destruct ((32 <=? n) && (n <=? 126)) eqn:E; cbn iota.
  - rewrite app_cons, app_nil. apply andb_true_iff in E as [?%N.leb_le ?%N.leb_le].
    rewrite pieces_raw; rewrite ?code_byte by lia; try lia. done.
  - destruct (N.ltb_spec n 65536); cbn iota; [by rewrite pieces_unicode|].
    rewrite app_assoc_str, !pieces_unicode, prod_map_twice; [done|..];
      unfold scalar in Hn; zify; Z.to_euclidean_division_equations; lia.
Qed.

Lemma pieces_escape_all l s : Forall scalar l →
  pieces (escape_all l +:+ s) = prod_map (app (l ≫= written)) id <$> pieces s.
Proof.
  induction 1 as [|n l Hn _ IH]; cbn [escape_all mbind list_bind].
  - rewrite app_nil. by destruct (pieces s) as [[]|].
  - rewrite app_assoc_str, pieces_escape, IH, prod_map_twice by done.
    destruct (pieces s) as [[p r]|]; [|done]. cbn. by rewrite app_assoc.
Qed.

(** A piece that is no high half does not join with the next. *)
Lemma assemble_unit n l : high_half n = false → assemble (Unit n :: l) = utf8 n +:+ assemble l.
Proof. intros Hn. destruct l as [|[]]; cbn [assemble]; rewrite ?Hn; done. Qed.

Lemma assemble_written n l : scalar n → assemble (written n ++ l) = utf8 n +:+ assemble l.
Proof.
  intros Hn. unfold written. destruct (_ || _) eqn:E.
  - assert (Hlt : n < 128).
    { rewrite !orb_true_iff, andb_true_iff, !N.eqb_eq, !N.leb_le in E. lia. }
    cbn. unfold utf8. by rewrite (proj2 (N.ltb_lt _ _) Hlt).
  - destruct (N.ltb_spec n 65536) as [Hlt|Hge]; cbn [app].
    + apply assemble_unit. unfold high_half, scalar in *.
      apply andb_false_iff. rewrite !N.leb_gt. lia.
    + assert (Hmod : (n - 65536) mod 1024 < 1024) by (apply N.mod_lt; lia).
      assert (Hdiv : (n - 65536) / 1024 < 1024)
        by (unfold scalar in Hn; apply N.Div0.div_lt_upper_bound; lia).
      pose proof (N.div_mod' (n - 65536) 1024) as Hdm. revert Hdm Hmod Hdiv.
      generalize ((n - 65536) / 1024), ((n - 65536) mod 1024). intros h w Hdm Hmod Hdiv.
      cbn [assemble]. unfold high_half at 1, low_half at 1.
      rewrite !(proj2 (N.leb_le _ _)) by lia. cbn [andb]. do 2 f_equal. lia.
Qed.

Lemma assemble_all l : Forall scalar l → assemble (l ≫= written) = utf8_encode l.
Proof.
  induction 1 as [|n l Hn _ IH]; [done|]. cbn [mbind list_bind utf8_encode].
  by rewrite assemble_written, IH.
Qed.

Lemma loads_dumps_str s rest : python_str s →
  dumps_str s +:+ rest = String dquote (escape_all (code_points s) +:+ String dquote rest) ∧
  loads_str (escape_all (code_points s) +:+ String dquote rest) = Some (s, rest).
Proof.
  intros (l & Hl & ->). unfold dumps_str, loads_str. rewrite code_points_encode by done. split.
  - by rewrite app_cons, app_assoc_str, app_cons, app_nil.
  - rewrite pieces_escape_all by done.
    assert (pieces (String dquote rest) = Some ([], rest)) as -> by done.
    cbn [fmap option_fmap option_map prod_map fst snd]. by rewrite app_nil_r, assemble_all.
Qed.

(** ** Numbers *)

Definition is_digit (c : ascii) : bool := (48 <=? code c) && (code c <=? 57).

Fixpoint take_digits (s : string) : string * string :=
  match s with
  | EmptyString => (EmptyString, EmptyString)
  | String c s1 =>
    if is_digit c then let '(d, r) := take_digits s1 in (String c d, r) else (EmptyString, s)
  end.

Fixpoint digits_value (acc : N) (s : string) : N :=
  match s with EmptyString => acc | String c s => digits_value (acc * 10 + (code c - 48)) s end.

(** [(\.\d+)?] *)
Definition fraction (s : string) : string * string :=
  match s with
  | String c s1 =>
    if code c =? 46 then
      let '(d, r) := take_digits s1 in
      if bool_decide (d = EmptyString) then (EmptyString, s) else (String c d, r)
    else (EmptyString, s)
  | EmptyString => (EmptyString, EmptyString)
  end.

(** [(\[eE\]\[-+\]?\d+)?] *)
Definition exponent (s : string) : string * string :=
  match s with
  | String c s1 =>
    if (code c =? 101) || (code c =? 69) then
      let '(sign, s2) := match s1 with
        | String g s2 => if (code g =? 43) || (code g =? 45) then (String g "", s2) else (EmptyString, s1)
        | EmptyString => (EmptyString, s1)
        end in
      let '(d, r) := take_digits s2 in
      if bool_decide (d = EmptyString) then (EmptyString, s) else (String c (sign +:+ d), r)
    else (EmptyString, s)
  | EmptyString => (EmptyString, EmptyString)
  end.

(** [0|\[1-9\]\d*] *)
Definition integer (s : string) : option (string * string) :=
  match s with
  | String c s1 =>
    if code c =? 48 then Some (String c "", s1)
    else if is_digit c then Some (take_digits s) else None
  | EmptyString => None
  end.

(** [NUMBER_RE], after the sign. *)
Definition unsigned (neg : bool) (s : string) : option (pyval * string) :=
  '(i, r1) ← integer s;
  let '(f, r2) := fraction r1 in
  let '(e, r3) := exponent r2 in
  let sign := if neg then "-" else "" in
  Some (if bool_decide (f = EmptyString ∧ e = EmptyString)
        then PInt (if neg then - Z.of_N (digits_value 0 i) else Z.of_N (digits_value 0 i))
        else PFloat (sign +:+ i +:+ f +:+ e), r3).

(** The text after the prefix [p], when [s] starts with it. *)
Fixpoint strip (p s : string) : option string :=
  match p, s with
  | EmptyString, _ => Some s
  | String a p, String b s => if bool_decide (a = b) then strip p s else None
  | String _ _, EmptyString => None
  end.

Definition number (s : string) : option (pyval * string) :=
  match strip "-" s with
  | Some s1 =>
    match strip "Infinity" s1 with
    | Some r => Some (PFloat "-inf", r)
    | None => unsigned true s1
    end
  | None => unsigned false s
  end.

(** *** Round trip of numbers *)

(** The text does not go on with a number. *)
Definition number_stops (s : string) : Prop :=
  match s with
  | EmptyString => True
  | String c _ => is_digit c = false ∧ code c ≠ 46 ∧ code c ≠ 101 ∧ code c ≠ 69 ∧
                  code c ≠ 43 ∧ code c ≠ 45
  end.

Fixpoint all_digits (s : string) : bool :=
  match s with EmptyString => true | String c s => is_digit c && all_digits s end.

Lemma take_digits_app d s : all_digits d = true → number_stops s → take_digits (d +:+ s) = (d, s).
Proof.
  intros Hd Hs. induction d as [|c d IH].
  - rewrite app_nil. destruct s as [|c s]; [done|]. destruct Hs as [Hs _]. cbn [take_digits]. by rewrite Hs.
  - cbn [all_digits] in Hd. apply andb_true_iff in Hd as [Hc Hd].
    rewrite app_cons. cbn [take_digits]. by rewrite Hc, IH.
Qed.

Lemma pretty_char_digit d : d < 10 → is_digit (pretty_N_char d) = true ∧ code (pretty_N_char d) = 48 + d.
Proof.
  intros Hd.
  assert (Hall : Forall (λ d, is_digit (pretty_N_char d) = true ∧ code (pretty_N_char d) = 48 + d)
    (N.of_nat <$> seq 0 10)) by (apply (bool_decide_unpack _); by vm_compute).
  rewrite Forall_forall in Hall. apply Hall, list_elem_of_fmap.
  exists (N.to_nat d). rewrite elem_of_seq. lia.
Qed.

(** The digits [pretty] writes, before those of [s]. *)
Lemma pretty_digits x s :
  (all_digits s = true → all_digits (pretty_N_go x s) = true) ∧
  (digits_value 0 (pretty_N_go x s) = digits_value x s) ∧
  (0 < x → ∃ c t, pretty_N_go x s = String c t ∧ is_digit c = true ∧ code c ≠ 48).
Proof.
  revert s. induction (N.lt_wf_0 x) as [x _ IH]. intros s.
  destruct (N.eq_dec x 0) as [->|Hx]; [done|].
  pose proof (N.div_mod' x 10) as Hdm.
  assert (Hlt : x / 10 < x) by (apply N.div_lt; lia).
  assert (Hmod : x mod 10 < 10) by (apply N.mod_lt; lia).
  rewrite pretty_N_go_step by lia. destruct (pretty_char_digit _ Hmod) as [Hc Hv].
  destruct (IH _ Hlt (String (pretty_N_char (x mod 10)) s)) as (H1 & H2 & H3).
  clear IH. revert Hdm Hlt Hmod Hc Hv H1 H2 H3. generalize (x / 10), (x mod 10).
  intros q r Hdm Hlt Hmod Hc Hv H1 H2 H3. split_and!.
  - intros Hs. apply H1. cbn [all_digits]. by rewrite Hc.
  - rewrite H2. cbn [digits_value]. rewrite Hv. f_equal. lia.
  - intros _. destruct (N.eq_dec q 0) as [->|E]; [|by apply H3; lia].
    eexists _, _. split; [done|]. split; [done|]. lia.
Qed.

(** The scanners do not look past a text at which a number stops. *)
Lemma take_digits_stop r s : number_stops s →
  take_digits (r +:+ s) = prod_map id (λ t, t +:+ s) (take_digits r).
Proof.
  intros Hs. induction r as [|c r IH].
  - rewrite app_nil. destruct s as [|c s]; [done|]. destruct Hs as [Hs _]. cbn [take_digits]. by rewrite Hs.
  - rewrite app_cons. cbn [take_digits]. destruct (is_digit c); [|done].
    rewrite IH. by destruct (take_digits r).
Qed.

Lemma fraction_stop r s : number_stops s →
  fraction (r +:+ s) = prod_map id (λ t, t +:+ s) (fraction r).
Proof.
  intros Hs. destruct r as [|c r].
  - rewrite app_nil. destruct s as [|c s]; [done|]. destruct Hs as (_ & Hs & _). cbn [fraction].
    by rewrite (proj2 (N.eqb_neq _ _) Hs).
  - rewrite app_cons. cbn [fraction]. destruct (code c =? 46); [|done].
    rewrite take_digits_stop by done. destruct (take_digits r) as [d t]. cbn [prod_map fst snd id].
    by case_bool_decide.
Qed.

Lemma exponent_stop r s : number_stops s →
  exponent (r +:+ s) = prod_map id (λ t, t +:+ s) (exponent r).
Proof.
  intros Hs. destruct r as [|c r].
  - rewrite app_nil. destruct s as [|c s]; [done|]. destruct Hs as (_ & _ & H1 & H2 & _). cbn [exponent].
    by rewrite (proj2 (N.eqb_neq _ _) H1), (proj2 (N.eqb_neq _ _) H2).
  - rewrite app_cons. cbn [exponent]. destruct ((code c =? 101) || (code c =? 69)); [|done].
    assert (Hd : ∀ u, take_digits (u +:+ s) = prod_map id (λ t, t +:+ s) (take_digits u))
      by (intros u; by apply take_digits_stop).
    destruct r as [|g r].
    + rewrite app_nil. pose proof (Hd EmptyString) as Hd0. rewrite app_nil in Hd0.
      destruct s as [|g s]; [done|]. destruct Hs as (_ & _ & _ & _ & H3 & H4).
      rewrite (proj2 (N.eqb_neq _ _) H3), (proj2 (N.eqb_neq _ _) H4). cbn [orb]. by rewrite Hd0.
    + rewrite app_cons. destruct ((code g =? 43) || (code g =? 45)).
      * rewrite Hd. destruct (take_digits r) as [d t]. cbn [prod_map fst snd id]. by case_bool_decide.
      * rewrite <- app_cons, Hd. destruct (take_digits (String g r)) as [d t].
        cbn [prod_map fst snd id]. by case_bool_decide.
Qed.

Lemma integer_stop r s i t : number_stops s →
  integer r = Some (i, t) → integer (r +:+ s) = Some (i, t +:+ s) ∧ ∃ c u, r = String c u ∧ is_digit c = true.
Proof.
  intros Hs. destruct r as [|c r]; [done|]. rewrite app_cons. cbn [integer].
  destruct (N.eqb_spec (code c) 48) as [E|_].
  - intros [= <- <-]. split; [done|]. exists c, r. split; [done|]. unfold is_digit. by rewrite E.
  - destruct (is_digit c) eqn:E; [|done]. intros Ht%(inj Some). split; [|by exists c, r].
    by rewrite <- app_cons, take_digits_stop, Ht.
Qed.

Lemma unsigned_stop neg r s v t : number_stops s →
  unsigned neg r = Some (v, t) →
  unsigned neg (r +:+ s) = Some (v, t +:+ s) ∧ ∃ c u, r = String c u ∧ is_digit c = true.
Proof.
  intros Hs. unfold unsigned. destruct (integer r) as [[i r1]|] eqn:Ei; [|done].
  destruct (integer_stop _ _ _ _ Hs Ei) as [-> ?]. cbn [mbind option_bind].
  rewrite fraction_stop by done. destruct (fraction r1) as [f r2]. cbn [prod_map fst snd id].
  rewrite exponent_stop by done. destruct (exponent r2) as [e r3]. cbn [prod_map fst snd id].
  by intros [= <- <-].
Qed.

Lemma strip_spec p s t : strip p s = Some t ↔ s = p +:+ t.
Proof.
  revert s. induction p as [|a p IH]; intros s; [cbn; rewrite app_nil; naive_solver|].
  rewrite app_cons. destruct s as [|b s]; cbn [strip]; [done|].
  case_bool_decide; subst; [rewrite IH|]; naive_solver.
Qed.

Lemma strip_head a p b s : a ≠ b → strip (String a p) (String b s) = None.
Proof. intros H. cbn [strip]. by rewrite bool_decide_eq_false_2. Qed.

Lemma digit_head c : is_digit c = true → 48 ≤ code c ≤ 57.
Proof. unfold is_digit. rewrite andb_true_iff, !N.leb_le. done. Qed.

Lemma number_stop r s v : number_stops s →
  number r = Some (v, EmptyString) → number (r +:+ s) = Some (v, s).
Proof.
  intros Hs. unfold number. destruct (strip "-" r) as [r1|] eqn:E.
  - apply strip_spec in E as ->. rewrite app_cons, app_nil.
    assert (strip "-" (String "-" r1 +:+ s) = Some (r1 +:+ s)) as -> by done.
    destruct (strip "Infinity" r1) as [u|] eqn:Ei.
    + apply strip_spec in Ei as ->. intros [= <- ->]. rewrite app_nil_end.
      by rewrite (proj2 (strip_spec _ _ s)).
    + intros Hu. destruct (unsigned_stop _ _ s _ _ Hs Hu) as (Hu' & c & u & -> & Hc).
      apply digit_head in Hc. rewrite app_cons, strip_head; [by rewrite <- app_cons|].
      intros <-. change (code "I") with 73 in Hc. lia.
  - intros Hu. destruct (unsigned_stop _ _ s _ _ Hs Hu) as (Hu' & c & u & -> & Hc).
    apply digit_head in Hc. rewrite app_cons, strip_head; [by rewrite <- app_cons|].
    intros <-. change (code "-") with 45 in Hc. lia.
Qed.

Lemma unsigned_pretty neg n s : number_stops s →
  unsigned neg (pretty n +:+ s) = Some (PInt (if neg then - Z.of_N n else Z.of_N n), s).
Proof.
  intros Hs.
  assert (Hi : integer (pretty n +:+ s) = Some (pretty n, s) ∧ digits_value 0 (pretty n) = n).
  { unfold pretty, pretty_N. case_decide as E; [by subst|].
    destruct (pretty_digits n "") as (Hd & Hv & Hc). split; [|done].
    destruct Hc as (c & t & Ht & Hc & H48); [lia|]. specialize (Hd eq_refl). rewrite Ht in *.
    rewrite app_cons. cbn [integer]. rewrite (proj2 (N.eqb_neq _ _) H48), Hc.
    by rewrite <- app_cons, take_digits_app. }
  destruct Hi as [Hi Hv]. unfold unsigned. rewrite Hi. cbn [mbind option_bind].
  pose proof (fraction_stop EmptyString s Hs) as Hf. rewrite app_nil in Hf. rewrite Hf.
  cbn [prod_map fst snd id fraction]. rewrite app_nil.
  pose proof (exponent_stop EmptyString s Hs) as He. rewrite app_nil in He. rewrite He.
  cbn [prod_map fst snd id exponent]. by rewrite app_nil, Hv.
Qed.

Lemma number_pretty (z : Z) s : number_stops s → number (pretty z +:+ s) = Some (PInt z, s).
Proof.
  intros Hs. assert (Hpos : ∀ n : N, number (pretty n +:+ s) = Some (PInt (Z.of_N n), s)).
  { intros n. pose proof (unsigned_pretty false n s Hs) as Hu. unfold number.
    destruct (strip "-" (pretty n +:+ s)) as [u|] eqn:E; [|done]. exfalso.
    apply strip_spec in E. unfold unsigned in Hu. by rewrite E in Hu. }
  destruct z as [|p|p].
  - apply (Hpos 0).
  - apply (Hpos (Npos p)).
  - change (pretty (Zneg p)) with (String "-" (pretty (Npos p))). rewrite app_cons. unfold number.
    assert (strip "-" (String "-" (pretty (Npos p) +:+ s)) = Some (pretty (Npos p) +:+ s)) as -> by done.
    pose proof (unsigned_pretty true (Npos p) s Hs) as Hu.
    destruct (strip "Infinity" (pretty (Npos p) +:+ s)) as [u|] eqn:E; [|done].
    apply strip_spec in E. unfold unsigned in Hu. by rewrite E in Hu.
Qed.

(** ** Values *)

Definition dumps_float (r : string) : string :=
  if bool_decide (r = "nan") then "NaN"
  else if bool_decide (r = "inf") then "Infinity"
  else if bool_decide (r = "-inf") then "-Infinity"
  else r.

(** [json.dumps(v)] *)
Fixpoint dumps (v : pyval) : string :=
  match v with
  | PNone => "null"
  | PBool b => if b then "true" else "false"
  | PInt z => pretty z
  | PFloat r => dumps_float r
  | PStr s => dumps_str s
  | PList l => "[" +:+ join ", " (map dumps l) +:+ "]"
  | PDict d => "{" +:+ join ", " (map (λ kv, dumps_str kv.1 +:+ ": " +:+ dumps kv.2) d) +:+ "}"
  end.

(** Space, tab, newline and carriage return. *)
Fixpoint skip_space (s : string) : string :=
  match s with
  | String c s1 =>
    let n := code c in
    if (n =? 32) || (n =? 9) || (n =? 10) || (n =? 13) then skip_space s1 else s
  | EmptyString => EmptyString
  end.

(** The constants of [scan_once]. *)
Definition constants : list (string * pyval) :=
  [("null", PNone); ("true", PBool true); ("false", PBool false); ("NaN", PFloat "nan");
   ("Infinity", PFloat "inf")].

Fixpoint constant (l : list (string * pyval)) (s : string) : option (pyval * string) :=
  match l with
  | [] => None
  | (p, v) :: l => match strip p s with Some r => Some (v, r) | None => constant l s end
  end.

(** A value that is no list and no dictionary. *)
Definition scan_atom (s : string) : option (pyval * string) :=
  match constant constants s with Some r => Some r | None => number s end.

(** [scan_once], and the loops of [JSONArray] and [JSONObject] after the first
    bracket or comma. [dict(pairs)] keeps the last value of a repeated key. *)
Fixpoint value_at (fuel : nat) (s : string) : option (pyval * string) :=
  match fuel with
  | O => None
  | S fuel =>
    match s with
    | EmptyString => None
    | String c s1 =>
      if code c =? 34 then prod_map PStr id <$> loads_str s1
      else if code c =? 91 then
        match skip_space s1 with
        | String c' s2 as s1' =>
          if code c' =? 93 then Some (PList [], s2) else prod_map PList id <$> items_at fuel s1'
        | EmptyString => None
        end
      else if code c =? 123 then
        match skip_space s1 with
        | String c' s2 as s1' =>
          if code c' =? 125 then Some (PDict [], s2)
          else prod_map (λ kvs, PDict (foldl (λ d kv, Dict.set kv.1 kv.2 d) [] kvs)) id <$> members_at fuel s1'
        | EmptyString => None
        end
      else scan_atom s
    end
  end
with items_at (fuel : nat) (s : string) : option (list pyval * string) :=
  match fuel with
  | O => None
  | S fuel =>
    '(v, s1) ← value_at fuel s;
    match skip_space s1 with
    | String c s2 =>
      if code c =? 93 then Some ([v], s2)
      else if code c =? 44 then prod_map (cons v) id <$> items_at fuel (skip_space s2)
      else None
    | EmptyString => None
    end
  end
with members_at (fuel : nat) (s : string) : option (list (string * pyval) * string) :=
  match fuel with
  | O => None
  | S fuel =>
    match s with
    | EmptyString => None
    | String c s1 =>
      if negb (code c =? 34) then None
      else
        '(k, s2) ← loads_str s1;
        match skip_space s2 with
        | EmptyString => None
        | String c s3 =>
          if negb (code c =? 58) then None
          else
            '(v, s4) ← value_at fuel (skip_space s3);
            match skip_space s4 with
            | EmptyString => None
            | String c s5 =>
              if code c =? 125 then Some ([(k, v)], s5)
              else if code c =? 44 then prod_map (cons (k, v)) id <$> members_at fuel (skip_space s5)
              else None
            end
        end
    end
  end.

(** [json.loads(s)]: [None] is [JSONDecodeError]. *)
Definition loads (s : string) : option pyval :=
  '(v, r) ← value_at (S (2 * String.length s)) (skip_space s);
  match skip_space r with EmptyString => Some v | _ => None end.

Example loads_ex :
  loads (dumps (PDict [("a", PList [PInt (-3); PFloat "1e-07"; PBool true]); ("b", PDict []);
                       ("c", PStr (String dquote (utf8_encode [233; 128512])))])) =
  Some (PDict [("a", PList [PInt (-3); PFloat "1e-07"; PBool true]); ("b", PDict []);
               ("c", PStr (String dquote (utf8_encode [233; 128512])))]) ∧
  dumps (PStr (utf8_encode [128512])) = String dquote ("\ud83d\ude00" +:+ String dquote "") ∧
  loads "[1,]" = None ∧ loads "[1] x" = None ∧ loads "-01" = None.
Proof. repeat split; vm_compute; reflexivity. Qed.

(** *** Round trip of values *)

(** The values [dumps] writes and [loads] gives back: strings are Python strings,
    float texts are [repr]s, keys are unique. *)
Inductive json_ok : pyval → Prop :=
  | ok_none : json_ok PNone
  | ok_bool b : json_ok (PBool b)
  | ok_int z : json_ok (PInt z)
  | ok_special r : r ∈ ["nan"; "inf"; "-inf"] → json_ok (PFloat r)
  | ok_float r : number r = Some (PFloat r, EmptyString) → json_ok (PFloat r)
  | ok_str s : python_str s → json_ok (PStr s)
  | ok_list l : Forall json_ok l → json_ok (PList l)
  | ok_dict d : Dict.wf d → Forall (λ kv, python_str kv.1) d →
      Forall (λ kv, json_ok kv.2) d → json_ok (PDict d).

Lemma json_ok_list l : json_ok (PList l) → Forall json_ok l.
Proof. by inversion 1. Qed.

Lemma json_ok_dict d : json_ok (PDict d) →
  Dict.wf d ∧ Forall (λ kv, python_str kv.1) d ∧ Forall (λ kv, json_ok kv.2) d.
Proof. by inversion 1. Qed.

(** A field set. *)
Lemma json_ok_set d k v : json_ok (PDict d) → python_str k → json_ok v → json_ok (PDict (Dict.set k v d)).
Proof.
  intros (Hwf & Hk & Hv)%json_ok_dict ??. constructor; [by apply Dict.wf_set| |].
  - clear Hwf Hv. induction Hk as [|[k' v'] d ?? IH]; simpl; [by repeat constructor|].
    case_decide; by constructor.
  - clear Hwf Hk. induction Hv as [|[k' v'] d ?? IH]; simpl; [by repeat constructor|].
    case_decide; by constructor.
Qed.

(** The fuel a value needs. *)
Fixpoint need (v : pyval) : nat :=
  match v with
  | PList l => S (foldr (λ x n, S (need x `max` n)) 0 l)
  | PDict d => S (foldr (λ (kv : string * pyval) n, S (need kv.2 `max` n)) 0 d)
  | _ => 1
  end%nat.

Definition space (c : ascii) : bool :=
  let n := code c in (n =? 32) || (n =? 9) || (n =? 10) || (n =? 13).

Lemma skip_space_head c s : space c = false → skip_space (String c s) = String c s.
Proof. unfold space. intros H. cbn [skip_space]. by rewrite H. Qed.

(** What the text of a value starts with. *)
Definition opens (s : string) : Prop :=
  ∃ c t, s = String c t ∧ space c = false ∧ code c ≠ 93 ∧ code c ≠ 125.

Definition number_head (c : ascii) : Prop := is_digit c = true ∨ code c = 45.

Lemma number_head_opens c t : number_head c → opens (String c t).
Proof.
  intros Hc. exists c, t. split; [done|]. unfold space.
  assert (45 ≤ code c ≤ 57 ∧ code c ≠ 93) as [? ?].
  { destruct Hc as [Hc%digit_head|Hc]; lia. }
  split; [|lia]. rewrite !orb_false_iff, !N.eqb_neq. lia.
Qed.

Lemma number_opens r v t : number r = Some (v, t) → ∃ c u, r = String c u ∧ number_head c.
Proof.
  unfold number. destruct (strip "-" r) as [r1|] eqn:E.
  - apply strip_spec in E as ->. rewrite app_cons. intros _. eexists _, _. split; [done|]. by right.
  - intros Hu. destruct (unsigned_stop _ _ EmptyString _ _ I Hu) as (_ & c & u & -> & Hc).
    exists c, u. split; [done|]. by left.
Qed.

(** No constant starts like a number. *)
Lemma scan_number c s : number_head c → value_at 1 (String c s) = number (String c s).
Proof.
  intros Hc. assert (45 ≤ code c ≤ 57) as Hb by (destruct Hc as [Hc%digit_head|Hc]; lia).
  cbn [value_at]. rewrite !(proj2 (N.eqb_neq _ _)) by lia. unfold scan_atom.
  assert (constant constants (String c s) = None) as ->; [|done].
  unfold constants. cbn [constant].
  rewrite !strip_head; [done|..]; intros <-;
    match type of Hb with context [code ?x] => let n := eval vm_compute in (code x) in change (code x) with n in Hb end; lia.
Qed.

Lemma value_at_more fuel s r : value_at 1 s = Some r → value_at (S fuel) s = Some r.
Proof.
  cbn [value_at]. destruct s as [|c s]; [done|]. destruct (code c =? 34); [done|].
  destruct (code c =? 91); [destruct (skip_space s) as [|c' s']; [done|]; by destruct (code c' =? 93)|].
  destruct (code c =? 123); [|done].
  destruct (skip_space s) as [|c' s']; [done|]; by destruct (code c' =? 125).
Qed.

Lemma value_number fuel r v s : number_stops s →
  number r = Some (v, EmptyString) → value_at (S fuel) (r +:+ s) = Some (v, s).
Proof.
  intros Hs Hr. destruct (number_opens _ _ _ Hr) as (c & u & -> & Hc).
  apply value_at_more. rewrite app_cons, scan_number by done.
  rewrite <- app_cons. by apply number_stop.
Qed.

Lemma pretty_number (z : Z) : number (pretty z) = Some (PInt z, EmptyString).
Proof. pose proof (number_pretty z EmptyString I) as H. by rewrite app_nil_end in H. Qed.

Lemma special_cases r : r ∈ ["nan"; "inf"; "-inf"] → r = "nan" ∨ r = "inf" ∨ r = "-inf".
Proof. rewrite !elem_of_cons, elem_of_nil. naive_solver. Qed.

Lemma dumps_float_plain r : number r = Some (PFloat r, EmptyString) → dumps_float r = r.
Proof.
  intros Hr. unfold dumps_float.
  repeat (case_bool_decide; [subst; vm_compute in Hr; discriminate|]). done.
Qed.

Lemma dumps_opens v : json_ok v → opens (dumps v).
Proof.
  assert (Hc : ∀ c t, bool_decide (space c = false ∧ code c ≠ 93 ∧ code c ≠ 125) = true → opens (String c t))
    by (intros c t Hb%bool_decide_eq_true; exists c, t; naive_solver).
  intros Hv. destruct Hv as [|b|z|r Hr|r Hr|s Hs|l _|d _ _ _]; cbn [dumps]; rewrite ?app_cons.
  - by apply Hc.
  - destruct b; by apply Hc.
  - destruct (number_opens _ _ _ (pretty_number z)) as (c & u & -> & Hh). by apply number_head_opens.
  - destruct (special_cases _ Hr) as [->|[->| ->]]; by apply Hc.
  - rewrite dumps_float_plain by done.
    destruct (number_opens _ _ _ Hr) as (c & u & -> & Hh). by apply number_head_opens.
  - by apply Hc.
  - by apply Hc.
  - by apply Hc.
Qed.

Lemma opens_app s t : opens s → opens (s +:+ t).
Proof. intros (c & u & -> & ?). exists c, (u +:+ t). by rewrite app_cons. Qed.

Lemma skip_opens s : opens s → skip_space s = s.
Proof. intros (c & u & -> & Hc & _). by apply skip_space_head. Qed.

Lemma value_str fuel s rest : python_str s → value_at (S fuel) (dumps_str s +:+ rest) = Some (PStr s, rest).
Proof.
  intros Hs. destruct (loads_dumps_str s rest Hs) as [-> Hl]. cbn [value_at].
  change (code dquote =? 34) with true. cbn iota. by rewrite Hl.
Qed.

(** The loop over the elements of a list, given that each element is read. *)
Lemma items_read (l : list pyval) fuel s :
  Forall (λ v, json_ok v ∧ ∀ fuel s, (need v ≤ fuel)%nat → number_stops s →
    value_at fuel (dumps v +:+ s) = Some (v, s)) l →
  l ≠ [] → (foldr (λ x n, S (need x `max` n)) 0 l ≤ fuel)%nat →
  items_at fuel (join ", " (map dumps l) +:+ "]" +:+ s) = Some (l, s).
Proof.
  intros Hl. revert fuel. induction Hl as [|v l [Hok Hv] Hl IH]; intros fuel Hne Hf; [done|].
  destruct fuel as [|fuel]; [cbn in Hf; lia|]. cbn [foldr] in Hf.
  destruct l as [|w l].
  - cbn [map join items_at]. rewrite Hv by (try done; lia). done.
  - change (join ", " (map dumps (v :: w :: l)))
      with (dumps v +:+ ", " +:+ join ", " (map dumps (w :: l))).
    rewrite !app_assoc_str. cbn [items_at]. rewrite Hv by (try done; lia). cbn [mbind option_bind].
    rewrite !app_cons, app_nil.
    change (skip_space (String "," ?x)) with (String ","%char x).
    set (rest := join ", " (map dumps (w :: l)) +:+ String "]" (EmptyString +:+ s)).
    assert (Hsk : skip_space (String " " rest) = rest).
    { change (skip_space rest = rest). apply skip_opens, opens_app.
      apply Forall_cons in Hl as [[Hw _] _]. destruct l; cbn [map join]; [by apply dumps_opens|].
      by apply opens_app, dumps_opens. }
    change (code "," =? 93) with false. change (code "," =? 44) with true. cbn iota.
    rewrite Hsk. unfold rest. rewrite <- app_cons. rewrite IH; [done|done|lia].
Qed.

(** The text of one entry of a dictionary. *)
Definition entry_text (kv : string * pyval) : string := dumps_str kv.1 +:+ ": " +:+ dumps kv.2.

(** The loop over the entries of a dictionary. *)
Lemma members_read (d : dict pyval) fuel s :
  Forall (λ kv, python_str kv.1 ∧ json_ok kv.2 ∧ ∀ fuel s, (need kv.2 ≤ fuel)%nat → number_stops s →
    value_at fuel (dumps kv.2 +:+ s) = Some (kv.2, s)) d →
  d ≠ [] → (foldr (λ (kv : string * pyval) n, S (need kv.2 `max` n)) 0 d ≤ fuel)%nat →
  members_at fuel (join ", " (map entry_text d) +:+ "}" +:+ s) = Some (d, s).
Proof.
  intros Hd. revert fuel. induction Hd as [|[k v] d (Hk & Hok & Hv) Hd IH]; intros fuel Hne Hf; [done|].
  destruct fuel as [|fuel]; [cbn in Hf; lia|]. cbn [foldr fst snd] in Hf, Hk, Hok, Hv.
  assert (Hsplit : join ", " (map entry_text ((k, v) :: d)) +:+ "}" +:+ s =
    dumps_str k +:+ String ":" (String " " (dumps v +:+
      match d with [] => "}" +:+ s | _ => String "," (String " " (join ", " (map entry_text d) +:+ "}" +:+ s)) end))).
  { destruct d as [|e d].
    - unfold entry_text. cbn [map join fst snd]. by rewrite !app_assoc_str, !app_cons, !app_nil.
    - change (join ", " (map entry_text ((k, v) :: e :: d)))
        with ((dumps_str k +:+ ": " +:+ dumps v) +:+ ", " +:+ join ", " (map entry_text (e :: d))).
      by rewrite !app_assoc_str, !app_cons, !app_nil. }
  rewrite Hsplit. clear Hsplit. destruct (loads_dumps_str k (String ":" (String " " (dumps v +:+
      match d with [] => "}" +:+ s | _ => String "," (String " " (join ", " (map entry_text d) +:+ "}" +:+ s)) end))) Hk)
    as [-> Hl].
  cbn [members_at]. change (negb (code dquote =? 34)) with false. cbn iota. rewrite Hl. cbn [mbind option_bind].
  change (skip_space (String ":" ?x)) with (String ":"%char x).
  change (negb (code ":" =? 58)) with false. cbn iota.
  change (skip_space (String " " ?x)) with (skip_space x).
  rewrite skip_opens by (apply opens_app, dumps_opens; done).
  destruct d as [|e d].
  - rewrite Hv by (try done; lia). done.
  - rewrite Hv by (try done; lia). cbn [mbind option_bind].
    change (skip_space (String "," ?x)) with (String ","%char x).
    change (code "," =? 125) with false. change (code "," =? 44) with true. cbn iota.
    change (skip_space (String " " ?x)) with (skip_space x).
    rewrite skip_opens.
    + rewrite IH; [done|done|lia].
    + apply opens_app. destruct e as [k' v']. cbn [map join].
      destruct (map entry_text d); apply opens_app || idtac; unfold entry_text, dumps_str; cbn [fst];
        rewrite ?app_cons; eexists dquote, _; done.
Qed.

Lemma dict_of_items {V} (d : dict V) : Dict.wf d → foldl (λ d kv, Dict.set kv.1 kv.2 d) [] d = d.
Proof.
  intros Hwf. cut (∀ acc, Dict.wf (acc ++ d) → foldl (λ d kv, Dict.set kv.1 kv.2 d) acc d = acc ++ d).
  { intros H. by apply (H []). }
  clear Hwf. induction d as [|[k v] d IH]; intros acc Hwf; cbn [foldl fst snd]; [by rewrite app_nil_r|].
  assert (Hset : Dict.set k v acc = acc ++ [(k, v)]).
  { revert Hwf. unfold Dict.wf, Dict.keys. rewrite fmap_app, fmap_cons. clear IH. intros Hwf.
    assert (Hk : k ∉ acc.*1).
    { apply NoDup_app in Hwf as (_ & H & _). intros Hin. apply (H k Hin). left. }
    clear Hwf. induction acc as [|[k' v'] acc IH]; [done|]. cbn [Dict.set app].
    cbn in Hk. apply not_elem_of_cons in Hk as [Hne Hk]. rewrite decide_False by done. by rewrite IH. }
  rewrite Hset, IH, <- app_assoc; [done|]. by rewrite <- app_assoc.
Qed.

(** Reading what was written, with enough fuel. *)
Lemma value_dumps v : json_ok v → ∀ fuel s, (need v ≤ fuel)%nat → number_stops s →
  value_at fuel (dumps v +:+ s) = Some (v, s).
Proof.
  induction v as [|b|z|r|t|l IH|d IH] using pyval_rect'; intros Hok fuel s Hf Hs;
    (destruct fuel as [|fuel]; [cbn in Hf; lia|]); cbn [dumps].
  - by apply value_at_more.
  - destruct b; by apply value_at_more.
  - apply value_number; [done|apply pretty_number].
  - inversion Hok as [| | |? Hr|? Hr| | |]; subst.
    + destruct (special_cases r Hr) as [->|[->| ->]]; by apply value_at_more.
    + rewrite dumps_float_plain by done. by apply value_number.
  - inversion Hok; subst. by apply value_str.
  - apply json_ok_list in Hok. destruct l as [|v l]; [by apply value_at_more|].
    rewrite !app_assoc_str, !app_cons, !app_nil. cbn [value_at].
    change (code "[" =? 34) with false. change (code "[" =? 91) with true. cbn iota.
    assert (Hall : Forall (λ v, json_ok v ∧ ∀ fuel s, (need v ≤ fuel)%nat → number_stops s →
      value_at fuel (dumps v +:+ s) = Some (v, s)) (v :: l)).
    { apply Forall_and. split; [done|]. rewrite Forall_forall in *. auto. }
    pose proof (items_read _ fuel s Hall) as Hread.
    rewrite !app_cons, !app_nil in Hread.
    destruct (opens_app (join ", " (map dumps (v :: l))) (String "]" s)) as (c & u & Hu & Hc & H93 & _).
    { destruct l; cbn [map join]; [|apply opens_app]; apply dumps_opens; by inversion Hok. }
    rewrite Hu in Hread |- *. rewrite skip_space_head by done.
    rewrite (proj2 (N.eqb_neq _ _) H93). rewrite Hread; [done|done|]. cbn [need] in Hf. lia.
  - apply json_ok_dict in Hok as (Hwf & Hkeys & Hvals).
    destruct d as [|e d]; [by apply value_at_more|].
    change (map (λ kv, dumps_str kv.1 +:+ ": " +:+ dumps kv.2) (e :: d)) with (map entry_text (e :: d)).
    rewrite !app_assoc_str, !app_cons, !app_nil. cbn [value_at].
    change (code "{" =? 34) with false. change (code "{" =? 91) with false.
    change (code "{" =? 123) with true. cbn iota.
    assert (Hall : Forall (λ kv, python_str kv.1 ∧ json_ok kv.2 ∧ ∀ fuel s, (need kv.2 ≤ fuel)%nat →
      number_stops s → value_at fuel (dumps kv.2 +:+ s) = Some (kv.2, s)) (e :: d)).
    { rewrite Forall_forall in *. intros x Hx. split; [|split]; auto. }
    pose proof (members_read _ fuel s Hall) as Hread.
    rewrite !app_cons, !app_nil in Hread.
    assert (Hh : ∃ u, join ", " (map entry_text (e :: d)) +:+ String "}" s = String dquote u).
    { unfold entry_text, dumps_str. destruct d; cbn [map join]; rewrite ?app_cons; by eexists. }
    destruct Hh as [u Hu]. rewrite Hu in Hread |- *.
    rewrite skip_space_head by done. change (code dquote =? 125) with false. cbn iota.
    rewrite Hread; [|done|cbn [need] in Hf; lia].
    cbn [fmap option_fmap option_map prod_map fst snd id]. by rewrite dict_of_items.
Qed.

Lemma length_app_str s t : String.length (s +:+ t) = (String.length s + String.length t)%nat.
Proof. induction s as [|c s IH]; [done|]. rewrite app_cons. cbn [String.length]. by rewrite IH. Qed.

Lemma length_opens s : opens s → (1 ≤ String.length s)%nat.
Proof. intros (c & t & -> & _). cbn. lia. Qed.

(** The text of a list or a dictionary is long enough for its fuel. *)
Lemma join_need {A} (text : A → string) (n : A → nat) (l : list A) :
  Forall (λ x, n x ≤ String.length (text x))%nat l →
  (foldr (λ x k, S (n x `max` k)) 0 l ≤ S (String.length (join ", " (map text l))))%nat.
Proof.
  induction 1 as [|x l Hx _ IH]; [cbn; lia|]. cbn [foldr]. destruct l as [|y l]; [cbn in *; lia|].
  change (join ", " (map text (x :: y :: l))) with (text x +:+ ", " +:+ join ", " (map text (y :: l))).
  rewrite !length_app_str. cbn [String.length]. lia.
Qed.

Lemma need_length v : json_ok v → (need v ≤ String.length (dumps v))%nat.
Proof.
  induction v as [|b|z|r|t|l IH|d IH] using pyval_rect'; intros Hok;
    try (by apply length_opens, dumps_opens).
  - apply json_ok_list in Hok. cbn [need dumps]. rewrite !length_app_str. cbn [String.length].
    pose proof (join_need dumps need l) as H. rewrite Forall_forall in *.
    specialize (H (λ x Hx, IH x Hx (Hok x Hx))). lia.
  - apply json_ok_dict in Hok as (_ & _ & Hvals). cbn [need dumps]. rewrite !length_app_str. cbn [String.length].
    change (map (λ kv, dumps_str kv.1 +:+ ": " +:+ dumps kv.2) d) with (map entry_text d).
    assert (Hall : Forall (λ kv, need kv.2 ≤ String.length (entry_text kv))%nat d).
    { rewrite Forall_forall in *. intros kv Hkv. unfold entry_text. rewrite !length_app_str.
      specialize (IH kv Hkv (Hvals kv Hkv)). lia. }
    pose proof (join_need entry_text (λ kv, need kv.2) d Hall). lia.
Qed.

(** [loads] gives back every value [dumps] can write. *)
Lemma loads_dumps v : json_ok v → loads (dumps v) = Some v.
Proof.
  intros Hok. unfold loads. rewrite skip_opens by (by apply dumps_opens).
  pose proof (value_dumps v Hok (S (2 * String.length (dumps v))) EmptyString) as H.
  rewrite app_nil_end in H. rewrite H; [done| |done]. pose proof (need_length v Hok). lia.
Qed.

(** *** The fuel of the decoder is enough for any text *)

Lemma skip_space_length s : (String.length (skip_space s) ≤ String.length s)%nat.
Proof. induction s as [|c s IH]; [done|]. cbn [skip_space]. case_match; cbn [String.length]; lia. Qed.

Lemma pieces_length s p r : pieces s = Some (p, r) → (String.length r < String.length s)%nat.
Proof.
  revert s p r. fix IH 1. intros [|c s1] p r; [done|]. cbn [pieces].
  destruct (code c =? 34); [intros [= _ <-]; cbn; lia|].
  destruct (code c =? 92).
  - destruct s1 as [|e s2]; [done|]. destruct (code e =? 117).
    + destruct s2 as [|h1 [|h2 [|h3 [|h4 s3]]]]; try done. destruct (hex4_value _ _ _ _); [|done].
      destruct (pieces s3) as [[p' r']|] eqn:E; [|done]. intros [= _ <-].
      apply IH in E. cbn [String.length id]. lia.
    + destruct (unescape e); [|done]. destruct (pieces s2) as [[p' r']|] eqn:E; [|done].
      intros [= _ <-]. apply IH in E. cbn [String.length id]. lia.
  - destruct (code c <? 32); [done|]. destruct (pieces s1) as [[p' r']|] eqn:E; [|done].
    intros [= _ <-]. apply IH in E. cbn [String.length id]. lia.
Qed.

Lemma loads_str_length s t r : loads_str s = Some (t, r) → (String.length r < String.length s)%nat.
Proof.
  unfold loads_str. destruct (pieces s) as [[p r']|] eqn:E; [|done]. intros [= _ <-].
  by eapply pieces_length.
Qed.

Lemma take_digits_length s : (String.length (take_digits s).2 ≤ String.length s)%nat.
Proof.
  induction s as [|c s IH]; [done|]. cbn [take_digits]. destruct (is_digit c); [|done].
  destruct (take_digits s) as [d r]. cbn in *. lia.
Qed.

Lemma fraction_length s : (String.length (fraction s).2 ≤ String.length s)%nat.
Proof.
  destruct s as [|c s]; [done|]. cbn [fraction]. destruct (code c =? 46); [|done].
  pose proof (take_digits_length s). destruct (take_digits s) as [d r].
  case_bool_decide; cbn in *; lia.
Qed.

Lemma exponent_length s : (String.length (exponent s).2 ≤ String.length s)%nat.
Proof.
  destruct s as [|c s]; [done|]. cbn [exponent]. destruct (_ || _); [|done].
  destruct (match s with EmptyString => _ | String _ _ => _ end) as [sg s2] eqn:E.
  assert (String.length s2 ≤ String.length s)%nat.
  { destruct s as [|g s']; [by injection E as <- <-|].
    destruct (_ || _); injection E as <- <-; cbn; lia. }
  pose proof (take_digits_length s2). destruct (take_digits s2) as [d r].
  case_bool_decide; cbn in *; lia.
Qed.

Lemma unsigned_length neg s v r : unsigned neg s = Some (v, r) → (String.length r < String.length s)%nat.
Proof.
  unfold unsigned. destruct (integer s) as [[i r1]|] eqn:E; [|done]. cbn [mbind option_bind].
  assert (String.length r1 < String.length s)%nat.
  { destruct s as [|c s]; [done|]. cbn [integer] in E. destruct (code c =? 48).
    - injection E as _ <-. cbn. lia.
    - destruct (is_digit c) eqn:Ed; [|done]. apply (inj Some) in E. cbn [take_digits] in E. rewrite Ed in E.
      pose proof (take_digits_length s). destruct (take_digits s) as [d r']. injection E as _ <-. cbn in *. lia. }
  pose proof (fraction_length r1). destruct (fraction r1) as [f r2].
  pose proof (exponent_length r2). destruct (exponent r2) as [e r3]. cbn in *. intros [= _ <-]. lia.
Qed.

Lemma strip_length p s r : strip p s = Some r → String.length s = (String.length p + String.length r)%nat.
Proof. intros ->%strip_spec. apply length_app_str. Qed.

Lemma scan_atom_length s v r : scan_atom s = Some (v, r) → (String.length r < String.length s)%nat.
Proof.
  unfold scan_atom, constants. cbn [constant].
  repeat match goal with |- context [strip ?p s] =>
    destruct (strip p s) as [?|] eqn:?;
      [intros [= _ <-]; match goal with H : strip _ _ = _ |- _ => apply strip_length in H; cbn in H; lia end|] end.
  unfold number. destruct (strip "-" s) as [s1|] eqn:E; [|apply unsigned_length].
  apply strip_length in E. cbn in E. destruct (strip "Infinity" s1) as [u|] eqn:E'.
  - apply strip_length in E'. cbn in E'. intros [= _ <-]. lia.
  - intros H%unsigned_length. lia.
Qed.

(** Every reader leaves less than it was given. *)
Lemma readers_length fuel :
  (∀ s v r, value_at fuel s = Some (v, r) → String.length r < String.length s)%nat ∧
  (∀ s l r, items_at fuel s = Some (l, r) → String.length r < String.length s)%nat ∧
  (∀ s d r, members_at fuel s = Some (d, r) → String.length r < String.length s)%nat.
Proof.
  induction fuel as [|fuel (IHv & IHi & IHm)]; [done|]. split_and!.
  - intros [|c s] v r; [done|]. cbn [value_at]. pose proof (skip_space_length s) as Hsk.
    destruct (code c =? 34); [destruct (loads_str s) as [[t r']|] eqn:E; [|done];
      intros [= _ <-]; apply loads_str_length in E; cbn; lia|].
    destruct (code c =? 91).
    { destruct (skip_space s) as [|c' s2] eqn:E; [done|]. cbn in Hsk.
      destruct (code c' =? 93); [intros [= _ <-]; cbn; lia|].
      destruct (items_at fuel _) as [[l r']|] eqn:Ei; [|done]. intros [= _ <-].
      apply IHi in Ei. cbn in *. lia. }
    destruct (code c =? 123); [|apply scan_atom_length].
    destruct (skip_space s) as [|c' s2] eqn:E; [done|]. cbn in Hsk.
    destruct (code c' =? 125); [intros [= _ <-]; cbn; lia|].
    destruct (members_at fuel _) as [[l r']|] eqn:Ei; [|done]. intros [= _ <-].
    apply IHm in Ei. cbn in *. lia.
  - intros s l r. cbn [items_at]. destruct (value_at fuel s) as [[v s1]|] eqn:Ev; [|done].
    apply IHv in Ev. cbn [mbind option_bind]. pose proof (skip_space_length s1) as Hsk.
    destruct (skip_space s1) as [|c s2]; [done|]. cbn in Hsk.
    destruct (code c =? 93); [intros [= _ <-]; lia|]. destruct (code c =? 44); [|done].
    pose proof (skip_space_length s2). destruct (items_at fuel _) as [[l' r']|] eqn:Ei; [|done].
    intros [= _ <-]. apply IHi in Ei. cbn. lia.
  - intros [|c s] d r; [done|]. cbn [members_at]. destruct (negb _); [done|].
    destruct (loads_str s) as [[k s2]|] eqn:E; [|done]. apply loads_str_length in E. cbn [mbind option_bind].
    pose proof (skip_space_length s2). destruct (skip_space s2) as [|c2 s3]; [done|].
    destruct (negb _); [done|]. pose proof (skip_space_length s3).
    destruct (value_at fuel _) as [[v s4]|] eqn:Ev; [|done]. apply IHv in Ev. cbn [mbind option_bind].
    pose proof (skip_space_length s4). destruct (skip_space s4) as [|c4 s5]; [done|]. cbn in *.
    destruct (code c4 =? 125); [intros [= _ <-]; lia|]. destruct (code c4 =? 44); [|done].
    pose proof (skip_space_length s5). destruct (members_at fuel _) as [[l' r']|] eqn:Ei; [|done].
    intros [= _ <-]. apply IHm in Ei. cbn. lia.
Qed.

(** More fuel than [loads] gives changes nothing. *)
Lemma value_fuel f g :
  (∀ s, 2 * String.length s < f → 2 * String.length s < g → value_at f s = value_at g s)%nat ∧
  (∀ s, S (2 * String.length s) < f → S (2 * String.length s) < g → items_at f s = items_at g s)%nat ∧
  (∀ s, 2 * String.length s < f → 2 * String.length s < g → members_at f s = members_at g s)%nat.
Proof.
  revert g. induction f as [|f IH]; intros g; [split_and!; intros; lia|].
  destruct g as [|g]; [split_and!; intros; lia|]. destruct (IH g) as (IHv & IHi & IHm). split_and!.
  - intros [|c s] Hf Hg; [done|]. cbn [value_at]. cbn in Hf, Hg. pose proof (skip_space_length s) as Hsk.
    destruct (code c =? 34); [done|]. destruct (code c =? 91).
    { destruct (skip_space s) as [|c' s2]; [done|]. destruct (code c' =? 93); [done|].
      by rewrite IHi by (cbn in *; lia). }
    destruct (code c =? 123); [|done]. destruct (skip_space s) as [|c' s2]; [done|].
    destruct (code c' =? 125); [done|]. by rewrite IHm by (cbn in *; lia).
  - intros s Hf Hg. cbn [items_at]. rewrite IHv by lia.
    destruct (value_at g s) as [[v s1]|] eqn:Ev; [|done]. apply (readers_length g) in Ev.
    cbn [mbind option_bind]. pose proof (skip_space_length s1). destruct (skip_space s1) as [|c s2]; [done|].
    pose proof (skip_space_length s2). cbn in *.
    destruct (code c =? 93); [done|]. destruct (code c =? 44); [|done]. by rewrite IHi by lia.
  - intros [|c s] Hf Hg; [done|]. cbn [members_at]. destruct (negb _); [done|]. cbn in Hf, Hg.
    destruct (loads_str s) as [[k s2]|] eqn:E; [|done]. apply loads_str_length in E. cbn [mbind option_bind].
    pose proof (skip_space_length s2). destruct (skip_space s2) as [|c2 s3]; [done|].
    destruct (negb _); [done|]. pose proof (skip_space_length s3). cbn in *. rewrite IHv by lia.
    destruct (value_at g _) as [[v s4]|] eqn:Ev; [|done]. apply (readers_length g) in Ev.
    cbn [mbind option_bind]. pose proof (skip_space_length s4). destruct (skip_space s4) as [|c4 s5]; [done|].
    pose proof (skip_space_length s5). cbn in *.
    destruct (code c4 =? 125); [done|]. destruct (code c4 =? 44); [|done]. by rewrite IHm by lia.
Qed.
