(* ===== verification/Isotime.v ===== *)
(** * ISO 8601 times and decimal texts

    [datetime.fromisoformat] of the texts [datetime.isoformat] writes for a UTC
    time, and [int] of the texts [str] writes for an integer, each with its
    round trip. Texts of other forms that Python would accept are not read. *)

From S2P Require Import Prelude PyValue Json.

(** ** [int(str(n))] *)

(** An optional sign and digits, nothing else. *)
Definition parse_int (s : string) : option Z :=
  match s with
  | EmptyString => None
  | String c s1 =>
    let '(neg, ds) := if bool_decide (c = "-"%char) then (true, s1) else (false, s) in
    if bool_decide (ds ≠ EmptyString) && all_digits ds
    then Some (if neg then - Z.of_N (digits_value 0 ds) else Z.of_N (digits_value 0 ds))%Z
    else None
  end.

Lemma pretty_N_text (n : N) :
  all_digits (pretty n) = true ∧ digits_value 0 (pretty n) = n ∧
  ∃ c t, pretty n = String c t ∧ is_digit c = true.
Proof.
  unfold pretty, pretty_N. case_decide as E; [subst; split_and!; [done|done|by eexists _, _]|].
  destruct (pretty_digits n "") as (Hd & Hv & Hc). split_and!; [by apply Hd|done|].
  destruct Hc as (c & t & ? & ? & _); [lia|]. by exists c, t.
Qed.

Lemma parse_int_pretty (z : Z) : parse_int (pretty z) = Some z.
Proof.
  assert (Hpos : ∀ n : N, parse_int (pretty n) = Some (Z.of_N n)).
  { intros n. destruct (pretty_N_text n) as (Hd & Hv & c & t & Ht & Hc). rewrite Ht in *.
    unfold parse_int. rewrite bool_decide_eq_false_2 by (by intros ->).
    rewrite Hd. by rewrite Hv. }
  destruct z as [|p|p]; [apply (Hpos 0%N)|apply (Hpos (Npos p))|].
  change (pretty (Zneg p)) with (String "-" (pretty (Npos p))).
  destruct (pretty_N_text (Npos p)) as (Hd & Hv & c & t & Ht & _).
  unfold parse_int. rewrite bool_decide_eq_true_2 by done. rewrite Hd, Hv.
  by rewrite bool_decide_eq_true_2 by (by rewrite Ht).
Qed.

(** ** Fixed-width numbers *)

(** [w] digits. *)
Fixpoint fixed (w : nat) (acc : N) (s : string) : option (Z * string) :=
  match w with
  | O => Some (Z.of_N acc, s)
  | S w =>
    match s with
    | String c s1 => if is_digit c then fixed w (acc * 10 + (code c - 48))%N s1 else None
    | EmptyString => None
    end
  end.

Lemma fixed_digits w acc d s :
  all_digits d = true → String.length d = w → fixed w acc (d +:+ s) = Some (Z.of_N (digits_value acc d), s).
Proof.
  revert acc d. induction w as [|w IH]; intros acc [|c d] Hd Hl; try done.
  cbn [all_digits] in Hd. apply andb_true_iff in Hd as [Hc Hd]. rewrite app_cons. cbn [fixed].
  rewrite Hc. cbn [digits_value]. apply IH; [done|]. cbn in Hl. lia.
Qed.

Lemma pretty_length k x s : (0 < k)%nat → (x < 10 ^ N.of_nat k)%N →
  (String.length (pretty_N_go x s) ≤ k + String.length s)%nat.
Proof.
  intros Hk. revert x s. induction k as [|k IH]; intros x s Hx; [lia|].
  destruct (N.eq_dec x 0%N) as [->|H0]; [rewrite pretty_N_go_0; lia|]. rewrite pretty_N_go_step by lia.
  assert (Hq : (x / 10 < 10 ^ N.of_nat k)%N).
  { apply N.Div0.div_lt_upper_bound. rewrite Nat2N.inj_succ, N.pow_succ_r' in Hx. lia. }
  destruct k as [|k].
  - change (10 ^ N.of_nat 0)%N with 1%N in Hq. apply N.lt_1_r in Hq as ->.
    rewrite pretty_N_go_0. cbn [String.length]. lia.
  - specialize (IH ltac:(lia) (x / 10)%N (String (pretty_N_char (x mod 10)) s) Hq). cbn [String.length] in IH. lia.
Qed.

Lemma zeros_app k d :
  all_digits d = true →
  all_digits (String.concat "" (replicate k "0") +:+ d) = true ∧
  digits_value 0 (String.concat "" (replicate k "0") +:+ d) = digits_value 0 d ∧
  String.length (String.concat "" (replicate k "0") +:+ d) = (k + String.length d)%nat.
Proof.
  intros Hd. induction k as [|k IH]; [done|]. destruct k as [|k]; [done|].
  change (String.concat "" (replicate (S (S k)) "0")) with ("0" +:+ "" +:+ String.concat "" (replicate (S k) "0")).
  rewrite !app_cons, !app_nil. destruct IH as (H1 & H2 & H3). cbn [all_digits digits_value String.length].
  split_and!; [done|done|lia].
Qed.

Lemma fixed_pad w n s : (0 < w)%nat → (0 ≤ n < 10 ^ Z.of_nat w)%Z → fixed w 0 (pad w n +:+ s) = Some (n, s).
Proof.
  intros Hw Hn. destruct (Z_of_nat_complete n ltac:(lia)) as [m ->].
  assert (Hp : pretty (Z.of_nat m) = pretty (N.of_nat m)) by (by destruct m).
  unfold pad. rewrite Hp. destruct (pretty_N_text (N.of_nat m)) as (Hd & Hv & _).
  assert (Hl : (String.length (pretty (N.of_nat m)) ≤ w)%nat).
  { unfold pretty, pretty_N. case_decide; [cbn; lia|].
    etransitivity; [apply (pretty_length w); [done|]|cbn; lia].
    apply N2Z.inj_lt. rewrite N2Z.inj_pow. rewrite !nat_N_Z. apply Hn. }
  destruct (zeros_app (w - String.length (pretty (N.of_nat m))) _ Hd) as (H1 & H2 & H3).
  rewrite fixed_digits; [|done|lia]. rewrite H2, Hv. do 2 f_equal. lia.
Qed.

(** ** Dates *)

Local Open Scope Z_scope.

(** Linear arithmetic with division by constants. *)
Ltac div_lia := zify; Z.to_euclidean_division_equations; lia.

Definition leap (y : Z) : bool := (y mod 4 =? 0) && (negb (y mod 100 =? 0) || (y mod 400 =? 0)).

Definition days_in_month (y m : Z) : Z :=
  if m =? 2 then (if leap y then 29 else 28)
  else if (m =? 4) || (m =? 6) || (m =? 9) || (m =? 11) then 30 else 31.

(** The inverse of [civil_from_days]. *)
Definition days_from_civil (y m d : Z) : Z :=
  let y := if m <=? 2 then y - 1 else y in
  let era := y / 400 in
  let yoe := y - era * 400 in
  let doy := (153 * ((m + 9) mod 12) + 2) / 5 + d - 1 in
  era * 146097 + (yoe * 365 + yoe / 4 - yoe / 100 + doy) - 719468.

(** The year of the era and the day of the year (both counted from 1 March) of a
    day of the era, as [civil_from_days] finds them. *)
Lemma year_of_era doe a b c y p q :
  0 ≤ doe < 146097 →
  0 ≤ doe - 1460 * a < 1460 → 0 ≤ doe - 36524 * b < 36524 → 0 ≤ doe - 146096 * c < 146096 →
  0 ≤ doe - a + b - c - 365 * y < 365 → 0 ≤ y - 4 * p < 4 → 0 ≤ y - 100 * q < 100 →
  0 ≤ y ≤ 399 ∧ 0 ≤ doe - (365 * y + p - q) ≤ 365 ∧
  (doe - (365 * y + p - q) = 365 → y - 4 * p = 3 ∧ (y - 100 * q = 99 → y = 399)).
Proof.
  intros.
  assert (Hc : c = 0 ∨ c = 1) by lia.
  assert (Hb : b = 0 ∨ b = 1 ∨ b = 2 ∨ b = 3 ∨ b = 4) by lia.
  assert (Hy : 0 ≤ y ≤ 399) by (destruct Hb as [->|[->|[->|[->| ->]]]], Hc as [->| ->]; lia).
  split; [done|].
  assert (Hq : q = 0 ∨ q = 1 ∨ q = 2 ∨ q = 3) by lia.
  destruct Hc as [->| ->]; destruct Hb as [->|[->|[->|[->| ->]]]];
    destruct Hq as [->|[->|[->| ->]]]; lia.
Qed.

(** The month and the day of the month. *)
Lemma month_of_year doy mp m :
  0 ≤ doy ≤ 365 → mp = (5 * doy + 2) / 153 → m = (if mp <? 10 then mp + 3 else mp - 9) →
  let d := doy - (153 * mp + 2) / 5 + 1 in
  1 ≤ m ≤ 12 ∧ (m + 9) mod 12 = mp ∧ 1 ≤ d ∧
  d ≤ (if m =? 2 then (if doy =? 365 then 29 else 28)
       else if (m =? 4) || (m =? 6) || (m =? 9) || (m =? 11) then 30 else 31) ∧
  (m ≤ 2 ↔ 306 ≤ doy).
Proof.
  intros Hdoy Hmp Hm. cbv zeta.
  assert (0 ≤ mp ≤ 11) by (clear Hm; div_lia).
  assert (mp = 0 ∨ mp = 1 ∨ mp = 2 ∨ mp = 3 ∨ mp = 4 ∨ mp = 5 ∨ mp = 6 ∨ mp = 7 ∨ mp = 8 ∨ mp = 9 ∨ mp = 10 ∨ mp = 11)
    as Hc by lia.
  repeat destruct Hc as [E|Hc]; [..|rename Hc into E]; rewrite E in *; vm_compute in Hm; subst m; cbn;
    try (destruct (Z.eqb_spec doy 365)); div_lia.
Qed.

(** A date in the range of [datetime]. *)
Definition valid_days (days : Z) : Prop := -719162 ≤ days ≤ 2932896.

#[global] Instance valid_days_dec days : Decision (valid_days days).
Proof. unfold valid_days. apply _. Defined.

Lemma civil_roundtrip days : valid_days days →
  let '(y, m, d) := civil_from_days days in
  1 ≤ y ≤ 9999 ∧ 1 ≤ m ≤ 12 ∧ 1 ≤ d ≤ days_in_month y m ∧ days_from_civil y m d = days.
Proof.
  unfold valid_days. intros Hd. unfold civil_from_days. cbv zeta. set (z := days + 719468).
  set (doe := z mod 146097). assert (Hdoe : 0 ≤ doe < 146097) by (by apply Z.mod_pos_bound).
  assert (Hz : z = z / 146097 * 146097 + doe) by (unfold doe; pose proof (Z.div_mod z 146097); lia).
  assert (Hera : 0 ≤ z / 146097 ≤ 24) by (clear - Hd; unfold z; div_lia). set (era := z / 146097) in *.
  set (y := (doe - doe / 1460 + doe / 36524 - doe / 146096) / 365).
  destruct (year_of_era doe (doe / 1460) (doe / 36524) (doe / 146096) y (y / 4) (y / 100))
    as (Hy & Hdoy & Hleap); [lia|clear; div_lia..|].
  set (doy := doe - (365 * y + y / 4 - y / 100)) in *. set (mp := (5 * doy + 2) / 153).
  set (m := if mp <? 10 then mp + 3 else mp - 9).
  destruct (month_of_year doy mp m Hdoy eq_refl eq_refl) as (Hm & Hmp & Hd1 & Hd2 & Hm2).
  set (d := doy - (153 * mp + 2) / 5 + 1) in *. clearbody m mp.
  split.
  { clear Hm Hmp Hd1 Hd2 Hleap. clearbody era doe y.
    destruct (Z.leb_spec m 2); unfold doy, z in *; div_lia. }
  split; [done|]. split.
  - split; [done|]. etransitivity; [exact Hd2|]. unfold days_in_month.
    destruct (Z.eqb_spec m 2) as [->|]; [|done]. change (2 <=? 2) with true. cbv iota.
    destruct (Z.eqb_spec doy 365) as [E|]; [|destruct (leap _); lia].
    destruct (Hleap E) as (H4 & H100). unfold leap.
    rewrite (proj2 (Z.eqb_eq _ _)) by (clear - H4; div_lia). cbn [andb].
    destruct (Z.eqb_spec ((y + era * 400 + 1) mod 100) 0) as [E0|]; [|done]. cbn [negb orb].
    rewrite H100 by (clear - E0; div_lia). rewrite (proj2 (Z.eqb_eq _ _)); [done|div_lia].
  - unfold days_from_civil. rewrite Hmp.
    replace (if m <=? 2 then y + era * 400 + (if m <=? 2 then 1 else 0) - 1
             else y + era * 400 + (if m <=? 2 then 1 else 0)) with (y + era * 400)
      by (destruct (m <=? 2); lia).
    rewrite Z.div_add, (Z.div_small y 400) by lia.
    replace (y + era * 400 - (0 + era) * 400) with y by lia. unfold d, doy, z in *. lia.
Qed.

(** ** [datetime.fromisoformat] *)

Definition expect (c : ascii) (s : string) : option string :=
  match s with String c' s => if bool_decide (c' = c) then Some s else None | EmptyString => None end.

(** The fraction of a second and the offset at the end of the text. *)
Definition fraction_zone (s : string) : option Z :=
  '(us, s) ← match s with
             | String "." s => fixed 6 0 s
             | _ => Some (0, s)
             end;
  if bool_decide (s = "+00:00") then Some us else None.

Definition fromisoformat (s : string) : option Z :=
  '(y, s) ← fixed 4 0 s; s ← expect "-" s;
  '(m, s) ← fixed 2 0 s; s ← expect "-" s;
  '(d, s) ← fixed 2 0 s; s ← expect "T" s;
  '(hh, s) ← fixed 2 0 s; s ← expect ":" s;
  '(mm, s) ← fixed 2 0 s; s ← expect ":" s;
  '(ss, s) ← fixed 2 0 s; us ← fraction_zone s;
  if (1 <=? y) && (1 <=? m) && (m <=? 12) && (1 <=? d) && (d <=? days_in_month y m)
     && (hh <=? 23) && (mm <=? 59) && (ss <=? 59)
  then Some ((days_from_civil y m d * 86400 + hh * 3600 + mm * 60 + ss) * 1000000 + us)
  else None.

(** The times [datetime] can hold: from year 1 to year 9999. *)
Definition valid_time (t : Z) : Prop := valid_days (t / 1000000 / 86400).

#[global] Instance valid_time_dec t : Decision (valid_time t).
Proof. unfold valid_time. apply _. Defined.

Lemma days_in_month_le y m : days_in_month y m ≤ 31.
Proof. unfold days_in_month. repeat case_match; lia. Qed.

Lemma expect_cons c s : expect c (String c s) = Some s.
Proof. cbn. by rewrite bool_decide_eq_true_2. Qed.

Lemma fraction_zone_pad us : 0 ≤ us < 1000000 →
  fraction_zone ((if us =? 0 then "" else "." +:+ pad 6 us) +:+ "+00:00") = Some us.
Proof.
  intros Hus. destruct (Z.eqb_spec us 0) as [->|]; [done|].
  rewrite app_assoc_str, app_cons, app_nil. unfold fraction_zone.
  rewrite fixed_pad by lia. cbn [mbind option_bind]. by rewrite bool_decide_eq_true_2.
Qed.

(** A time [isoformat] wrote is read back. *)
Lemma fromisoformat_isoformat t : valid_time t → fromisoformat (isoformat t) = Some t.
Proof.
  unfold valid_time. intros Hv. pose proof (civil_roundtrip _ Hv) as Hciv. unfold isoformat. cbv zeta.
  destruct (civil_from_days (t / 1000000 / 86400)) as [[y m] d].
  destruct Hciv as (Hy & Hm & Hd & Hdays). pose proof (days_in_month_le y m).
  assert (Ht : t = t / 1000000 / 86400 * 86400 * 1000000 + t / 1000000 mod 86400 * 1000000 + t mod 1000000)
    by (clear; div_lia).
  assert (Hs : 0 ≤ t / 1000000 mod 86400 < 86400) by (by apply Z.mod_pos_bound).
  assert (Hus : 0 ≤ t mod 1000000 < 1000000) by (by apply Z.mod_pos_bound).
  set (s := t / 1000000 mod 86400) in *. set (us := t mod 1000000) in *.
  assert (Hh : 0 ≤ s / 3600 < 24) by (clear - Hs; div_lia).
  assert (Hmi : 0 ≤ s / 60 mod 60 < 60) by (by apply Z.mod_pos_bound).
  assert (Hse : 0 ≤ s mod 60 < 60) by (by apply Z.mod_pos_bound).
  assert (Hsum : s / 3600 * 3600 + s / 60 mod 60 * 60 + s mod 60 = s) by (clear - Hs; div_lia).
  unfold fromisoformat.
  do 5 (rewrite fixed_pad by lia; cbn [mbind option_bind]; rewrite ?app_cons, ?app_nil, expect_cons;
        cbn [mbind option_bind]).
  rewrite fixed_pad by lia. cbn [mbind option_bind]. rewrite fraction_zone_pad by done. cbn [mbind option_bind].
  repeat (rewrite (proj2 (Z.leb_le _ _)) by lia). cbn [andb]. f_equal. rewrite Hdays. lia.
Qed.

Example fromisoformat_ex :
  fromisoformat "2024-02-29T12:34:56.000789+00:00" = Some 1709210096000789 ∧
  fromisoformat "2023-02-29T12:34:56+00:00" = None.
Proof. split; vm_compute; reflexivity. Qed.
