(* ===== verification/Domain.v ===== *)
(** * Domain: job statuses, requests and jobs

    [domain/enums.py], [domain/models.py]: the [JobStatus] enumeration, the
    [JobRequest] and [Job] dataclasses, [Job.from_request] and
    [Job.to_meta_dict]. Datetimes are integers (microseconds since the epoch,
    UTC); the fields of a request carry the prefix [req_] because a job has
    fields of the same names. *)

From S2P Require Import Prelude PyValue.

(** ** JobStatus *)

Inductive JobStatus : Type :=
  | QUEUED | SCHEDULED | RUNNING | RETRY_WAIT | PAUSED | TIMEOUT | TTL_EXPIRED | SUCCEEDED | FAILED | CANCELLED
  | CREATED | VALIDATED | DISPATCHED | BLOCKED | DEAD_LETTERED | ARCHIVED.

#[export] Instance JobStatus_eq_dec : EqDecision JobStatus.
Proof. solve_decision. Defined.

(** The members in declaration order. *)
Definition JobStatus_members : list JobStatus :=
  [QUEUED; SCHEDULED; RUNNING; RETRY_WAIT; PAUSED; TIMEOUT; TTL_EXPIRED; SUCCEEDED; FAILED; CANCELLED;
   CREATED; VALIDATED; DISPATCHED; BLOCKED; DEAD_LETTERED; ARCHIVED].

#[export] Program Instance JobStatus_finite : Finite JobStatus := {| enum := JobStatus_members |}.
Next Obligation. by apply (bool_decide_unpack _); vm_compute. Qed.
Next Obligation. intros []; by apply (bool_decide_unpack _); vm_compute. Qed.

(** [status.value] *)
Definition value (s : JobStatus) : string :=
  match s with
  | QUEUED => "queued"
  | SCHEDULED => "scheduled"
  | RUNNING => "running"
  | RETRY_WAIT => "retry_wait"
  | PAUSED => "paused"
  | TIMEOUT => "timeout"
  | TTL_EXPIRED => "ttl_expired"
  | SUCCEEDED => "succeeded"
  | FAILED => "failed"
  | CANCELLED => "cancelled"
  | CREATED => "created"
  | VALIDATED => "validated"
  | DISPATCHED => "dispatched"
  | BLOCKED => "blocked"
  | DEAD_LETTERED => "dead_lettered"
  | ARCHIVED => "archived"
  end.

#[global] Arguments value : simpl never.

(** [JobStatus(v)]: look a value up, [None] when Python raises. *)
Definition JobStatus_of (v : string) : option JobStatus :=
  find_by (λ s, bool_decide (value s = v)) JobStatus_members.

(** [JobStatus(v)] as a method runs it. *)
Definition parse_status {S} (v : string) : M S JobStatus :=
  match JobStatus_of v with
  | Some s => mret s
  | None => raise (ValueError (repr_str v +:+ " is not a valid JobStatus"))
  end.

(** ** JobRequest *)

Record JobRequest : Type := mkJobRequest {
  req_job_type : string;
  req_queue_name : string;
  req_payload : dict pyval;
  req_priority : Z;
  req_app_id : option string;
  req_tenant_id : option string;
  req_user_id : option string;
  req_session_id : option string;
  req_channel_id : option string;
  req_idempotency_key : option string;
  req_correlation_id : option string;
  req_resources : dict Z;
  req_depends_on : list string;
  req_callback_url : option string;
  req_callback_method : string;
  req_callback_headers : dict string;
  req_request_source : option string;
  req_request_ip : option string;
  req_request_auth_method : option string;
  req_request_auth_identity : option string;
  req_request_user_agent : option string;
}.

#[export] Instance JobRequest_eta : Eta JobRequest := λ r, mkJobRequest
  (req_job_type r) (req_queue_name r) (req_payload r) (req_priority r) (req_app_id r)
  (req_tenant_id r) (req_user_id r) (req_session_id r) (req_channel_id r)
  (req_idempotency_key r) (req_correlation_id r) (req_resources r) (req_depends_on r)
  (req_callback_url r) (req_callback_method r) (req_callback_headers r) (req_request_source
  r) (req_request_ip r) (req_request_auth_method r) (req_request_auth_identity r)
  (req_request_user_agent r).

(** [JobRequest(job_type=...)] with the defaults of the dataclass. *)
Definition new_request (job_type : string) : JobRequest := mkJobRequest
  job_type "default" [] 0 None None None None None None None [] []
  None "POST" [] None None None None None.

(** ** Job *)

(** [naive_times]: the datetimes of the object are naive, which happens to jobs
    read from a database that does not keep time zones. Then [created_at] and
    [updated_at] are the fields of the naive datetimes, taken as UTC. *)
Record Job : Type := mkJob {
  job_id : string;
  job_type : string;
  queue_name : string;
  payload : dict pyval;
  status : JobStatus;
  priority : Z;
  created_at : Z;
  updated_at : Z;
  app_id : option string;
  tenant_id : option string;
  host_id : option string;
  worker_id : option string;
  idempotency_key : option string;
  correlation_id : option string;
  user_id : option string;
  session_id : option string;
  channel_id : option string;
  callback_url : option string;
  callback_method : string;
  callback_headers : dict string;
  request_source : option string;
  request_ip : option string;
  request_auth_method : option string;
  request_auth_identity : option string;
  request_user_agent : option string;
  claimed_by : option string;
  resources : dict Z;
  depends_on : list string;
  attempt : Z;
  max_attempts : Z;
  next_run_at : option Z;
  started_at : option Z;
  finished_at : option Z;
  last_heartbeat_at : option Z;
  last_error : option (dict pyval);
  result_ref : option pyval;
  progress : option (dict pyval);
  run_timeout_ms : option Z;
  claim_timeout_ms : option Z;
  trace_id : option string;
  version : Z;
  naive_times : bool;
}.

#[export] Instance Job_eta : Eta Job := λ j, mkJob
  (job_id j) (job_type j) (queue_name j) (payload j) (status j) (priority j) (created_at j)
  (updated_at j) (app_id j) (tenant_id j) (host_id j) (worker_id j) (idempotency_key j)
  (correlation_id j) (user_id j) (session_id j) (channel_id j) (callback_url j)
  (callback_method j) (callback_headers j) (request_source j) (request_ip j)
  (request_auth_method j) (request_auth_identity j) (request_user_agent j) (claimed_by j)
  (resources j) (depends_on j) (attempt j) (max_attempts j) (next_run_at j) (started_at j)
  (finished_at j) (last_heartbeat_at j) (last_error j) (result_ref j) (progress j)
  (run_timeout_ms j) (claim_timeout_ms j) (trace_id j) (version j) (naive_times j).

#[export] Instance Job_eq_dec : EqDecision Job.
Proof. solve_decision. Defined.

(** [Job(job_id=..., ..., updated_at=...)] with the defaults of the other fields. *)
Definition new_job (id job_type queue_name : string) (payload : dict pyval)
    (status : JobStatus) (priority created_at updated_at : Z) : Job :=
  {| job_id := id; job_type := job_type; queue_name := queue_name; payload := payload;
     status := status; priority := priority; created_at := created_at; updated_at := updated_at;
     app_id := None; tenant_id := None; host_id := None; worker_id := None;
     idempotency_key := None; correlation_id := None; user_id := None; session_id := None;
     channel_id := None; callback_url := None; callback_method := "POST"; callback_headers := [];
     request_source := None; request_ip := None; request_auth_method := None;
     request_auth_identity := None; request_user_agent := None; claimed_by := None;
     resources := []; depends_on := []; attempt := 0; max_attempts := 3; next_run_at := None;
     started_at := None; finished_at := None; last_heartbeat_at := None; last_error := None;
     result_ref := None; progress := None; run_timeout_ms := None; claim_timeout_ms := None;
     trace_id := None; version := 0; naive_times := false |}.

(** [now - t] for an aware [now]. *)
Definition naive_error : exn :=
  UserError "TypeError" "can't subtract offset-naive and offset-aware datetimes".
Definition elapsed {S} (now t : Z) (naive : bool) : M S Z :=
  if naive then raise naive_error else mret (now - t)%Z.

Definition opt_str (s : option string) : pyval := from_option PStr PNone s.

(** [Job.to_meta_dict] *)
Definition to_meta_dict (j : Job) : dict pyval :=
  [("app_id", opt_str (app_id j));
   ("tenant_id", opt_str (tenant_id j));
   ("host_id", opt_str (host_id j));
   ("worker_id", opt_str (worker_id j));
   ("idempotency_key", opt_str (idempotency_key j));
   ("correlation_id", opt_str (correlation_id j));
   ("user_id", opt_str (user_id j));
   ("session_id", opt_str (session_id j));
   ("channel_id", opt_str (channel_id j));
   ("callback_url", opt_str (callback_url j));
   ("callback_method", PStr (callback_method j));
   ("callback_headers", PDict (prod_map id PStr <$> callback_headers j));
   ("request_source", opt_str (request_source j));
   ("request_ip", opt_str (request_ip j));
   ("request_auth_method", opt_str (request_auth_method j));
   ("request_auth_identity", opt_str (request_auth_identity j));
   ("request_user_agent", opt_str (request_user_agent j))].

(** The job [Job.from_request] builds at time [now] under the identifier [id]. *)
Definition job_of_request (now : Z) (id : string) (r : JobRequest) : Job :=
  new_job id (req_job_type r) (req_queue_name r) (req_payload r) QUEUED (req_priority r) now now
    <| app_id := req_app_id r |>
    <| tenant_id := req_tenant_id r |>
    <| idempotency_key := req_idempotency_key r |>
    <| correlation_id := req_correlation_id r |>
    <| user_id := req_user_id r |>
    <| session_id := req_session_id r |>
    <| channel_id := req_channel_id r |>
    <| callback_url := req_callback_url r |>
    <| callback_method := req_callback_method r |>
    <| callback_headers := req_callback_headers r |>
    <| request_source := req_request_source r |>
    <| request_ip := req_request_ip r |>
    <| request_auth_method := req_request_auth_method r |>
    <| request_auth_identity := req_request_auth_identity r |>
    <| request_user_agent := req_request_user_agent r |>
    <| resources := req_resources r |>
    <| depends_on := req_depends_on r |>.

(** [Job.from_request] *)
Definition from_request {S} (r : JobRequest) : M S Job :=
  now ← utcnow;
  id ← uuid4;
  mret (job_of_request now id r).

Lemma wp_from_request {S} (s : S) r Q :
  (∀ now id, Q (Ok (job_of_request now id r)) s) → wp (from_request r) s Q.
Proof. intros H. unfold from_request. wp_steps. apply H. Qed.

Lemma JobStatus_of_value s : JobStatus_of (value s) = Some s.
Proof. by destruct s. Qed.

Lemma JobStatus_of_Some v s : JobStatus_of v = Some s ↔ v = value s.
Proof.
  split; [|intros ->; apply JobStatus_of_value].
  unfold JobStatus_of. intros [_ H]%find_by_Some. by apply bool_decide_eq_true in H.
Qed.

#[export] Instance value_inj : Inj (=) (=) value.
Proof. intros s t H. apply (f_equal JobStatus_of) in H. rewrite !JobStatus_of_value in H. congruence. Qed.

Lemma wp_parse_status {S} s (st : S) Q : Q (Ok s) st → wp (parse_status (value s)) st Q.
Proof. intros H. unfold parse_status. rewrite JobStatus_of_value. by apply wp_ret. Qed.

Lemma wp_parse_status_bad {S} v (st : S) Q :
  (∀ s, v ≠ value s) →
  Q (Err (ValueError (repr_str v +:+ " is not a valid JobStatus"))) st →
  wp (parse_status v) st Q.
Proof.
  intros Hv HQ. unfold parse_status.
  destruct (JobStatus_of v) as [s|] eqn:E; [|by apply wp_raise].
  apply JobStatus_of_Some in E. by destruct (Hv s).
Qed.
