(* ===== verification/Meta.v ===== *)
(** * Job metadata

    The dictionary [Job.to_meta_dict] writes, as the backends that store it as
    JSON read it back: [storage/sqlalchemy/repo.py] and
    [backends/redis_backend.py] build a job from [meta.get(...)] calls. The
    readers raise on a value of the wrong type, where Python would keep it in a
    field of another type. *)

From S2P Require Import Prelude PyValue Json Domain.

(** ** Results *)

#[export] Instance result_ret : MRet result := @Ok.
#[export] Instance result_bind : MBind result := λ A B f r,
  match r with Ok a => f a | Err x => Err x end.

(** A pure computation that may raise, run by a method. *)
Definition lift {S A} (r : result A) : M S A := λ s e, (r, s, e).

Lemma wp_lift {S A} (r : result A) (s : S) Q : Q r s → wp (lift r) s Q.
Proof. intros H e. exact H. Qed.

Definition type_error : exn := UserError "TypeError" "value of an unexpected type".

(** [json.loads] as code runs it. *)
Definition json_loads (s : string) : result pyval :=
  match loads s with Some v => Ok v | None => Err (ValueError "JSONDecodeError") end.

(** ** The readers *)

(** [meta.get(key)], an optional string. *)
Definition meta_str (meta : dict pyval) (key : string) : result (option string) :=
  match Dict.get key meta with
  | None | Some PNone => Ok None
  | Some (PStr s) => Ok (Some s)
  | Some _ => Err type_error
  end.

(** [meta.get("callback_method", "POST")] *)
Definition meta_method (meta : dict pyval) : result string :=
  match Dict.get "callback_method" meta with
  | None => Ok "POST"
  | Some (PStr s) => Ok s
  | Some _ => Err type_error
  end.

Fixpoint str_items (d : dict pyval) : result (dict string) :=
  match d with
  | [] => Ok []
  | (k, PStr s) :: d => d ← str_items d; Ok ((k, s) :: d)
  | _ :: _ => Err type_error
  end.

(** [meta.get("callback_headers") or {}] *)
Definition meta_headers (meta : dict pyval) : result (dict string) :=
  match Dict.get "callback_headers" meta with
  | None => Ok []
  | Some v => if negb (truthy v) then Ok []
              else match v with PDict d => str_items d | _ => Err type_error end
  end.

(** [int(meta.get(key) or n)] *)
Definition meta_int (meta : dict pyval) (key : string) (n : Z) : result Z :=
  match Dict.get key meta with
  | None => Ok n
  | Some v => if negb (truthy v) then Ok n
              else match v with PInt z => Ok z | PBool b => Ok 1%Z | _ => Err type_error end
  end.

(** [meta.get(key)], an optional dictionary. *)
Definition meta_dict (meta : dict pyval) (key : string) : result (option (dict pyval)) :=
  match Dict.get key meta with
  | None | Some PNone => Ok None
  | Some (PDict d) => Ok (Some d)
  | Some _ => Err type_error
  end.

(** Lines 108-110: an error stored as text becomes a dictionary. *)
Definition meta_last_error (meta : dict pyval) : result (option (dict pyval)) :=
  match Dict.get "last_error" meta with
  | Some (PStr s) => Ok (Some [("message", PStr s)])
  | _ => meta_dict meta "last_error"
  end.

Definition meta_result (meta : dict pyval) : option pyval :=
  match Dict.get "result" meta with None | Some PNone => None | Some v => Some v end.

(** The seventeen fields of [Job] that [to_meta_dict] writes. *)
Definition context_fields (meta : dict pyval) (j : Job) : result Job :=
  app ← meta_str meta "app_id";
  tenant ← meta_str meta "tenant_id";
  host ← meta_str meta "host_id";
  worker ← meta_str meta "worker_id";
  key ← meta_str meta "idempotency_key";
  correlation ← meta_str meta "correlation_id";
  user ← meta_str meta "user_id";
  session ← meta_str meta "session_id";
  channel ← meta_str meta "channel_id";
  url ← meta_str meta "callback_url";
  method ← meta_method meta;
  headers ← meta_headers meta;
  source ← meta_str meta "request_source";
  ip ← meta_str meta "request_ip";
  auth_method ← meta_str meta "request_auth_method";
  auth_identity ← meta_str meta "request_auth_identity";
  agent ← meta_str meta "request_user_agent";
  mret (j <| app_id := app |> <| tenant_id := tenant |> <| host_id := host |>
          <| worker_id := worker |> <| idempotency_key := key |>
          <| correlation_id := correlation |> <| user_id := user |>
          <| session_id := session |> <| channel_id := channel |>
          <| callback_url := url |> <| callback_method := method |>
          <| callback_headers := headers |> <| request_source := source |>
          <| request_ip := ip |> <| request_auth_method := auth_method |>
          <| request_auth_identity := auth_identity |> <| request_user_agent := agent |>).

(** What [repo.py] keeps in the metadata besides, lines 108-110 and 139-143. *)
Definition run_fields (meta : dict pyval) (j : Job) : result Job :=
  attempts ← meta_int meta "attempts" 0;
  max ← meta_int meta "max_attempts" 3;
  error ← meta_last_error meta;
  prog ← meta_dict meta "progress";
  mret (j <| attempt := attempts |> <| max_attempts := max |> <| last_error := error |>
          <| result_ref := meta_result meta |> <| progress := prog |>).

Definition meta_fields (meta : dict pyval) (j : Job) : result Job :=
  j ← context_fields meta j; run_fields meta j.

(** ** What the readers need *)

(** Case analysis on what is read from the metadata. *)
Ltac read_one r := destruct r; cbn [mbind result_bind]; [|by intros].
Ltac read_meta :=
  repeat match goal with
  | |- context [meta_str ?m ?k] => read_one (meta_str m k)
  | |- context [meta_method ?m] => read_one (meta_method m)
  | |- context [meta_headers ?m] => read_one (meta_headers m)
  | |- context [meta_int ?m ?k ?n] => read_one (meta_int m k n)
  | |- context [meta_last_error ?m] => read_one (meta_last_error m)
  | |- context [meta_dict ?m ?k] => read_one (meta_dict m k)
  end.

(** Whether the metadata can be read does not depend on the other fields, and
    reading it leaves them alone. *)
Lemma context_fields_total m i i' j :
  context_fields m i = Ok i' → ∃ j', context_fields m j = Ok j' ∧
    job_id j' = job_id j ∧ status j' = status j ∧ job_type j' = job_type j ∧
    queue_name j' = queue_name j ∧ priority j' = priority j ∧ created_at j' = created_at j.
Proof. unfold context_fields. read_meta. intros _. by eexists. Qed.

Lemma run_fields_total m i i' j :
  run_fields m i = Ok i' → ∃ j', run_fields m j = Ok j' ∧
    job_id j' = job_id j ∧ status j' = status j ∧ job_type j' = job_type j ∧
    queue_name j' = queue_name j ∧ priority j' = priority j ∧ created_at j' = created_at j.
Proof. unfold run_fields. read_meta. intros _. by eexists. Qed.

Lemma meta_fields_Ok m i i' : meta_fields m i = Ok i' ↔ ∃ k, context_fields m i = Ok k ∧ run_fields m k = Ok i'.
Proof.
  unfold meta_fields. destruct (context_fields m i) as [k|]; cbn [mbind result_bind]; naive_solver.
Qed.

Lemma meta_fields_total m i i' j :
  meta_fields m i = Ok i' → ∃ j', meta_fields m j = Ok j' ∧
    job_id j' = job_id j ∧ status j' = status j ∧ job_type j' = job_type j ∧
    queue_name j' = queue_name j ∧ priority j' = priority j ∧ created_at j' = created_at j.
Proof.
  intros (k & Hk & Hr)%meta_fields_Ok.
  destruct (context_fields_total _ _ _ j Hk) as (k' & Hk' & ?).
  destruct (run_fields_total _ _ _ k' Hr) as (j' & Hj' & ?).
  exists j'. split; [apply meta_fields_Ok; eauto|]. intuition congruence.
Qed.

(** The readers look at nothing but their key. *)
Lemma readers_ext m m' k n :
  Dict.get k m' = Dict.get k m →
  meta_str m' k = meta_str m k ∧ meta_int m' k n = meta_int m k n ∧ meta_dict m' k = meta_dict m k.
Proof. unfold meta_str, meta_int, meta_dict. by intros ->. Qed.

(** The metadata a claim writes. *)
Definition claimed_meta (host_id worker_id : string) (m : dict pyval) : dict pyval :=
  Dict.set "worker_id" (PStr worker_id) (Dict.set "host_id" (PStr host_id) m).

Lemma claimed_meta_get h w m k :
  k ≠ "host_id" → k ≠ "worker_id" → Dict.get k (claimed_meta h w m) = Dict.get k m.
Proof. intros ??. unfold claimed_meta. by rewrite !Dict.get_set_ne. Qed.

(** The claim writes two texts, and the metadata stays readable. *)
Lemma context_fields_claim m i i' j h w :
  context_fields m i = Ok i' → ∃ j', context_fields (claimed_meta h w m) j = Ok j'.
Proof.
  set (m' := claimed_meta h w m).
  assert (Hs : ∀ k, k ≠ "host_id" → k ≠ "worker_id" → meta_str m' k = meta_str m k)
    by (intros k ??; unfold meta_str, m'; by rewrite claimed_meta_get).
  assert (Hh : meta_str m' "host_id" = Ok (Some h))
    by (unfold meta_str, m', claimed_meta; by rewrite Dict.get_set_ne, Dict.get_set_eq by done).
  assert (Hw : meta_str m' "worker_id" = Ok (Some w))
    by (unfold meta_str, m', claimed_meta; by rewrite Dict.get_set_eq).
  assert (Hm : meta_method m' = meta_method m) by (unfold meta_method, m'; by rewrite claimed_meta_get).
  assert (Hhd : meta_headers m' = meta_headers m) by (unfold meta_headers, m'; by rewrite claimed_meta_get).
  clearbody m'. unfold context_fields. rewrite Hh, Hw, Hm, Hhd, !Hs by discriminate.
  read_meta. intros _. by eexists.
Qed.

Lemma run_fields_claim m j h w : run_fields (claimed_meta h w m) j = run_fields m j.
Proof.
  unfold run_fields, meta_last_error, meta_dict, meta_result, meta_int.
  by rewrite !claimed_meta_get by discriminate.
Qed.

Lemma meta_fields_claim m i i' j h w :
  meta_fields m i = Ok i' → is_ok (meta_fields (claimed_meta h w m) j) = true.
Proof.
  intros (k & Hk & Hr)%meta_fields_Ok. destruct (context_fields_claim _ _ _ j h w Hk) as [j1 Hj1].
  destruct (run_fields_total _ _ _ j1 Hr) as (j2 & Hj2 & _).
  assert (meta_fields (claimed_meta h w m) j = Ok j2) as ->; [|done].
  apply meta_fields_Ok. exists j1. by rewrite run_fields_claim.
Qed.

(** Metadata the readers accept. *)
Definition meta_ok (m : dict pyval) : Prop := ∃ i i', meta_fields m i = Ok i'.

Lemma meta_str_opt m k o : Dict.get k m = Some (opt_str o) → meta_str m k = Ok o.
Proof. unfold meta_str. intros ->. by destruct o. Qed.

Lemma str_items_map (h : dict string) : str_items (prod_map id PStr <$> h) = Ok h.
Proof. induction h as [|[k s] h IH]; [done|].
  change (mbind (λ d, Ok ((k, s) :: d)) (str_items (prod_map id PStr <$> h)) = Ok ((k, s) :: h)).
  by rewrite IH.
Qed.

Lemma meta_headers_job j : meta_headers (to_meta_dict j) = Ok (callback_headers j).
Proof.
  unfold meta_headers. simpl. pose proof (str_items_map (callback_headers j)) as H.
  by destruct (callback_headers j).
Qed.


(** [to_meta_dict] is read back. *)
Lemma context_fields_job j i :
  context_fields (to_meta_dict j) i =
  Ok (i <| app_id := app_id j |> <| tenant_id := tenant_id j |> <| host_id := host_id j |>
        <| worker_id := worker_id j |> <| idempotency_key := idempotency_key j |>
        <| correlation_id := correlation_id j |> <| user_id := user_id j |>
        <| session_id := session_id j |> <| channel_id := channel_id j |>
        <| callback_url := callback_url j |> <| callback_method := callback_method j |>
        <| callback_headers := callback_headers j |> <| request_source := request_source j |>
        <| request_ip := request_ip j |> <| request_auth_method := request_auth_method j |>
        <| request_auth_identity := request_auth_identity j |>
        <| request_user_agent := request_user_agent j |>).
Proof.
  unfold context_fields. rewrite meta_headers_job.
  rewrite (meta_str_opt _ "app_id" (app_id j)), (meta_str_opt _ "tenant_id" (tenant_id j)),
    (meta_str_opt _ "host_id" (host_id j)), (meta_str_opt _ "worker_id" (worker_id j)),
    (meta_str_opt _ "idempotency_key" (idempotency_key j)),
    (meta_str_opt _ "correlation_id" (correlation_id j)), (meta_str_opt _ "user_id" (user_id j)),
    (meta_str_opt _ "session_id" (session_id j)), (meta_str_opt _ "channel_id" (channel_id j)),
    (meta_str_opt _ "callback_url" (callback_url j)),
    (meta_str_opt _ "request_source" (request_source j)), (meta_str_opt _ "request_ip" (request_ip j)),
    (meta_str_opt _ "request_auth_method" (request_auth_method j)),
    (meta_str_opt _ "request_auth_identity" (request_auth_identity j)),
    (meta_str_opt _ "request_user_agent" (request_user_agent j)) by reflexivity.
  done.
Qed.

Lemma run_fields_job j i :
  run_fields (to_meta_dict j) i =
  Ok (i <| attempt := 0%Z |> <| max_attempts := 3%Z |> <| last_error := None |>
        <| result_ref := None |> <| progress := None |>).
Proof. done. Qed.

Lemma context_fields_nil i : ∃ j, context_fields [] i = Ok j.
Proof. by eexists. Qed.
