(* ===== verification/PyFloat.v ===== *)
(** * Floats and conversions

    IEEE binary64 numbers ([SpecFloat]) as the library uses them: integers and
    texts converted to floats, the comparisons, [min] and [max]. [x ** n] is the
    C library's [pow]: see [FloatPow]. *)

From Stdlib Require Import SpecFloat.
From S2P Require Import Prelude PyValue Json Isotime Meta.

Abbreviation float := spec_float.

Definition float_of_Z (z : Z) : float := binary_normalize 53 1024 z 0 false.
Definition float_mul : float → float → float := SFmul 53 1024.
Definition float_div : float → float → float := SFdiv 53 1024.
(** [min(x, y)] and [max(x, y)] keep the first argument unless the second wins. *)
Definition float_min (x y : float) : float := if SFltb y x then y else x.
Definition float_max (x y : float) : float := if SFltb x y then y else x.

(** The binary64 number nearest to [m * 10 ^ e]. *)
Definition decimal (neg : bool) (m : N) (e : Z) : float :=
  match m with
  | N0 => S754_zero neg
  | Npos m =>
    let f := if (0 <=? e)%Z then binary_normalize 53 1024 (Z.pos m * 10 ^ e) 0 false
             else float_div (S754_finite false m 0) (S754_finite false (Z.to_pos (10 ^ (- e))) 0) in
    if neg then SFopp f else f
  end.

(** [float(s)] for a decimal text: a sign, digits with a point, an exponent. The
    spaces, underscores and names of special values Python also reads are not. *)
Definition float_of_text (s : string) : option float :=
  let '(neg, s) := match s with
                   | String "-" s => (true, s)
                   | String "+" s => (false, s)
                   | s => (false, s)
                   end in
  let '(int_part, s) := take_digits s in
  let '(frac_part, s) := match s with String "." s => take_digits s | s => (EmptyString, s) end in
  if bool_decide (int_part +:+ frac_part = EmptyString) then None
  else
    let m := digits_value 0 (int_part +:+ frac_part) in
    let scale := Z.of_nat (String.length frac_part) in
    match s with
    | EmptyString => Some (decimal neg m (- scale))
    | String c s =>
      if bool_decide (c = "e"%char ∨ c = "E"%char) then
        let s := match s with String "+" s => s | s => s end in
        match parse_int s with Some e => Some (decimal neg m (e - scale)) | None => None end
      else None
    end.

Example float_of_text_ex :
  float_of_text "0.1" = Some (S754_finite false 7205759403792794 (-56)) ∧
  float_of_text "-1e-07" = Some (S754_finite true 7555786372591432 (-76)) ∧
  float_of_text "2.5e+3" = Some (float_of_Z 2500) ∧ float_of_text "." = None.
Proof. repeat split; vm_compute; reflexivity. Qed.

(** ** The order

    A float that is a number has a place in the lexicographic order of its
    class, its exponent and its mantissa. *)
Definition place (x : float) : option (Z * Z * Z) :=
  match x with
  | S754_nan => None
  | S754_infinity s => Some (if s then -2 else 2, 0, 0)%Z
  | S754_zero _ => Some (0, 0, 0)%Z
  | S754_finite s m e => Some (if s then (-1, - e, - Z.pos m) else (1, e, Z.pos m))%Z
  end.

Definition before (p q : Z * Z * Z) : Prop :=
  let '(a1, b1, c1) := p in let '(a2, b2, c2) := q in
  (a1 < a2 ∨ (a1 = a2 ∧ (b1 < b2 ∨ (b1 = b2 ∧ c1 < c2))))%Z.

Lemma SFltb_place x y : SFltb x y = true ↔
  ∃ p q, place x = Some p ∧ place y = Some q ∧ before p q.
Proof.
  assert (Hsome : ∀ p q, (∃ p' q', Some p = Some p' ∧ Some q = Some q' ∧ before p' q') ↔ before p q).
  { intros p q. split; [by intros (?&?&[= <-]&[= <-]&?)|]. intros ?. by exists p, q. }
  destruct x as [s1|s1| |s1 m1 e1], y as [s2|s2| |s2 m2 e2]; cbn [place];
    try (split; [done|by intros (?&?&?&?&?)]); rewrite Hsome; unfold SFltb; cbn [SFcompare];
    unfold before; try (destruct s1); try (destruct s2); try (split; [done|lia]); try (split; [lia|done]);
    change (Pos.compare_cont Eq m1 m2) with (Pos.compare m1 m2);
    destruct (Z.compare_spec e1 e2) as [->| |]; try (split; [done|lia]); try (split; [lia|done]);
    destruct (Pos.compare_spec m1 m2) as [->| |]; cbn [CompOpp]; (split; [done|lia]) || (split; [lia|done]).
Qed.

Lemma SFltb_trans x y z : SFltb x y = true → SFltb y z = true → SFltb x z = true.
Proof.
  rewrite !SFltb_place. intros (p & q & Hx & Hy & H1) (q' & r & Hy' & Hz & H2).
  assert (q' = q) as -> by congruence. exists p, r. split_and!; [done..|].
  destruct p as [[??]?], q as [[??]?], r as [[??]?]. unfold before in *. lia.
Qed.

Lemma SFltb_irrefl x : SFltb x x = false.
Proof.
  destruct (SFltb x x) eqn:E; [|done]. apply SFltb_place in E as (p & q & Hp & Hq & H).
  assert (q = p) as -> by congruence. destruct p as [[??]?]. unfold before in H. lia.
Qed.

(** [min(x, y)] is not above [x]. *)
Lemma float_min_le x y : SFltb x (float_min x y) = false.
Proof.
  unfold float_min. destruct (SFltb y x) eqn:E; [|apply SFltb_irrefl].
  destruct (SFltb x y) eqn:E'; [|done]. pose proof (SFltb_trans _ _ _ E E') as H. by rewrite SFltb_irrefl in H.
Qed.

(** ** [int(x)] and [float(x)] *)

(** A value of a JSON document: one that was written down, or a float that was
    computed. *)
Inductive any : Type :=
  | AVal (v : pyval)
  | AFloat (f : float).

(** Towards zero; [int] raises on infinities and NaN. *)
Definition int_of_float (f : float) : option Z :=
  match f with
  | S754_zero _ => Some 0%Z
  | S754_finite s m e =>
    let z := if (0 <=? e)%Z then (Z.pos m * 2 ^ e)%Z else (Z.pos m / 2 ^ (- e))%Z in
    Some (if s then (- z)%Z else z)
  | S754_infinity _ | S754_nan => None
  end.

(** A float by its [repr]. *)
Definition float_of_repr (r : string) : option float :=
  if bool_decide (r = "inf") then Some (S754_infinity false)
  else if bool_decide (r = "-inf") then Some (S754_infinity true)
  else if bool_decide (r = "nan") then Some S754_nan
  else float_of_text r.

Definition conversion_error : exn := ValueError "could not convert".
Definition some_or {A} (x : exn) (o : option A) : result A :=
  match o with Some a => Ok a | None => Err x end.

Definition py_int (a : any) : result Z :=
  match a with
  | AFloat f => some_or conversion_error (int_of_float f)
  | AVal (PInt z) => Ok z
  | AVal (PBool b) => Ok (if b then 1 else 0)%Z
  | AVal (PFloat r) => some_or conversion_error (f ← float_of_repr r; int_of_float f)
  | AVal (PStr s) => some_or conversion_error (parse_int s)
  | AVal _ => Err type_error
  end.

(** An integer too large for a float raises [OverflowError]. *)
Definition float_of_int (z : Z) : result float :=
  match float_of_Z z with
  | S754_infinity _ => Err (UserError "OverflowError" "int too large to convert to float")
  | f => Ok f
  end.

Definition py_float (a : any) : result float :=
  match a with
  | AFloat f => Ok f
  | AVal (PInt z) => float_of_int z
  | AVal (PBool b) => Ok (float_of_Z (if b then 1 else 0))
  | AVal (PFloat r) => some_or conversion_error (float_of_repr r)
  | AVal (PStr s) => some_or conversion_error (float_of_text s)
  | AVal _ => Err type_error
  end.

Example py_int_ex :
  py_int (AVal (PFloat "-3.7")) = Ok (-3)%Z ∧ py_int (AVal (PStr "12")) = Ok 12%Z ∧
  py_int (AVal (PFloat "nan")) = Err conversion_error ∧ py_float (AVal (PStr "2.50")) = py_float (AVal (PFloat "2.5")).
Proof. repeat split; vm_compute; reflexivity. Qed.

(** ** Fields of a document the caller wrote *)

(** [arguments[key]] *)
Definition argument (key : string) (arguments : dict pyval) : result pyval :=
  match Dict.get key arguments with Some v => Ok v | None => Err (KeyError key) end.

(** [arguments.get(key) or v] *)
Definition argument_or (key : string) (v : pyval) (arguments : dict pyval) : pyval :=
  let x := Dict.get_default key PNone arguments in if truthy x then x else v.

(** [dict(v)]: a dictionary is copied, a list gives its pairs. Keys are strings,
    as in every dictionary of the development, and a pair is a list: the other
    sequences of length two Python takes for a pair are not modelled. *)
Definition pair_of (v : pyval) : result (string * pyval) :=
  match v with
  | PList [PStr k; x] => Ok (k, x)
  | _ => Err (ValueError "dictionary update sequence element is not a pair")
  end.

Definition dict_of (v : pyval) : result (dict pyval) :=
  match v with
  | PDict d => Ok d
  | PList l =>
    foldl (λ acc v, d ← acc; kv ← pair_of v; Ok (Dict.set kv.1 kv.2 d)) (Ok []) l
  | PStr "" => Ok []
  | PStr _ => Err (ValueError "dictionary update sequence element is not a pair")
  | _ => Err type_error
  end.
