(* ===== verification/RedisClient.v ===== *)
(** * The Redis client

    Redis and [redis-py] are not part of the repository. [RedisClient] lists the
    commands [backends/redis_backend.py] and the service registry issue, and
    [RedisLaws] what the documentation of Redis says of them, over one key space
    [redis_map] of hashes, sorted sets and texts. A key with a time to live may
    be gone before any command: [aged]. [redis_map] itself is a client, one that
    never forgets a key. *)

From S2P Require Import Prelude PyValue Isotime Meta.

Abbreviation hash := (gmap string string).

Inductive redis_value : Type :=
  | RHash (h : hash)
  | RZset (z : gmap string Z)
  | RText (s : string).

Abbreviation redis_map := (gmap string redis_value).

(** A reply that reports an error. *)
Definition response_error (msg : string) : exn := UserError "ResponseError" msg.
Definition wrong_type : exn := response_error "WRONGTYPE Operation against a key holding the wrong kind of value".

(** ** Commands *)

Class RedisClient (C : Type) := {
  hset : string → dict string → M C unit;
  hget : string → string → M C (option string);
  hgetall : string → M C hash;
  hincrby : string → string → Z → M C unit;
  hdel : string → string → M C unit;
  exists_key : string → M C bool;
  delete_keys : list string → M C unit;
  zadd : string → string → Z → M C unit;
  zrem : string → string → M C unit;
  zrevrange : string → Z → Z → M C (list string);
  set_ex : string → string → Z → M C unit;
  expire : string → Z → M C unit;
  ttl : string → M C Z;
  scan_iter : string → M C (list string);
  redis_ping : M C bool;
  redis_close : M C unit;
  redis_error : exn → bool;
}.

(** ** What the commands do *)

(** Setting the fields of a mapping. *)
Definition set_fields (h : hash) (mapping : dict string) : hash :=
  foldl (λ h kv, <[kv.1 := kv.2]> h) h mapping.

Definition do_hset (k : string) (mapping : dict string) (m : redis_map) : result unit * redis_map :=
  match m !! k with
  | None => (Ok tt, <[k := RHash (set_fields ∅ mapping)]> m)
  | Some (RHash h) => (Ok tt, <[k := RHash (set_fields h mapping)]> m)
  | Some _ => (Err wrong_type, m)
  end.

Definition do_hget (k f : string) (m : redis_map) : result (option string) :=
  match m !! k with
  | None => Ok None
  | Some (RHash h) => Ok (h !! f)
  | Some _ => Err wrong_type
  end.

Definition do_hgetall (k : string) (m : redis_map) : result hash :=
  match m !! k with
  | None => Ok ∅
  | Some (RHash h) => Ok h
  | Some _ => Err wrong_type
  end.

(** Integers are of 64 bits. *)
Definition int64 (z : Z) : Prop := (-9223372036854775808 ≤ z ≤ 9223372036854775807)%Z.
#[export] Instance int64_dec z : Decision (int64 z).
Proof. unfold int64. apply _. Defined.

Definition do_hincrby (k f : string) (n : Z) (m : redis_map) : result unit * redis_map :=
  match m !! k with
  | Some (RText _) | Some (RZset _) => (Err wrong_type, m)
  | o =>
    let h := match o with Some (RHash h) => h | _ => ∅ end in
    match parse_int (default "0" (h !! f)) with
    | None => (Err (response_error "ERR hash value is not an integer"), m)
    | Some z =>
      if decide (int64 z ∧ int64 (z + n)) then (Ok tt, <[k := RHash (<[f := pretty (z + n)%Z]> h)]> m)
      else (Err (response_error "ERR increment or decrement would overflow"), m)
    end
  end.

(** A hash without fields is a key that does not exist. *)
Definition do_hdel (k f : string) (m : redis_map) : result unit * redis_map :=
  match m !! k with
  | None => (Ok tt, m)
  | Some (RHash h) => (Ok tt, if decide (delete f h = ∅) then delete k m else <[k := RHash (delete f h)]> m)
  | Some _ => (Err wrong_type, m)
  end.

Definition zset_at (k : string) (m : redis_map) : option (gmap string Z) :=
  match m !! k with
  | None => Some ∅
  | Some (RZset z) => Some z
  | Some _ => None
  end.

(** A sorted set without members is a key that does not exist. *)
Definition put_zset (k : string) (z : gmap string Z) (m : redis_map) : redis_map :=
  if decide (z = ∅) then delete k m else <[k := RZset z]> m.

Definition do_zadd (k member : string) (score : Z) (m : redis_map) : result unit * redis_map :=
  match zset_at k m with
  | Some z => (Ok tt, put_zset k (<[member := score]> z) m)
  | None => (Err wrong_type, m)
  end.

Definition do_zrem (k member : string) (m : redis_map) : result unit * redis_map :=
  match zset_at k m with
  | Some z => (Ok tt, put_zset k (delete member z) m)
  | None => (Err wrong_type, m)
  end.

Definition do_delete (ks : list string) (m : redis_map) : redis_map := foldr delete m ks.

Definition do_set_ex (k s : string) (seconds : Z) (m : redis_map) : result unit * redis_map :=
  if (seconds <=? 0)%Z then (Err (response_error "ERR invalid expire time in 'set' command"), m)
  else (Ok tt, <[k := RText s]> m).

(** Scores are doubles: integers up to 2^53 in absolute value are exact. *)
Definition exact_score (z : Z) : Prop := (-9007199254740992 ≤ z ≤ 9007199254740992)%Z.

(** The members from the highest score to the lowest. *)
Definition ranking (z : gmap string Z) (l : list string) : Prop :=
  l ≡ₚ (map_to_list z).*1 ∧
  StronglySorted (λ a b, default 0 (z !! b) ≤ default 0 (z !! a))%Z l.

(** A pattern whose only special character is the last one. *)
Definition literal (s : string) : bool :=
  negb (any_in ["*"; "?"; "["; "]"; "\"] s).

(** ** Laws *)

(** Texts, the values given a time to live, may have expired. *)
Definition aged (m m' : redis_map) : Prop :=
  ∀ k, m' !! k = m !! k ∨ (m' !! k = None ∧ ∃ s, m !! k = Some (RText s)).

Class RedisLaws (C : Type) `{RedisClient C} := {
  db : C → redis_map;
  hset_ok c k mapping : mapping ≠ [] →
    wp (hset k mapping) c (λ r c', ∃ m, aged (db c) m ∧ (r, db c') = do_hset k mapping m);
  hget_ok c k f : wp (hget k f) c (λ r c', aged (db c) (db c') ∧ r = do_hget k f (db c'));
  hgetall_ok c k : wp (hgetall k) c (λ r c', aged (db c) (db c') ∧ r = do_hgetall k (db c'));
  hincrby_ok c k f n :
    wp (hincrby k f n) c (λ r c', ∃ m, aged (db c) m ∧ (r, db c') = do_hincrby k f n m);
  hdel_ok c k f :
    wp (hdel k f) c (λ r c', ∃ m, aged (db c) m ∧ (r, db c') = do_hdel k f m);
  exists_ok c k :
    wp (exists_key k) c (λ r c', aged (db c) (db c') ∧ r = Ok (bool_decide (is_Some (db c' !! k))));
  delete_ok c ks :
    wp (delete_keys ks) c (λ r c', ∃ m, aged (db c) m ∧ r = Ok tt ∧ db c' = do_delete ks m);
  zadd_ok c k member score : exact_score score →
    wp (zadd k member score) c (λ r c', ∃ m, aged (db c) m ∧ (r, db c') = do_zadd k member score m);
  zrem_ok c k member :
    wp (zrem k member) c (λ r c', ∃ m, aged (db c) m ∧ (r, db c') = do_zrem k member m);
  zrevrange_ok c k stop : (0 ≤ stop)%Z →
    wp (zrevrange k 0 stop) c (λ r c', aged (db c) (db c') ∧
      match zset_at k (db c') with
      | Some z => ∃ l, ranking z l ∧ r = Ok (take (Z.to_nat (stop + 1)) l)
      | None => r = Err wrong_type
      end);
  set_ex_ok c k s seconds :
    wp (set_ex k s seconds) c (λ r c', ∃ m, aged (db c) m ∧ (r, db c') = do_set_ex k s seconds m);
  expire_ok c k seconds : (0 < seconds)%Z →
    wp (expire k seconds) c (λ r c', aged (db c) (db c') ∧ r = Ok tt);
  ttl_ok c k :
    wp (ttl k) c (λ r c', aged (db c) (db c') ∧ ∃ n, r = Ok n ∧ (db c' !! k = None → n = -2)%Z);
  (* a key that exists throughout is returned, once or more *)
  scan_ok c p : literal p = true →
    wp (scan_iter (p +:+ "*")) c (λ r c', aged (db c) (db c') ∧ ∃ l, r = Ok l ∧
      ∀ k, k ∈ l ↔ starts_with p k = true ∧ is_Some (db c' !! k));
  redis_ping_ok c : wp redis_ping c (λ _ c', aged (db c) (db c'));
  response_error_is msg : redis_error (response_error msg) = true;
}.

(** ** A client that is the key space *)

(** Run a command that changes the key space. *)
Definition run_on (f : redis_map → result unit * redis_map) : M redis_map unit :=
  λ m e, (f m, e).

#[export] Instance map_client : RedisClient redis_map := {|
  hset k mapping := run_on (do_hset k mapping);
  hget k f := m ← get_state; lift (do_hget k f m);
  hgetall k := m ← get_state; lift (do_hgetall k m);
  hincrby k f n := run_on (do_hincrby k f n);
  hdel k f := run_on (do_hdel k f);
  exists_key k := gets (λ m, bool_decide (is_Some (m !! k)));
  delete_keys ks := modify (do_delete ks);
  zadd k member score := run_on (do_zadd k member score);
  zrem k member := run_on (do_zrem k member);
  zrevrange k start stop := m ← get_state;
    match zset_at k m with
    | Some z => mret (take (Z.to_nat (stop + 1))
        (stable_sort (λ a b, (default 0 (z !! b) <=? default 0 (z !! a))%Z) (map_to_list z).*1))
    | None => raise wrong_type
    end;
  set_ex k s seconds := run_on (do_set_ex k s seconds);
  expire k seconds := mret tt;
  ttl k := gets (λ m, if decide (m !! k = None) then (-2)%Z else (-1)%Z);
  scan_iter pattern := gets (λ m,
    filter (λ k, starts_with (String.substring 0 (String.length pattern - 1) pattern) k = true)
      (map_to_list m).*1);
  redis_ping := mret true;
  redis_close := mret tt;
  redis_error x := match x with UserError cls _ => bool_decide (cls = "ResponseError") | _ => false end;
|}.

Lemma aged_refl m : aged m m.
Proof. by left. Qed.

Lemma wp_run_on f m Q : Q (f m).1 (f m).2 → wp (run_on f) m Q.
Proof. intros H e. unfold run_on. by destruct (f m). Qed.

Lemma ranking_sort (z : gmap string Z) :
  ranking z (stable_sort (λ a b, (default 0 (z !! b) <=? default 0 (z !! a))%Z) (map_to_list z).*1).
Proof.
  split; [apply stable_sort_perm|].
  apply stable_sort_sorted_by; [intros x y|intros x y t|intros x y]; rewrite ?Z.leb_le; lia.
Qed.

Lemma substring_app p : String.substring 0 (String.length (p +:+ "*") - 1) (p +:+ "*") = p.
Proof.
  assert (H : String.length (p +:+ "*") = S (String.length p)).
  { induction p as [|c p IH]; [done|]. change (S (String.length (p +:+ "*")) = S (S (String.length p))). by rewrite IH. }
  rewrite H, Nat.sub_succ, Nat.sub_0_r. clear H. induction p as [|c p IH]; [done|].
  change (String c (String.substring 0 (String.length p) (p +:+ "*")) = String c p). by rewrite IH.
Qed.

#[export] Program Instance map_client_laws : RedisLaws redis_map := {| db m := m |}.
Next Obligation. intros c k mapping _. apply wp_run_on. exists c. split; [apply aged_refl|]. by destruct (do_hset _ _ _). Qed.
Next Obligation. intros c k f. simpl. wp_steps. apply wp_lift. by split; [apply aged_refl|]. Qed.
Next Obligation. intros c k. simpl. wp_steps. apply wp_lift. by split; [apply aged_refl|]. Qed.
Next Obligation. intros c k f n. apply wp_run_on. exists c. split; [apply aged_refl|]. by destruct (do_hincrby _ _ _ _). Qed.
Next Obligation. intros c k f. apply wp_run_on. exists c. split; [apply aged_refl|]. by destruct (do_hdel _ _ _). Qed.
Next Obligation. intros c k. simpl. wp_steps. by split; [apply aged_refl|]. Qed.
Next Obligation. intros c ks. simpl. wp_steps. exists c. by split; [apply aged_refl|]. Qed.
Next Obligation. intros c k x s _. apply wp_run_on. exists c. split; [apply aged_refl|]. by destruct (do_zadd _ _ _ _). Qed.
Next Obligation. intros c k x. apply wp_run_on. exists c. split; [apply aged_refl|]. by destruct (do_zrem _ _ _). Qed.
Next Obligation.
  intros c k stop _. simpl. wp_steps. destruct (zset_at k c) as [z|] eqn:E; wp_steps; (split; [apply aged_refl|]); rewrite E; [|done].
  eexists. split; [apply ranking_sort|done].
Qed.
Next Obligation. intros c k s n. apply wp_run_on. exists c. split; [apply aged_refl|]. by destruct (do_set_ex _ _ _ _). Qed.
Next Obligation. intros c k n _. simpl. wp_steps. by split; [apply aged_refl|]. Qed.
Next Obligation.
  intros c k. simpl. wp_steps. split; [apply aged_refl|]. eexists. split; [done|]. intros H.
  by rewrite decide_True.
Qed.
Next Obligation.
  intros c p _. simpl. wp_steps. split; [apply aged_refl|]. eexists. split; [done|]. intros k.
  rewrite substring_app, list_elem_of_filter. f_equiv. rewrite list_elem_of_fmap. split.
  - intros ([k' v] & -> & Hv%elem_of_map_to_list). by eexists.
  - intros [v Hv]. exists (k, v). split; [done|]. by apply elem_of_map_to_list.
Qed.
Next Obligation. intros c. simpl. wp_steps. apply aged_refl. Qed.
Next Obligation. done. Qed.
