(* ===== verification/StateMachine.v ===== *)
(** * The job state machine and its per-job-type extensions

    [domain/state_machine.py] and [extensions/state_extensions.py]: the default
    transition table, the registry of domain-specific extensions (the module
    global [REGISTRY] is an explicit argument), and the transition checks of
    [JobStateMachine]. *)

From S2P Require Import Prelude PyValue Domain.

Abbreviation table := (dict (gset string)).

(** [table.get(state, set())] *)
Definition targets_of (t : table) (state : string) : gset string :=
  Dict.get_default state ∅ t.

Definition mkset (l : list string) : gset string := list_to_set l.

Definition DEFAULT_TRANSITIONS : table :=
  [("queued", mkset ["scheduled"; "running"; "dispatched"; "cancelled"; "timeout"]);
   ("scheduled", mkset ["queued"; "running"; "dispatched"; "cancelled"; "timeout"]);
   ("running", mkset ["succeeded"; "failed"; "retry_wait"; "cancelled"; "paused"; "blocked";
                      "timeout"; "ttl_expired"]);
   ("retry_wait", mkset ["queued"; "running"; "failed"; "cancelled"; "timeout"; "dead_lettered"]);
   ("paused", mkset ["running"; "cancelled"; "timeout"; "ttl_expired"]);
   ("succeeded", mkset ["archived"]);
   ("failed", mkset ["dead_lettered"; "archived"]);
   ("cancelled", mkset ["archived"]);
   ("timeout", mkset ["retry_wait"; "failed"; "dead_lettered"; "archived"]);
   ("ttl_expired", mkset ["archived"]);
   ("created", mkset ["validated"; "cancelled"]);
   ("validated", mkset ["queued"; "failed"]);
   ("dispatched", mkset ["running"; "cancelled"; "timeout"]);
   ("blocked", mkset ["running"; "cancelled"; "timeout"; "failed"]);
   ("dead_lettered", mkset ["archived"]);
   ("archived", ∅)].

(** ** The extension registry *)

Record StateExtension : Type := mkStateExtension {
  ext_job_type : string;
  custom_states : gset string;
  custom_transitions : table;
}.

(** [StateExtensionRegistry._extensions] *)
Abbreviation Registry := (dict StateExtension).

(** One iteration of the validation loop of [register_state_extension]. *)
Definition check_source (states : gset string) (_ : unit) (st : string * gset string)
    : M Registry unit :=
  let '(state, targets) := st in
  if negb (bool_decide (state ∈ states)) then
    raise (ValueError ("Custom transition source not in custom states: " +:+ state))
  else if bool_decide ("" ∈ targets) then
    raise (ValueError ("Custom transition target is invalid for " +:+ state))
  else mret tt.

Definition register_state_extension (job_type : string) (states : gset string)
    (transitions : table) : M Registry unit :=
  foldM (check_source states) tt transitions;;
  modify (Dict.set job_type (mkStateExtension job_type states transitions)).

Definition registry_get (job_type : string) (reg : Registry) : option StateExtension :=
  Dict.get job_type reg.

Definition registry_clear : M Registry unit := modify (λ _, []).

(** ** JobStateMachine *)

Record JobStateMachine : Type := mkJobStateMachine { transitions : table }.

(** [JobStateMachine(transitions)]: [None] and an empty table select the default. *)
Definition new_state_machine (ts : option table) : JobStateMachine :=
  mkJobStateMachine
    match ts with
    | Some ts => if bool_decide (Dict.keys ts = []) then DEFAULT_TRANSITIONS else ts
    | None => DEFAULT_TRANSITIONS
    end.

(** [merged.setdefault(state, set())] *)
Definition setdefault (state : string) (t : table) : table :=
  match Dict.get state t with
  | Some _ => t
  | None => Dict.set state ∅ t
  end.

(** [merged.setdefault(state, set()).update(targets)] *)
Definition merge_targets (t : table) (st : string * gset string) : table :=
  Dict.set st.1 (targets_of t st.1 ∪ st.2) t.

Definition merged_transitions_for (reg : Registry) (sm : JobStateMachine)
    (job_type : option string) : table :=
  let merged := transitions sm in
  if negb (truthy_opt_str job_type) then merged
  else match registry_get (default "" job_type) reg with
       | None => merged
       | Some extension =>
         let merged := foldl (λ t s, setdefault s t) merged (elements (custom_states extension)) in
         foldl merge_targets merged (custom_transitions extension)
       end.

Definition can_transition (reg : Registry) (sm : JobStateMachine) (job_type : option string)
    (from_state to_state : string) : bool :=
  bool_decide (to_state ∈ targets_of (merged_transitions_for reg sm job_type) from_state).

Definition transition (reg : Registry) (job_type : option string) (from_state to_state : string)
    : M JobStateMachine string :=
  sm ← get_state;
  if negb (can_transition reg sm job_type from_state to_state) then
    raise (ValueError ("Invalid transition: " +:+ from_state +:+ " -> " +:+ to_state))
  else mret to_state.

Definition is_terminal (reg : Registry) (sm : JobStateMachine) (job_type : option string)
    (state : string) : bool :=
  bool_decide (size (targets_of (merged_transitions_for reg sm job_type) state) = 0).

Definition is_retryable (state : string) : bool :=
  bool_decide (state ∈ ["failed"; "retry_wait"; "timeout"]).

(** ** Lookups in the merged table *)

Section merged.
Implicit Types (t : table) (reg : Registry) (sm : JobStateMachine).

Lemma targets_setdefault t s s' : targets_of (setdefault s t) s' = targets_of t s'.
Proof.
  unfold setdefault, targets_of, Dict.get_default. destruct (Dict.get s t) eqn:E; [done|].
  rewrite Dict.get_set. case_decide; subst; [by rewrite E | done].
Qed.

Lemma targets_setdefaults l t s : targets_of (foldl (λ t s, setdefault s t) t l) s = targets_of t s.
Proof. revert t. induction l as [|x l IH]; intros t; simpl; [done|]. by rewrite IH, targets_setdefault. Qed.

Lemma targets_merge t st s :
  targets_of (merge_targets t st) s =
  if decide (st.1 = s) then targets_of t s ∪ st.2 else targets_of t s.
Proof.
  unfold merge_targets, targets_of, Dict.get_default. rewrite Dict.get_set.
  case_decide; subst; done.
Qed.

Lemma targets_of_cons t k v s :
  targets_of ((k, v) :: t) s = if decide (s = k) then v else targets_of t s.
Proof. unfold targets_of, Dict.get_default. simpl. by case_decide. Qed.

Lemma targets_merge_all (ct : table) t s :
  Dict.wf ct → targets_of (foldl merge_targets t ct) s = targets_of t s ∪ targets_of ct s.
Proof.
  unfold Dict.wf. revert t. induction ct as [|[k v] ct IH]; intros t Hwf; simpl.
  - unfold targets_of at 3. simpl. set_solver.
  - rewrite Dict.keys_cons, NoDup_cons in Hwf. destruct Hwf as [Hk Hwf].
    rewrite IH, targets_merge by done. simpl.
    assert (targets_of ct k = ∅) as Hct.
    { unfold targets_of, Dict.get_default. by rewrite (proj2 (Dict.get_None k ct) Hk). }
    rewrite targets_of_cons. destruct (decide (k = s)) as [->|Hne].
    + rewrite decide_True, Hct by done. set_solver.
    + by rewrite decide_False by done.
Qed.

(** The targets an extension adds for [state]. *)
Definition extension_targets reg (job_type : option string) (state : string) : gset string :=
  if truthy_opt_str job_type then
    match registry_get (default "" job_type) reg with
    | Some e => targets_of (custom_transitions e) state
    | None => ∅
    end
  else ∅.

Definition registry_wf reg : Prop :=
  ∀ k e, Dict.get k reg = Some e → Dict.wf (custom_transitions e).

Lemma targets_merged reg sm job_type s :
  registry_wf reg →
  targets_of (merged_transitions_for reg sm job_type) s =
  targets_of (transitions sm) s ∪ extension_targets reg job_type s.
Proof.
  intros Hreg. unfold merged_transitions_for, extension_targets.
  destruct (truthy_opt_str job_type); simpl; [|set_solver].
  unfold registry_get. destruct (Dict.get _ reg) as [e|] eqn:E; [|set_solver].
  rewrite targets_merge_all by eauto. by rewrite targets_setdefaults.
Qed.

(** The condition the validation loop enforces. *)
Definition valid_extension (states : gset string) (ts : table) : Prop :=
  Forall (λ st, st.1 ∈ states ∧ "" ∉ st.2) ts.

Lemma check_sources_spec states (ts : table) (reg : Registry) :
  wp (foldM (check_source states) tt ts) reg (λ r reg',
    reg' = reg ∧ match r with
                 | Ok _ => valid_extension states ts
                 | Err x => ¬ valid_extension states ts ∧ ∃ m, x = ValueError m
                 end).
Proof.
  eapply (wp_foldM _ (λ done _ reg', reg' = reg ∧ valid_extension states done)).
  - split; [done|constructor].
  - intros done [s ts'] todo [] reg' -> [-> Hdone]. unfold check_source.
    case_bool_decide as Hs; simpl.
    + case_bool_decide as He.
      * apply wp_raise. split; [done|]. split; [|eauto].
        unfold valid_extension. rewrite Forall_app, Forall_cons. naive_solver.
      * apply wp_ret. split; [done|]. apply Forall_app. split; [done|].
        by apply Forall_singleton.
    + apply wp_raise. split; [done|]. split; [|eauto].
      unfold valid_extension. rewrite Forall_app, Forall_cons. naive_solver.
  - done.
Qed.

Lemma register_state_extension_spec jt states ts reg :
  wp (register_state_extension jt states ts) reg (λ r reg',
    match r with
    | Ok _ => valid_extension states ts ∧ reg' = Dict.set jt (mkStateExtension jt states ts) reg
    | Err x => ¬ valid_extension states ts ∧ (∃ m, x = ValueError m) ∧ reg' = reg
    end).
Proof.
  unfold register_state_extension. apply wp_bind.
  eapply wp_mono; [apply check_sources_spec|]. intros [[]|x] reg' [-> H]; simpl.
  - by apply wp_modify.
  - destruct H as [? ?]. done.
Qed.
End merged.

(** ** The lifecycle as a step relation *)

Inductive lifecycle_step (reg : Registry) (sm : JobStateMachine) (jt : option string)
    : string → string → Prop :=
  | lifecycle_step_intro s t :
      can_transition reg sm jt s t = true → lifecycle_step reg sm jt s t.

Abbreviation default_step reg := (lifecycle_step reg (new_state_machine None) None).

(** The states of a job whose outcome is final. *)
Definition settled : gset string :=
  mkset ["succeeded"; "failed"; "cancelled"; "ttl_expired"; "dead_lettered"; "archived"].

Lemma default_step_targets reg s t :
  default_step reg s t ↔ t ∈ targets_of DEFAULT_TRANSITIONS s.
Proof.
  split.
  - intros [s' t' H]. by apply bool_decide_eq_true in H.
  - intros H. constructor. by apply bool_decide_eq_true.
Qed.

(** Every row of the default table satisfies a decidable test. *)
Lemma default_table_forall (P : string → string → Prop) `{∀ s t, Decision (P s t)} :
  bool_decide (Forall (λ row, Forall (P row.1) (elements row.2)) DEFAULT_TRANSITIONS) = true →
  ∀ s t, t ∈ targets_of DEFAULT_TRANSITIONS s → P s t.
Proof.
  intros Hall%bool_decide_eq_true s t Ht.
  unfold targets_of, Dict.get_default in Ht.
  destruct (Dict.get s DEFAULT_TRANSITIONS) as [ts|] eqn:E; [|set_solver].
  apply Dict.elem_of_get in E.
  - rewrite Forall_forall in Hall. specialize (Hall _ E). simpl in *.
    rewrite Forall_forall in Hall. apply Hall. by apply elem_of_elements.
  - apply (bool_decide_unpack _). by vm_compute.
Qed.

(** Once a job's outcome is settled (succeeded, failed, cancelled, expired,
    dead-lettered or archived) no sequence of transitions of the default state
    machine leads back to an active state. *)
Theorem settled_is_final reg s t :
  rtc (default_step reg) s t → s ∈ settled → t ∈ settled.
Proof.
  induction 1 as [s|s s' t Hstep _ IH]; intros Hs; [done|]. apply IH.
  apply default_step_targets in Hstep.
  clear IH. revert s s' Hstep Hs.
  apply (default_table_forall (λ s s', s ∈ settled → s' ∈ settled)). by vm_compute.
Qed.

Lemma settled_is_final_witness :
  "failed" ∈ settled ∧ rtc (default_step []) "failed" "archived" ∧ "archived" ∈ settled.
Proof.
  assert (Hp : rtc (default_step []) "failed" "archived").
  { apply rtc_once. constructor. vm_compute. reflexivity. }
  assert (Hf : "failed" ∈ settled) by (apply (bool_decide_unpack _); vm_compute; exact I).
  split; [exact Hf|]. split; [exact Hp|]. exact (settled_is_final [] _ _ Hp Hf).
Defined.

(** A route to [archived] for each status. *)
Definition archive_route (st : JobStatus) : list string :=
  match st with
  | QUEUED | SCHEDULED | PAUSED | DISPATCHED | BLOCKED | RETRY_WAIT =>
      ["cancelled"; "archived"]
  | RUNNING => ["succeeded"; "archived"]
  | CREATED => ["cancelled"; "archived"]
  | VALIDATED => ["failed"; "archived"]
  | ARCHIVED => []
  | TIMEOUT | TTL_EXPIRED | SUCCEEDED | FAILED | CANCELLED | DEAD_LETTERED => ["archived"]
  end.

Fixpoint route_ok (s : string) (route : list string) : bool :=
  match route with
  | [] => bool_decide (s = "archived")
  | t :: route => can_transition [] (new_state_machine None) None s t && route_ok t route
  end.

Lemma route_ok_rtc reg s route : route_ok s route = true → rtc (default_step reg) s "archived".
Proof.
  revert s. induction route as [|t route IH]; intros s; simpl.
  - intros ->%bool_decide_eq_true. done.
  - intros [H1 H2]%andb_true_iff. eapply rtc_l; [by constructor|]. by apply IH.
Qed.

(** No status is a dead end: from every status of the enumeration the
    default machine can reach [archived], and [archived] is the only terminal
    status. *)
Theorem every_status_can_be_archived reg (st : JobStatus) :
  rtc (default_step reg) (value st) "archived" ∧
  (is_terminal reg (new_state_machine None) None (value st) = true ↔ st = ARCHIVED).
Proof.
  split; [apply (route_ok_rtc reg _ (archive_route st)); by destruct st; vm_compute|].
  unfold is_terminal. simpl. destruct st; split; by vm_compute.
Qed.

(** The default machine only moves between statuses of [JobStatus]:
    [transition] returns a status exactly when the table lists it, and
    otherwise raises [ValueError] with the machine unchanged. *)
Theorem default_transition_typed reg from to sm :
  sm = new_state_machine None →
  wp (transition reg None from to) sm (λ r sm', sm' = sm ∧
    match r with
    | Ok t => t = to ∧ default_step reg from to ∧ ∃ a b : JobStatus, from = value a ∧ t = value b
    | Err x => ¬ default_step reg from to ∧ ∃ m, x = ValueError m
    end).
Proof.
  intros ->. unfold transition. wp_steps.
  destruct (can_transition _ _ _ from to) eqn:E; simpl; wp_steps.
  - split; [done|]. split; [done|]. split; [by constructor|].
    apply bool_decide_eq_true in E.
    cut (is_Some (JobStatus_of from) ∧ is_Some (JobStatus_of to)).
    { intros [[a Ha] [b Hb]]. exists a, b. by rewrite <- !JobStatus_of_Some. }
    revert from to E. apply (default_table_forall
      (λ from to, is_Some (JobStatus_of from) ∧ is_Some (JobStatus_of to))). by vm_compute.
  - split; [done|]. split; [|eauto]. intros H. inversion H. congruence.
Qed.

Lemma default_transition_typed_witness :
  wp (transition [] None "queued" "running") (new_state_machine None) (λ r sm',
    sm' = new_state_machine None ∧
    match r with
    | Ok t => t = "running" ∧ default_step [] "queued" "running" ∧
              ∃ a b : JobStatus, "queued" = value a ∧ t = value b
    | Err x => ¬ default_step [] "queued" "running" ∧ ∃ m, x = ValueError m
    end).
Proof. exact (default_transition_typed [] "queued" "running" _ eq_refl). Defined.

(** Registering an extension is all or nothing. It succeeds exactly when
    every source is one of the declared custom states and no target is empty;
    then, for that job type, the machine allows a transition exactly when its
    own table or the extension lists it, and other job types are not affected.
    Otherwise it raises [ValueError] and the registry is unchanged. *)
Theorem extension_registration reg sm jt states ts :
  registry_wf reg → Dict.wf ts → jt ≠ "" →
  wp (register_state_extension jt states ts) reg (λ r reg',
    match r with
    | Ok _ => valid_extension states ts ∧
        (∀ s t, can_transition reg' sm (Some jt) s t =
                bool_decide (t ∈ targets_of (transitions sm) s ∪ targets_of ts s)) ∧
        (∀ jt' s t, jt' ≠ Some jt →
           can_transition reg' sm jt' s t = can_transition reg sm jt' s t)
    | Err x => ¬ valid_extension states ts ∧ (∃ m, x = ValueError m) ∧ reg' = reg
    end).
Proof.
  intros Hreg Hts Hjt. eapply wp_mono; [apply register_state_extension_spec|].
  intros [[]|x] reg'; [|done]. intros [Hvalid ->]. split; [done|].
  set (reg' := Dict.set _ _ _).
  assert (Hreg' : registry_wf reg').
  { intros k e. unfold reg'. rewrite Dict.get_set.
    case_decide; [by intros [= <-] | apply Hreg]. }
  split; [intros s t | intros jt' s t Hne]; unfold can_transition;
    rewrite !targets_merged by done; unfold extension_targets, registry_get, reg'; simpl.
  - rewrite Dict.get_set_eq. unfold truthy_str.
    by rewrite (bool_decide_eq_false_2 (jt = "")) by done.
  - destruct jt' as [jt'|]; simpl; [|done]. rewrite Dict.get_set_ne by congruence. done.
Qed.

Lemma extension_registration_witness :
  let ts : table := [("accepted", mkset ["delivered"]); ("delivered", mkset ["succeeded"])] in
  let states := mkset ["accepted"; "delivered"] in
  registry_wf [] ∧ Dict.wf ts ∧
  wp (register_state_extension "delivery" states ts) [] (λ r reg',
    match r with
    | Ok _ => valid_extension states ts ∧
        (∀ s t, can_transition reg' (new_state_machine None) (Some "delivery") s t =
           bool_decide (t ∈ targets_of (transitions (new_state_machine None)) s ∪ targets_of ts s)) ∧
        (∀ jt' s t, jt' ≠ Some "delivery" →
           can_transition reg' (new_state_machine None) jt' s t =
           can_transition [] (new_state_machine None) jt' s t)
    | Err x => ¬ valid_extension states ts ∧ (∃ m, x = ValueError m) ∧ reg' = []
    end).
Proof.
  intros ts states.
  assert (H1 : registry_wf []) by (intros k e; discriminate).
  assert (H2 : Dict.wf ts) by (apply (bool_decide_unpack _); vm_compute; exact I).
  split; [exact H1|]. split; [exact H2|].
  apply (extension_registration [] (new_state_machine None) "delivery" states ts H1 H2).
  discriminate.
Defined.
