(* ===== verification/Backend.v ===== *)
(** * The queue backend interface and its contract

    [backends/base.py]: [QueueBackend] is the class of operations every backend
    implements. [BackendContract] is what the rest of the library relies on: an
    abstraction of the backend's state to the map from job identifiers to
    statuses, and for each operation its effect on that map. Queue, worker,
    admin and maintenance theorems are proved against the contract; each backend
    file discharges it. *)

From S2P Require Import Prelude PyValue Domain.

(** ** Operations *)

Class QueueBackend (B : Type) := {
  enqueue : Job → M B string;
  dequeue : Z → option string → option string → M B (list Job);
  claim : string → string → string → M B bool;
  release : string → M B bool;
  heartbeat : string → M B bool;
  get : string → M B (option Job);
  update_status : string → string → M B bool;
  get_queue_status : M B (dict Z);
  health_check : M B bool;
  all_jobs : M B (list Job);
  record_attempt : string → option string → M B bool;
  update_progress : string → dict pyval → M B bool;
  store_result : string → pyval → M B bool;

(** Python reference semantics: the objects a backend returns may be the
    stored ones or copies. [deref j] is the job [j] as its holder sees it now,
    and [assign j f] an attribute assignment through the holder's reference. *)
deref : Job → M B Job;
assign : Job → (Job → Job) → M B unit;
}.

(** ** The abstract queue: statuses by identifier *)

Abbreviation queue_spec := (gmap string JobStatus).

Inductive request : Type :=
  | Enqueue (j : Job)
  | Claim (id host worker : string)
  | Release (id : string)
  | UpdateStatus (id : string) (s : JobStatus)
  | Heartbeat (id : string)
  | GetStatus (id : string).

Inductive reply : Type :=
  | RId (id : string)
  | RBool (b : bool)
  | RUnit
  | RStatus (s : option JobStatus).

#[export] Instance reply_eq_dec : EqDecision reply.
Proof. solve_decision. Defined.

(** What the interface promises for each request. A heartbeat promises nothing
    about its answer, only that no status changes. *)
Definition spec_step (rq : request) (m : queue_spec) : reply * queue_spec :=
  match rq with
  | Enqueue j => (RId (job_id j), <[job_id j := status j]> m)
  | Claim id _ _ =>
      if decide (m !! id = Some QUEUED) then (RBool true, <[id := RUNNING]> m)
      else (RBool false, m)
  | Release id => (RBool (bool_decide (is_Some (m !! id))), alter (λ _, QUEUED) id m)
  | UpdateStatus id s => (RBool (bool_decide (is_Some (m !! id))), alter (λ _, s) id m)
  | Heartbeat _ => (RUnit, m)
  | GetStatus id => (RStatus (m !! id), m)
  end.

Fixpoint spec_run (rqs : list request) (m : queue_spec) : list reply * queue_spec :=
  match rqs with
  | [] => ([], m)
  | rq :: rqs =>
    let '(rp, m) := spec_step rq m in
    let '(rps, m) := spec_run rqs m in (rp :: rps, m)
  end.

(** The same requests, executed by a backend. *)
Definition exec_step {B} `{QueueBackend B} (rq : request) : M B reply :=
  match rq with
  | Enqueue j => id ← enqueue j; mret (RId id)
  | Claim id host worker => ok ← claim id host worker; mret (RBool ok)
  | Release id => ok ← release id; mret (RBool ok)
  | UpdateStatus id s => ok ← update_status id (value s); mret (RBool ok)
  | Heartbeat id => _ ← heartbeat id; mret RUnit
  | GetStatus id => j ← get id; mret (RStatus (status <$> j))
  end.

Definition exec_run {B} `{QueueBackend B} (rqs : list request) : M B (list reply) :=
  foldM (λ rps rq, rp ← exec_step rq; mret (rps ++ [rp])) [] rqs.

(** ** The contract *)

(** [None] is no filter. *)
Definition matches (f : option string) (s : string) : Prop :=
  match f with Some s' => s = s' | None => True end.

#[export] Instance matches_dec f s : Decision (matches f s).
Proof. destruct f; simpl; apply _. Defined.

(** What [dequeue] may return: at most [limit] queued jobs of the requested type
    and queue, none twice. *)
Definition dequeued (m : queue_spec) (limit : Z) (jt qn : option string) (l : list Job) : Prop :=
  (Z.of_nat (length l) ≤ limit)%Z ∧ NoDup (job_id <$> l) ∧
  Forall (λ j, m !! job_id j = Some QUEUED ∧ status j = QUEUED ∧
               matches jt (job_type j) ∧ matches qn (queue_name j)) l.

(** The jobs a backend holds, as it hands them out, by identifier. *)
Abbreviation job_map := (gmap string Job).

Definition jobs_in (c : job_map) : list Job := (map_to_list c).*2.

(** [l] lists every job exactly once. *)
Definition lists_all (c : job_map) (l : list Job) : Prop := l ≡ₚ jobs_in c.

Class BackendContract (B : Type) `{QueueBackend B} := {
  backend_wf : B → Prop;
  statuses : B → queue_spec;
  contents : B → job_map;

  contents_statuses b : backend_wf b → statuses b = status <$> contents b;
  contents_ids b id j : backend_wf b → contents b !! id = Some j → job_id j = id;
  enqueue_ok b j :
    backend_wf b →
    wp (enqueue j) b (λ r b', backend_wf b' ∧ (statuses b !! job_id j = None →
      r = Ok (job_id j) ∧ statuses b' = <[job_id j := status j]> (statuses b)));
  dequeue_ok b limit jt qn :
    backend_wf b → (0 ≤ limit)%Z → jt ≠ Some "" → qn ≠ Some "" →
    wp (dequeue limit jt qn) b (λ r b', b' = b ∧
      ∃ l, r = Ok l ∧ dequeued (statuses b) limit jt qn l ∧
        ∀ j, j ∈ l → contents b !! job_id j = Some j);
  claim_ok b id host worker :
    backend_wf b →
    wp (claim id host worker) b (λ r b', backend_wf b' ∧
      r = Ok (bool_decide (statuses b !! id = Some QUEUED)) ∧
      statuses b' = if decide (statuses b !! id = Some QUEUED)
                    then <[id := RUNNING]> (statuses b) else statuses b);
  release_ok b id :
    backend_wf b →
    wp (release id) b (λ r b', backend_wf b' ∧
      r = Ok (bool_decide (is_Some (statuses b !! id))) ∧
      statuses b' = alter (λ _, QUEUED) id (statuses b));
  heartbeat_ok b id :
    backend_wf b →
    wp (heartbeat id) b (λ r b', backend_wf b' ∧ statuses b' = statuses b ∧ ∃ v, r = Ok v);
  get_ok b id :
    backend_wf b →
    wp (get id) b (λ r b', b' = b ∧ r = Ok (contents b !! id));
  update_status_ok b id s :
    backend_wf b →
    wp (update_status id (value s)) b (λ r b', backend_wf b' ∧
      r = Ok (bool_decide (is_Some (statuses b !! id))) ∧
      statuses b' = alter (λ _, s) id (statuses b));
  all_jobs_ok b :
    backend_wf b →
    wp all_jobs b (λ r b', b' = b ∧ ∃ l, r = Ok l ∧ lists_all (contents b) l);
  deref_ok b j :
    backend_wf b →
    wp (deref j) b (λ r b', b' = b ∧ ∃ j', r = Ok j' ∧ job_id j' = job_id j);
}.

(** ** Consequences *)

Section contents.
Context {B : Type} `{BackendContract B}.

Lemma contents_lookup b id : backend_wf b → statuses b !! id = status <$> contents b !! id.
Proof. intros Hwf. by rewrite contents_statuses, lookup_fmap. Qed.

Lemma jobs_in_elem b j : backend_wf b → j ∈ jobs_in (contents b) ↔ contents b !! job_id j = Some j.
Proof.
  intros Hwf. unfold jobs_in. rewrite list_elem_of_fmap. split.
  - intros ([id j'] & -> & Hin%elem_of_map_to_list). cbn. by rewrite (contents_ids b id j').
  - intros Hj. exists (job_id j, j). split; [done|]. by apply elem_of_map_to_list.
Qed.

Lemma lists_all_elem b l j : backend_wf b → lists_all (contents b) l →
  j ∈ l ↔ contents b !! job_id j = Some j.
Proof. intros Hwf ->. by apply jobs_in_elem. Qed.

Lemma lists_all_nodup b l : backend_wf b → lists_all (contents b) l → NoDup (job_id <$> l).
Proof.
  intros Hwf ->. unfold jobs_in. rewrite <- list_fmap_compose.
  rewrite (list_fmap_ext _ fst); [apply NoDup_fst_map_to_list|].
  intros i [id j] Hi%list_elem_of_lookup_2%elem_of_map_to_list. cbn. by apply (contents_ids b).
Qed.

(** [get], by the status and the identifier of the answer. *)
Lemma get_status_ok b id :
  backend_wf b →
  wp (get id) b (λ r b', b' = b ∧ ∃ oj, r = Ok oj ∧ status <$> oj = statuses b !! id ∧
    ∀ j, oj = Some j → job_id j = id).
Proof.
  intros Hwf. eapply wp_mono; [by apply get_ok|]. intros r b' [-> ->]. split; [done|].
  eexists. split; [done|]. rewrite contents_lookup by done. split; [done|].
  intros j. by apply contents_ids.
Qed.

Lemma dequeue_status_ok b limit jt qn :
  backend_wf b → (0 ≤ limit)%Z → jt ≠ Some "" → qn ≠ Some "" →
  wp (dequeue limit jt qn) b (λ r b', b' = b ∧
    ∃ l, r = Ok l ∧ dequeued (statuses b) limit jt qn l).
Proof. intros. eapply wp_mono; [by apply dequeue_ok|]. naive_solver. Qed.
End contents.

(** ** Refinement: a backend that meets the contract runs like the abstract queue *)

(** No identifier is enqueued twice ([uuid4] makes them distinct). *)
Fixpoint fresh_ids (rqs : list request) (m : queue_spec) : Prop :=
  match rqs with
  | [] => True
  | rq :: rqs =>
    match rq with Enqueue j => m !! job_id j = None | _ => True end ∧
    fresh_ids rqs (spec_step rq m).2
  end.

Section refinement.
Context {B : Type} `{BackendContract B}.

Lemma exec_step_refines rq b :
  backend_wf b → match rq with Enqueue j => statuses b !! job_id j = None | _ => True end →
  wp (exec_step rq) b (λ r b', backend_wf b' ∧
    r = Ok (spec_step rq (statuses b)).1 ∧ statuses b' = (spec_step rq (statuses b)).2).
Proof.
  intros Hwf Hfresh. destruct rq; simpl; wp_steps.
  - eapply wp_mono; [by apply enqueue_ok|]. intros r b' (? & Hnew).
    destruct (Hnew Hfresh) as [-> ?]. by wp_steps.
  - eapply wp_mono; [by apply claim_ok|]. intros r b' (? & -> & Hb'). wp_steps.
    rewrite Hb'. destruct (decide _); [by rewrite bool_decide_eq_true_2 | by rewrite bool_decide_eq_false_2].
  - eapply wp_mono; [by apply release_ok|]. intros r b' (? & -> & ?). by wp_steps.
  - eapply wp_mono; [by apply update_status_ok|]. intros r b' (? & -> & ?). by wp_steps.
  - eapply wp_mono; [by apply heartbeat_ok|]. intros r b' (? & ? & v & ->). by wp_steps.
  - eapply wp_mono; [by apply get_status_ok|]. intros r b' (-> & oj & -> & Hst & _). wp_steps.
    by rewrite Hst.
Qed.

Lemma exec_run_refines rqs b rps0 :
  backend_wf b → fresh_ids rqs (statuses b) →
  wp (foldM (λ rps rq, rp ← exec_step rq; mret (rps ++ [rp])) rps0 rqs) b (λ r b',
    backend_wf b' ∧ r = Ok (rps0 ++ (spec_run rqs (statuses b)).1) ∧
    statuses b' = (spec_run rqs (statuses b)).2).
Proof.
  revert b rps0. induction rqs as [|rq rqs IH]; intros b rps0 Hwf Hf; simpl.
  - wp_steps. by rewrite app_nil_r.
  - destruct Hf as [Hf Hrest]. wp_steps.
    eapply wp_mono; [by apply exec_step_refines|]. intros r b' (Hwf' & -> & Hb').
    wp_steps. rewrite <- Hb' in Hrest.
    eapply wp_mono; [by apply IH|]. intros r b'' (? & -> & ->).
    rewrite Hb'. destruct (spec_step rq (statuses b)) as [rp m]; simpl.
    destruct (spec_run rqs m) as [rps m']; simpl. split; [done|]. by rewrite <- app_assoc.
Qed.
End refinement.

(** Steps that each answer and change the abstract queue as a request does, for a
    backend without a contract of its own. *)
Lemma wp_simulates {B X} (step : X → M B reply) (spec : X → request) (R : B → queue_spec → Prop)
    (ok : X → Prop) :
  (∀ x b m, R b m → ok x → wp (step x) b (λ r b',
     r = Ok (spec_step (spec x) m).1 ∧ R b' (spec_step (spec x) m).2)) →
  ∀ xs b m rps0, R b m → Forall ok xs →
    wp (foldM (λ rps x, rp ← step x; mret (rps ++ [rp])) rps0 xs) b (λ r b',
      r = Ok (rps0 ++ (spec_run (spec <$> xs) m).1) ∧ R b' (spec_run (spec <$> xs) m).2).
Proof.
  intros Hstep xs. induction xs as [|x xs IH]; intros b m rps0 HR Hok.
  - simpl. wp_steps. rewrite app_nil_r. by split.
  - apply Forall_cons in Hok as [Hx Hxs]. rewrite fmap_cons. cbn [foldM spec_run]. wp_steps.
    eapply wp_mono; [by apply Hstep|]. intros r b' (-> & HR'). wp_steps.
    eapply wp_mono; [by apply IH|]. intros r b'' (-> & HR'').
    destruct (spec_step (spec x) m) as [rp m']; cbn [fst snd] in *.
    destruct (spec_run (spec <$> xs) m') as [rps m'']; cbn [fst snd] in *.
    split; [|done]. by rewrite <- app_assoc.
Qed.

(** ** At most one claim succeeds *)

(** A request that can put job [id] (back) into the queue. *)
Definition revives (id : string) (rq : request) : Prop :=
  match rq with
  | Enqueue j => job_id j = id
  | Release id' => id' = id
  | UpdateStatus id' s => id' = id ∧ s = QUEUED
  | _ => False
  end.

(** The claims of [id] that were answered [True]. *)
Fixpoint claims_won (id : string) (rqs : list request) (rps : list reply) : nat :=
  match rqs, rps with
  | Claim id' _ _ :: rqs, RBool true :: rps =>
      (if decide (id' = id) then 1 else 0) + claims_won id rqs rps
  | _ :: rqs, _ :: rps => claims_won id rqs rps
  | _, _ => 0
  end.

Section claims.
Implicit Types (m : queue_spec) (id : string).

(** Without a revival, a job that is not queued stays so. *)
Lemma spec_step_not_queued id rq m :
  ¬ revives id rq → m !! id ≠ Some QUEUED → (spec_step rq m).2 !! id ≠ Some QUEUED.
Proof.
  intros Hrev Hm. destruct rq as [j|id' h w|id'|id' s| |]; simpl in *; try done.
  - by rewrite lookup_insert_ne.
  - destruct (decide _); simpl; [|done]. rewrite lookup_insert. by case_decide.
  - by rewrite lookup_alter_ne.
  - rewrite lookup_alter. case_decide; subst; [|done].
    destruct (m !! id); naive_solver.
Qed.

Lemma claims_won_cons id rq rp rqs rps :
  claims_won id (rq :: rqs) (rp :: rps) =
  (match rq, rp with
   | Claim id' _ _, RBool true => if decide (id' = id) then 1 else 0
   | _, _ => 0
   end) + claims_won id rqs rps.
Proof. destruct rq, rp as [|[]| |]; done. Qed.

(** Whether job [id] can be claimed. *)
Definition claimable m id : nat := if decide (m !! id = Some QUEUED) then 1 else 0.

(** A claim that is won uses it up. *)
Lemma claims_conserved id rqs m :
  Forall (λ rq, ¬ revives id rq) rqs →
  claims_won id rqs (spec_run rqs m).1 + claimable (spec_run rqs m).2 id ≤ claimable m id.
Proof.
  revert m. induction rqs as [|rq rqs IH]; intros m; [simpl; lia|].
  intros [Hrev Hrest]%Forall_cons. specialize (IH (spec_step rq m).2 Hrest).
  pose proof (spec_step_not_queued id rq m Hrev) as Hnq.
  cbn [spec_run]. destruct (spec_step rq m) as [rp m'] eqn:E; cbn [fst snd] in *.
  destruct (spec_run rqs m') as [rps m'']; cbn [fst snd] in *. rewrite claims_won_cons.
  assert (Hstep : match rq, rp with
      | Claim id' _ _, RBool true => if decide (id' = id) then 1 else 0
      | _, _ => 0
      end + claimable m' id ≤ claimable m id); [|lia].
  assert (Hle : claimable m' id ≤ claimable m id) by (unfold claimable; repeat case_decide; tauto || lia).
  destruct rq as [| id' h w | | | |]; try exact Hle. simpl in E.
  destruct (decide (m !! id' = Some QUEUED)) as [Hq|]; simplify_eq; [|exact Hle].
  destruct (decide (id' = id)) as [->|]; [|exact Hle].
  unfold claimable. rewrite lookup_insert_eq, (decide_True _ _ Hq). by rewrite decide_False.
Qed.

Lemma claims_won_bound id rqs m :
  Forall (λ rq, ¬ revives id rq) rqs →
  claims_won id rqs (spec_run rqs m).1 ≤ if decide (m !! id = Some QUEUED) then 1 else 0.
Proof. intros Hrev. pose proof (claims_conserved id rqs m Hrev). unfold claimable in *. lia. Qed.
End claims.

(** ** Sweeps

    Loops over [all_jobs] that give some jobs a new status: [pick j] is the new
    status of [j], if any, and [tick] counts an update that succeeded. *)
Section sweeps.
Context {B : Type} `{BackendContract B}.

Definition sweep_step {A} (pick : Job → option JobStatus) (tick : A → Job → A) (acc : A) (j : Job)
    : M B A :=
  match pick j with
  | None => mret acc
  | Some s => ok ← update_status (job_id j) (value s); mret (if (ok : bool) then tick acc j else acc)
  end.

(** The statuses after the jobs in [l] were swept. *)
Definition swept (pick : Job → option JobStatus) (l : list Job) (m m' : queue_spec) : Prop :=
  (∀ j s, j ∈ l → pick j = Some s → m' !! job_id j = Some s) ∧
  (∀ id, (∀ j, j ∈ l → job_id j = id → pick j = None) → m' !! id = m !! id).

(** The jobs a sweep changes. *)
Definition picked (pick : Job → option JobStatus) (l : list Job) : list Job :=
  filter (λ j, is_Some (pick j)) l.

Lemma swept_nil pick m : swept pick [] m m.
Proof. split; [by intros j s ?%elem_of_nil|done]. Qed.

Lemma swept_snoc pick l j m m' :
  job_id j ∉ job_id <$> l → swept pick l m m' →
  swept pick (l ++ [j]) m
    (match pick j with Some s => <[job_id j := s]> m' | None => m' end).
Proof.
  intros Hj [Hin Hout]. split.
  - intros j' s [Hj'| ->%list_elem_of_singleton]%elem_of_app Hp.
    + assert (job_id j ≠ job_id j') by (intros E; apply Hj; rewrite E; by apply list_elem_of_fmap_2).
      destruct (pick j); [rewrite lookup_insert_ne by done|]; by apply Hin.
    + rewrite Hp. by rewrite lookup_insert_eq.
  - intros id Hid.
    assert (m' !! id = m !! id) as <-.
    { apply Hout. intros j' Hj'. apply Hid, elem_of_app. by left. }
    destruct (pick j) eqn:E; [|done]. rewrite lookup_insert_ne; [done|].
    intros <-. rewrite (Hid j) in E; [done| |done]. apply elem_of_app. right. by left.
Qed.

Lemma foldl_snoc {A T} (f : A → T → A) acc l x : foldl f acc (l ++ [x]) = f (foldl f acc l) x.
Proof. by rewrite foldl_app. Qed.

(** [l] lists stored jobs, none twice. *)
Definition lists_some (m : queue_spec) (l : list Job) : Prop :=
  NoDup (job_id <$> l) ∧ ∀ j, j ∈ l → is_Some (m !! job_id j).

Lemma lists_all_some b l : backend_wf b → lists_all (contents b) l → lists_some (statuses b) l.
Proof.
  intros Hwf Hl. split; [by eapply lists_all_nodup|]. intros j Hj. exists (status j).
  rewrite contents_lookup by done. apply (lists_all_elem b) in Hj; [|done..]. by rewrite Hj.
Qed.

Lemma lists_some_filter (P : Job → Prop) `{∀ j, Decision (P j)} m l :
  lists_some m l → lists_some m (filter P l).
Proof.
  intros [Hnd Hall]. split.
  - eapply sublist_NoDup; [exact Hnd|]. apply fmap_sublist, sublist_filter.
  - intros j [_ Hj]%list_elem_of_filter. auto.
Qed.

(** Every loop whose body is a sweep step. *)
Lemma wp_sweep {A} (f : A → Job → M B A) pick tick acc b l :
  (∀ acc j, j ∈ l → f acc j = sweep_step pick tick acc j) →
  backend_wf b → lists_some (statuses b) l →
  wp (foldM f acc l) b (λ r b', backend_wf b' ∧ r = Ok (foldl tick acc (picked pick l)) ∧
    swept pick l (statuses b) (statuses b')).
Proof.
  intros Hf Hwf [Hnd Hall].
  apply (wp_foldM f (λ dn a b', backend_wf b' ∧ a = foldl tick acc (picked pick dn) ∧
    swept pick dn (statuses b) (statuses b')));
    [split_and!; [done|done|apply swept_nil] | | by intros a b' (? & -> & ?)].
  intros dn j todo a b' -> (Hwf' & -> & Hsw). rewrite Hf by (apply elem_of_app; right; left). unfold sweep_step.
  rewrite fmap_app, fmap_cons in Hnd. apply NoDup_app in Hnd as (_ & Hdis & Hnd).
  assert (Hj : job_id j ∉ job_id <$> dn).
  { intros Hin. apply (Hdis _ Hin). by left. }
  pose proof (swept_snoc pick dn j _ _ Hj Hsw) as Hsw'.
  unfold picked in *. rewrite filter_app, filter_cons, filter_nil.
  destruct (pick j) as [s|] eqn:E.
  - rewrite decide_True by eauto. wp_steps. eapply wp_mono; [by apply update_status_ok|].
    intros r b'' (Hwf'' & -> & Hst).
    assert (Hex : is_Some (statuses b' !! job_id j)).
    { destruct Hsw as [_ Hout]. rewrite Hout.
      - apply Hall, elem_of_app. right. by left.
      - intros j' Hj' E'. destruct Hj. rewrite <- E'. by apply list_elem_of_fmap_2. }
    wp_steps. split_and!; [done| |].
    + rewrite bool_decide_eq_true_2 by done. by rewrite foldl_snoc.
    + by rewrite Hst, alter_const_insert.
  - rewrite decide_False by (by intros []). wp_steps. rewrite app_nil_r. by split_and!.
Qed.

(** What a sweep over all the jobs leaves of each of them. *)
Definition swept_all (pick : Job → option JobStatus) (c : job_map) (m' : queue_spec) : Prop :=
  m' = (λ j, default (status j) (pick j)) <$> c.

Lemma swept_contents pick b l m' : backend_wf b → lists_all (contents b) l →
  swept pick l (statuses b) m' → swept_all pick (contents b) m'.
Proof.
  intros Hwf Hl [Hin Hout]. apply map_eq. intros id. rewrite lookup_fmap.
  destruct (contents b !! id) as [j|] eqn:Ej; cbn.
  - pose proof (contents_ids b id j Hwf Ej) as <-.
    assert (Hj : j ∈ l) by by apply (lists_all_elem b).
    destruct (pick j) as [s|] eqn:Es; cbn; [by apply Hin|].
    rewrite Hout, contents_lookup, Ej by done || (intros j' Hj' E; apply (lists_all_elem b) in Hj' as E'; [congruence|done..]).
    done.
  - rewrite Hout, contents_lookup, Ej by done || (intros j' Hj' <-; apply (lists_all_elem b) in Hj' as E'; [congruence|done..]).
    done.
Qed.

(** [all_jobs] followed by a sweep. *)
Lemma wp_sweep_all {A} (f : A → Job → M B A) pick tick acc b :
  (∀ acc id j, contents b !! id = Some j → f acc j = sweep_step pick tick acc j) → backend_wf b →
  wp (jobs ← all_jobs; foldM f acc jobs) b (λ r b', backend_wf b' ∧ ∃ l,
    lists_all (contents b) l ∧ r = Ok (foldl tick acc (picked pick l)) ∧
    swept_all pick (contents b) (statuses b')).
Proof.
  intros Hf Hwf. wp_steps. eapply wp_mono; [by apply all_jobs_ok|].
  intros r b' (-> & l & -> & Hl). eapply wp_mono; [eapply wp_sweep; eauto using lists_all_some|].
  - intros acc' j Hj. apply (lists_all_elem b) in Hj; [|done..]. by eapply Hf.
  - intros r b' (? & -> & ?). split; [done|]. exists l. split; [done|]. split; [done|]. by eapply swept_contents.
Qed.
End sweeps.
