(* ===== verification/MemoryBackend.v ===== *)
(** * The in-memory backend

    [backends/memory_backend.py]: the dictionary of jobs, every operation of
    [MemoryQueueBackend], and the proof that it meets the backend contract. All
    operations run under the backend's lock, so each is one atomic step. *)

From S2P Require Import Prelude PyValue Domain Backend.

(** [MemoryQueueBackend]: [_jobs] maps identifiers to the live job objects. *)
Record Memory : Type := mkMemory { _jobs : dict Job }.

Module Memory.

(** Mutating the stored job object. *)
Definition mutate (id : string) (f : Job → Job) : M Memory unit :=
  modify (λ b, mkMemory (Dict.update id f (_jobs b))).

Definition enqueue (j : Job) : M Memory string :=
  modify (λ b, mkMemory (Dict.set (job_id j) j (_jobs b)));;
  mret (job_id j).

(** The comprehension condition of [dequeue]. *)
Definition eligible (job_type' queue_name' : option string) (j : Job) : bool :=
  bool_decide (status j = QUEUED)
  && match job_type' with None => true | Some t => bool_decide (job_type j = t) end
  && match queue_name' with None => true | Some q => bool_decide (queue_name j = q) end.

(** [key=lambda j: (-j.priority, j.created_at)], for datetimes that are all aware,
    as [from_request] makes them. *)
Definition before (j1 j2 : Job) : bool :=
  let p1 := (- priority j1)%Z in
  let p2 := (- priority j2)%Z in
  ((p1 <? p2) || ((p1 =? p2) && (created_at j1 <=? created_at j2)))%Z%bool.

Definition dequeue (limit : Z) (jt qn : option string) : M Memory (list Job) :=
  jobs ← gets (λ b, Dict.values (_jobs b));
  let queued := filter (λ j, eligible jt qn j) jobs in
  let queued := stable_sort before queued in
  mret (slice_to limit queued).

Definition claim (id host_id worker_id : string) : M Memory bool :=
  job ← gets (λ b, Dict.get id (_jobs b));
  match job with
  | None => mret false
  | Some job =>
    if negb (bool_decide (status job = QUEUED)) then mret false
    else
      now ← utcnow;
      mutate id (λ j, j <| status := RUNNING |>
                        <| claimed_by := Some (host_id +:+ ":" +:+ worker_id) |>
                        <| updated_at := now |>);;
      mret true
  end.

(** The methods that look a job up, change it and answer whether it exists. *)
Definition change (id : string) (f : Z → Job → Job) : M Memory bool :=
  job ← gets (λ b, Dict.get id (_jobs b));
  match job with
  | None => mret false
  | Some _ => now ← utcnow; mutate id (f now);; mret true
  end.

Definition release (id : string) : M Memory bool :=
  change id (λ now j, j <| status := QUEUED |> <| claimed_by := None |> <| updated_at := now |>).

Definition heartbeat (id : string) : M Memory bool :=
  change id (λ now j, j <| updated_at := now |>).

Definition get (id : string) : M Memory (option Job) :=
  gets (λ b, Dict.get id (_jobs b)).

Definition update_status (id status' : string) : M Memory bool :=
  job ← gets (λ b, Dict.get id (_jobs b));
  match job with
  | None => mret false
  | Some _ =>
    s ← parse_status status';
    now ← utcnow;
    mutate id (λ j, j <| status := s |> <| updated_at := now |>);;
    mret true
  end.

Definition get_queue_status : M Memory (dict Z) :=
  jobs ← gets (λ b, Dict.values (_jobs b));
  mret (foldl (λ counts j, let k := value (status j) in
               Dict.set k (Dict.get_default k 0 counts + 1)%Z counts) [] jobs).

Definition health_check : M Memory bool := mret true.

Definition all_jobs : M Memory (list Job) := gets (λ b, Dict.values (_jobs b)).

Definition record_attempt (id : string) (error : option string) : M Memory bool :=
  change id (λ now j,
    let j := j <| attempt := (attempt j + 1)%Z |> in
    let j := match error with
             | Some e => j <| last_error := Some [("message", PStr e)] |>
             | None => j
             end in
    j <| updated_at := now |>).

Definition update_progress (id : string) (p : dict pyval) : M Memory bool :=
  change id (λ now j, j <| progress := Some p |> <| updated_at := now |>).

Definition store_result (id : string) (res : pyval) : M Memory bool :=
  change id (λ now j, j <| result_ref := Some res |> <| updated_at := now |>).

(** The objects handed out are the stored ones. *)
Definition deref (j : Job) : M Memory Job :=
  gets (λ b, default j (Dict.get (job_id j) (_jobs b))).
Definition assign (j : Job) (f : Job → Job) : M Memory unit := mutate (job_id j) f.

End Memory.

#[export] Instance memory_backend : QueueBackend Memory := {|
  enqueue := Memory.enqueue;
  dequeue := Memory.dequeue;
  claim := Memory.claim;
  release := Memory.release;
  heartbeat := Memory.heartbeat;
  get := Memory.get;
  update_status := Memory.update_status;
  get_queue_status := Memory.get_queue_status;
  health_check := Memory.health_check;
  all_jobs := Memory.all_jobs;
  record_attempt := Memory.record_attempt;
  update_progress := Memory.update_progress;
  store_result := Memory.store_result;
  deref := Memory.deref;
  assign := Memory.assign;
|}.

(** ** Invariant and abstraction *)

(** Keys are unique and every job is stored under its own identifier. *)
Definition memory_wf (b : Memory) : Prop :=
  Dict.wf (_jobs b) ∧ ∀ k j, Dict.get k (_jobs b) = Some j → job_id j = k.

Definition memory_statuses (b : Memory) : queue_spec :=
  list_to_map (prod_map id status <$> _jobs b).

Lemma memory_lookup b id : memory_wf b → memory_statuses b !! id = status <$> Dict.get id (_jobs b).
Proof.
  intros [Hwf _]. unfold memory_statuses. revert Hwf.
  unfold Dict.wf. induction (_jobs b) as [|[k j] d IH]; simpl; [done|].
  rewrite Dict.keys_cons, NoDup_cons. intros [_ Hd].
  destruct (decide (id = k)) as [->|Hne]; [by rewrite lookup_insert_eq|].
  rewrite lookup_insert_ne by done. by apply IH.
Qed.

Definition memory_contents (b : Memory) : job_map := list_to_map (_jobs b).

Lemma memory_contents_lookup b id : memory_wf b → memory_contents b !! id = Dict.get id (_jobs b).
Proof.
  intros [Hwf _]. unfold memory_contents. apply option_eq. intros j.
  rewrite <- elem_of_list_to_map by exact Hwf. by apply Dict.elem_of_get.
Qed.

Lemma memory_contents_statuses b : memory_wf b → memory_statuses b = status <$> memory_contents b.
Proof.
  intros Hwf. apply map_eq. intros id. by rewrite lookup_fmap, memory_lookup, memory_contents_lookup.
Qed.

Lemma memory_contents_ids b id j : memory_wf b → memory_contents b !! id = Some j → job_id j = id.
Proof. intros Hwf. rewrite memory_contents_lookup by done. apply Hwf. Qed.

Lemma memory_empty_wf : memory_wf (mkMemory []).
Proof. split; [constructor | by intros]. Qed.

Lemma memory_wf_set b j : memory_wf b → memory_wf (mkMemory (Dict.set (job_id j) j (_jobs b))).
Proof.
  intros [Hwf Hid]. split; simpl; [by apply Dict.wf_set|].
  intros k j'. rewrite Dict.get_set. case_decide; [naive_solver | apply Hid].
Qed.

Lemma memory_wf_update b id f :
  (∀ j, job_id (f j) = job_id j) → memory_wf b → memory_wf (mkMemory (Dict.update id f (_jobs b))).
Proof.
  intros Hf [Hwf Hid]. split; simpl; [by apply Dict.wf_update|].
  intros k j'. rewrite Dict.get_update. case_decide; subst; [|apply Hid].
  destruct (Dict.get k (_jobs b)) as [j|] eqn:E; [|done]. intros [= <-]. rewrite Hf. eauto.
Qed.

(** Changing a job changes its status only. *)
Lemma memory_statuses_update b id f (g : JobStatus → JobStatus) :
  (∀ j, job_id (f j) = job_id j) → (∀ j, status (f j) = g (status j)) → memory_wf b →
  memory_statuses (mkMemory (Dict.update id f (_jobs b))) = alter g id (memory_statuses b).
Proof.
  intros Hf Hg Hwf. apply map_eq. intros k.
  rewrite lookup_alter, !(memory_lookup b _ Hwf).
  rewrite memory_lookup by (by apply memory_wf_update).
  simpl. rewrite Dict.get_update. destruct (decide (id = k)) as [->|]; [|done].
  destruct (Dict.get k (_jobs b)); simpl; [by rewrite Hg | done].
Qed.

(** What a looked-up-and-changed job leaves behind. *)
Lemma change_spec b id f g :
  (∀ t j, job_id (f t j) = job_id j) → (∀ t j, status (f t j) = g (status j)) → memory_wf b →
  wp (Memory.change id f) b (λ r b', memory_wf b' ∧
    r = Ok (bool_decide (is_Some (memory_statuses b !! id))) ∧
    memory_statuses b' = alter g id (memory_statuses b)).
Proof.
  intros Hf Hg Hwf. unfold Memory.change, Memory.mutate. wp_steps.
  rewrite memory_lookup by done.
  destruct (Dict.get id (_jobs b)) as [j|] eqn:E; wp_steps.
  - split; [by apply memory_wf_update|]. rewrite bool_decide_eq_true_2 by eauto.
    split; [done|]. by apply memory_statuses_update.
  - split; [done|]. rewrite bool_decide_eq_false_2 by (by intros []). split; [done|].
    symmetry. apply alter_id. intros x. by rewrite memory_lookup, E.
Qed.

(** ** The contract *)

Lemma before_total j1 j2 : Memory.before j1 j2 = true ∨ Memory.before j2 j1 = true.
Proof. unfold Memory.before. lia. Qed.

Lemma before_trans j1 j2 j3 :
  Memory.before j1 j2 = true → Memory.before j2 j3 = true → Memory.before j1 j3 = true.
Proof. unfold Memory.before. lia. Qed.

Lemma eligible_spec jt qn j :
  Memory.eligible jt qn j = true ↔
  status j = QUEUED ∧ matches jt (job_type j) ∧ matches qn (queue_name j).
Proof.
  unfold Memory.eligible, matches. rewrite !andb_true_iff, bool_decide_eq_true.
  destruct jt, qn; rewrite ?bool_decide_eq_true; naive_solver.
Qed.

Lemma memory_ids b : memory_wf b → job_id <$> Dict.values (_jobs b) = Dict.keys (_jobs b).
Proof.
  intros [Hwf Hid]. unfold Dict.values, Dict.keys. rewrite <- list_fmap_compose.
  apply list_fmap_ext. intros i [k j] Hl. simpl. apply Hid. apply Dict.elem_of_get; [done|].
  by eapply list_elem_of_lookup_2.
Qed.

Lemma memory_values b j : memory_wf b → j ∈ Dict.values (_jobs b) ↔ Dict.get (job_id j) (_jobs b) = Some j.
Proof.
  intros [Hwf Hid]. rewrite Dict.elem_of_values by done. split; [|eauto].
  intros [k Hk]. by rewrite (Hid _ _ Hk).
Qed.

(** The value [dequeue] returns: the eligible jobs in dispatch order, cut. *)
Definition dispatch_order (jt qn : option string) (b : Memory) : list Job :=
  stable_sort Memory.before (filter (λ j, Memory.eligible jt qn j) (Dict.values (_jobs b))).

Lemma memory_dequeue_run b limit jt qn Q :
  Q (Ok (slice_to limit (dispatch_order jt qn b))) b → wp (Memory.dequeue limit jt qn) b Q.
Proof. intros HQ. unfold Memory.dequeue. by wp_steps. Qed.

Lemma dispatch_order_elem b jt qn j :
  memory_wf b → j ∈ dispatch_order jt qn b ↔
  Dict.get (job_id j) (_jobs b) = Some j ∧ status j = QUEUED ∧
  matches jt (job_type j) ∧ matches qn (queue_name j).
Proof.
  intros Hwf. unfold dispatch_order.
  rewrite stable_sort_perm, list_elem_of_filter, memory_values by done.
  rewrite Is_true_true, eligible_spec. naive_solver.
Qed.

Lemma dispatch_order_nodup b jt qn : memory_wf b → NoDup (job_id <$> dispatch_order jt qn b).
Proof.
  intros Hwf. unfold dispatch_order. rewrite stable_sort_perm.
  eapply sublist_NoDup; [apply (proj1 Hwf)|].
  rewrite <- memory_ids by done. apply fmap_sublist, sublist_filter.
Qed.

Lemma memory_dequeued b limit jt qn :
  memory_wf b → (0 ≤ limit)%Z →
  dequeued (memory_statuses b) limit jt qn (slice_to limit (dispatch_order jt qn b)).
Proof.
  intros Hwf Hl. split; [|split].
  - rewrite slice_to_nonneg by done. rewrite length_take. lia.
  - eapply sublist_NoDup; [by apply (dispatch_order_nodup b jt qn)|].
    apply fmap_sublist, slice_to_sublist.
  - apply Forall_forall. intros j Hj%elem_of_slice_to.
    apply dispatch_order_elem in Hj as (Hg & Hs & ? & ?); [|done].
    rewrite memory_lookup, Hg by done. simpl. by rewrite Hs.
Qed.

Lemma memory_dequeued_stored b limit jt qn :
  memory_wf b → (0 ≤ limit)%Z →
  dequeued (memory_statuses b) limit jt qn (slice_to limit (dispatch_order jt qn b)) ∧
  ∀ j, j ∈ slice_to limit (dispatch_order jt qn b) → memory_contents b !! job_id j = Some j.
Proof.
  intros Hwf Hl. split; [by apply memory_dequeued|]. intros j Hj%elem_of_slice_to.
  rewrite memory_contents_lookup by done. by apply dispatch_order_elem in Hj as [Hg _].
Qed.

Lemma memory_enqueue_ok b j :
  memory_wf b → wp (Memory.enqueue j) b (λ r b', memory_wf b' ∧ r = Ok (job_id j) ∧
    memory_statuses b' = <[job_id j := status j]> (memory_statuses b)).
Proof.
  intros Hwf. unfold Memory.enqueue. wp_steps.
  pose proof (memory_wf_set b j Hwf) as Hwf'. split; [done|]. split; [done|].
  apply map_eq. intros k. rewrite lookup_insert, !memory_lookup by done. simpl.
  rewrite Dict.get_set. by case_decide.
Qed.

Lemma memory_claim_ok b id host worker :
  memory_wf b →
  wp (Memory.claim id host worker) b (λ r b', memory_wf b' ∧
    r = Ok (bool_decide (memory_statuses b !! id = Some QUEUED)) ∧
    memory_statuses b' = if decide (memory_statuses b !! id = Some QUEUED)
                         then <[id := RUNNING]> (memory_statuses b) else memory_statuses b).
Proof.
  intros Hwf. unfold Memory.claim, Memory.mutate. wp_steps.
  rewrite memory_lookup by done.
  destruct (Dict.get id (_jobs b)) as [j|] eqn:E; simpl.
  - destruct (decide (status j = QUEUED)) as [Hq|Hq].
    + rewrite (bool_decide_eq_true_2 (status j = QUEUED)) by done. simpl. wp_steps.
      rewrite (bool_decide_eq_true_2 (Some (status j) = Some QUEUED)), decide_True by congruence.
      split; [by apply memory_wf_update|]. split; [done|].
      rewrite (memory_statuses_update _ _ _ (λ _, RUNNING)) by done.
      apply alter_const_insert. rewrite memory_lookup, E by done. by exists (status j).
    + rewrite (bool_decide_eq_false_2 (status j = QUEUED)) by done. simpl. wp_steps.
      by rewrite (bool_decide_eq_false_2 (Some (status j) = Some QUEUED)), decide_False by congruence.
  - by wp_steps.
Qed.

Lemma memory_update_status_ok b id s :
  memory_wf b →
  wp (Memory.update_status id (value s)) b (λ r b', memory_wf b' ∧
    r = Ok (bool_decide (is_Some (memory_statuses b !! id))) ∧
    memory_statuses b' = alter (λ _, s) id (memory_statuses b)).
Proof.
  intros Hwf. unfold Memory.update_status, Memory.mutate. wp_steps.
  rewrite memory_lookup by done.
  destruct (Dict.get id (_jobs b)) as [j|] eqn:E; wp_steps.
  - apply wp_parse_status. wp_steps.
    split; [by apply memory_wf_update|]. rewrite bool_decide_eq_true_2 by eauto.
    split; [done|]. by apply memory_statuses_update.
  - split; [done|]. rewrite bool_decide_eq_false_2 by (by intros []). split; [done|].
    symmetry. apply alter_id. intros x. by rewrite memory_lookup, E.
Qed.

Lemma memory_all_jobs_ok b : memory_wf b → lists_all (memory_contents b) (Dict.values (_jobs b)).
Proof.
  intros [Hwf _]. unfold lists_all, jobs_in, memory_contents. by rewrite map_to_list_to_map.
Qed.

Lemma memory_dequeue_ok b limit jt qn :
  memory_wf b → (0 ≤ limit)%Z →
  wp (Memory.dequeue limit jt qn) b (λ r b', b' = b ∧
    ∃ l, r = Ok l ∧ dequeued (memory_statuses b) limit jt qn l ∧
      ∀ j, j ∈ l → memory_contents b !! job_id j = Some j).
Proof.
  intros Hwf Hl. apply memory_dequeue_run. split; [done|].
  eexists. split; [done|]. by apply memory_dequeued_stored.
Qed.

Lemma memory_release_ok b id :
  memory_wf b →
  wp (Memory.release id) b (λ r b', memory_wf b' ∧
    r = Ok (bool_decide (is_Some (memory_statuses b !! id))) ∧
    memory_statuses b' = alter (λ _, QUEUED) id (memory_statuses b)).
Proof. intros Hwf. by apply change_spec. Qed.

Lemma memory_heartbeat_ok b id :
  memory_wf b →
  wp (Memory.heartbeat id) b (λ r b', memory_wf b' ∧ memory_statuses b' = memory_statuses b ∧
    ∃ v, r = Ok v).
Proof.
  intros Hwf. eapply wp_mono; [by apply (change_spec _ _ _ (λ s, s))|].
  intros r b' (? & -> & ->). split; [done|]. split; [|eauto]. by apply alter_id.
Qed.

Lemma memory_get_ok b id :
  memory_wf b →
  wp (Memory.get id) b (λ r b', b' = b ∧ r = Ok (memory_contents b !! id)).
Proof. intros Hwf. unfold Memory.get. wp_steps. by rewrite memory_contents_lookup. Qed.

Lemma memory_deref_ok b j :
  memory_wf b →
  wp (Memory.deref j) b (λ r b', b' = b ∧ ∃ j', r = Ok j' ∧ job_id j' = job_id j).
Proof.
  intros Hwf. unfold Memory.deref. wp_steps. split; [done|]. eexists. split; [done|].
  destruct (Dict.get _ _) eqn:E; [|done]. by apply Hwf.
Qed.

Lemma memory_all_jobs_run b :
  memory_wf b →
  wp Memory.all_jobs b (λ r b', b' = b ∧ ∃ l, r = Ok l ∧ lists_all (memory_contents b) l).
Proof.
  intros Hwf. unfold Memory.all_jobs. wp_steps. split; [done|].
  eexists. split; [done|]. by apply memory_all_jobs_ok.
Qed.

Lemma memory_enqueue_fresh b j :
  memory_wf b → wp (Memory.enqueue j) b (λ r b', memory_wf b' ∧
    (memory_statuses b !! job_id j = None →
     r = Ok (job_id j) ∧ memory_statuses b' = <[job_id j := status j]> (memory_statuses b))).
Proof. intros Hwf. eapply wp_mono; [by apply memory_enqueue_ok|]. naive_solver. Qed.

#[export] Instance memory_contract : BackendContract Memory := {|
  backend_wf := memory_wf;
  statuses := memory_statuses;
  contents := memory_contents;
  contents_statuses := memory_contents_statuses;
  contents_ids := memory_contents_ids;
  enqueue_ok := memory_enqueue_fresh;
  dequeue_ok b limit jt qn Hwf Hl _ _ := memory_dequeue_ok b limit jt qn Hwf Hl;
  claim_ok := memory_claim_ok;
  release_ok := memory_release_ok;
  heartbeat_ok := memory_heartbeat_ok;
  get_ok := memory_get_ok;
  update_status_ok := memory_update_status_ok;
  all_jobs_ok := memory_all_jobs_run;
  deref_ok := memory_deref_ok;
|}.

(** ** Theorems *)

(** C11: the in-memory backend refines the abstract queue: from any well-formed
    state, any sequence of enqueues of fresh identifiers, claims, releases,
    status updates, heartbeats and lookups gets exactly the replies of the map
    from identifiers to statuses, and ends in a state that abstracts to it. *)
Theorem memory_refines_queue_spec (rqs : list request) (b : Memory) :
  memory_wf b → fresh_ids rqs (memory_statuses b) →
  wp (exec_run rqs) b (λ r b', memory_wf b' ∧
    r = Ok (spec_run rqs (memory_statuses b)).1 ∧
    memory_statuses b' = (spec_run rqs (memory_statuses b)).2).
Proof. exact (exec_run_refines rqs b []). Qed.

(** The store after enqueuing [l] into an empty backend. *)
Definition memory_of (l : list Job) : Memory :=
  mkMemory (foldl (λ d j, Dict.set (job_id j) j d) [] l).

Lemma memory_of_wf l : memory_wf (memory_of l).
Proof.
  unfold memory_of. cut (∀ d, memory_wf (mkMemory d) →
    memory_wf (mkMemory (foldl (λ d j, Dict.set (job_id j) j d) d l))).
  { intros H. apply H, memory_empty_wf. }
  induction l as [|j l IH]; intros d Hd; simpl; [done|]. apply IH.
  by apply (memory_wf_set (mkMemory d) j).
Qed.

Definition sample_job (id : string) (prio created : Z) : Job :=
  new_job id "t" "default" [] QUEUED prio created created.

Lemma memory_refines_queue_spec_witness :
  let rqs := [Enqueue (sample_job "a" 0 1); Claim "a" "h" "w"; Claim "a" "h" "w2";
              Release "a"; UpdateStatus "b" FAILED; GetStatus "a"] in
  fresh_ids rqs ∅ ∧
  wp (exec_run rqs) (mkMemory []) (λ r b', memory_wf b' ∧
    r = Ok [RId "a"; RBool true; RBool false; RBool true; RBool false; RStatus (Some QUEUED)] ∧
    memory_statuses b' = {["a" := QUEUED]}).
Proof.
  intros rqs.
  assert (Hf : fresh_ids rqs (memory_statuses (mkMemory []))) by (vm_compute; tauto).
  split; [exact Hf|].
  exact (memory_refines_queue_spec rqs (mkMemory []) memory_empty_wf Hf).
Defined.

(** A job is handed to at most one worker. Whatever the interleaving of
    requests from any number of workers, as long as none of them puts the job
    back into the queue, at most one claim of it is answered [True], and none
    when the job is not queued to begin with. *)
Theorem claimed_at_most_once (id : string) (rqs : list request) (b : Memory) :
  memory_wf b → fresh_ids rqs (memory_statuses b) → Forall (λ rq, ¬ revives id rq) rqs →
  wp (exec_run rqs) b (λ r _, ∃ rps, r = Ok rps ∧
    claims_won id rqs rps ≤ (if decide (memory_statuses b !! id = Some QUEUED) then 1 else 0)).
Proof.
  intros Hwf Hf Hrev. eapply wp_mono; [exact (exec_run_refines rqs b [] Hwf Hf)|].
  intros r b' (_ & -> & _). eexists. split; [done|]. simpl. by apply claims_won_bound.
Qed.

Lemma claimed_at_most_once_witness :
  let b := memory_of [sample_job "a" 0 1] in
  let rqs := [Claim "a" "h" "w1"; Heartbeat "a"; Claim "a" "h" "w2"; UpdateStatus "a" FAILED;
              Claim "a" "h" "w3"] in
  memory_wf b ∧
  wp (exec_run rqs) b (λ r _, ∃ rps, r = Ok rps ∧ claims_won "a" rqs rps ≤ 1).
Proof.
  intros b rqs.
  assert (Hwf : memory_wf b) by apply memory_of_wf.
  split; [exact Hwf|]. apply (claimed_at_most_once "a" rqs b Hwf).
  - vm_compute. tauto.
  - repeat constructor; simpl; intuition discriminate.
Defined.

(** [j1] is to be offered no later than [j2]. *)
Definition no_later (j1 j2 : Job) : Prop :=
  (priority j2 < priority j1)%Z ∨
  (priority j1 = priority j2 ∧ created_at j1 ≤ created_at j2)%Z.

Definition wanted (jt qn : option string) (j : Job) : Prop :=
  status j = QUEUED ∧ matches jt (job_type j) ∧ matches qn (queue_name j).

#[export] Instance wanted_dec jt qn j : Decision (wanted jt qn j).
Proof. unfold wanted. apply _. Defined.

(** C34: [dequeue] returns the first [limit] of the queued jobs of the requested
    type and queue, by descending priority and then by creation time, jobs that
    tie in the order they were enqueued, and leaves the store alone. *)
Theorem memory_dequeue_order (limit : Z) jt qn (b : Memory) :
  memory_wf b → (0 ≤ limit)%Z →
  wp (dequeue limit jt qn) b (λ r b', b' = b ∧ ∃ l rest, r = Ok l ∧
    length l = Z.to_nat limit `min` length (l ++ rest) ∧
    StronglySorted no_later (l ++ rest) ∧
    (∀ j, j ∈ l ++ rest ↔ Dict.get (job_id j) (_jobs b) = Some j ∧ wanted jt qn j) ∧
    ∀ p t, filter (λ j, priority j = p ∧ created_at j = t) (l ++ rest) =
           filter (λ j, priority j = p ∧ created_at j = t ∧ wanted jt qn j)
             (Dict.values (_jobs b))).
Proof.
  intros Hwf Hl. apply memory_dequeue_run. split; [done|].
  set (all := dispatch_order jt qn b).
  rewrite slice_to_nonneg by done.
  exists (take (Z.to_nat limit) all), (drop (Z.to_nat limit) all).
  rewrite take_drop. split; [done|]. split; [by rewrite length_take|]. split.
  { apply stable_sort_sorted_by; [apply before_total | apply before_trans|].
    intros x y. unfold Memory.before, no_later. lia. }
  split; [intros j; by apply dispatch_order_elem|].
  intros p t. unfold all, dispatch_order.
  transitivity (filter (λ j, Is_true (bool_decide (priority j = p ∧ created_at j = t)))
    (stable_sort Memory.before (filter (λ j, Memory.eligible jt qn j) (Dict.values (_jobs b))))).
  { apply list_filter_iff. intros j. by rewrite bool_decide_spec. }
  rewrite (stable_sort_filter Memory.before _ (λ j, bool_decide (priority j = p ∧ created_at j = t))).
  - rewrite list_filter_filter. apply list_filter_iff. intros j.
    rewrite bool_decide_spec, Is_true_true, eligible_spec. unfold wanted. tauto.
  - intros x y [? ?]%bool_decide_eq_true [? ?]%bool_decide_eq_true. unfold Memory.before. lia.
Qed.

Lemma memory_dequeue_order_witness :
  let b := memory_of [sample_job "a" 0 5; sample_job "b" 7 9; sample_job "c" 0 1] in
  memory_wf b ∧
  wp (dequeue 2 None None) b (λ r b', b' = b ∧ ∃ l rest, r = Ok l ∧
    length l = Z.to_nat 2 `min` length (l ++ rest) ∧
    StronglySorted no_later (l ++ rest) ∧
    (∀ j, j ∈ l ++ rest ↔ Dict.get (job_id j) (_jobs b) = Some j ∧ wanted None None j) ∧
    ∀ p t, filter (λ j, priority j = p ∧ created_at j = t) (l ++ rest) =
           filter (λ j, priority j = p ∧ created_at j = t ∧ wanted None None j)
             (Dict.values (_jobs b))).
Proof.
  intros b.
  assert (Hwf : memory_wf b) by apply memory_of_wf.
  split; [exact Hwf|]. apply (memory_dequeue_order 2 None None b Hwf). lia.
Defined.
