(* ===== verification/Graph.v ===== *)
(** * Depth-first search and acyclicity

    The work-list loop that [scheduler/dependency.py] ([detect_cycle]) and
    [broker/deadlock.py] ([_would_cycle]) share, over any successor function,
    with its fuel bound and its correctness with respect to reachability; and
    what adding the out-edges of one node does to acyclicity. *)

From S2P Require Import Prelude.

(** The loop. The head of [stack] is its top; [extend] pushes the successors so
    that the last one is popped first. [None] is running out of fuel. *)
Fixpoint search (succ : string → list string) (target : string) (fuel : nat)
    (stack : list string) (visited : gset string) : option bool :=
  match fuel with
  | 0 => None
  | S fuel =>
    match stack with
    | [] => Some false
    | current :: stack =>
      if decide (current = target) then Some true
      else if decide (current ∈ visited) then search succ target fuel stack visited
      else search succ target fuel (reverse (succ current) ++ stack) ({[current]} ∪ visited)
    end
  end.

(** Number of successors of the nodes [ks] not visited yet: what the loop may
    still push. *)
Definition unvisited_edges (succ : string → list string) (ks : list string)
    (visited : gset string) : nat :=
  sum_list_with (λ k, if decide (k ∈ visited) then 0 else length (succ k)) ks.

(** Fuel that is always enough when all nodes with successors are in [ks]. *)
Definition search_fuel (succ : string → list string) (ks stack : list string) : nat :=
  S (length stack + unvisited_edges succ ks ∅).

(** The test, for a loop started from [roots]. *)
Definition reaches (succ : string → list string) (ks : list string) (target : string)
    (roots : list string) : bool :=
  default false (search succ target (search_fuel succ ks roots) (reverse roots) ∅).

Section search.
Context (succ : string → list string).

Definition edge (x y : string) : Prop := y ∈ succ x.

(** *** Termination *)

Lemma unvisited_visit_out ks k visited :
  k ∉ ks → unvisited_edges succ ks ({[k]} ∪ visited) = unvisited_edges succ ks visited.
Proof.
  unfold unvisited_edges. induction ks as [|k' ks IH]; simpl; [done|].
  rewrite not_elem_of_cons. intros [Hne Hk]. rewrite (IH Hk). f_equal.
  destruct (decide (k' ∈ visited)); [rewrite decide_True by set_solver; done|].
  by rewrite decide_False by set_solver.
Qed.

Lemma unvisited_visit ks k visited :
  NoDup ks → k ∈ ks → k ∉ visited →
  unvisited_edges succ ks visited = length (succ k) + unvisited_edges succ ks ({[k]} ∪ visited).
Proof.
  unfold unvisited_edges. induction 1 as [|k' ks Hk' _ IH]; intros Hk Hv; [set_solver|].
  simpl. destruct (decide (k = k')) as [<-|Hne].
  - rewrite (decide_False (P := k ∈ visited)) by done. rewrite decide_True by set_solver.
    simpl. f_equal. symmetry. by apply unvisited_visit_out.
  - rewrite (IH ltac:(set_solver) Hv).
    destruct (decide (k' ∈ visited)); [rewrite decide_True by set_solver; lia|].
    rewrite decide_False by set_solver. lia.
Qed.

Context (ks : list string) (ks_nodup : NoDup ks) (ks_all : ∀ k, k ∉ ks → succ k = []).

Lemma search_terminates target fuel stack visited :
  length stack + unvisited_edges succ ks visited < fuel →
  is_Some (search succ target fuel stack visited).
Proof using ks_nodup ks_all.
  revert stack visited. induction fuel as [|fuel IH]; intros stack visited Hf; simpl; [lia|].
  destruct stack as [|cur stack]; [eauto|]. simpl in Hf.
  case_decide; [eauto|]. case_decide as Hv; [apply IH; lia|].
  apply IH. rewrite length_app, length_reverse. destruct (decide (cur ∈ ks)) as [Hk|Hk].
  - rewrite (unvisited_visit ks cur visited) in Hf by done. lia.
  - rewrite (ks_all cur Hk), unvisited_visit_out by done. simpl. lia.
Qed.

Lemma search_enough_fuel target roots :
  is_Some (search succ target (search_fuel succ ks roots) (reverse roots) ∅).
Proof using ks_nodup ks_all.
  apply search_terminates. unfold search_fuel. rewrite length_reverse. lia.
Qed.

(** *** Correctness *)

Lemma search_true target fuel stack visited :
  search succ target fuel stack visited = Some true →
  ∃ d, d ∈ stack ∧ rtc edge d target.
Proof.
  revert stack visited. induction fuel as [|fuel IH]; intros stack visited; simpl; [done|].
  destruct stack as [|cur stack]; [done|].
  case_decide as Hc; [intros _; exists cur; split; [left|by subst]|].
  case_decide as Hv.
  - intros (d & Hd & Hr)%IH. exists d. split; [by right|done].
  - intros (d & Hd & Hr)%IH. rewrite elem_of_app, elem_of_reverse in Hd.
    destruct Hd as [Hd|Hd]; [|exists d; split; [by right|done]].
    exists cur. split; [left|]. by eapply rtc_l.
Qed.

(** The loop invariant: visited nodes are not the target and their successors
    are visited or on the stack. *)
Definition visited_ok (target : string) (stack : list string) (visited : gset string) : Prop :=
  ∀ v, v ∈ visited → v ≠ target ∧ ∀ w, edge v w → w ∈ visited ∨ w ∈ stack.

Lemma search_false target fuel stack visited :
  visited_ok target stack visited →
  search succ target fuel stack visited = Some false →
  ∀ d, d ∈ stack ∨ d ∈ visited → ¬ rtc edge d target.
Proof.
  revert stack visited. induction fuel as [|fuel IH]; intros stack visited Hok; simpl; [done|].
  destruct stack as [|cur stack].
  - intros _ d [[]%elem_of_nil|Hd] Hr. induction Hr as [d|d d' t Hstep _ IHr].
    + by destruct (Hok d Hd).
    + destruct (Hok d Hd) as [_ Hw]. destruct (Hw _ Hstep) as [|[]%elem_of_nil]; auto.
  - case_decide as Hc; [done|]. case_decide as Hv; intros Hs d Hd.
    + apply (IH stack visited); [|done|set_solver].
      intros v Hin. destruct (Hok v Hin) as [? Hw]. split; [done|].
      intros w Hvw. specialize (Hw w Hvw). set_solver.
    + eapply IH; [|exact Hs|set_solver]. intros v Hin. rewrite elem_of_union, elem_of_singleton in Hin.
      destruct Hin as [->|Hin].
      * split; [done|]. intros w Hw. right. rewrite elem_of_app, elem_of_reverse. by left.
      * destruct (Hok v Hin) as [? Hw]. split; [done|].
        intros w Hvw. specialize (Hw w Hvw). rewrite elem_of_app, elem_of_reverse. set_solver.
Qed.

Lemma reaches_spec target roots :
  reaches succ ks target roots = true ↔ ∃ d, d ∈ roots ∧ rtc edge d target.
Proof using ks_nodup ks_all.
  unfold reaches. destruct (search_enough_fuel target roots) as [[] Hs]; rewrite Hs; simpl.
  - split; [intros _|done]. apply search_true in Hs as (d & Hd & ?).
    exists d. by rewrite elem_of_reverse in Hd.
  - split; [done|]. intros (d & Hd & Hr). exfalso.
    eapply search_false; [|exact Hs| |exact Hr]; [intros v; set_solver|].
    left. by apply elem_of_reverse.
Qed.
End search.

(** ** Acyclicity *)

Definition acyclic (R : relation string) : Prop := ∀ x, ¬ tc R x x.

Lemma tc_mono (R R' : relation string) x y :
  (∀ x y, R' x y → R x y) → tc R' x y → tc R x y.
Proof.
  intros Hsub. induction 1 as [x y H|x y z H _ IH]; [by apply tc_once, Hsub|].
  eapply tc_l; [by apply Hsub|done].
Qed.

Lemma acyclic_mono (R R' : relation string) :
  (∀ x y, R' x y → R x y) → acyclic R → acyclic R'.
Proof.
  intros Hsub HR x Hx. apply (HR x). by eapply tc_mono.
Qed.

(** Replacing (or extending) the out-edges of one node [x] by [deps]. *)
Section add_edges.
Context (R R' : relation string) (x : string) (deps : list string).
Context (Hsub : ∀ y z, R' y z → R y z ∨ (y = x ∧ z ∈ deps)).

Lemma add_reach_target a : rtc R' a x → rtc R a x.
Proof using Hsub.
  intros H. apply (rtc_ind_l (λ a, rtc R a x)) in H; [done|done|].
  intros y z Hyz _ IH. destruct (Hsub _ _ Hyz) as [HR|[-> _]]; [by eapply rtc_l|done].
Qed.

Lemma add_path_split a b :
  tc R' a b → tc R a b ∨ (rtc R' a x ∧ ∃ d, d ∈ deps ∧ rtc R' d b).
Proof using Hsub.
  induction 1 as [a b Hab|a b c Hab Hbc IH].
  - destruct (Hsub _ _ Hab) as [|[-> ?]]; [left; by apply tc_once|].
    right. split; [done|]. by exists b.
  - destruct (Hsub _ _ Hab) as [HR|[-> Hd]].
    + destruct IH as [|(Hx & d & Hd & Hr)]; [left; by eapply tc_l|].
      right. split; [by eapply rtc_l | eauto].
    + right. split; [done|]. exists b. split; [done|]. by apply tc_rtc.
Qed.

Lemma acyclic_add : acyclic R → (∀ d, d ∈ deps → ¬ rtc R d x) → acyclic R'.
Proof using Hsub.
  intros HR Hd y Hy. destruct (add_path_split _ _ Hy) as [?|(Hyx & d & Hin & Hdy)].
  - by eapply HR.
  - apply (Hd d Hin). apply add_reach_target. by etrans.
Qed.

Lemma cyclic_add d :
  (∀ y z, y ≠ x → R y z → R' y z) → (∀ z, z ∈ deps → R' x z) →
  d ∈ deps → rtc R d x → tc R' x x.
Proof.
  intros Hkeep Hnew Hd Hr. eapply tc_rtc_r; [by apply tc_once, Hnew|].
  apply (rtc_ind_l (λ a, rtc R' a x)) in Hr; [done|done|].
  intros y z Hyz _ IH. destruct (decide (y = x)) as [->|Hne]; [done|].
  eapply rtc_l; [by apply Hkeep|done].
Qed.
End add_edges.
