(* ===== verification/Dependency.v ===== *)
(** * Job dependencies

    [scheduler/dependency.py]: the dependency graph of [DependencyTracker],
    cycle detection at submission, and the runnable, failed and blocked
    queries. Methods hold the tracker's lock, so each is one step; the status
    getter is called after the lock is released, in whatever state it reads. *)

From S2P Require Import Prelude PyValue Domain Graph.

Definition _DEP_FAILED_STATES : list JobStatus :=
  [FAILED; CANCELLED; TIMEOUT; TTL_EXPIRED; DEAD_LETTERED].

(** [status in _DEP_FAILED_STATES], for a status that may be [None] *)
Definition in_failed_states (s : option JobStatus) : bool :=
  match s with Some s => bool_decide (s ∈ _DEP_FAILED_STATES) | None => false end.

(** [DependencyTracker]: job identifier to the identifiers it depends on. *)
Record DependencyTracker : Type := mkTracker { _edges : dict (list string) }.

Module Tracker.

(** [self._edges.get(job_id, \[\])] *)
Definition deps_of (t : DependencyTracker) (id : string) : list string :=
  Dict.get_default id [] (_edges t).

Definition register (id : string) (depends_on : list string) : M DependencyTracker unit :=
  if bool_decide (depends_on = []) then mret tt
  else modify (λ t, mkTracker (Dict.set id depends_on (_edges t))).

Definition unregister (id : string) : M DependencyTracker unit :=
  modify (λ t, mkTracker (Dict.pop id (_edges t))).

Definition detect_cycle (t : DependencyTracker) (id : string) (depends_on : list string) : bool :=
  if bool_decide (depends_on = []) then false
  else reaches (deps_of t) (Dict.keys (_edges t)) id depends_on.

Definition validate_and_register (id : string) (depends_on : list string)
    : M DependencyTracker unit :=
  if bool_decide (depends_on = []) then mret tt
  else
    t ← get_state;
    if detect_cycle t id depends_on then
      raise (DependencyCycleError ("Adding depends_on=" +:+ py_repr (PList (PStr <$> depends_on))
        +:+ " for job " +:+ id +:+ " would create a dependency cycle"))
    else modify (λ t, mkTracker (Dict.set id depends_on (_edges t))).

Definition get_dependencies (t : DependencyTracker) (id : string) : list string := deps_of t id.

Section queries.
Context {S : Type} (status_getter : string → M S (option JobStatus)).

(** The loop of [is_runnable]: stop at the first dependency not succeeded. *)
Fixpoint all_succeeded (deps : list string) : M S bool :=
  match deps with
  | [] => mret true
  | dep_id :: deps =>
    s ← status_getter dep_id;
    if bool_decide (s ≠ Some SUCCEEDED) then mret false else all_succeeded deps
  end.

Definition is_runnable (t : DependencyTracker) (id : string) : M S bool :=
  let deps := deps_of t id in
  if bool_decide (deps = []) then mret true else all_succeeded deps.

Definition has_failed_dependency (t : DependencyTracker) (id : string) : M S (bool * list string) :=
  let deps := deps_of t id in
  if bool_decide (deps = []) then mret (false, [])
  else
    failed ← foldM (λ failed dep_id,
      s ← status_getter dep_id;
      mret (if in_failed_states s then failed ++ [dep_id] else failed)) [] deps;
    mret (bool_decide (0 < length failed), failed).

(** The blockers of one job: dependency and the status shown for it. *)
Definition blockers (deps : list string) : M S (list (string * string)) :=
  foldM (λ bs dep_id,
    s ← status_getter dep_id;
    mret (if bool_decide (s ≠ Some SUCCEEDED)
          then bs ++ [(dep_id, from_option value "unknown" s)] else bs)) [] deps.

Definition blocked_jobs_with_reasons (t : DependencyTracker)
    : M S (list (string * list (string * string))) :=
  foldM (λ result '(id, deps),
    bs ← blockers deps;
    mret (if bool_decide (bs = []) then result else result ++ [(id, bs)])) [] (_edges t).
End queries.
End Tracker.

(** ** The dependency relation *)

(** [depends t x y]: the graph has the edge from [x] to [y]. *)
Definition depends (t : DependencyTracker) : relation string := edge (Tracker.deps_of t).

Definition tracker_wf (t : DependencyTracker) : Prop := Dict.wf (_edges t).

Lemma deps_of_set id deps (d : dict (list string)) x :
  Tracker.deps_of (mkTracker (Dict.set id deps d)) x =
  if decide (id = x) then deps else Tracker.deps_of (mkTracker d) x.
Proof. unfold Tracker.deps_of, Dict.get_default. simpl. rewrite Dict.get_set. by case_decide. Qed.

Lemma deps_of_outside t k : k ∉ Dict.keys (_edges t) → Tracker.deps_of t k = [].
Proof. unfold Tracker.deps_of, Dict.get_default. by intros ->%Dict.get_None. Qed.

Lemma detect_cycle_spec t id deps :
  tracker_wf t →
  Tracker.detect_cycle t id deps = true ↔ ∃ d, d ∈ deps ∧ rtc (depends t) d id.
Proof.
  intros Hwf. unfold Tracker.detect_cycle. case_bool_decide as Hd.
  - subst. split; [done|]. by intros (d & []%elem_of_nil & _).
  - apply reaches_spec; [done | apply deps_of_outside].
Qed.

(** The graph after the out-edges of [id] are replaced by [deps]. *)
Definition with_edges (t : DependencyTracker) (id : string) (deps : list string) : DependencyTracker :=
  mkTracker (Dict.set id deps (_edges t)).

Lemma depends_with_edges t id deps y z :
  depends (with_edges t id deps) y z ↔ (y = id ∧ z ∈ deps) ∨ (y ≠ id ∧ depends t y z).
Proof.
  unfold depends, edge, with_edges. rewrite deps_of_set. destruct t as [d].
  case_decide; naive_solver.
Qed.

Lemma with_edges_cyclic t id deps d :
  d ∈ deps → rtc (depends t) d id → ¬ acyclic (depends (with_edges t id deps)).
Proof.
  intros Hd Hr Hac. apply (Hac id). eapply (cyclic_add (depends t)); [| |done|done].
  - intros y z Hne Hyz. apply depends_with_edges. by right.
  - intros z Hz. apply depends_with_edges. by left.
Qed.

Lemma with_edges_acyclic t id deps :
  acyclic (depends t) → (∀ d, d ∈ deps → ¬ rtc (depends t) d id) →
  acyclic (depends (with_edges t id deps)).
Proof.
  intros Hac Hd. eapply (acyclic_add (depends t)); [|done|done].
  intros y z [?|[_ ?]]%depends_with_edges; [by right|by left].
Qed.

(** The queries over a getter that reads statuses without changing the state. *)
Section getter.
Context {S : Type} (getter : string → M S (option JobStatus)) (st : string → option JobStatus) (s : S).
Context (getter_reads : ∀ d, wp (getter d) s (λ r s', s' = s ∧ r = Ok (st d))).

Lemma wp_getter d Q : Q (Ok (st d)) s → wp (getter d) s Q.
Proof using getter_reads.
  intros HQ. eapply wp_mono; [apply getter_reads|]. by intros r s' [-> ->].
Qed.

Lemma all_succeeded_spec deps :
  wp (Tracker.all_succeeded getter deps) s (λ r s', s' = s ∧
    r = Ok (bool_decide (Forall (λ d, st d = Some SUCCEEDED) deps))).
Proof using getter_reads.
  induction deps as [|d deps IH]; simpl; [by wp_steps|].
  wp_steps. apply wp_getter.
  destruct (bool_decide (st d ≠ Some SUCCEEDED)) eqn:E.
  - apply bool_decide_eq_true in E. wp_steps.
    rewrite bool_decide_eq_false_2; [done|]. by intros [? _]%Forall_cons.
  - apply bool_decide_eq_false, dec_stable in E.
    eapply wp_mono; [exact IH|]. intros r s' [-> ->]. split; [done|]. f_equal.
    apply bool_decide_ext. rewrite Forall_cons. tauto.
Qed.

(** The test of [is_runnable], as a boolean. *)
Definition deps_succeeded (t : DependencyTracker) (id : string) : bool :=
  bool_decide (Forall (λ d, st d = Some SUCCEEDED) (Tracker.deps_of t id)).

Lemma is_runnable_spec t id :
  wp (Tracker.is_runnable getter t id) s (λ r s', s' = s ∧ r = Ok (deps_succeeded t id)).
Proof using getter_reads.
  unfold Tracker.is_runnable, deps_succeeded.
  destruct (bool_decide (Tracker.deps_of t id = [])) eqn:E; [|apply all_succeeded_spec].
  apply bool_decide_eq_true in E. wp_steps. rewrite E. done.
Qed.

Lemma blockers_spec deps :
  wp (Tracker.blockers getter deps) s (λ r s', s' = s ∧
    r = Ok ((λ d, (d, from_option value "unknown" (st d))) <$>
            filter (λ d, st d ≠ Some SUCCEEDED) deps)).
Proof using getter_reads.
  apply (wp_foldM _ (λ done acc s', s' = s ∧
    acc = (λ d, (d, from_option value "unknown" (st d))) <$>
          filter (λ d, st d ≠ Some SUCCEEDED) done)); [done| |by intros ? ? [-> ->]].
  intros dn d todo acc s' _ [-> ->]. wp_steps. apply wp_getter. wp_steps. split; [done|].
  rewrite filter_app, fmap_app, filter_cons, filter_nil.
  destruct (decide (st d ≠ Some SUCCEEDED)).
  - by rewrite bool_decide_eq_true_2.
  - by rewrite bool_decide_eq_false_2, app_nil_r.
Qed.

Lemma has_failed_spec t id :
  wp (Tracker.has_failed_dependency getter t id) s (λ r s', s' = s ∧
    let failed := filter (λ d, in_failed_states (st d)) (Tracker.deps_of t id) in
    r = Ok (bool_decide (0 < length failed), failed)).
Proof using getter_reads.
  unfold Tracker.has_failed_dependency.
  destruct (bool_decide (Tracker.deps_of t id = [])) eqn:E.
  { apply bool_decide_eq_true in E. wp_steps. by rewrite E. }
  apply wp_bind, (wp_foldM _ (λ dn acc s', s' = s ∧
    acc = filter (λ d, in_failed_states (st d)) dn)); [done| |].
  - intros dn d todo acc s' _ [-> ->]. wp_steps. apply wp_getter. wp_steps. split; [done|].
    rewrite filter_app, filter_cons, filter_nil.
    destruct (in_failed_states (st d)); simpl; [done|by rewrite app_nil_r].
  - intros acc s' [-> ->]. by wp_steps.
Qed.

(** The report: every job with an unmet dependency, in registration order,
    with its unmet dependencies. *)
Definition blocked_report (t : DependencyTracker) : list (string * list (string * string)) :=
  (λ e : string * list string,
     (e.1, (λ d, (d, from_option value "unknown" (st d))) <$>
           filter (λ d, st d ≠ Some SUCCEEDED) e.2)) <$>
  filter (λ e : string * list string, ¬ Forall (λ d, st d = Some SUCCEEDED) e.2) (_edges t).

Lemma blocked_spec t :
  wp (Tracker.blocked_jobs_with_reasons getter t) s (λ r s', s' = s ∧ r = Ok (blocked_report t)).
Proof using getter_reads.
  unfold Tracker.blocked_jobs_with_reasons.
  apply (wp_foldM _ (λ dn acc s', s' = s ∧ acc = blocked_report (mkTracker dn)));
    [done| |by intros ? ? [-> ->]].
  intros dn [id deps] todo acc s' _ [-> ->]. wp_steps.
  eapply wp_mono; [apply blockers_spec|]. intros r s' [-> ->]. wp_steps. split; [done|].
  unfold blocked_report. simpl. rewrite filter_app, fmap_app, filter_cons, filter_nil.
  set (unmet := filter (λ d, st d ≠ Some SUCCEEDED) deps).
  assert (Hun : unmet = [] ↔ Forall (λ d, st d = Some SUCCEEDED) deps).
  { unfold unmet. rewrite filter_nil_iff. apply Forall_iff. intros d.
    split; [apply dec_stable | auto]. }
  simpl. case_decide as Hf.
  - rewrite bool_decide_eq_false_2; [done|]. intros ?%fmap_nil_inv. tauto.
  - rewrite bool_decide_eq_true_2; [by rewrite app_nil_r|].
    by rewrite (proj2 Hun Hf).
Qed.

(** What the failed list and the report contain. *)
Lemma failed_elem t id d :
  d ∈ filter (λ d, in_failed_states (st d)) (Tracker.deps_of t id) ↔
  depends t id d ∧ ∃ f, st d = Some f ∧ f ∈ _DEP_FAILED_STATES.
Proof.
  rewrite list_elem_of_filter. unfold depends, edge, in_failed_states.
  destruct (st d) as [f|]; [rewrite bool_decide_spec|]; naive_solver.
Qed.

Lemma blocked_elem t id bs :
  tracker_wf t → (id, bs) ∈ blocked_report t ↔
  (∃ d, depends t id d ∧ st d ≠ Some SUCCEEDED) ∧
  bs = (λ d, (d, from_option value "unknown" (st d))) <$>
       filter (λ d, st d ≠ Some SUCCEEDED) (Tracker.deps_of t id).
Proof.
  intros Hwf. unfold blocked_report, depends, edge. rewrite list_elem_of_fmap.
  assert (Hunmet : ∀ deps, ¬ Forall (λ d, st d = Some SUCCEEDED) deps ↔
                           ∃ d, d ∈ deps ∧ st d ≠ Some SUCCEEDED).
  { intros deps. rewrite <- Exists_exists. split; [by apply not_Forall_Exists; apply _|].
    by intros ?%Exists_not_Forall. }
  assert (Hdeps : ∀ deps, (id, deps) ∈ _edges t ↔ Dict.get id (_edges t) = Some deps)
    by (intros; by apply Dict.elem_of_get).
  unfold Tracker.deps_of, Dict.get_default. split.
  - intros ([id' deps] & [= -> ->] & [Hf Hin]%list_elem_of_filter). simpl in *.
    apply Hdeps in Hin. rewrite Hin. simpl. by rewrite <- Hunmet.
  - intros [Hd ->]. destruct (Dict.get id (_edges t)) as [deps|]; simpl in *.
    + exists (id, deps). split; [done|]. apply list_elem_of_filter. split; [by apply Hunmet|].
      by apply Hdeps.
    + by destruct Hd as (d & []%elem_of_nil & _).
Qed.
End getter.

(** ** Theorems *)

(** C25: cycle detection is exact and terminates. The fuel of the work-list loop
    never runs out, and [detect_cycle] answers [True] exactly when one of the
    requested dependencies reaches the job in the registered graph. *)
Theorem detect_cycle_exact t id deps :
  tracker_wf t →
  (∃ b, search (Tracker.deps_of t) id (search_fuel (Tracker.deps_of t) (Dict.keys (_edges t)) deps)
          (reverse deps) ∅ = Some b) ∧
  (Tracker.detect_cycle t id deps = true ↔ ∃ d, d ∈ deps ∧ rtc (depends t) d id).
Proof.
  intros Hwf. split; [|by apply detect_cycle_spec].
  apply (search_enough_fuel (Tracker.deps_of t)); [done | apply deps_of_outside].
Qed.

(** [c] depends on [b], which depends on [a]. *)
Definition chain : DependencyTracker := mkTracker [("c", ["b"]); ("b", ["a"])].

Lemma chain_wf : tracker_wf chain.
Proof. apply (bool_decide_unpack _). by vm_compute. Qed.

Lemma detect_cycle_exact_witness :
  Tracker.detect_cycle chain "a" ["c"] = true ∧
  (∃ d, d ∈ ["c"] ∧ rtc (depends chain) d "a").
Proof.
  split; [vm_compute; reflexivity|].
  apply (proj1 (proj2 (detect_cycle_exact chain "a" ["c"] chain_wf))). vm_compute. reflexivity.
Defined.

Lemma validate_and_register_run t id deps :
  tracker_wf t → deps ≠ [] →
  wp (Tracker.validate_and_register id deps) t (λ r t',
    match r with
    | Ok _ => (∀ d, d ∈ deps → ¬ rtc (depends t) d id) ∧ t' = with_edges t id deps
    | Err x => (∃ d, d ∈ deps ∧ rtc (depends t) d id) ∧ t' = t ∧ ∃ m, x = DependencyCycleError m
    end).
Proof.
  intros Hwf Hne. unfold Tracker.validate_and_register.
  rewrite bool_decide_eq_false_2 by done. wp_steps.
  pose proof (detect_cycle_spec t id deps Hwf) as Hspec.
  destruct (Tracker.detect_cycle t id deps); wp_steps.
  - split; [by apply Hspec|]. eauto.
  - split; [|done]. intros d Hd Hr. assert (false = true) by (apply Hspec; eauto). done.
Qed.

(** C26: submission keeps the graph acyclic and rejects nothing else.
    [validate_and_register] on an acyclic graph either records the edges, and
    the graph is still acyclic, or raises [DependencyCycleError] with the graph
    unchanged, and then the edges would have closed a cycle. *)
Theorem validate_and_register_safe t id deps :
  tracker_wf t → acyclic (depends t) → deps ≠ [] →
  wp (Tracker.validate_and_register id deps) t (λ r t',
    match r with
    | Ok _ => t' = with_edges t id deps ∧ acyclic (depends t') ∧ Tracker.get_dependencies t' id = deps
    | Err x => t' = t ∧ (∃ m, x = DependencyCycleError m) ∧ ¬ acyclic (depends (with_edges t id deps))
    end).
Proof.
  intros Hwf Hac Hne. eapply wp_mono; [by apply validate_and_register_run|].
  intros [[]|x] t'.
  - intros [Hd ->]. split; [done|]. split; [by apply with_edges_acyclic|].
    unfold Tracker.get_dependencies, with_edges. by rewrite deps_of_set, decide_True.
  - intros ((d & Hd & Hr) & -> & ?). split; [done|]. split; [done|]. by eapply with_edges_cyclic.
Qed.

Lemma chain_acyclic : acyclic (depends chain).
Proof.
  apply (with_edges_acyclic (mkTracker [("c", ["b"])]) "b" ["a"]).
  - apply (with_edges_acyclic (mkTracker []) "c" ["b"]).
    + intros x Hx. inversion Hx as [? ? H|? ? ? H]; by apply elem_of_nil in H.
    + intros d ->%list_elem_of_singleton Hr. inversion Hr as [|? ? ? H]. by apply elem_of_nil in H.
  - intros d ->%list_elem_of_singleton Hr.
    assert (Hc : Tracker.detect_cycle (mkTracker [("c", ["b"])]) "b" ["a"] = true).
    { apply detect_cycle_spec; [apply (bool_decide_unpack _); by vm_compute|].
      exists "a". split; [by left|done]. }
    by vm_compute in Hc.
Qed.

Lemma validate_and_register_safe_witness :
  acyclic (depends chain) ∧
  wp (Tracker.validate_and_register "a" ["c"]) chain (λ r t',
    match r with
    | Ok _ => t' = with_edges chain "a" ["c"] ∧ acyclic (depends t') ∧
              Tracker.get_dependencies t' "a" = ["c"]
    | Err x => t' = chain ∧ (∃ m, x = DependencyCycleError m) ∧
               ¬ acyclic (depends (with_edges chain "a" ["c"]))
    end).
Proof.
  split; [exact chain_acyclic|].
  apply (validate_and_register_safe chain "a" ["c"] chain_wf chain_acyclic). discriminate.
Defined.

(** A job is runnable exactly when every dependency has succeeded, the
    failed dependencies reported are exactly those that failed, were cancelled,
    timed out, expired or were dead-lettered, and the blocked report lists
    exactly the jobs that are not runnable, each with its unmet dependencies. *)
Theorem dependency_queries {S} (getter : string → M S (option JobStatus)) st (s : S) t id :
  (∀ d, wp (getter d) s (λ r s', s' = s ∧ r = Ok (st d))) → tracker_wf t →
  wp (Tracker.is_runnable getter t id) s (λ r s', s' = s ∧ ∃ b, r = Ok b ∧
    (b = true ↔ ∀ d, depends t id d → st d = Some SUCCEEDED)) ∧
  wp (Tracker.has_failed_dependency getter t id) s (λ r s', s' = s ∧ ∃ b failed, r = Ok (b, failed) ∧
    (b = true ↔ ∃ d, d ∈ failed) ∧
    ∀ d, d ∈ failed ↔ depends t id d ∧
      ∃ f, st d = Some f ∧ f ∈ [FAILED; CANCELLED; TIMEOUT; TTL_EXPIRED; DEAD_LETTERED]) ∧
  wp (Tracker.blocked_jobs_with_reasons getter t) s (λ r s', s' = s ∧ ∃ report, r = Ok report ∧
    (id ∈ report.*1 ↔ ∃ d, depends t id d ∧ st d ≠ Some SUCCEEDED) ∧
    ∀ bs d v, (id, bs) ∈ report →
      ((d, v) ∈ bs ↔ depends t id d ∧ st d ≠ Some SUCCEEDED ∧ v = from_option value "unknown" (st d))).
Proof.
  intros Hg Hwf. split; [|split]; (eapply wp_mono; [by first
    [apply is_runnable_spec | apply has_failed_spec | apply blocked_spec]|]);
    intros r s' [-> ->]; (split; [done|]).
  - eexists. split; [done|]. unfold deps_succeeded. by rewrite bool_decide_eq_true, Forall_forall.
  - eexists _, _. split; [done|]. split; [|apply failed_elem].
    rewrite bool_decide_eq_true. destruct (filter _ _) as [|d l]; simpl; split; [lia| |by exists d; left|lia].
    by intros [d ?%elem_of_nil].
  - eexists. split; [done|]. split.
    + rewrite list_elem_of_fmap. split.
      * by intros ([id' bs] & -> & [? _]%blocked_elem).
      * intros Hd. eexists (id, _). split; [done|]. by apply blocked_elem.
    + intros bs d v [_ ->]%blocked_elem; [|done].
      rewrite list_elem_of_fmap. setoid_rewrite list_elem_of_filter. naive_solver.
Qed.

Lemma dependency_queries_witness :
  let st := λ d : string, if decide (d = "a") then Some SUCCEEDED else None in
  let getter : string → M unit (option JobStatus) := λ d, mret (st d) in
  (∀ d, wp (getter d) tt (λ r s', s' = tt ∧ r = Ok (st d))) ∧
  wp (Tracker.is_runnable getter chain "b") tt (λ r s', s' = tt ∧ ∃ b, r = Ok b ∧
    (b = true ↔ ∀ d, depends chain "b" d → st d = Some SUCCEEDED)).
Proof.
  intros st getter.
  assert (Hg : ∀ d, wp (getter d) tt (λ r s', s' = tt ∧ r = Ok (st d)))
    by (intros d; apply wp_ret; split; reflexivity).
  split; [exact Hg|]. exact (proj1 (dependency_queries getter st tt chain "b" Hg chain_wf)).
Defined.
