(* ===== verification/Security.v ===== *)
(** * Security checks

    [security/secrets.py], [security/validation.py], [security/rbac.py]: what a
    payload, a callback URL and a permission set must satisfy. *)

From S2P Require Import Prelude PyValue.

(** ** Permissions *)

Definition check_permission (granted : gset string) (required : string) : bool :=
  bool_decide (required ∈ granted).

Definition require_permission {S} (granted : gset string) (required : string) : M S unit :=
  if negb (check_permission granted required)
  then raise (PermissionError ("Missing required permission: " +:+ required))
  else mret tt.

(** ** Secrets in payloads *)

Definition _SECRET_TOKENS : list string :=
  ["password"; "secret"; "token"; "api_key"; "private_key"; "credential"].

(** The tokens searched for in string values. *)
Definition value_tokens : list string := ["bearer "; "sk-"; "-----begin"; "xox"; "ghp_"].

Fixpoint payload_contains_secret (v : pyval) : bool :=
  match v with
  | PDict d =>
    existsb (λ kv : string * pyval,
      let key_l := lower kv.1 in
      if any_in _SECRET_TOKENS key_l then true else payload_contains_secret kv.2) d
  | PList l => existsb payload_contains_secret l
  | PStr s => let value_l := lower s in any_in value_tokens value_l
  | _ => false
  end.

Definition assert_no_secrets {S} (v : pyval) : M S unit :=
  if payload_contains_secret v
  then raise (ValueError "Payload appears to contain secret material")
  else mret tt.

(** ** Sizes *)

(** [len(str(payload).encode("utf-8"))]: strings are their UTF-8 bytes. *)
Definition payload_size (payload : dict pyval) : Z := Z.of_nat (String.length (py_str (PDict payload))).

Definition validate_payload_size {S} (payload : dict pyval) (max_bytes : Z) : M S unit :=
  let size := payload_size payload in
  if (max_bytes <? size)%Z
  then raise (ValueError ("Payload size " +:+ pretty size +:+ " exceeds max " +:+ pretty max_bytes))
  else mret tt.

(** ** Callback URLs

    [urlparse(url).scheme] of the standard library: leading control characters
    and spaces are stripped, tabs and newlines removed, and the part before the
    first colon is the scheme, in lower case, when it starts with a letter and
    has only letters, digits, plus, minus and dot. The checks [urlparse] makes
    on the network location raise [ValueError] too and are not modelled. *)
Definition is_letter (c : ascii) : bool :=
  let n := N_of_ascii c in ((65 <=? n) && (n <=? 90) || (97 <=? n) && (n <=? 122))%N.
Definition is_scheme_char (c : ascii) : bool :=
  let n := N_of_ascii c in
  is_letter c || ((48 <=? n) && (n <=? 57))%N || (n =? 43)%N || (n =? 45)%N || (n =? 46)%N.

Fixpoint strip_left (s : string) : string :=
  match s with
  | String c s' => if (N_of_ascii c <=? 32)%N then strip_left s' else s
  | EmptyString => EmptyString
  end.

Fixpoint remove_unsafe (s : string) : string :=
  match s with
  | EmptyString => EmptyString
  | String c s =>
    let n := N_of_ascii c in
    if ((n =? 9) || (n =? 10) || (n =? 13))%N then remove_unsafe s else String c (remove_unsafe s)
  end.

(** The text before the first colon, when there is one. *)
Fixpoint before_colon (s : string) : option string :=
  match s with
  | EmptyString => None
  | String c s => if bool_decide (c = ":"%char) then Some "" else String c <$> before_colon s
  end.

Fixpoint all_chars (f : ascii → bool) (s : string) : bool :=
  match s with EmptyString => true | String c s => f c && all_chars f s end.

Definition clean_url (url : string) : string := remove_unsafe (strip_left url).

Definition url_scheme (url : string) : string :=
  match before_colon (clean_url url) with
  | Some (String c s) => if is_letter c && all_chars is_scheme_char (String c s)
                         then lower (String c s) else ""
  | _ => ""
  end.

Definition validate_callback_url {S} (url : string) : M S unit :=
  if negb (bool_decide (url_scheme url ∈ ["http"; "https"]))
  then raise (ValueError "Only http/https callback URLs are allowed")
  else mret tt.

(** ** Specifications *)

(** A payload carries a secret when a string value anywhere in it, or a key of
    any dictionary in it, looks like one. *)
Definition suspicious_key (k : string) : Prop :=
  mentions ["password"; "secret"; "token"; "api_key"; "private_key"; "credential"] (lower k).

Definition suspicious_text (s : string) : Prop :=
  mentions ["bearer "; "sk-"; "-----begin"; "xox"; "ghp_"] (lower s).

Inductive has_secret : pyval → Prop :=
  | secret_value s : suspicious_text s → has_secret (PStr s)
  | secret_key d k v : (k, v) ∈ d → suspicious_key k → has_secret (PDict d)
  | secret_field d k v : (k, v) ∈ d → has_secret v → has_secret (PDict d)
  | secret_item l v : v ∈ l → has_secret v → has_secret (PList l).

Lemma secret_in_list l :
  Forall (λ v, payload_contains_secret v = true ↔ has_secret v) l →
  existsb payload_contains_secret l = true ↔ has_secret (PList l).
Proof.
  intros IH. rewrite existsb_exists. setoid_rewrite <- list_elem_of_In.
  rewrite Forall_forall in IH. split.
  - intros (v & Hv & Hs). eapply secret_item; [exact Hv|]. by apply IH.
  - inversion 1 as [| | |? v Hv Hs]. exists v. split; [done|]. by apply IH.
Qed.

Lemma secret_in_dict (d : dict pyval) :
  Forall (λ kv : string * pyval, payload_contains_secret kv.2 = true ↔ has_secret kv.2) d →
  payload_contains_secret (PDict d) = true ↔ has_secret (PDict d).
Proof.
  intros IH. simpl. rewrite existsb_exists. setoid_rewrite <- list_elem_of_In.
  rewrite Forall_forall in IH. split.
  - intros ([k v] & Hv & Hs). simpl in Hs. destruct (any_in _ _) eqn:E.
    + eapply secret_key; [exact Hv|]. by apply any_in_spec.
    + eapply secret_field; [exact Hv|]. by apply (IH (k, v)).
  - inversion 1 as [|? k v Hv Hs|? k v Hv Hs|]; exists (k, v); (split; [done|]); simpl.
    + assert (any_in _SECRET_TOKENS (lower k) = true) as -> by (by apply any_in_spec). done.
    + case_match; [done|]. by apply (IH (k, v)).
Qed.

(** The scan is [has_secret]. *)
Lemma payload_secret_iff (v : pyval) : payload_contains_secret v = true ↔ has_secret v.
Proof.
  induction v as [| | | |s|l IH|d IH] using pyval_rect'; simpl; try (split; [done|by inversion 1]).
  - rewrite any_in_spec. split; [by constructor|by inversion 1].
  - by apply secret_in_list.
  - by apply secret_in_dict.
Qed.

(** C23: the secret scan is exact. [payload_contains_secret] answers [True]
    exactly when some dictionary key in the payload, at any depth, contains one
    of the secret tokens, or some string value, at any depth, contains one of
    the credential prefixes, upper and lower case not distinguished. *)
Theorem payload_contains_secret_exact (v : pyval) :
  payload_contains_secret v = true ↔ has_secret v.
Proof. apply payload_secret_iff. Qed.

(** Scheme characters. *)
Lemma lower_app s t : lower (s +:+ t) = lower s +:+ lower t.
Proof. induction s as [|c s IH]; simpl; [done|]. by rewrite IH. Qed.

Lemma before_colon_spec s p :
  before_colon s = Some p ↔ (∃ t, s = p +:+ ":" +:+ t) ∧ all_chars (λ c, negb (bool_decide (c = ":"%char))) p = true.
Proof.
  revert p. induction s as [|c s IH]; intros p; simpl.
  - split; [done|]. intros [[t Ht] _]. by destruct p.
  - case_bool_decide as Hc.
    + split.
      * intros [= <-]. split; [exists s; by subst|done].
      * intros [[t Ht] Hp]. destruct p as [|c' p]; [done|]. simpl in *.
        injection Ht as <- Ht. subst c. by rewrite bool_decide_eq_true_2 in Hp.
    + rewrite fmap_Some. split.
      * intros (p' & Hp' & ->). apply IH in Hp' as [[t ->] Hall]. split; [by exists t|].
        simpl. by rewrite bool_decide_eq_false_2.
      * intros [[t Ht] Hp]. destruct p as [|c' p]; [by injection Ht as -> _|].
        simpl in *. injection Ht as <- Ht. exists p. split; [|done]. apply IH.
        apply andb_true_iff in Hp as [_ Hp]. eauto.
Qed.
