(* ===== verification/Idempotency.v ===== *)
(** * Idempotency keys

    [idempotency/manager.py]: the first job registered under a key is returned
    until the key's entry expires. *)

From S2P Require Import Prelude PyValue.

(** [IdempotencyManager]: the key's job and its expiry; times are microseconds. *)
Record IdempotencyManager : Type := mkIdempotency {
  _ttl_seconds : Z;
  _entries : gmap string (string * Z);
}.

Definition new_idempotency : IdempotencyManager := mkIdempotency 86400 ∅.

Definition register_or_get (key job_id : string) : M IdempotencyManager string :=
  now ← utcnow;
  existing ← gets (λ i, _entries i !! key);
  match existing with
  | Some (id, expires) =>
    if (now <? expires)%Z then mret id
    else
      modify (λ i, mkIdempotency (_ttl_seconds i)
        (<[key := (job_id, (now + _ttl_seconds i * 1000000)%Z)]> (_entries i)));;
      mret job_id
  | None =>
    modify (λ i, mkIdempotency (_ttl_seconds i)
      (<[key := (job_id, (now + _ttl_seconds i * 1000000)%Z)]> (_entries i)));;
    mret job_id
  end.

(** The job a key stands for at time [now]. *)
Definition live (i : IdempotencyManager) (key : string) (now : Z) : option string :=
  match _entries i !! key with
  | Some (id, expires) => if (now <? expires)%Z then Some id else None
  | None => None
  end.

(** The entries after a new registration at [now]. *)
Definition registered (i : IdempotencyManager) (key id : string) (now : Z) : IdempotencyManager :=
  mkIdempotency (_ttl_seconds i) (<[key := (id, (now + _ttl_seconds i * 1000000)%Z)]> (_entries i)).

Lemma register_or_get_run key id i e :
  let now := env_clock e (env_ticks e) in
  register_or_get key id i e =
    (Ok (default id (live i key now)),
     match live i key now with Some _ => i | None => registered i key id now end,
     Env (env_clock e) (env_uuid e) (S (env_ticks e)) (env_ids e)).
Proof.
  unfold register_or_get, live, mbind, M_bind, utcnow, gets, modify, mret, M_ret. cbn.
  destruct (_entries i !! key) as [[id' ex]|]; [|done]. by destruct (_ <? _)%Z.
Qed.

Lemma live_registered i key id now now' :
  (now' < now + _ttl_seconds i * 1000000)%Z → live (registered i key id now) key now' = Some id.
Proof.
  intros Hlt. unfold live. simpl. rewrite lookup_insert_eq. by rewrite (proj2 (Z.ltb_lt _ _) Hlt).
Qed.
