(* ===== verification/Observability.v ===== *)
(** * Observability

    [observability/audit.py], [metrics.py], [logging.py] and [otel.py]: the
    in-memory audit sink, the counters, the redaction of secret-like fields and
    the span wrapper. *)

From S2P Require Import Prelude PyValue.

(** ** Audit events *)

Definition REQUIRED_FIELDS : list string :=
  ["timestamp"; "service"; "event_type"; "action"; "outcome"; "severity"; "trace_id"; "request_id";
   "actor"; "target"].

Definition build_audit_event {S} (action outcome service : string) : M S (dict pyval) :=
  now ← utcnow;
  mret [("timestamp", PStr (isoformat now)); ("service", PStr service);
        ("event_type", PStr "system_function"); ("action", PStr action);
        ("outcome", PStr outcome); ("severity", PStr "INFO"); ("trace_id", PStr "trace-test");
        ("request_id", PStr "request-test");
        ("actor", PDict [("type", PStr "system"); ("id", PStr "worker")]);
        ("target", PDict [("type", PStr "job"); ("id", PStr "job-test")])].

Definition validate_audit_event_schema (event : dict pyval) : bool :=
  forallb (λ f, bool_decide (f ∈ Dict.keys event)) REQUIRED_FIELDS.

(** [AuditEmitter]: the events emitted so far. *)
Record AuditEmitter : Type := mkAudit { events : list (dict pyval) }.

Definition emit (action outcome : string) : M AuditEmitter (dict pyval) :=
  event ← build_audit_event action outcome "cloud_dog_jobs";
  modify (λ a, mkAudit (events a ++ [event]));;
  mret event.

(** ** Metrics *)

Record Metrics : Type := mkMetrics { _counters : gmap string Z }.

Module Metrics.
Definition inc (key : string) (by_ : Z) : M Metrics unit :=
  modify (λ m, mkMetrics (<[key := (count (_counters m) key + by_)%Z]> (_counters m))).
Definition get (m : Metrics) (key : string) : Z := count (_counters m) key.
End Metrics.

(** ** Redaction *)

Definition redaction_tokens : list string := ["password"; "secret"; "token"; "key"; "credential"].

Definition redacted_key (key : string) : bool :=
  any_in redaction_tokens (lower key).

Definition redact_secrets (data : dict pyval) : dict pyval :=
  foldl (λ redacted '(key, v),
    if redacted_key key then Dict.set key (PStr "***REDACTED***") redacted
    else Dict.set key v redacted) [] data.

(** ** Spans

    [with span(name): body]. When tracing is available an exception of the body
    is thrown into the generator, which catches it and yields a second time, and
    [contextlib] answers with a [RuntimeError]. *)
Definition span {S A} (available : bool) (body : M S A) : M S A :=
  if available then try_except body (λ _, raise (RuntimeError "generator didn't stop after throw()")) else body.

Lemma span_masks_exceptions {S A} (body : M S A) (s : S) x :
  wp body s (λ r _, r = Err x) →
  wp (span true body) s (λ r _, r = Err (RuntimeError "generator didn't stop after throw()")) ∧
  wp (span false body) s (λ r _, r = Err x).
Proof.
  intros Hb. split; [|exact Hb]. unfold span. wp_steps. eapply wp_mono; [exact Hb|]. intros r s' ->. by wp_steps.
Qed.

(** ** What the trail records

    The action and outcome of an event. *)
Definition event_of (e : dict pyval) : string * string :=
  (from_option py_str "" (Dict.get "action" e), from_option py_str "" (Dict.get "outcome" e)).

Definition trail (a : AuditEmitter) : list (string * string) := event_of <$> events a.

Lemma wp_emit action outcome a Q :
  (∀ e, validate_audit_event_schema e = true → event_of e = (action, outcome) →
    Q (Ok e) (mkAudit (events a ++ [e]))) →
  wp (emit action outcome) a Q.
Proof. intros HQ. unfold emit, build_audit_event. wp_steps. by apply HQ. Qed.

Lemma trail_app a e : trail (mkAudit (events a ++ [e])) = trail a ++ [event_of e].
Proof. unfold trail. simpl. by rewrite fmap_app. Qed.

Lemma redact_keys_get data key acc :
  Dict.wf data →
  Dict.get key (foldl (λ redacted '(key, v),
    if redacted_key key then Dict.set key (PStr "***REDACTED***") redacted
    else Dict.set key v redacted) acc data) =
  match Dict.get key data with
  | Some v => Some (if redacted_key key then PStr "***REDACTED***" else v)
  | None => Dict.get key acc
  end.
Proof.
  revert acc. induction data as [|[k v] data IH]; intros acc Hwf; simpl; [done|].
  unfold Dict.wf in Hwf. rewrite Dict.keys_cons, NoDup_cons in Hwf. destruct Hwf as [Hk Hwf].
  rewrite IH by done. apply Dict.get_None in Hk.
  destruct (decide (key = k)) as [->|Hne]; [rewrite Hk|destruct (Dict.get key data); [done|]];
    destruct (redacted_key k); rewrite Dict.get_set; case_decide; congruence.
Qed.

(** Redaction hides exactly the top-level fields whose lower-cased name
    contains a secret-like token: their values are replaced, the other fields
    are kept as they are, no field is added or lost. *)
Theorem redact_secrets_exact (data : dict pyval) (key : string) :
  Dict.wf data →
  Dict.get key (redact_secrets data) =
    (λ v, if decide (mentions ["password"; "secret"; "token"; "key"; "credential"] (lower key))
          then PStr "***REDACTED***" else v) <$> Dict.get key data.
Proof.
  intros Hwf. unfold redact_secrets. rewrite redact_keys_get by done.
  destruct (Dict.get key data); simpl; [|done]. f_equal. unfold redacted_key.
  destruct (any_in _ _) eqn:E.
  - rewrite decide_True; [done|]. by apply any_in_spec.
  - rewrite decide_False; [done|]. intros Hm%any_in_spec. unfold redaction_tokens in E. congruence.
Qed.

Lemma redact_secrets_exact_witness :
  let data := [("Api_Key", PStr "k"); ("user", PDict [("password", PStr "p")])] in
  Dict.wf data ∧
  Dict.get "Api_Key" (redact_secrets data) =
    (λ v, if decide (mentions ["password"; "secret"; "token"; "key"; "credential"] (lower "Api_Key"))
          then PStr "***REDACTED***" else v) <$> Dict.get "Api_Key" data ∧
  redact_secrets data =
    [("Api_Key", PStr "***REDACTED***"); ("user", PDict [("password", PStr "p")])].
Proof.
  intros data.
  assert (Hwf : Dict.wf data) by (by apply (bool_decide_unpack _); vm_compute).
  split; [exact Hwf|]. split; [exact (redact_secrets_exact data "Api_Key" Hwf)|].
  vm_compute. reflexivity.
Defined.
