(* ===== verification/Queue.v ===== *)
(** * Queue facade

    [queue.py]: [JobQueue.submit] with its checks, deduplication, cycle
    detection and enqueue, and the operations on existing jobs. The [async]
    variants run the same methods in a thread. *)

From S2P Require Import Prelude PyValue Domain Backend MemoryBackend Security Idempotency.
From S2P Require Import Observability Graph Dependency.

Record JobQueue (B : Type) : Type := mkQueue {
  q_backend : B;
  _payload_max_bytes : Z;
  q_idempotency : IdempotencyManager;
  q_audit : AuditEmitter;
  q_tracker : option DependencyTracker;
}.
Arguments mkQueue {B}.
Arguments q_backend {B}.
Arguments _payload_max_bytes {B}.
Arguments q_idempotency {B}.
Arguments q_audit {B}.
Arguments q_tracker {B}.

#[export] Instance JobQueue_eta B : Eta (JobQueue B) := λ q,
  mkQueue (q_backend q) (_payload_max_bytes q) (q_idempotency q) (q_audit q) (q_tracker q).

Module Queue.
Section queue.
Context {B : Type} `{QueueBackend B}.

(** [JobQueue(backend)] with the defaults. *)
Definition new (b : B) : JobQueue B := mkQueue b 16384 new_idempotency (mkAudit []) None.

Definition on_backend {A} : M B A → M (JobQueue B) A :=
  zoom q_backend (λ b q, q <| q_backend := b |>).
Definition audit (action outcome : string) : M (JobQueue B) unit :=
  zoom q_audit (λ a q, q <| q_audit := a |>) (_ ← emit action outcome; mret tt).
Definition on_idempotency {A} : M IdempotencyManager A → M (JobQueue B) A :=
  zoom q_idempotency (λ i q, q <| q_idempotency := i |>).
Definition on_tracker {A} : M DependencyTracker A → M (JobQueue B) (option A) :=
  zoom_opt q_tracker (λ t q, q <| q_tracker := Some t |>).

(** Lines 66-68. *)
Definition put (job : Job) : M (JobQueue B) string :=
  id ← on_backend (enqueue job);
  audit "job.submit" "success";;
  mret id.

(** Lines 64-68. *)
Definition submit_new (job : Job) : M (JobQueue B) string :=
  (if bool_decide (depends_on job = []) then mret tt
   else _ ← on_tracker (Tracker.validate_and_register (job_id job) (depends_on job)); mret tt);;
  put job.

(** Lines 59-68. *)
Definition submit_job (key : option string) (job : Job) : M (JobQueue B) string :=
  if truthy_opt_str key then
    prior ← on_idempotency (register_or_get (default "" key) (job_id job));
    if bool_decide (prior ≠ job_id job) then audit "job.submit" "deduplicated";; mret prior
    else submit_new job
  else submit_new job.

Definition submit (request : JobRequest) : M (JobQueue B) string :=
  max ← gets _payload_max_bytes;
  validate_payload_size (req_payload request) max;;
  assert_no_secrets (PDict (req_payload request));;
  job ← from_request request;
  submit_job (req_idempotency_key request) job.

Definition get (job_id : string) : M (JobQueue B) (option Job) := on_backend (Backend.get job_id).

Definition list (limit : Z) (job_type : option string) : M (JobQueue B) (list Job) :=
  on_backend (dequeue limit job_type None).

Definition cancel (job_id : string) : M (JobQueue B) bool :=
  ok ← on_backend (update_status job_id (value CANCELLED));
  audit "job.cancel" (if (ok : bool) then "success" else "failure");;
  mret ok.

Definition health : M (JobQueue B) bool := on_backend health_check.
End queue.
End Queue.

(** ** Submission *)

(** The request passes the two payload checks. *)
Definition acceptable {B} (q : JobQueue B) (r : JobRequest) : Prop :=
  (payload_size (req_payload r) ≤ _payload_max_bytes q)%Z ∧ ¬ has_secret (PDict (req_payload r)).

(** The job a submission builds, and the environment after it. *)
Definition submitted (e : env) (r : JobRequest) : Job :=
  job_of_request (env_clock e (env_ticks e)) (env_uuid e (env_ids e)) r.
Definition env_submitted (e : env) : env :=
  Env (env_clock e) (env_uuid e) (S (env_ticks e)) (S (env_ids e)).

(** The time at which the idempotency manager reads the clock. *)
Definition register_time (e : env) : Z := env_clock e (S (env_ticks e)).

Section submission.
Context {B : Type} `{QueueBackend B}.

Lemma submit_acceptable (q : JobQueue B) r e :
  acceptable q r →
  Queue.submit r q e = Queue.submit_job (req_idempotency_key r) (submitted e r) q (env_submitted e).
Proof.
  intros [Hsize Hsec]. unfold Queue.submit, validate_payload_size, assert_no_secrets.
  unfold mbind, M_bind, gets, from_request. cbn -[Queue.submit_job payload_contains_secret].
  rewrite (proj2 (Z.ltb_ge _ _) Hsize).
  rewrite <- payload_secret_iff, not_true_iff_false in Hsec. by rewrite Hsec.
Qed.

(** Registration under a key, when the request has one. *)
Lemma submit_job_deduplicated (q : JobQueue B) key j id e (Q : result string → JobQueue B → Prop) :
  truthy_opt_str key = true →
  live (q_idempotency q) (default "" key) (env_clock e (env_ticks e)) = Some id → id ≠ job_id j →
  (∀ a, trail a = trail (q_audit q) ++ [("job.submit", "deduplicated")] →
     Q (Ok id) (q <| q_audit := a |>)) →
  let '(r, q', _) := Queue.submit_job key j q e in Q r q'.
Proof.
  intros Hkey Hlive Hne HQ. unfold Queue.submit_job. rewrite Hkey.
  set (e' := Env (env_clock e) (env_uuid e) (S (env_ticks e)) (env_ids e)).
  assert (Hrun : Queue.on_idempotency (register_or_get (default "" key) (job_id j)) q e = (Ok id, q, e')).
  { unfold Queue.on_idempotency, zoom. rewrite register_or_get_run, Hlive. by destruct q. }
  assert (Hdedup : wp (Queue.audit (B := B) "job.submit" "deduplicated";; mret id) q Q).
  { unfold Queue.audit. wp_steps. apply wp_emit. intros ev _ Hev. wp_steps. apply HQ.
    by rewrite trail_app, Hev. }
  specialize (Hdedup e'). unfold mbind at 1, M_bind at 1. rewrite Hrun.
  by rewrite bool_decide_eq_true_2 by done.
Qed.

(** The idempotency manager after the registration of a new job. *)
Definition keyed (i : IdempotencyManager) (key : option string) (id : string) (now : Z)
    : IdempotencyManager :=
  if truthy_opt_str key then registered i (default "" key) id now else i.

Lemma submit_job_new (q : JobQueue B) key j e (Q : result string → JobQueue B → Prop) :
  (truthy_opt_str key = true → live (q_idempotency q) (default "" key) (env_clock e (env_ticks e)) = None) →
  wp (Queue.submit_new j) (q <| q_idempotency :=
    keyed (q_idempotency q) key (job_id j) (env_clock e (env_ticks e)) |>) Q →
  let '(r, q', _) := Queue.submit_job key j q e in Q r q'.
Proof.
  intros Hlive Hnew. unfold Queue.submit_job, keyed in *.
  destruct (truthy_opt_str key).
  - set (e' := Env (env_clock e) (env_uuid e) (S (env_ticks e)) (env_ids e)).
    specialize (Hlive eq_refl). specialize (Hnew e'). unfold mbind at 1, M_bind at 1.
    unfold Queue.on_idempotency at 1, zoom at 1. rewrite register_or_get_run, Hlive. simpl.
    rewrite bool_decide_eq_false_2 by tauto. exact Hnew.
  - specialize (Hnew e). by destruct q.
Qed.
End submission.

(** The new job would close a cycle. *)
Definition closes_cycle {B} (q : JobQueue B) (j : Job) : bool :=
  match q_tracker q with
  | Some t => Tracker.detect_cycle t (job_id j) (depends_on j)
  | None => false
  end.

(** The tracker with the job's dependencies. *)
Definition track (j : Job) (t : DependencyTracker) : DependencyTracker :=
  if bool_decide (depends_on j = []) then t else with_edges t (job_id j) (depends_on j).

Section new_jobs.
Context {B : Type} `{BackendContract B}.

Lemma submit_new_ok (q : JobQueue B) j :
  backend_wf (q_backend q) → statuses (q_backend q) !! job_id j = None →
  wp (Queue.submit_new j) q (λ r q', q_idempotency q' = q_idempotency q ∧
    if closes_cycle q j then
      (∃ m, r = Err (DependencyCycleError m)) ∧ q' = q
    else
      r = Ok (job_id j) ∧ backend_wf (q_backend q') ∧
      statuses (q_backend q') = <[job_id j := status j]> (statuses (q_backend q)) ∧
      q_tracker q' = track j <$> q_tracker q ∧
      trail (q_audit q') = trail (q_audit q) ++ [("job.submit", "success")]).
Proof.
  intros Hwf Hfresh. unfold Queue.submit_new.
  assert (Htail : ∀ q1, q_backend q1 = q_backend q → q_audit q1 = q_audit q →
    wp (Queue.put j) q1
      (λ r q', q_idempotency q' = q_idempotency q1 ∧ r = Ok (job_id j) ∧ backend_wf (q_backend q') ∧
        statuses (q_backend q') = <[job_id j := status j]> (statuses (q_backend q)) ∧
        q_tracker q' = q_tracker q1 ∧
        trail (q_audit q') = trail (q_audit q) ++ [("job.submit", "success")])).
  { intros q1 Eb Ea. unfold Queue.put. wp_steps. apply wp_zoom. rewrite Eb.
    eapply wp_mono; [by apply enqueue_ok|]. intros r b' (Hwf' & Hnew).
    destruct (Hnew Hfresh) as [-> Hst]. unfold Queue.audit. wp_steps. apply wp_emit.
    intros ev _ Hev. wp_steps. simpl. rewrite trail_app, Hev, Ea. by split_and!. }
  unfold closes_cycle, track. case_bool_decide as Hd.
  - wp_steps. eapply wp_mono; [by apply Htail|].
    intros r q' (? & -> & ? & ? & Ht & ?). rewrite Hd.
    destruct (q_tracker q) as [t|]; simpl; by rewrite Ht.
  - wp_steps. apply wp_zoom_opt. destruct (q_tracker q) as [t|] eqn:Et.
    + unfold Tracker.validate_and_register. rewrite bool_decide_eq_false_2 by done. wp_steps.
      destruct (Tracker.detect_cycle t (job_id j) (depends_on j)); wp_steps.
      * split; [done|]. split; [eauto|]. destruct q; simpl in *; by subst.
      * eapply wp_mono; [by apply Htail|]. intros r q' (? & -> & ? & ? & Ht & ?). by rewrite Ht.
    + wp_steps. eapply wp_mono; [by apply Htail|]. intros r q' (? & -> & ? & ? & Ht & ?).
      simpl. by rewrite Ht, Et.
Qed.
End new_jobs.

(** A request without key and dependencies, the common case. *)
Lemma submit_plain {B} `{BackendContract B} (q : JobQueue B) r e :
  backend_wf (q_backend q) → acceptable q r → req_idempotency_key r = None → req_depends_on r = [] →
  statuses (q_backend q) !! job_id (submitted e r) = None →
  let '(res, q', _) := Queue.submit r q e in
  res = Ok (job_id (submitted e r)) ∧ backend_wf (q_backend q') ∧
  statuses (q_backend q') = <[job_id (submitted e r) := QUEUED]> (statuses (q_backend q)).
Proof.
  intros Hwf Hacc Hkey Hdeps Hfresh. rewrite submit_acceptable by done. rewrite Hkey.
  apply (submit_job_new q None _ (env_submitted e) (λ res q1, _)); [done|].
  eapply wp_mono; [by apply submit_new_ok|]. cbn beta. intros res q1 [_ Hres].
  unfold closes_cycle in Hres. cbn [q_tracker set_field] in Hres.
  assert (Hno : ∀ t, Tracker.detect_cycle t (job_id (submitted e r)) (depends_on (submitted e r)) = false).
  { intros t. change (depends_on (submitted e r)) with (req_depends_on r). by rewrite Hdeps. }
  destruct (q_tracker q) as [t|]; cbn in Hres; [rewrite Hno in Hres|]; by destruct Hres as (-> & ? & ? & _).
Qed.

(** ** Theorems *)

(** C7: an acceptable submission is enqueued. When the payload passes the checks
    and the request's key, if any, is not taken, [submit] either rejects it with
    [DependencyCycleError], leaving backend and dependency graph alone, exactly
    when its dependencies would close a cycle, or stores one new queued job
    built from the request under the identifier it returns, records its
    dependencies and emits a success event; no other job changes. The key is
    registered in both cases. *)
Theorem submit_enqueues {B} `{BackendContract B} (q : JobQueue B) r e :
  backend_wf (q_backend q) → acceptable q r →
  statuses (q_backend q) !! job_id (submitted e r) = None →
  (truthy_opt_str (req_idempotency_key r) = true →
     live (q_idempotency q) (default "" (req_idempotency_key r)) (register_time e) = None) →
  let j := submitted e r in
  let '(res, q', _) := Queue.submit r q e in
  q_idempotency q' = keyed (q_idempotency q) (req_idempotency_key r) (job_id j) (register_time e) ∧
  if closes_cycle q j then
    (∃ m, res = Err (DependencyCycleError m)) ∧ q_backend q' = q_backend q ∧ q_tracker q' = q_tracker q
  else
    res = Ok (job_id j) ∧ backend_wf (q_backend q') ∧
    statuses (q_backend q') = <[job_id j := QUEUED]> (statuses (q_backend q)) ∧
    q_tracker q' = track j <$> q_tracker q ∧
    trail (q_audit q') = trail (q_audit q) ++ [("job.submit", "success")].
Proof.
  intros Hwf Hacc Hfresh Hlive j. rewrite submit_acceptable by done. fold j.
  apply (submit_job_new q _ j (env_submitted e) (λ res q', _)); [exact Hlive|].
  eapply wp_mono; [by apply submit_new_ok|]. simpl. intros res q' [-> Hres].
  split; [done|]. unfold closes_cycle in *. simpl in Hres.
  destruct (match q_tracker q with Some _ => _ | None => _ end); [|done].
  by destruct Hres as [? ->].
Qed.

(** C24: a submission with an oversized payload or with secret material is
    rejected with [ValueError] before anything happens: no job, no key, no
    dependency and no event is recorded. *)
Theorem submit_rejects {B} `{QueueBackend B} (q : JobQueue B) r :
  ¬ acceptable q r →
  wp (Queue.submit r) q (λ res q', q' = q ∧
    res = Err (ValueError (if decide (payload_size (req_payload r) ≤ _payload_max_bytes q)%Z
      then "Payload appears to contain secret material"
      else "Payload size " +:+ pretty (payload_size (req_payload r)) +:+ " exceeds max "
           +:+ pretty (_payload_max_bytes q)))).
Proof.
  intros Hno. unfold Queue.submit, validate_payload_size. wp_steps.
  destruct (Z.ltb_spec (_payload_max_bytes q) (payload_size (req_payload r))).
  - wp_steps. by rewrite decide_False by lia.
  - rewrite decide_True by done. unfold assert_no_secrets.
    destruct (payload_contains_secret _) eqn:E; wp_steps; [done|].
    exfalso. apply Hno. split; [done|]. rewrite <- payload_secret_iff. congruence.
Qed.

(** C6: a submission is idempotent within the time-to-live of its key. After a
    submission under a key was accepted, any further acceptable submission
    under that key, whatever else it asks for, returns the same identifier and
    enqueues nothing and records no dependency, as long as the clock has not
    reached the registration time plus the time-to-live. *)
Theorem submit_idempotent {B} `{BackendContract B} (q : JobQueue B) r1 e1 r2 e2 :
  backend_wf (q_backend q) → acceptable q r1 →
  statuses (q_backend q) !! job_id (submitted e1 r1) = None →
  live (q_idempotency q) (default "" (req_idempotency_key r1)) (register_time e1) = None →
  let '(res1, q1, _) := Queue.submit r1 q e1 in
  ∀ id, res1 = Ok id →
  acceptable q1 r2 → truthy_opt_str (req_idempotency_key r2) = true →
  req_idempotency_key r2 = req_idempotency_key r1 →
  id ≠ job_id (submitted e2 r2) →
  (register_time e2 < register_time e1 + _ttl_seconds (q_idempotency q) * 1000000)%Z →
  let '(res2, q2, _) := Queue.submit r2 q1 e2 in
  res2 = Ok id ∧ q_backend q2 = q_backend q1 ∧ q_tracker q2 = q_tracker q1 ∧
  q_idempotency q2 = q_idempotency q1 ∧
  trail (q_audit q2) = trail (q_audit q1) ++ [("job.submit", "deduplicated")].
Proof.
  intros Hwf Hacc Hfresh Hlive. rewrite submit_acceptable by done.
  apply (submit_job_new q _ _ (env_submitted e1) (λ res q', _)); [intros _; exact Hlive|].
  eapply wp_mono; [by apply submit_new_ok|]. simpl. intros res q1 [Hi Hres] id Hid Hacc2 Hkey Hsame Hne Hlt.
  rewrite submit_acceptable by done.
  assert (id = job_id (submitted e1 r1)) as ->.
  { destruct (closes_cycle _ _); [destruct Hres as [[? ->] _]; congruence|].
    destruct Hres as [-> _]. by injection Hid. }
  eapply (submit_job_deduplicated q1 _ _ _ (env_submitted e2) (λ res q', _)); try done.
  rewrite Hi, Hsame. unfold keyed. rewrite <- Hsame, Hkey. by apply live_registered.
Qed.

(** Cancelling. [cancel] answers whether the job exists and marks it
    cancelled whatever its status was, a job that is running or has already
    succeeded included; no other job changes and one event records the answer. *)
Theorem cancel_outcome {B} `{BackendContract B} (q : JobQueue B) id :
  backend_wf (q_backend q) →
  wp (Queue.cancel id) q (λ r q', backend_wf (q_backend q') ∧
    r = Ok (bool_decide (is_Some (statuses (q_backend q) !! id))) ∧
    (∀ id', statuses (q_backend q') !! id' =
       if decide (id' = id) then (λ _, CANCELLED) <$> statuses (q_backend q) !! id'
       else statuses (q_backend q) !! id') ∧
    trail (q_audit q') = trail (q_audit q) ++
      [("job.cancel", if decide (is_Some (statuses (q_backend q) !! id)) then "success" else "failure")]).
Proof.
  intros Hwf. unfold Queue.cancel, Queue.audit. wp_steps. apply wp_zoom.
  eapply wp_mono; [by apply update_status_ok|]. intros r b' (Hwf' & -> & Hst). wp_steps.
  apply wp_emit. intros ev _ Hev. wp_steps. simpl. rewrite trail_app, Hev.
  split_and!; [done|done| |].
  - intros id'. rewrite Hst, lookup_alter. repeat case_decide; congruence.
  - destruct (decide (is_Some (statuses (q_backend q) !! id))).
    + by rewrite bool_decide_eq_true_2.
    + by rewrite bool_decide_eq_false_2.
Qed.

(** A failed enqueue poisons its idempotency key. The key is registered
    before the job is enqueued; if the backend then raises, the exception
    reaches the caller, and a retry under the same key within the time-to-live
    is answered with the identifier of a job that was never stored. *)
Theorem failed_enqueue_poisons_key {B} `{QueueBackend B} (q : JobQueue B) r e1 e2 x :
  (∀ b j, wp (enqueue j) b (λ res b', res = Err x ∧ b' = b)) →
  acceptable q r → truthy_opt_str (req_idempotency_key r) = true → req_depends_on r = [] →
  live (q_idempotency q) (default "" (req_idempotency_key r)) (register_time e1) = None →
  job_id (submitted e1 r) ≠ job_id (submitted e2 r) →
  (register_time e2 < register_time e1 + _ttl_seconds (q_idempotency q) * 1000000)%Z →
  let '(res1, q1, _) := Queue.submit r q e1 in
  let '(res2, q2, _) := Queue.submit r q1 e2 in
  res1 = Err x ∧ res2 = Ok (job_id (submitted e1 r)) ∧ q_backend q2 = q_backend q.
Proof.
  intros Hfail Hacc Hkey Hdeps Hlive Hne Hlt. rewrite submit_acceptable by done.
  apply (submit_job_new q _ _ (env_submitted e1) (λ res q', _)); [intros _; exact Hlive|].
  unfold Queue.submit_new, Queue.put. rewrite bool_decide_eq_true_2 by exact Hdeps.
  wp_steps. apply wp_zoom.
  eapply wp_mono; [apply Hfail|]. intros res b' [-> ->]. simpl.
  set (q1 := q <| q_idempotency := _ |> <| q_backend := _ |>).
  rewrite (submit_acceptable q1) by exact Hacc.
  eapply (submit_job_deduplicated q1 _ _ _ (env_submitted e2) (λ res q', _)); try done.
  simpl. unfold keyed. rewrite Hkey. by apply live_registered.
Qed.

(** ** Concrete runs *)

Definition sample_request (key : option string) : JobRequest :=
  new_request "t" <| req_payload := [("path", PStr "/tmp/x")] |> <| req_idempotency_key := key |>.

Lemma sample_acceptable {B} (q : JobQueue B) key :
  (18 ≤ _payload_max_bytes q)%Z → acceptable q (sample_request key).
Proof.
  intros Hmax. split; [exact Hmax|]. rewrite <- payload_secret_iff. by vm_compute.
Qed.

(** A later environment: one second on, other identifiers. *)
Definition env1 : env := Env (clock_of (λ n, 1000000 + Z.of_nat n)%Z) (λ n, "x" +:+ pretty n) 0 0.

Lemma submit_enqueues_witness :
  let q := Queue.new (mkMemory []) in
  let r := sample_request (Some "k") in
  let j := submitted env0 r in
  let '(res, q', _) := Queue.submit r q env0 in
  q_idempotency q' = keyed (q_idempotency q) (req_idempotency_key r) (job_id j) (register_time env0) ∧
  if closes_cycle q j then
    (∃ m, res = Err (DependencyCycleError m)) ∧ q_backend q' = q_backend q ∧ q_tracker q' = q_tracker q
  else
    res = Ok (job_id j) ∧ backend_wf (q_backend q') ∧
    statuses (q_backend q') = <[job_id j := QUEUED]> (statuses (q_backend q)) ∧
    q_tracker q' = track j <$> q_tracker q ∧
    trail (q_audit q') = trail (q_audit q) ++ [("job.submit", "success")].
Proof.
  intros q r.
  refine (submit_enqueues q r env0 memory_empty_wf (sample_acceptable q _ _) _ (λ _, _)).
  - vm_compute. discriminate.
  - reflexivity.
  - reflexivity.
Defined.

Lemma submit_rejects_witness :
  let q := Queue.new (mkMemory []) in
  let r := new_request "t" <| req_payload := [("db", PDict [("Password", PStr "x")])] |> in
  ¬ acceptable q r ∧
  wp (Queue.submit r) q (λ res q', q' = q ∧
    res = Err (ValueError "Payload appears to contain secret material")).
Proof.
  intros q r.
  assert (Hno : ¬ acceptable q r).
  { intros [_ Hs]. apply Hs. apply payload_secret_iff. by vm_compute. }
  split; [exact Hno|]. exact (submit_rejects q r Hno).
Defined.

Lemma submit_idempotent_witness :
  let q := Queue.new (mkMemory []) in
  let r := sample_request (Some "k") in
  let '(res1, q1, _) := Queue.submit r q env0 in
  let '(res2, q2, _) := Queue.submit r q1 env1 in
  res2 = res1 ∧ q_backend q2 = q_backend q1.
Proof.
  intros q r.
  pose proof (submit_idempotent q r env0 r env1 memory_empty_wf
    ltac:(apply sample_acceptable; vm_compute; discriminate) eq_refl eq_refl) as H.
  destruct (Queue.submit r q env0) as [[res1 q1] e1] eqn:E1.
  assert (Hres : res1 = Ok "0").
  { transitivity (Queue.submit r q env0).1.1; [by rewrite E1|vm_compute; reflexivity]. }
  assert (Hmax : _payload_max_bytes q1 = 16384%Z).
  { transitivity (_payload_max_bytes (Queue.submit r q env0).1.2); [by rewrite E1|].
    vm_compute. reflexivity. }
  specialize (H "0" Hres (sample_acceptable q1 (Some "k") ltac:(rewrite Hmax; lia)) eq_refl eq_refl).
  destruct (Queue.submit r q1 env1) as [[res2 q2] e2].
  destruct H as (-> & -> & _); [vm_compute; discriminate|vm_compute; reflexivity|].
  split; [by rewrite Hres|reflexivity].
Defined.

Lemma cancel_outcome_witness :
  let q := Queue.new (memory_of [sample_job "a" 0 1 <| status := SUCCEEDED |>]) in
  wp (Queue.cancel "a") q (λ r q', r = Ok true ∧
    memory_statuses (q_backend q') !! "a" = Some CANCELLED ∧
    trail (q_audit q') = [("job.cancel", "success")]).
Proof.
  intros q. eapply wp_mono; [apply (cancel_outcome q "a"), memory_of_wf|].
  intros r q' (_ & -> & Hst & ->).
  assert (Hs : statuses (q_backend q) !! "a" = Some SUCCEEDED) by (vm_compute; reflexivity).
  specialize (Hst "a"). rewrite Hs in Hst |- *. split; [reflexivity|]. split; [exact Hst|reflexivity].
Defined.

(** A backend whose database is unreachable. *)
Definition down : exn := UserError "OperationalError" "unreachable".
Definition unreachable_backend : QueueBackend unit := {|
  enqueue _ := raise down;
  dequeue _ _ _ := raise down;
  claim _ _ _ := raise down;
  release _ := raise down;
  heartbeat _ := raise down;
  Backend.get _ := raise down;
  update_status _ _ := raise down;
  get_queue_status := raise down;
  health_check := mret false;
  all_jobs := raise down;
  record_attempt _ _ := raise down;
  update_progress _ _ := raise down;
  store_result _ _ := raise down;
  deref j := mret j;
  assign _ _ := mret tt;
|}.

Lemma failed_enqueue_poisons_key_witness :
  let q := Queue.new tt in
  let r := sample_request (Some "k") in
  let '(res1, q1, _) := Queue.submit (H := unreachable_backend) r q env0 in
  let '(res2, q2, _) := Queue.submit (H := unreachable_backend) r q1 env1 in
  res1 = Err down ∧ res2 = Ok "0" ∧ q_backend q2 = q_backend q.
Proof.
  intros q r. apply (failed_enqueue_poisons_key (H := unreachable_backend) q r env0 env1 down).
  - intros b j. by apply wp_raise.
  - apply sample_acceptable. vm_compute. discriminate.
  - reflexivity.
  - reflexivity.
  - reflexivity.
  - vm_compute. discriminate.
  - vm_compute. reflexivity.
Defined.
