(* ===== verification/Concurrency.v ===== *)
(** * Concurrency limits

    [scheduler/concurrency.py]: the slot counters of [ConcurrencyManager],
    refined by the multiset of the slots that are held. *)

From S2P Require Import Prelude PyValue.

Record ConcurrencyLimits : Type := mkLimits {
  global_max : Z;
  per_type_max : Z;
  per_tenant_max : Z;
  per_user_max : Z;
}.

(** The defaults of the dataclass. *)
Definition default_limits : ConcurrencyLimits := mkLimits 10 5 3 2.

Record ConcurrencyManager : Type := mkConcurrency {
  _limits : ConcurrencyLimits;
  _global : Z;
  _by_type : gmap string Z;
  _by_tenant : gmap string Z;
  _by_user : gmap string Z;
}.

Module Concurrency.

Definition new (limits : ConcurrencyLimits) : ConcurrencyManager :=
  mkConcurrency limits 0 ∅ ∅ ∅.

Definition can_acquire (c : ConcurrencyManager) (job_type tenant_id user_id : string) : bool :=
  (_global c <? global_max (_limits c))%Z
  && (count (_by_type c) job_type <? per_type_max (_limits c))%Z
  && (count (_by_tenant c) tenant_id <? per_tenant_max (_limits c))%Z
  && (count (_by_user c) user_id <? per_user_max (_limits c))%Z.

Definition acquire (job_type tenant_id user_id : string) : M ConcurrencyManager bool :=
  c ← get_state;
  if negb (can_acquire c job_type tenant_id user_id) then mret false
  else
    modify (λ c, mkConcurrency (_limits c) (_global c + 1)
      (<[job_type := (count (_by_type c) job_type + 1)%Z]> (_by_type c))
      (<[tenant_id := (count (_by_tenant c) tenant_id + 1)%Z]> (_by_tenant c))
      (<[user_id := (count (_by_user c) user_id + 1)%Z]> (_by_user c)));;
    mret true.

Definition release (job_type tenant_id user_id : string) : M ConcurrencyManager unit :=
  modify (λ c, mkConcurrency (_limits c) (Z.max 0 (_global c - 1))
    (<[job_type := Z.max 0 (count (_by_type c) job_type - 1)]> (_by_type c))
    (<[tenant_id := Z.max 0 (count (_by_tenant c) tenant_id - 1)]> (_by_tenant c))
    (<[user_id := Z.max 0 (count (_by_user c) user_id - 1)]> (_by_user c))).

Definition active_by_type (c : ConcurrencyManager) (job_type : string) : Z :=
  count (_by_type c) job_type.

Definition active_global (c : ConcurrencyManager) : Z := _global c.

End Concurrency.

(** ** The multiset of held slots *)

Record slot : Type := mkSlot { s_type : string; s_tenant : string; s_user : string }.

#[export] Instance slot_eq_dec : EqDecision slot.
Proof. solve_decision. Defined.

(** How many held slots have the value [v] of the attribute [f]. *)
Definition held_with (f : slot → string) (v : string) (held : list slot) : Z :=
  Z.of_nat (length (filter (λ s, f s = v) held)).

(** The counters count the held slots. *)
Definition represents (c : ConcurrencyManager) (held : list slot) : Prop :=
  _global c = Z.of_nat (length held) ∧
  (∀ v, count (_by_type c) v = held_with s_type v held) ∧
  (∀ v, count (_by_tenant c) v = held_with s_tenant v held) ∧
  (∀ v, count (_by_user c) v = held_with s_user v held).

Definition within (lim : ConcurrencyLimits) (held : list slot) : Prop :=
  (Z.of_nat (length held) ≤ global_max lim)%Z ∧
  (∀ v, held_with s_type v held ≤ Z.max 0 (per_type_max lim))%Z ∧
  (∀ v, held_with s_tenant v held ≤ Z.max 0 (per_tenant_max lim))%Z ∧
  (∀ v, held_with s_user v held ≤ Z.max 0 (per_user_max lim))%Z.

(** One more slot fits. *)
Definition fits (lim : ConcurrencyLimits) (s : slot) (held : list slot) : Prop :=
  (Z.of_nat (length held) < global_max lim)%Z ∧
  (held_with s_type (s_type s) held < per_type_max lim)%Z ∧
  (held_with s_tenant (s_tenant s) held < per_tenant_max lim)%Z ∧
  (held_with s_user (s_user s) held < per_user_max lim)%Z.

Lemma held_with_cons f v s held :
  held_with f v (s :: held) = ((if decide (f s = v) then 1 else 0) + held_with f v held)%Z.
Proof. unfold held_with. rewrite filter_cons. case_decide; simpl; lia. Qed.

Lemma held_with_perm f v l l' : l ≡ₚ l' → held_with f v l = held_with f v l'.
Proof. intros H. unfold held_with. by rewrite H. Qed.

Lemma held_with_nonneg f v l : (0 ≤ held_with f v l)%Z.
Proof. unfold held_with. lia. Qed.

Lemma represents_new lim : represents (Concurrency.new lim) [].
Proof. repeat split. Qed.

#[export] Instance represents_proper c : Proper ((≡ₚ) ==> iff) (represents c).
Proof.
  intros l l' H. unfold represents. rewrite H.
  split; intros (?&?&?&?); split_and!; try done; intros v;
    first [rewrite <- (held_with_perm _ _ _ _ H) | rewrite (held_with_perm _ _ _ _ H)]; done.
Qed.

(** Counters and slots move together. *)
Lemma count_bump (m : gmap string Z) f s held v :
  (∀ v, count m v = held_with f v held) →
  count (<[f s := (count m (f s) + 1)%Z]> m) v = held_with f v (s :: held).
Proof. intros H. rewrite count_insert, held_with_cons, !H. case_decide; subst; lia. Qed.

Lemma count_drop (m : gmap string Z) f s held v :
  (∀ v, count m v = held_with f v (s :: held)) →
  count (<[f s := Z.max 0 (count m (f s) - 1)]> m) v = held_with f v held.
Proof.
  intros H. rewrite count_insert, !H, !held_with_cons.
  pose proof (held_with_nonneg f v held). repeat case_decide; subst; try done; lia.
Qed.

Lemma can_acquire_fits c held s :
  represents c held →
  Concurrency.can_acquire c (s_type s) (s_tenant s) (s_user s) = true ↔ fits (_limits c) s held.
Proof.
  intros (Hg & Ht & Hn & Hu). unfold Concurrency.can_acquire, fits.
  rewrite !andb_true_iff, !Z.ltb_lt, Hg, Ht, Hn, Hu. tauto.
Qed.

Lemma acquire_represents c held s :
  represents c held →
  wp (Concurrency.acquire (s_type s) (s_tenant s) (s_user s)) c (λ r c',
    _limits c' = _limits c ∧ ∃ ok : bool, r = Ok ok ∧ (ok = true ↔ fits (_limits c) s held) ∧
    if ok then represents c' (s :: held) else c' = c).
Proof.
  intros Hr. unfold Concurrency.acquire. wp_steps.
  pose proof (can_acquire_fits c held s Hr) as Hfit.
  destruct (Concurrency.can_acquire c _ _ _); simpl; wp_steps; (split; [done|]);
    eexists; (split; [done|]); (split; [done|]); [|done].
  destruct Hr as (Hg & Ht & Hn & Hu). split_and!; simpl; [lia|..];
    intros v; by apply count_bump.
Qed.

Lemma release_represents c held s :
  represents c (s :: held) →
  wp (Concurrency.release (s_type s) (s_tenant s) (s_user s)) c (λ r c',
    _limits c' = _limits c ∧ r = Ok tt ∧ represents c' held).
Proof.
  intros (Hg & Ht & Hn & Hu). unfold Concurrency.release. wp_steps. split_and!; try done; simpl.
  split_and!; simpl; [simpl in Hg; lia|..]; intros v; by apply count_drop.
Qed.

Lemma within_cons lim s held : within lim held → fits lim s held → within lim (s :: held).
Proof.
  intros (Hg & Ht & Hn & Hu) (Fg & Ft & Fn & Fu). split_and!; [simpl; lia|..]; intros v;
    rewrite held_with_cons; [specialize (Ht v)|specialize (Hn v)|specialize (Hu v)];
    case_decide; subst; lia.
Qed.

Lemma within_tail lim s held : within lim (s :: held) → within lim held.
Proof.
  intros (Hg & Ht & Hn & Hu). split_and!; [simpl in Hg; lia|..]; intros v;
    [specialize (Ht v)|specialize (Hn v)|specialize (Hu v)]; rewrite held_with_cons in *;
    case_decide; lia.
Qed.

(** ** Runs *)

Inductive slot_op : Type :=
  | OpAcquire (s : slot)
  | OpRelease (s : slot).

Definition exec_slot_op (op : slot_op) : M ConcurrencyManager bool :=
  match op with
  | OpAcquire s => Concurrency.acquire (s_type s) (s_tenant s) (s_user s)
  | OpRelease s => Concurrency.release (s_type s) (s_tenant s) (s_user s);; mret true
  end.

(** The run of the multiset: an acquisition succeeds when the slot fits, and
    only held slots are released. *)
Inductive slot_run (lim : ConcurrencyLimits) :
    list slot → list slot_op → list bool → list slot → Prop :=
  | run_nil held : slot_run lim held [] [] held
  | run_acquired held s ops bs held' :
      fits lim s held → slot_run lim (s :: held) ops bs held' →
      slot_run lim held (OpAcquire s :: ops) (true :: bs) held'
  | run_refused held s ops bs held' :
      ¬ fits lim s held → slot_run lim held ops bs held' →
      slot_run lim held (OpAcquire s :: ops) (false :: bs) held'
  | run_released held held1 s ops bs held' :
      held ≡ₚ s :: held1 → slot_run lim held1 ops bs held' →
      slot_run lim held (OpRelease s :: ops) (true :: bs) held'.

Lemma slot_run_within lim held ops bs held' :
  slot_run lim held ops bs held' → within lim held → within lim held'.
Proof.
  induction 1 as [|????? Hf _ IH| |?????? Hp _ IH]; intros Hw; auto.
  - by apply IH, within_cons.
  - apply IH, (within_tail _ s). destruct Hw as (Hg & Ht & Hn & Hu). split_and!.
    + by rewrite <- Hp.
    + intros v. by rewrite <- (held_with_perm _ _ _ _ Hp).
    + intros v. by rewrite <- (held_with_perm _ _ _ _ Hp).
    + intros v. by rewrite <- (held_with_perm _ _ _ _ Hp).
Qed.

(** C30: the counters refine the multiset of held slots. For every sequence of
    acquisitions and of releases of held slots, the manager answers each
    acquisition exactly as the limits on the held slots demand, ends with
    counters that count the slots still held, and never exceeds the global,
    per-type, per-tenant or per-user limit. *)
Theorem concurrency_refines_slots lim held ops bs held' c :
  slot_run lim held ops bs held' → _limits c = lim → represents c held → within lim held →
  wp (foldM (λ bs op, b ← exec_slot_op op; mret (bs ++ [b])) [] ops) c (λ r c',
    r = Ok bs ∧ _limits c' = lim ∧ represents c' held' ∧ within lim held').
Proof.
  intros Hrun Hlim Hrep Hw. pose proof (slot_run_within _ _ _ _ _ Hrun Hw) as Hw'.
  cut (∀ bs0, wp (foldM (λ bs op, b ← exec_slot_op op; mret (bs ++ [b])) bs0 ops) c (λ r c',
    r = Ok (bs0 ++ bs) ∧ _limits c' = lim ∧ represents c' held')).
  { intros H. eapply wp_mono; [apply (H [])|]. simpl. by intros r c' (-> & ? & ?). }
  clear Hw Hw'. revert c Hlim Hrep.
  induction Hrun as [held|held s ops bs held' Hf _ IH|held s ops bs held' Hf _ IH
                    |held held1 s ops bs held' Hp _ IH]; intros c <- Hrep bs0; simpl.
  - wp_steps. by rewrite app_nil_r.
  - wp_steps. eapply wp_mono; [by apply acquire_represents|].
    intros r c' (Hl & [] & -> & Hok & Hc'); [|by specialize (proj2 Hok Hf)].
    wp_steps. eapply wp_mono; [by apply IH|]. intros r' c'' (-> & ? & ?).
    by rewrite <- app_assoc.
  - wp_steps. eapply wp_mono; [by apply acquire_represents|].
    intros r c' (Hl & [] & -> & Hok & Hc'); [by destruct Hf; apply Hok|]. subst c'.
    wp_steps. eapply wp_mono; [by apply IH|]. intros r' c'' (-> & ? & ?).
    by rewrite <- app_assoc.
  - wp_steps. eapply wp_mono; [apply (release_represents _ held1); by rewrite <- Hp|].
    intros r c' (Hl & -> & Hc'). wp_steps.
    eapply wp_mono; [by apply IH|]. intros r' c'' (-> & ? & ?). by rewrite <- app_assoc.
Qed.

Lemma concurrency_refines_slots_witness :
  let s := mkSlot "t" "default" "default" in
  let ops := [OpAcquire s; OpAcquire s; OpAcquire s; OpRelease s] in
  slot_run default_limits [] ops [true; true; false; true] [s] ∧
  wp (foldM (λ bs op, b ← exec_slot_op op; mret (bs ++ [b])) [] ops)
     (Concurrency.new default_limits) (λ r c',
    r = Ok [true; true; false; true] ∧ _limits c' = default_limits ∧ represents c' [s] ∧
    within default_limits [s]).
Proof.
  intros s ops.
  assert (Hrun : slot_run default_limits [] ops [true; true; false; true] [s]).
  { apply run_acquired; [vm_compute; tauto|]. apply run_acquired; [vm_compute; tauto|].
    apply run_refused; [vm_compute; intuition discriminate|].
    eapply run_released; [reflexivity|]. apply run_nil. }
  assert (Hw : within default_limits []) by (split_and!; vm_compute; intuition discriminate).
  split; [exact Hrun|].
  exact (concurrency_refines_slots _ _ _ _ _ (Concurrency.new default_limits) Hrun eq_refl
           (represents_new _) Hw).
Defined.
