(* ===== verification/ResourcePool.v ===== *)
(** * Resource pools

    [scheduler/resource_pool.py]: the slots of named pools held by jobs. Every
    method runs under the pool's reentrant lock, so each is one step. *)

From S2P Require Import Prelude PyValue.

(** [ResourcePool]: [_config.limits], [_used] (looked up only) and [_holders]. *)
Record ResourcePool : Type := mkPool {
  limits : dict Z;
  _used : gmap string Z;
  _holders : gmap string (dict Z);
}.

Module Pool.

Definition new (limits : dict Z) : ResourcePool := mkPool limits ∅ ∅.

(** The rows (pool, used, max, available) of [utilisation]. *)
Definition utilisation (p : ResourcePool) : list (string * (Z * Z * Z)) :=
  (λ e : string * Z, let used := count (_used p) e.1 in (e.1, (used, e.2, (e.2 - used)%Z)))
    <$> limits p.

Definition blocked_count (p : ResourcePool) : Z :=
  foldl (λ n '(pool, limit), if (limit <=? count (_used p) pool)%Z then (n + 1)%Z else n)
    0%Z (limits p).

(** The loop of [can_acquire]: a pool without a limit is skipped. *)
Fixpoint all_fit (p : ResourcePool) (resources : dict Z) : bool :=
  match resources with
  | [] => true
  | (pool, requested) :: resources =>
    match Dict.get pool (limits p) with
    | None => all_fit p resources
    | Some limit =>
      if (limit <? count (_used p) pool + requested)%Z then false else all_fit p resources
    end
  end.

Definition can_acquire (p : ResourcePool) (resources : dict Z) : bool :=
  if bool_decide (resources = []) then true else all_fit p resources.

(** The two loops over the requested and over the held slots. *)
Definition take_slots (resources : dict Z) (used : gmap string Z) : gmap string Z :=
  foldl (λ used '(pool, requested), <[pool := (count used pool + requested)%Z]> used)
    used resources.

Definition return_slots (held : dict Z) (used : gmap string Z) : gmap string Z :=
  foldl (λ used '(pool, slots), <[pool := Z.max 0 (count used pool - slots)]> used) used held.

Definition acquire (job_id : string) (resources : dict Z) : M ResourcePool bool :=
  if bool_decide (resources = []) then mret true
  else
    p ← get_state;
    if negb (can_acquire p resources) then mret false
    else
      modify (λ p, mkPool (limits p) (take_slots resources (_used p)) (_holders p));;
      modify (λ p, mkPool (limits p) (_used p) (<[job_id := resources]> (_holders p)));;
      mret true.

Definition release (job_id : string) : M ResourcePool unit :=
  held ← gets (λ p, default [] (_holders p !! job_id));
  modify (λ p, mkPool (limits p) (_used p) (delete job_id (_holders p)));;
  modify (λ p, mkPool (limits p) (return_slots held (_used p)) (_holders p)).

Definition held_by (p : ResourcePool) (job_id : string) : dict Z :=
  default [] (_holders p !! job_id).

End Pool.

(** ** Accounting *)

(** The slots of [pool] in a request, and those all holders have together. *)
Definition slots_of (resources : dict Z) (pool : string) : Z := Dict.get_default pool 0%Z resources.

Definition held_total (holders : gmap string (dict Z)) (pool : string) : Z :=
  map_fold (λ _ d total, slots_of d pool + total)%Z 0%Z holders.

(** A request as a job carries it: a Python dictionary of slot counts. *)
Definition request_wf (resources : dict Z) : Prop :=
  Dict.wf resources ∧ ∀ pool, (0 ≤ slots_of resources pool)%Z.

(** [_used] is what the holders hold, within the limits. *)
Definition pool_wf (p : ResourcePool) : Prop :=
  Dict.wf (limits p) ∧
  (∀ id d, _holders p !! id = Some d → request_wf d) ∧
  (∀ pool, count (_used p) pool = held_total (_holders p) pool) ∧
  (∀ pool l, Dict.get pool (limits p) = Some l → (count (_used p) pool ≤ Z.max 0 l)%Z).

(** Every limited pool of the request has room. *)
Definition has_room (p : ResourcePool) (resources : dict Z) : Prop :=
  ∀ pool n l, Dict.get pool resources = Some n → Dict.get pool (limits p) = Some l →
    (count (_used p) pool + n ≤ l)%Z.

Lemma slots_of_nil pool : slots_of [] pool = 0%Z.
Proof. done. Qed.

Lemma slots_of_cons pool n d pool' :
  slots_of ((pool, n) :: d) pool' = if decide (pool' = pool) then n else slots_of d pool'.
Proof. unfold slots_of, Dict.get_default. simpl. by case_decide. Qed.

Lemma slots_of_absent d pool : pool ∉ Dict.keys d → slots_of d pool = 0%Z.
Proof. unfold slots_of, Dict.get_default. by intros ->%Dict.get_None. Qed.

Lemma count_take_slots d used pool :
  Dict.wf d → count (Pool.take_slots d used) pool = (count used pool + slots_of d pool)%Z.
Proof.
  unfold Dict.wf, Pool.take_slots. revert used.
  induction d as [|[k n] d IH]; intros used; [rewrite slots_of_nil; simpl; lia|].
  rewrite Dict.keys_cons, NoDup_cons. intros [Hk Hd]. simpl.
  rewrite IH, count_insert, slots_of_cons by done. repeat case_decide; subst; try done.
  rewrite (slots_of_absent d) by done. lia.
Qed.

Lemma count_return_slots d used pool :
  Dict.wf d → (∀ k, slots_of d k ≤ count used k)%Z →
  count (Pool.return_slots d used) pool = (count used pool - slots_of d pool)%Z.
Proof.
  unfold Dict.wf, Pool.return_slots. revert used.
  induction d as [|[k n] d IH]; intros used; [rewrite slots_of_nil; simpl; lia|].
  rewrite Dict.keys_cons, NoDup_cons. intros [Hk Hd] Hle. simpl.
  pose proof (Hle k) as Hlek. rewrite slots_of_cons, decide_True in Hlek by done.
  rewrite IH; [|done|].
  - rewrite count_insert, slots_of_cons. repeat case_decide; subst; try done.
    rewrite (slots_of_absent d) by done. lia.
  - intros k'. rewrite count_insert. specialize (Hle k'). rewrite slots_of_cons in Hle.
    repeat case_decide; subst; try done. rewrite (slots_of_absent d) by done. lia.
Qed.

Lemma held_total_insert h id d pool :
  h !! id = None → held_total (<[id := d]> h) pool = (slots_of d pool + held_total h pool)%Z.
Proof. intros Hid. unfold held_total. rewrite map_fold_insert_L; [done| |done]. intros; lia. Qed.

Lemma held_total_delete h id d pool :
  h !! id = Some d → held_total h pool = (slots_of d pool + held_total (delete id h) pool)%Z.
Proof. intros Hid. unfold held_total. rewrite (map_fold_delete_L _ _ id d h); [done| |done]. intros; lia. Qed.

Lemma held_total_nonneg h pool :
  (∀ id d, h !! id = Some d → request_wf d) → (0 ≤ held_total h pool)%Z.
Proof.
  induction h as [|id d h Hid IH] using map_ind; intros Hwf; [done|].
  rewrite held_total_insert by done.
  assert (request_wf d) as [_ Hd] by (apply (Hwf id); by rewrite lookup_insert_eq).
  specialize (Hd pool). enough (0 ≤ held_total h pool)%Z by lia.
  apply IH. intros id' d' H'. apply (Hwf id'). rewrite lookup_insert_ne; [done|]. naive_solver.
Qed.

Lemma all_fit_spec p resources :
  Dict.wf resources → Pool.all_fit p resources = true ↔ has_room p resources.
Proof.
  unfold Dict.wf. induction resources as [|[k n] d IH]; [done|].
  rewrite Dict.keys_cons, NoDup_cons. intros [Hk Hd]. simpl.
  assert (Htail : has_room p ((k, n) :: d) ↔
    (∀ l, Dict.get k (limits p) = Some l → (count (_used p) k + n ≤ l)%Z) ∧ has_room p d).
  { unfold has_room. split.
    - intros H. split; [intros l; apply H; simpl; by rewrite decide_True|].
      intros pool m l Hm. apply H. simpl. rewrite decide_False; [done|].
      intros ->. apply Dict.get_None in Hk. congruence.
    - intros [H1 H2] pool m l. simpl. case_decide; [|by apply H2].
      subst. intros [= <-]. apply H1. }
  rewrite Htail, <- (IH Hd). destruct (Dict.get k (limits p)) as [l|]; [|naive_solver].
  destruct (Z.ltb_spec l (count (_used p) k + n)).
  - split; [done|]. intros [H1 _]. specialize (H1 l eq_refl). lia.
  - split; [intros; split; [|done]|tauto]. by intros ? [= <-].
Qed.

Lemma can_acquire_spec p resources :
  Dict.wf resources → Pool.can_acquire p resources = true ↔ has_room p resources.
Proof.
  intros Hwf. unfold Pool.can_acquire. case_bool_decide; [|by apply all_fit_spec].
  subst. split; [|done]. by intros _ pool n l [=].
Qed.

(** A test of [request_wf] for concrete requests. *)
Lemma request_wf_small d :
  bool_decide (NoDup (Dict.keys d)) && forallb (λ kv, 0 <=? kv.2)%Z d = true → request_wf d.
Proof.
  rewrite andb_true_iff, bool_decide_eq_true, forallb_forall. intros [Hd Hall].
  split; [done|]. intros pool. unfold slots_of, Dict.get_default.
  destruct (Dict.get pool d) as [n|] eqn:E; [|done].
  apply Dict.elem_of_get in E; [|done]. apply list_elem_of_In, Hall in E. simpl in *. lia.
Qed.

Lemma pool_wf_new lim : Dict.wf lim → pool_wf (Pool.new lim).
Proof.
  intros. split_and!; simpl; [done|by intros|done|].
  intros. unfold count. rewrite lookup_empty. simpl. lia.
Qed.

(** ** The operations *)

Lemma acquire_ok p id resources :
  pool_wf p → request_wf resources → _holders p !! id = None →
  wp (Pool.acquire id resources) p (λ r p', limits p' = limits p ∧ pool_wf p' ∧
    ∃ ok : bool, r = Ok ok ∧ (ok = true ↔ has_room p resources) ∧
    _holders p' = if decide (ok = true ∧ resources ≠ [])
                  then <[id := resources]> (_holders p) else _holders p).
Proof.
  intros (Hl & Hh & Hu & Hb) [Hwf Hpos] Hid. unfold Pool.acquire. case_bool_decide as He.
  { wp_steps. split; [done|]. split; [done|]. exists true. rewrite decide_False by naive_solver.
    split_and!; try done. split; [|done]. subst. by intros _ pool n l [=]. }
  wp_steps. pose proof (can_acquire_spec p resources Hwf) as Hcan.
  destruct (Pool.can_acquire p resources); simpl; wp_steps; (split; [done|]).
  - split; [|exists true; by rewrite decide_True].
    assert (Hroom : has_room p resources) by tauto.
    split_and!; simpl; [done|..].
    + intros id' d. rewrite lookup_insert. case_decide; [intros [= <-]; by split | apply Hh].
    + intros pool. rewrite count_take_slots, held_total_insert, Hu by done. lia.
    + intros pool l Hpl. rewrite count_take_slots by done. specialize (Hb pool l Hpl).
      destruct (Dict.get pool resources) as [n|] eqn:E; unfold slots_of, Dict.get_default;
        rewrite E; simpl; [|lia].
      specialize (Hroom pool n l E Hpl). lia.
  - split; [done|]. exists false. by rewrite decide_False by naive_solver.
Qed.

Lemma release_ok p id :
  pool_wf p →
  wp (Pool.release id) p (λ r p', limits p' = limits p ∧ pool_wf p' ∧ r = Ok tt ∧
    _holders p' = delete id (_holders p) ∧
    ∀ pool, count (_used p') pool = (count (_used p) pool - slots_of (Pool.held_by p id) pool)%Z).
Proof.
  intros (Hl & Hh & Hu & Hb). unfold Pool.release, Pool.held_by. wp_steps. simpl.
  assert (Hused : ∀ pool, count (Pool.return_slots (default [] (_holders p !! id)) (_used p)) pool =
    (count (_used p) pool - slots_of (default [] (_holders p !! id)) pool)%Z ∧
    count (Pool.return_slots (default [] (_holders p !! id)) (_used p)) pool =
    held_total (delete id (_holders p)) pool ∧
    (0 ≤ slots_of (default [] (_holders p !! id)) pool)%Z).
  { intros pool. destruct (_holders p !! id) as [d|] eqn:E; simpl.
    - destruct (Hh _ _ E) as [Hd Hpos].
      assert (Hret : count (Pool.return_slots d (_used p)) pool =
        (count (_used p) pool - slots_of d pool)%Z).
      { apply count_return_slots; [done|]. intros k.
        rewrite Hu, (held_total_delete _ id d) by done.
        enough (0 ≤ held_total (delete id (_holders p)) k)%Z by lia.
        apply held_total_nonneg. intros id' d'. rewrite lookup_delete_Some. naive_solver. }
      split_and!; [done| |apply Hpos].
      rewrite Hret, Hu, (held_total_delete _ id d) by done. lia.
    - rewrite slots_of_nil, delete_id by done. rewrite Hu. split_and!; [lia|done|lia]. }
  split; [done|]. split; [|split_and!; [done|done|apply Hused]].
  split_and!; simpl; [done|..].
  - intros id' d. rewrite lookup_delete_Some. intros [_ ?]. eauto.
  - apply Hused.
  - intros pool l Hpl. destruct (Hused pool) as (-> & _ & ?). specialize (Hb pool l Hpl). lia.
Qed.

(** ** Runs *)

Inductive pool_op : Type :=
  | PoolAcquire (id : string) (resources : dict Z)
  | PoolRelease (id : string).

Definition exec_pool_op (op : pool_op) : M ResourcePool bool :=
  match op with
  | PoolAcquire id resources => Pool.acquire id resources
  | PoolRelease id => Pool.release id;; mret true
  end.

(** What a caller may assume a pool to be: the map from holders to their slots
    that grants a request when every limited pool has room for it next to what
    is held. *)
Definition grants (lim : dict Z) (h : gmap string (dict Z)) (resources : dict Z) : Prop :=
  ∀ pool n l, Dict.get pool resources = Some n → Dict.get pool lim = Some l →
    (held_total h pool + n ≤ l)%Z.

Inductive pool_run (lim : dict Z) :
    gmap string (dict Z) → list pool_op → list bool → gmap string (dict Z) → Prop :=
  | pool_run_nil h : pool_run lim h [] [] h
  | pool_run_empty h id ops bs h' :
      pool_run lim h ops bs h' → h !! id = None →
      pool_run lim h (PoolAcquire id [] :: ops) (true :: bs) h'
  | pool_run_granted h id resources ops bs h' :
      h !! id = None → request_wf resources → resources ≠ [] → grants lim h resources →
      pool_run lim (<[id := resources]> h) ops bs h' →
      pool_run lim h (PoolAcquire id resources :: ops) (true :: bs) h'
  | pool_run_refused h id resources ops bs h' :
      h !! id = None → request_wf resources → ¬ grants lim h resources →
      pool_run lim h ops bs h' →
      pool_run lim h (PoolAcquire id resources :: ops) (false :: bs) h'
  | pool_run_release h id ops bs h' :
      pool_run lim (delete id h) ops bs h' →
      pool_run lim h (PoolRelease id :: ops) (true :: bs) h'.

Lemma grants_has_room p resources :
  pool_wf p → grants (limits p) (_holders p) resources ↔ has_room p resources.
Proof. intros (_ & _ & Hu & _). unfold grants, has_room. by setoid_rewrite Hu. Qed.

(** One answered step and what remains of the run. *)
Lemma pool_acquire_step p id resources (ok : bool) h :
  pool_wf p → _holders p !! id = None → request_wf resources →
  (ok = true ↔ grants (limits p) (_holders p) resources) →
  h = (if decide (ok = true ∧ resources ≠ []) then <[id := resources]> (_holders p) else _holders p) →
  wp (Pool.acquire id resources) p (λ r p', r = Ok ok ∧ limits p' = limits p ∧ pool_wf p' ∧
    _holders p' = h).
Proof.
  intros Hwf Hid Hreq Hok ->. rewrite grants_has_room in Hok by done.
  eapply wp_mono; [by apply acquire_ok|]. intros r p' (? & ? & ok' & -> & Hok' & Hh).
  assert (ok' = ok) as -> by (destruct ok, ok'; naive_solver). done.
Qed.

Lemma request_wf_nil : request_wf [].
Proof. split; [constructor|]. intros pool. by rewrite slots_of_nil. Qed.

Lemma grants_nil lim h : grants lim h [].
Proof. by intros pool n l [=]. Qed.

(** C29: the pool refines the map from holders to the slots they hold. For every
    sequence of acquisitions by jobs that hold nothing and of releases by any
    job, an acquisition is granted exactly when every limited pool it names has
    room next to what is held, all of it or nothing; and at the end the usage
    counter of each pool is the sum of the slots its holders hold and within
    the pool's limit. *)
Theorem pool_refines_holders h ops bs h' p :
  pool_run (limits p) h ops bs h' → pool_wf p → _holders p = h →
  wp (foldM (λ bs op, b ← exec_pool_op op; mret (bs ++ [b])) [] ops) p (λ r p',
    r = Ok bs ∧ limits p' = limits p ∧ _holders p' = h' ∧
    (∀ pool, count (_used p') pool = held_total h' pool) ∧
    (∀ pool l, Dict.get pool (limits p) = Some l → count (_used p') pool ≤ Z.max 0 l)%Z).
Proof.
  intros Hrun Hwf Hh.
  cut (∀ bs0, wp (foldM (λ bs op, b ← exec_pool_op op; mret (bs ++ [b])) bs0 ops) p (λ r p',
    r = Ok (bs0 ++ bs) ∧ limits p' = limits p ∧ pool_wf p' ∧ _holders p' = h')).
  { intros H. eapply wp_mono; [apply (H [])|]. intros r p' (-> & Hl & (_ & _ & Hu & Hb) & <-).
    split_and!; [done..|]. by rewrite <- Hl. }
  remember (limits p) as lim eqn:Hlim. symmetry in Hlim. revert p Hlim Hwf Hh.
  induction Hrun as [h|h id ops bs h' _ IH Hid|h id resources ops bs h' Hid Hreq Hne Hg _ IH
    |h id resources ops bs h' Hid Hreq Hg _ IH|h id ops bs h' _ IH]; intros p <- Hwf <- bs0; simpl.
  - wp_steps. by rewrite app_nil_r.
  - wp_steps. eapply wp_mono.
    { apply (pool_acquire_step p id [] true (_holders p));
        [done..|apply request_wf_nil|by split; [intros _; apply grants_nil|]|done]. }
    intros r p' (-> & ? & ? & ?). wp_steps. eapply wp_mono; [by apply IH|].
    intros r' p'' (-> & ?). by rewrite <- app_assoc.
  - wp_steps. eapply wp_mono.
    { apply (pool_acquire_step p id resources true (<[id := resources]> (_holders p)));
        [done..|by split|by rewrite decide_True]. }
    intros r p' (-> & ? & ? & ?). wp_steps. eapply wp_mono; [by apply IH|].
    intros r' p'' (-> & ?). by rewrite <- app_assoc.
  - wp_steps. eapply wp_mono.
    { apply (pool_acquire_step p id resources false (_holders p));
        [done..|by split; [|intros]|]. rewrite decide_False; [done|]. by intros [? _]. }
    intros r p' (-> & ? & ? & ?). wp_steps. eapply wp_mono; [by apply IH|].
    intros r' p'' (-> & ?). by rewrite <- app_assoc.
  - wp_steps. eapply wp_mono; [by apply release_ok|]. intros r p' (? & ? & -> & ? & _). wp_steps.
    eapply wp_mono; [by apply IH|]. intros r' p'' (-> & ?). by rewrite <- app_assoc.
Qed.

Lemma pool_refines_holders_witness :
  let p := Pool.new [("llm", 2%Z)] in
  let ops := [PoolAcquire "a" [("llm", 1%Z); ("gpu", 7%Z)]; PoolAcquire "b" [("llm", 2%Z)];
              PoolRelease "a"] in
  pool_run (limits p) ∅ ops [true; false; true] ∅ ∧ pool_wf p ∧
  wp (foldM (λ bs op, b ← exec_pool_op op; mret (bs ++ [b])) [] ops) p (λ r p',
    r = Ok [true; false; true] ∧ limits p' = limits p ∧ _holders p' = ∅ ∧
    (∀ pool, count (_used p') pool = held_total ∅ pool) ∧
    (∀ pool l, Dict.get pool (limits p) = Some l → count (_used p') pool ≤ Z.max 0 l)%Z).
Proof.
  intros p ops.
  assert (Hrun : pool_run (limits p) ∅ ops [true; false; true] ∅).
  { apply pool_run_granted; [done| |done| |apply pool_run_refused; [done| | |]].
    - by apply request_wf_small; vm_compute.
    - intros pool n l Hn Hl. simpl in Hn, Hl. repeat case_decide; simplify_eq. by vm_compute.
    - by apply request_wf_small; vm_compute.
    - intros Hg. specialize (Hg "llm" 2%Z 2%Z eq_refl eq_refl). by vm_compute in Hg.
    - apply pool_run_release, pool_run_nil. }
  assert (Hwf : pool_wf p).
  { apply pool_wf_new. by apply (bool_decide_unpack _); vm_compute. }
  split; [exact Hrun|]. split; [exact Hwf|].
  exact (pool_refines_holders _ _ _ _ p Hrun Hwf eq_refl).
Defined.

Lemma acquire_granted p id resources (Q : result bool → ResourcePool → Prop) :
  Dict.wf resources → resources ≠ [] → has_room p resources →
  Q (Ok true) (mkPool (limits p) (Pool.take_slots resources (_used p)) (<[id := resources]> (_holders p))) →
  wp (Pool.acquire id resources) p Q.
Proof.
  intros Hwf Hne Hroom HQ. unfold Pool.acquire. rewrite bool_decide_eq_false_2 by done. wp_steps.
  rewrite (proj2 (can_acquire_spec p resources Hwf)) by done. simpl. by wp_steps.
Qed.

(** An acquisition by a job that already holds slots breaks the
    accounting: the second holding replaces the first, so one release returns
    only the second, and the slots of the first stay in use with no holder. *)
Theorem second_acquire_leaks p id first second :
  pool_wf p → _holders p !! id = None → request_wf first → request_wf second →
  first ≠ [] → second ≠ [] → has_room p first →
  has_room (mkPool (limits p) (Pool.take_slots first (_used p)) (<[id := first]> (_holders p))) second →
  wp (_ ← Pool.acquire id first; _ ← Pool.acquire id second; Pool.release id) p (λ r p',
    r = Ok tt ∧ _holders p' = _holders p ∧
    ∀ pool, count (_used p') pool = (held_total (_holders p') pool + slots_of first pool)%Z).
Proof.
  intros (Hl & Hh & Hu & Hb) Hid [Hw1 H1] [Hw2 H2] Hne1 Hne2 Hr1 Hr2.
  wp_steps. apply acquire_granted; [done..|]. cbn beta iota.
  wp_steps. apply acquire_granted; [done..|]. cbn beta iota.
  unfold Pool.release. wp_steps. simpl. rewrite lookup_insert_eq. simpl.
  rewrite insert_insert_eq, delete_insert_id by done.
  split; [done|]. split; [done|]. intros pool.
  rewrite count_return_slots, !count_take_slots, Hu; try done; [lia|].
  intros k. rewrite !count_take_slots, Hu by done.
  pose proof (held_total_nonneg _ k Hh). specialize (H1 k). lia.
Qed.

Lemma second_acquire_leaks_witness :
  let p := Pool.new [("llm", 2%Z)] in
  wp (_ ← Pool.acquire "a" [("llm", 1%Z)]; _ ← Pool.acquire "a" [("llm", 1%Z)]; Pool.release "a") p
    (λ r p', r = Ok tt ∧ _holders p' = _holders p ∧
      ∀ pool, count (_used p') pool = (held_total (_holders p') pool + slots_of [("llm", 1%Z)] pool)%Z).
Proof.
  intros p. assert (Hreq : request_wf [("llm", 1%Z)]) by (by apply request_wf_small; vm_compute).
  apply second_acquire_leaks; try done.
  - apply pool_wf_new. by apply (bool_decide_unpack _); vm_compute.
  - intros pool n l Hn Hl. simpl in Hn, Hl. repeat case_decide; simplify_eq. by vm_compute.
  - intros pool n l Hn Hl. simpl in Hn, Hl. repeat case_decide; simplify_eq. by vm_compute.
Defined.
