(* ===== verification/Dispatcher.v ===== *)
(** * Dispatcher

    [scheduler/dispatcher.py]: [Dispatcher.select_eligible] filters what the
    backend offers by dependencies, concurrency slots and pool slots, and
    [release_job] gives the slots back. The concurrency manager, the pool and
    the tracker are optional shared objects; the state below holds them next to
    the backend. *)

From S2P Require Import Prelude PyValue Domain Backend MemoryBackend Graph Dependency.
From S2P Require Import Concurrency ResourcePool.

Record System (B : Type) : Type := mkSystem {
  sys_backend : B;
  sys_concurrency : option ConcurrencyManager;
  sys_pool : option ResourcePool;
  sys_tracker : option DependencyTracker;
}.
Arguments mkSystem {B}.
Arguments sys_backend {B}.
Arguments sys_concurrency {B}.
Arguments sys_pool {B}.
Arguments sys_tracker {B}.

#[export] Instance System_eta B : Eta (System B) := λ s,
  mkSystem (sys_backend s) (sys_concurrency s) (sys_pool s) (sys_tracker s).

Section dispatcher.
Context {B : Type} `{QueueBackend B}.

(** A call to a component. *)
Definition on_backend {A} : M B A → M (System B) A :=
  zoom sys_backend (λ b s, s <| sys_backend := b |>).
Definition on_concurrency {A} : M ConcurrencyManager A → M (System B) (option A) :=
  zoom_opt sys_concurrency (λ c s, s <| sys_concurrency := Some c |>).
Definition on_pool {A} : M ResourcePool A → M (System B) (option A) :=
  zoom_opt sys_pool (λ p s, s <| sys_pool := Some p |>).
End dispatcher.

Module Dispatcher.
Section dispatcher.
Context {B : Type} `{QueueBackend B}.

Definition _get_job_status (job_id : string) : M (System B) (option JobStatus) :=
  job ← on_backend (get job_id);
  mret (status <$> job).

(** The dependency check; [False] is [continue]. *)
Definition runnable (job : Job) : M (System B) bool :=
  t ← gets sys_tracker;
  match t with
  | Some t => if bool_decide (depends_on job = []) then mret true
              else Tracker.is_runnable _get_job_status t (job_id job)
  | None => mret true
  end.

(** The body of the selection loop; [mret selected] is [continue]. *)
Definition consider (selected : list Job) (job : Job) : M (System B) (list Job) :=
  ok ← runnable job;
  if negb ok then mret selected
  else
    slot ← on_concurrency (Concurrency.acquire (job_type job) "default" "default");
    if bool_decide (slot = Some false) then mret selected
    else
      room ← (if bool_decide (resources job = []) then mret None
              else on_pool (Pool.acquire (job_id job) (resources job)));
      if bool_decide (room = Some false) then
        _ ← on_concurrency (Concurrency.release (job_type job) "default" "default");
        mret selected
      else mret (selected ++ [job]).

Definition select_eligible (limit : Z) (queue_name : option string) : M (System B) (list Job) :=
  jobs ← on_backend (dequeue limit None queue_name);
  foldM consider [] jobs.

Definition release_job (job : Job) : M (System B) unit :=
  _ ← on_concurrency (Concurrency.release (job_type job) "default" "default");
  _ ← on_pool (Pool.release (job_id job));
  mret tt.
End dispatcher.
End Dispatcher.

(** ** What the slots of a system are

    [accounts s held holders]: the concurrency manager counts the slots [held]
    and the pool the slots of [holders]. Absent components account for
    nothing. *)
Definition job_slot (j : Job) : slot := mkSlot (job_type j) "default" "default".

Definition accounts {B} (s : System B) (held : list slot) (holders : gmap string (dict Z)) : Prop :=
  match sys_concurrency s with
  | Some c => represents c held ∧ within (_limits c) held
  | None => held = []
  end ∧
  match sys_pool s with
  | Some p => pool_wf p ∧ _holders p = holders
  | None => holders = ∅
  end.

(** The components that a selection may not touch stay, the limits too. *)
Definition same_limits {B} (s s' : System B) : Prop :=
  sys_backend s' = sys_backend s ∧ sys_tracker s' = sys_tracker s ∧
  (_limits <$> sys_concurrency s') = (_limits <$> sys_concurrency s) ∧
  (limits <$> sys_pool s') = (limits <$> sys_pool s).

(** [j] has its dependencies: no tracker, no dependencies, or all succeeded. *)
Definition deps_met (st : queue_spec) (t : option DependencyTracker) (j : Job) : Prop :=
  match t with
  | Some t => depends_on j ≠ [] → ∀ d, d ∈ Tracker.deps_of t (job_id j) → st !! d = Some SUCCEEDED
  | None => True
  end.

(** There is a slot for [j], there is room for it in the pools. *)
Definition slot_free (lim : option ConcurrencyLimits) (held : list slot) (j : Job) : Prop :=
  match lim with Some lim => fits lim (job_slot j) held | None => True end.
Definition room_for (lim : option (dict Z)) (holders : gmap string (dict Z)) (j : Job) : Prop :=
  match lim with Some lim => resources j ≠ [] → grants lim holders (resources j) | None => True end.

(** What is held after [j] is picked. *)
Definition pick_slot (lim : option ConcurrencyLimits) (j : Job) (held : list slot) : list slot :=
  match lim with Some _ => job_slot j :: held | None => held end.
Definition pick_room (lim : option (dict Z)) (j : Job) (h : gmap string (dict Z))
    : gmap string (dict Z) :=
  match lim with
  | Some _ => if decide (resources j = []) then h else <[job_id j := resources j]> h
  | None => h
  end.

(** ** The selection, declaratively

    The jobs are taken in the order offered; one is skipped exactly when a
    dependency is unmet, no slot is free or a pool has no room for it next to
    what was picked before, and then nothing is held for it. *)
Inductive selects (st : queue_spec) (t : option DependencyTracker)
    (cl : option ConcurrencyLimits) (pl : option (dict Z)) :
    list slot → gmap string (dict Z) → list Job → list Job →
    list slot → gmap string (dict Z) → Prop :=
  | selects_nil held h : selects st t cl pl held h [] [] held h
  | selects_skip held h j jobs l held' h' :
      ¬ (deps_met st t j ∧ slot_free cl held j ∧ room_for pl h j) →
      selects st t cl pl held h jobs l held' h' →
      selects st t cl pl held h (j :: jobs) l held' h'
  | selects_pick held h j jobs l held' h' :
      deps_met st t j → slot_free cl held j → room_for pl h j →
      selects st t cl pl (pick_slot cl j held) (pick_room pl j h) jobs l held' h' →
      selects st t cl pl held h (j :: jobs) (j :: l) held' h'.

(** Consequences of a selection. *)
Lemma selects_sublist st t cl pl held h jobs l held' h' :
  selects st t cl pl held h jobs l held' h' → l `sublist_of` jobs.
Proof. induction 1; by constructor. Qed.

Lemma selects_deps st t cl pl held h jobs l held' h' :
  selects st t cl pl held h jobs l held' h' → Forall (deps_met st t) l.
Proof. induction 1; by try constructor. Qed.

Lemma selects_held st t cl pl held h jobs l held' h' :
  selects st t cl pl held h jobs l held' h' →
  held' ≡ₚ match cl with Some _ => (job_slot <$> l) ++ held | None => held end.
Proof.
  induction 1 as [| |held h j jobs l held' h' _ _ _ _ IH]; [by destruct cl|done|].
  rewrite IH. destruct cl; simpl; [|done]. by rewrite Permutation_middle.
Qed.

Lemma selects_holders st t cl pl held h jobs l held' h' :
  selects st t cl pl held h jobs l held' h' → NoDup (job_id <$> jobs) →
  (∀ id, id ∉ job_id <$> l → h' !! id = h !! id) ∧
  (∀ j, j ∈ l → pl ≠ None → resources j ≠ [] → h' !! job_id j = Some (resources j)).
Proof.
  induction 1 as [| |held h j jobs l held' h' _ _ _ Hsel IH]; intros Hnd.
  - split; [done|]. by intros j ?%elem_of_nil.
  - apply NoDup_cons in Hnd as [_ ?]. auto.
  - simpl in Hnd. apply NoDup_cons in Hnd as [Hj Hnd]. destruct (IH Hnd) as [Hout Hin]. split.
    + intros id. simpl. rewrite not_elem_of_cons. intros [Hne ?]. rewrite Hout by done.
      unfold pick_room. destruct pl; [|done]. case_decide; [done|]. by rewrite lookup_insert_ne.
    + intros j'. rewrite elem_of_cons. intros [->|Hj'] Hpl Hr; [|by apply Hin].
      rewrite Hout.
      * unfold pick_room. destruct pl; [|done]. rewrite decide_False by done.
        by rewrite lookup_insert_eq.
      * intros Hj'. apply Hj. apply selects_sublist in Hsel.
        eapply elem_of_submseteq; [exact Hj'|]. by apply sublist_submseteq, fmap_sublist.
Qed.

(** ** The code selects that way *)

Lemma same_limits_refl {B} (s : System B) : same_limits s s.
Proof. done. Qed.

Lemma same_limits_trans {B} (s1 s2 s3 : System B) :
  same_limits s1 s2 → same_limits s2 s3 → same_limits s1 s3.
Proof. unfold same_limits. naive_solver congruence. Qed.

Section selection.
Context {B : Type} `{BackendContract B}.
Implicit Types (s : System B) (held : list slot) (h : gmap string (dict Z)).

Lemma wp_on_backend_read {A} (m : M B A) s (P : A → Prop) Q :
  wp m (sys_backend s) (λ r b', b' = sys_backend s ∧ ∃ a, r = Ok a ∧ P a) →
  (∀ a, P a → Q (Ok a) s) → wp (on_backend m) s Q.
Proof.
  intros Hm HQ. apply wp_zoom. eapply wp_mono; [exact Hm|]. intros r b' (-> & a & -> & Ha).
  replace (s <| sys_backend := sys_backend s |>) with s by by destruct s. by apply HQ.
Qed.

Lemma get_job_status_ok s d :
  backend_wf (sys_backend s) →
  wp (Dispatcher._get_job_status d) s (λ r s', s' = s ∧ r = Ok (statuses (sys_backend s) !! d)).
Proof.
  intros Hwf. unfold Dispatcher._get_job_status. wp_steps.
  eapply wp_on_backend_read; [by apply get_status_ok|]. intros oj [Hst _]. wp_steps. by rewrite Hst.
Qed.

Lemma slot_acquired s held h j :
  accounts s held h →
  wp (on_concurrency (Concurrency.acquire (job_type j) "default" "default")) s (λ r s',
    same_limits s s' ∧ ∃ o, r = Ok o ∧
    (o ≠ Some false ↔ slot_free (_limits <$> sys_concurrency s) held j) ∧
    accounts s' (if decide (o = Some false) then held
                 else pick_slot (_limits <$> sys_concurrency s) j held) h).
Proof.
  intros [Hc Hp]. apply wp_zoom_opt. destruct (sys_concurrency s) as [c|] eqn:E; simpl.
  - destruct Hc as [Hrep Hin]. eapply wp_mono; [by apply (acquire_represents c held (job_slot j))|].
    intros r c' (Hl & ok & -> & Hok & Hc'). split.
    { split_and!; simpl; try done. by rewrite E, Hl. }
    exists (Some ok). split; [done|]. split.
    { destruct ok; naive_solver. }
    destruct ok.
    + split; simpl; [|done]. split; [done|]. rewrite Hl. apply within_cons; naive_solver.
    + subst c'. by split.
  - split; [done|]. exists None. split; [done|]. split; [naive_solver|].
    split; [by rewrite E|done].
Qed.

Lemma slot_released s held h j :
  accounts s (pick_slot (_limits <$> sys_concurrency s) j held) h →
  wp (on_concurrency (Concurrency.release (job_type j) "default" "default")) s (λ r s',
    same_limits s s' ∧ (∃ o, r = Ok o) ∧ accounts s' held h).
Proof.
  intros [Hc Hp]. apply wp_zoom_opt. destruct (sys_concurrency s) as [c|] eqn:E; simpl in *.
  - destruct Hc as [Hrep Hin]. eapply wp_mono; [by apply (release_represents c held (job_slot j))|].
    intros r c' (Hl & -> & Hc'). split; [|split; [eauto|]].
    { split_and!; simpl; try done. by rewrite E, Hl. }
    split; simpl; [|done]. split; [done|]. rewrite Hl. by eapply within_tail.
  - split; [done|]. split; [eauto|]. split; [by rewrite E|done].
Qed.

Lemma room_acquired s held h j :
  accounts s held h → request_wf (resources j) → h !! job_id j = None →
  wp (if bool_decide (resources j = []) then mret None
      else on_pool (Pool.acquire (job_id j) (resources j))) s (λ r s',
    same_limits s s' ∧ ∃ o, r = Ok o ∧
    (o ≠ Some false ↔ room_for (limits <$> sys_pool s) h j) ∧
    accounts s' held (if decide (o = Some false) then h
                      else pick_room (limits <$> sys_pool s) j h)).
Proof.
  intros [Hc Hp] Hreq Hj. destruct (bool_decide (resources j = [])) eqn:Er.
  { apply bool_decide_eq_true in Er. wp_steps. split; [done|]. exists None. split; [done|]. split.
    - split; [|done]. intros _. unfold room_for. by destruct (limits <$> sys_pool s).
    - split; [done|]. unfold pick_room. rewrite Er. by destruct (sys_pool s). }
  apply bool_decide_eq_false in Er. apply wp_zoom_opt.
  destruct (sys_pool s) as [p|] eqn:E; simpl.
  - destruct Hp as [Hwf Hh]. subst h.
    eapply wp_mono; [by apply acquire_ok|]. intros r p' (Hl & Hwf' & ok & -> & Hok & Hh').
    split; [split_and!; simpl; try done; by rewrite E, Hl|].
    exists (Some ok). split; [done|]. rewrite <- grants_has_room in Hok by done. split.
    { destruct ok; naive_solver. }
    split; [done|]. simpl. split; [done|]. rewrite Hh'. destruct ok.
    + rewrite decide_True by done. simpl. by rewrite (decide_False _ _ Er).
    + by rewrite (decide_False (P := false = true ∧ _)) by naive_solver.
  - split; [done|]. exists None. split; [done|]. split; [naive_solver|].
    split; [done|]. by rewrite E.
Qed.

(** The test of the dependencies reads only. *)
Lemma deps_checked s j :
  backend_wf (sys_backend s) →
  wp (Dispatcher.runnable j) s (λ r s', s' = s ∧ ∃ ok : bool, r = Ok ok ∧
    (ok = true ↔ deps_met (statuses (sys_backend s)) (sys_tracker s) j)).
Proof.
  intros Hwf. unfold Dispatcher.runnable. wp_steps.
  destruct (sys_tracker s) as [t|]; simpl; [|wp_steps; split; [done|]; by exists true].
  case_bool_decide as Hd; [wp_steps; split; [done|]; by exists true|].
  eapply wp_mono; [apply (is_runnable_spec _ (λ d, statuses (sys_backend s) !! d));
    intros d; by apply get_job_status_ok|].
  intros r s' [-> ->]. split; [done|]. eexists. split; [done|].
  unfold deps_succeeded. rewrite bool_decide_eq_true, Forall_forall. naive_solver.
Qed.

(** A blocked job is skipped, whatever else there is. *)
Lemma consider_blocked s sel j :
  backend_wf (sys_backend s) → ¬ deps_met (statuses (sys_backend s)) (sys_tracker s) j →
  wp (Dispatcher.consider sel j) s (λ r s', s' = s ∧ r = Ok sel).
Proof.
  intros Hwf Hno. unfold Dispatcher.consider. wp_steps. eapply wp_mono; [by apply deps_checked|].
  intros r s' (-> & [] & -> & Hok); [by destruct Hno; apply Hok|]. by wp_steps.
Qed.

Lemma consider_ok s held h sel j :
  backend_wf (sys_backend s) → accounts s held h →
  request_wf (resources j) → h !! job_id j = None →
  let cl := _limits <$> sys_concurrency s in
  let pl := limits <$> sys_pool s in
  wp (Dispatcher.consider sel j) s (λ r s', same_limits s s' ∧
    ((deps_met (statuses (sys_backend s)) (sys_tracker s) j ∧ slot_free cl held j ∧ room_for pl h j) ∧
       r = Ok (sel ++ [j]) ∧ accounts s' (pick_slot cl j held) (pick_room pl j h) ∨
     ¬ (deps_met (statuses (sys_backend s)) (sys_tracker s) j ∧ slot_free cl held j ∧ room_for pl h j) ∧
       r = Ok sel ∧ accounts s' held h)).
Proof.
  intros Hwf Hacc Hreq Hj cl pl. unfold Dispatcher.consider. wp_steps. eapply wp_mono; [by apply deps_checked|].
  intros r s' (-> & ok & -> & Hok). destruct ok; simpl.
  2:{ wp_steps. split; [done|]. right. naive_solver. }
  assert (Hdeps : deps_met (statuses (sys_backend s)) (sys_tracker s) j) by naive_solver.
  wp_steps. eapply wp_mono; [by apply (slot_acquired s held h)|].
  intros r s1 (Hs1 & o & -> & Ho & Hacc1). case_bool_decide as Ho'.
  { wp_steps. split; [done|]. right. rewrite decide_True in Hacc1 by done. naive_solver. }
  rewrite decide_False in Hacc1 by done.
  assert (Hcl : _limits <$> sys_concurrency s1 = cl) by apply Hs1.
  assert (Hpl : limits <$> sys_pool s1 = pl) by apply Hs1.
  wp_steps. eapply wp_mono; [by eapply room_acquired|].
  intros r s2 (Hs2 & o2 & -> & Ho2 & Hacc2). rewrite Hpl in Ho2, Hacc2.
  pose proof (same_limits_trans _ _ _ Hs1 Hs2) as Hs12. case_bool_decide as Ho2'.
  - rewrite decide_True in Hacc2 by done.
    assert (Hcl2 : _limits <$> sys_concurrency s2 = cl) by apply Hs12.
    wp_steps. eapply wp_mono; [apply (slot_released s2 held h); by rewrite Hcl2|].
    intros r s3 (Hs3 & [? ->] & Hacc3). wp_steps.
    split; [by eapply same_limits_trans|]. right. naive_solver.
  - rewrite decide_False in Hacc2 by done. wp_steps. split; [done|]. left.
    split; [|done]. naive_solver.
Qed.

Lemma pick_room_other pl j h id : id ≠ job_id j → pick_room pl j h !! id = h !! id.
Proof.
  intros Hne. unfold pick_room. destruct pl; [|done]. case_decide; [done|].
  by rewrite lookup_insert_ne.
Qed.

(** Every job the backend offers satisfies [P]. *)
Definition offers (P : Job → Prop) (b : B) (limit : Z) (qn : option string) : Prop :=
  wp (dequeue limit None qn) b (λ r _, ∀ l, r = Ok l → Forall P l).

(** The job may ask the pool: its request is well-formed and it holds nothing. *)
Definition may_ask (h : gmap string (dict Z)) (j : Job) : Prop :=
  request_wf (resources j) ∧ h !! job_id j = None.

Lemma selection_ok jobs s held h sel :
  backend_wf (sys_backend s) → accounts s held h →
  NoDup (job_id <$> jobs) → Forall (may_ask h) jobs →
  wp (foldM Dispatcher.consider sel jobs) s (λ r s', same_limits s s' ∧ ∃ l held' h',
    r = Ok (sel ++ l) ∧ accounts s' held' h' ∧
    selects (statuses (sys_backend s)) (sys_tracker s) (_limits <$> sys_concurrency s)
      (limits <$> sys_pool s) held h jobs l held' h').
Proof.
  revert s held h sel. induction jobs as [|j jobs IH]; intros s held h sel Hwf Hacc Hnd Hask; simpl.
  { wp_steps. split; [done|]. exists [], held, h. rewrite app_nil_r.
    split_and!; [done..|apply selects_nil]. }
  apply Forall_cons in Hask as [[Hreq Hno] Hasks].
  simpl in Hnd. apply NoDup_cons in Hnd as [Hj Hnd].
  wp_steps. eapply wp_mono; [by apply (consider_ok s held h)|].
  intros r s1 (Hs1 & Hcase). pose proof Hs1 as (Eb & Et & Ec & Ep).
  destruct Hcase as [((Hd & Hs & Hr) & -> & Hacc1) | (Hnot & -> & Hacc1)].
  - eapply wp_mono; [apply (IH s1); [by rewrite Eb|exact Hacc1|done|]|].
    { rewrite Forall_forall in Hasks |- *. intros j' Hj'. destruct (Hasks _ Hj') as [? ?].
      split; [done|]. rewrite pick_room_other; [done|].
      intros Heq. apply Hj. apply list_elem_of_fmap. eauto. }
    intros r s2 (Hs2 & l & held' & h' & -> & Hacc2 & Hsel).
    split; [by eapply same_limits_trans|]. exists (j :: l), held', h'.
    rewrite <- app_assoc. split; [done|]. split; [done|].
    rewrite Eb, Et, Ec, Ep in Hsel. by apply selects_pick.
  - eapply wp_mono; [apply (IH s1); [by rewrite Eb|exact Hacc1|done..]|].
    intros r s2 (Hs2 & l & held' & h' & -> & Hacc2 & Hsel).
    split; [by eapply same_limits_trans|]. exists l, held', h'. split; [done|]. split; [done|].
    rewrite Eb, Et, Ec, Ep in Hsel. by apply selects_skip.
Qed.

(** The jobs selected are selected from the answer of [dequeue] at the same moment. *)
Lemma select_eligible_runs e s held h limit qn :
  backend_wf (sys_backend s) → accounts s held h → (0 ≤ limit)%Z → qn ≠ Some "" →
  offers (may_ask h) (sys_backend s) limit qn →
  ∃ offered b1 e1, dequeue limit None qn (sys_backend s) e = (Ok offered, b1, e1) ∧
  runs e (Dispatcher.select_eligible limit qn) s (λ r s' _, same_limits s s' ∧ ∃ l held' h',
    r = Ok l ∧ accounts s' held' h' ∧
    dequeued (statuses (sys_backend s)) limit None qn offered ∧
    selects (statuses (sys_backend s)) (sys_tracker s) (_limits <$> sys_concurrency s)
      (limits <$> sys_pool s) held h offered l held' h').
Proof.
  intros Hwf Hacc Hl Hqn Hoff.
  pose proof (dequeue_status_ok (sys_backend s) limit None qn Hwf Hl ltac:(done) Hqn e) as Hd.
  specialize (Hoff e). destruct (dequeue limit None qn (sys_backend s) e) as [[ro b1] e1] eqn:E.
  destruct Hd as (-> & offered & -> & Hdq). specialize (Hoff offered eq_refl).
  pose proof Hdq as (_ & Hnd & _). exists offered, (sys_backend s), e1. split; [done|].
  unfold Dispatcher.select_eligible, Dispatcher.on_backend.
  apply runs_bind, runs_zoom. unfold runs at 1. rewrite E.
  replace (s <| sys_backend := sys_backend s |>) with s by (by destruct s).
  apply runs_wp. eapply wp_mono; [by apply (selection_ok offered s held h [])|].
  intros r s' (Hs' & l & held' & h' & -> & Hacc' & Hsel) _. split; [done|].
  by exists l, held', h'.
Qed.

(** What [release_job] does to the slots of a picked job. *)
Lemma release_job_ok s held h j :
  accounts s (pick_slot (_limits <$> sys_concurrency s) j held) (pick_room (limits <$> sys_pool s) j h) →
  h !! job_id j = None →
  wp (Dispatcher.release_job j) s (λ r s', same_limits s s' ∧ r = Ok tt ∧ accounts s' held h).
Proof.
  intros Hacc Hj. unfold Dispatcher.release_job. wp_steps.
  eapply wp_mono; [by apply (slot_released s held)|]. intros r s1 (Hs1 & [? ->] & Hacc1).
  assert (Hpl : limits <$> sys_pool s1 = limits <$> sys_pool s) by apply Hs1.
  wp_steps. apply wp_zoom_opt. destruct Hacc1 as [Hacc1 Hpool].
  destruct (sys_pool s1) as [p|] eqn:E; simpl in *.
  - destruct Hpool as [Hwf Hh]. eapply wp_mono; [by apply (release_ok p (job_id j))|].
    intros r p' (Hl & Hwf' & -> & Hh' & _). wp_steps. split; [|split; [done|]].
    + eapply same_limits_trans; [exact Hs1|]. split_and!; simpl; try done. by rewrite E, Hl.
    + split; [done|]. simpl. split; [done|]. rewrite Hh', Hh, <- Hpl. simpl. case_decide.
      * by apply delete_id.
      * by apply delete_insert_id.
  - wp_steps. split; [done|]. split; [done|]. split; [done|]. rewrite E.
    by rewrite <- Hpl in Hpool.
Qed.
End selection.

(** C15: the dispatcher selects exactly the runnable jobs. Over any backend that
    meets the contract and in any environment, [select_eligible] takes, in their
    order, the jobs [offered] that [dequeue] answers there and leaves one out
    exactly when a dependency has not succeeded, no concurrency slot is free, or a
    pool has no room next to what was picked before; afterwards exactly the picked
    jobs hold a slot and their resources on top of what was held, every job picked
    was queued, and nothing else of the system has changed. *)
Theorem select_eligible_exact {B} `{BackendContract B} (e : env) (s : System B) held h limit qn :
  backend_wf (sys_backend s) → accounts s held h → (0 ≤ limit)%Z → qn ≠ Some "" →
  offers (may_ask h) (sys_backend s) limit qn →
  ∃ offered b1 e1, dequeue limit None qn (sys_backend s) e = (Ok offered, b1, e1) ∧
  runs e (Dispatcher.select_eligible limit qn) s (λ r s' _, same_limits s s' ∧ ∃ l held' h',
    r = Ok l ∧ accounts s' held' h' ∧
    dequeued (statuses (sys_backend s)) limit None qn offered ∧
    selects (statuses (sys_backend s)) (sys_tracker s) (_limits <$> sys_concurrency s)
      (limits <$> sys_pool s) held h offered l held' h' ∧
    l `sublist_of` offered ∧
    Forall (λ j, statuses (sys_backend s) !! job_id j = Some QUEUED ∧
                 deps_met (statuses (sys_backend s)) (sys_tracker s) j) l ∧
    held' ≡ₚ (if decide (is_Some (sys_concurrency s)) then job_slot <$> l else []) ++ held ∧
    (∀ id, id ∉ job_id <$> l → h' !! id = h !! id) ∧
    (∀ j, j ∈ l → is_Some (sys_pool s) → resources j ≠ [] → h' !! job_id j = Some (resources j))).
Proof.
  intros Hwf Hacc Hl Hqn Hoff.
  destruct (select_eligible_runs e s held h limit qn) as (offered & b1 & e1 & Hdeq & Hrun); [done..|].
  exists offered, b1, e1. split; [done|]. eapply runs_mono; [exact Hrun|].
  intros r s' _ (Hs' & l & held' & h' & -> & Hacc' & Hdq & Hsel).
  split; [done|]. exists l, held', h'.
  pose proof (selects_sublist _ _ _ _ _ _ _ _ _ _ Hsel) as Hsub.
  pose proof (selects_deps _ _ _ _ _ _ _ _ _ _ Hsel) as Hdeps.
  destruct Hdq as (Hlen & Hnd & Hall).
  destruct (selects_holders _ _ _ _ _ _ _ _ _ _ Hsel Hnd) as [Hout Hin].
  split_and!; try done.
  - rewrite Forall_forall in Hdeps, Hall |- *. intros j Hj. split; [|by apply Hdeps].
    apply Hall. eapply elem_of_submseteq; [exact Hj|]. by apply sublist_submseteq.
  - rewrite (selects_held _ _ _ _ _ _ _ _ _ _ Hsel). by destruct (sys_concurrency s).
  - intros j Hj [p Hp]. apply Hin; [done|]. by rewrite Hp.
Qed.

(** A system over a memory store with the default concurrency limits and one
    [gpu] slot. *)
Definition sample_system (jobs : list Job) : System Memory := {|
  sys_backend := memory_of jobs;
  sys_concurrency := Some (Concurrency.new default_limits);
  sys_pool := Some (Pool.new [("gpu", 1%Z)]);
  sys_tracker := Some (mkTracker []);
|}.

Lemma sample_system_accounts jobs : accounts (sample_system jobs) [] ∅.
Proof.
  split; simpl.
  - split; [apply represents_new|]. split_and!; vm_compute; intuition discriminate.
  - split; [|done]. apply pool_wf_new. by apply (bool_decide_unpack _); vm_compute.
Qed.

Definition gpu_job (id : string) (prio : Z) : Job :=
  sample_job id prio 1 <| resources := [("gpu", 1%Z)] |>.

Lemma gpu_may_ask id prio : may_ask ∅ (gpu_job id prio).
Proof. split; [by apply request_wf_small; vm_compute | apply lookup_empty]. Qed.

Lemma gpu_offers : offers (may_ask ∅) (memory_of [gpu_job "a" 1; gpu_job "b" 2]) 5 None.
Proof.
  apply memory_dequeue_run. intros l [= <-].
  replace (slice_to _ _) with [gpu_job "b" 2; gpu_job "a" 1] by (by vm_compute).
  do 2 (apply Forall_cons; split; [apply gpu_may_ask|]). constructor.
Qed.

Lemma select_eligible_exact_witness :
  let s := sample_system [gpu_job "a" 1; gpu_job "b" 2] in
  ∃ offered b1 e1, dequeue 5 None None (sys_backend s) env0 = (Ok offered, b1, e1) ∧
  runs env0 (Dispatcher.select_eligible 5 None) s (λ r s' _, same_limits s s' ∧ ∃ l held' h',
    r = Ok l ∧ accounts s' held' h' ∧
    dequeued (statuses (sys_backend s)) 5 None None offered ∧
    selects (statuses (sys_backend s)) (sys_tracker s) (_limits <$> sys_concurrency s)
      (limits <$> sys_pool s) [] ∅ offered l held' h' ∧
    l `sublist_of` offered ∧
    Forall (λ j, statuses (sys_backend s) !! job_id j = Some QUEUED ∧
                 deps_met (statuses (sys_backend s)) (sys_tracker s) j) l ∧
    held' ≡ₚ (if decide (is_Some (sys_concurrency s)) then job_slot <$> l else []) ++ [] ∧
    (∀ id, id ∉ job_id <$> l → h' !! id = (∅ : gmap string (dict Z)) !! id) ∧
    (∀ j, j ∈ l → is_Some (sys_pool s) → resources j ≠ [] → h' !! job_id j = Some (resources j))).
Proof.
  intros s. apply (select_eligible_exact env0 s [] ∅ 5 None).
  - apply memory_of_wf.
  - apply sample_system_accounts.
  - lia.
  - discriminate.
  - exact gpu_offers.
Defined.

Example selects_one_gpu_job :
  let '(r, _, _) := Dispatcher.select_eligible 5 None
    (sample_system [gpu_job "a" 1; gpu_job "b" 2]) (Env (clock_of (λ _, 0%Z)) (λ _, "") 0 0) in
  r = Ok [gpu_job "b" 2].
Proof. vm_compute. reflexivity. Qed.
