(* ===== verification/Fallback.v ===== *)
(** * Fallback policies

    [extensions/fallback_policies.py]: what the worker does with a job whose
    handler failed, by the policy of the job's type. The notifier is supplied by
    the caller ([httpx.request] by default) and is a parameter. *)

From S2P Require Import Prelude PyValue Domain Backend MemoryBackend.

Inductive FallbackAction : Type := RETRY | DEAD_LETTER | NOTIFY | IGNORE.

#[export] Instance FallbackAction_eq_dec : EqDecision FallbackAction.
Proof. solve_decision. Defined.

Record FallbackPolicy : Type := mkPolicy {
  pol_action : FallbackAction;
  dead_letter_queue : string;
  notify_url : option string;
}.

(** [FallbackPolicy()] *)
Definition default_policy : FallbackPolicy := mkPolicy RETRY "dead_letter" None.

Record FallbackDecision : Type := mkDecision {
  dec_action : FallbackAction;
  dec_status : string;
  should_raise : bool;
  dead_letter_job_id : option string;
}.

(** [FallbackPolicyManager]: the policies and the notifier, called with the
    method, the URL and the JSON body. *)
Record FallbackPolicyManager (B : Type) : Type := mkFallback {
  _policies : dict FallbackPolicy;
  _notifier : string → string → dict pyval → M B unit;
}.
Arguments mkFallback {B}.
Arguments _policies {B}.
Arguments _notifier {B}.

(** The job put into the dead-letter queue. *)
Definition dead_letter_of (now : Z) (id queue error : string) (job : Job) : Job :=
  new_job id (job_type job) queue
    [("error", PStr error); ("original_payload", PDict (payload job));
     ("source_job_id", PStr (job_id job))]
    QUEUED (priority job) now now
    <| app_id := app_id job |>
    <| tenant_id := tenant_id job |>
    <| host_id := host_id job |>
    <| worker_id := worker_id job |>
    <| idempotency_key := idempotency_key job |>
    <| correlation_id := correlation_id job |>
    <| user_id := user_id job |>
    <| session_id := session_id job |>
    <| channel_id := channel_id job |>.

Module Fallback.
Section manager.
Context {B : Type} `{QueueBackend B}.

Definition set_policy (job_type : string) (policy : FallbackPolicy)
    : M (FallbackPolicyManager B) unit :=
  modify (λ f, mkFallback (Dict.set job_type policy (_policies f)) (_notifier f)).

Definition policy_for (f : FallbackPolicyManager B) (job_type : string) : FallbackPolicy :=
  Dict.get_default job_type default_policy (_policies f).

Definition apply (f : FallbackPolicyManager B) (job : Job) (error : exn) : M B FallbackDecision :=
  let policy := policy_for f (job_type job) in
  match pol_action policy with
  | RETRY =>
    _ ← update_status (job_id job) (value RETRY_WAIT);
    mret (mkDecision (pol_action policy) (value RETRY_WAIT) true None)
  | DEAD_LETTER =>
    _ ← update_status (job_id job) (value FAILED);
    now ← utcnow;
    id ← uuid4;
    id' ← enqueue (dead_letter_of now id (dead_letter_queue policy) (exn_str error) job);
    mret (mkDecision (pol_action policy) (value FAILED) false (Some id'))
  | NOTIFY =>
    _ ← update_status (job_id job) (value FAILED);
    (if truthy_opt_str (notify_url policy) then
       _notifier f "POST" (default "" (notify_url policy))
         [("job_id", PStr (job_id job)); ("job_type", PStr (job_type job));
          ("status", PStr (value FAILED)); ("error", PStr (exn_str error));
          ("queue_name", PStr (queue_name job))]
     else mret tt);;
    mret (mkDecision (pol_action policy) (value FAILED) false None)
  | IGNORE =>
    _ ← update_status (job_id job) (value FAILED);
    mret (mkDecision (pol_action policy) (value FAILED) false None)
  end.
End manager.
End Fallback.

(** ** Outcomes *)

(** A notifier that does not change any status and answers [verdict]. *)
Definition notifies {B} `{BackendContract B} (f : FallbackPolicyManager B)
    (verdict : string → result unit) : Prop :=
  ∀ b url body, backend_wf b → wp (_notifier f "POST" url body) b (λ r b',
    backend_wf b' ∧ statuses b' = statuses b ∧ r = verdict url).

(** The status a failed job ends with, and whether the exception is raised on. *)
Definition fallback_status (a : FallbackAction) : JobStatus :=
  match a with RETRY => RETRY_WAIT | _ => FAILED end.

Definition decision_of (a : FallbackAction) (id : option string) : FallbackDecision :=
  mkDecision a (value (fallback_status a)) (bool_decide (a = RETRY)) id.

(** What [apply] answers when nothing is enqueued. *)
Definition fallback_result (p : FallbackPolicy) (verdict : string → result unit)
    : result FallbackDecision :=
  match pol_action p, notify_url p with
  | NOTIFY, Some url =>
    if bool_decide (url = "") then Ok (decision_of NOTIFY None)
    else match verdict url with Ok _ => Ok (decision_of NOTIFY None) | Err x => Err x end
  | a, _ => Ok (decision_of a None)
  end.

Section outcomes.
Context {B : Type} `{BackendContract B}.

Lemma update_status_step {A} id s b (k : bool → M B A) Q :
  backend_wf b →
  (∀ b' ok, backend_wf b' → statuses b' = alter (λ _, s) id (statuses b) → wp (k ok) b' Q) →
  wp (ok ← update_status id (value s); k ok) b Q.
Proof.
  intros Hwf Hk. wp_steps. eapply wp_mono; [by apply update_status_ok|].
  intros r b' (? & -> & ?). by apply Hk.
Qed.

Lemma fallback_apply_ok f job err b verdict :
  backend_wf b → notifies f verdict →
  pol_action (Fallback.policy_for f (job_type job)) ≠ DEAD_LETTER →
  wp (Fallback.apply f job err) b (λ r b', backend_wf b' ∧
    r = fallback_result (Fallback.policy_for f (job_type job)) verdict ∧
    statuses b' = alter (λ _, fallback_status (pol_action (Fallback.policy_for f (job_type job))))
                        (job_id job) (statuses b)).
Proof.
  intros Hwf Hn Hdl. unfold Fallback.apply, fallback_result.
  destruct (Fallback.policy_for f (job_type job)) as [a q url]. simpl in *.
  destruct a; try done; apply update_status_step; try done; intros b' ok Hwf' Hst; wp_steps.
  destruct url as [url|]; simpl; [|by wp_steps]. unfold truthy_str.
  destruct (bool_decide (url = "")); simpl; [by wp_steps|]. wp_steps.
  eapply wp_mono; [by apply Hn|]. intros r b'' (? & Hst'' & ->).
  destruct (verdict url) as [[]|x]; wp_steps; by rewrite Hst''.
Qed.

Lemma fallback_apply_wf f job err b :
  (∀ url body b, backend_wf b → wp (_notifier f "POST" url body) b (λ _ b', backend_wf b')) →
  backend_wf b →
  wp (Fallback.apply f job err) b (λ _ b', backend_wf b').
Proof.
  intros Hn Hwf. unfold Fallback.apply.
  destruct (pol_action _); apply update_status_step; try done; intros b' ok Hwf' _; wp_steps; try done.
  - eapply wp_mono; [by apply enqueue_ok|]. intros [] b'' (? & _); by wp_steps.
  - destruct (truthy_opt_str _); wp_steps; [|done].
    eapply wp_mono; [by apply Hn|]. intros [] b'' ?; by wp_steps.
Qed.
End outcomes.

(** Every fallback policy ends the failed job as it says, on any backend
    that meets the contract: [retry] parks it in [retry_wait] and asks for the
    exception to be raised on; [ignore] marks it failed and swallows the
    exception; [notify] marks it failed, and a notifier that raises makes
    [apply] raise after the job was marked. Nothing else changes status. *)
Theorem fallback_outcome {B} `{BackendContract B} (f : FallbackPolicyManager B) job err b verdict :
  backend_wf b → notifies f verdict →
  pol_action (Fallback.policy_for f (job_type job)) ≠ DEAD_LETTER →
  wp (Fallback.apply f job err) b (λ r b', backend_wf b' ∧
    r = fallback_result (Fallback.policy_for f (job_type job)) verdict ∧
    ∀ id, statuses b' !! id =
      if decide (id = job_id job)
      then (λ _, fallback_status (pol_action (Fallback.policy_for f (job_type job))))
             <$> statuses b !! id
      else statuses b !! id).
Proof.
  intros Hwf Hn Hdl. eapply wp_mono; [by apply fallback_apply_ok|].
  intros r b' (? & -> & ->). split; [done|]. split; [done|]. intros id.
  rewrite lookup_alter. repeat case_decide; congruence.
Qed.

Definition sample_fallback : FallbackPolicyManager Memory :=
  mkFallback [("t", mkPolicy NOTIFY "dead_letter" (Some "http://hook"))]
    (λ _ _ _, raise (UserError "ConnectError" "refused")).

Lemma fallback_outcome_witness :
  let b := memory_of [sample_job "a" 0 1] in
  let verdict := λ _ : string, Err (UserError "ConnectError" "refused") in
  wp (Fallback.apply sample_fallback (sample_job "a" 0 1) (ValueError "boom")) b (λ r b',
    backend_wf b' ∧
    r = fallback_result (Fallback.policy_for sample_fallback "t") verdict ∧
    ∀ id, statuses b' !! id =
      if decide (id = "a") then (λ _, FAILED) <$> statuses b !! id else statuses b !! id).
Proof.
  intros b verdict. apply (fallback_outcome sample_fallback (sample_job "a" 0 1) _ _ verdict).
  - apply memory_of_wf.
  - intros b' url body Hwf. by apply wp_raise.
  - discriminate.
Defined.

(** The dead-letter policy marks the job failed and, under the identifier it
    reports, stores a queued job of the same type, priority and owner in the
    policy's queue whose payload carries the error, the original payload and
    the identifier of the failed job (for the in-memory backend). *)
Theorem dead_letter_outcome (f : FallbackPolicyManager Memory) job err b :
  memory_wf b → pol_action (Fallback.policy_for f (job_type job)) = DEAD_LETTER →
  is_Some (Dict.get (job_id job) (_jobs b)) →
  wp (Fallback.apply f job err) b (λ r b', memory_wf b' ∧ ∃ id dead,
    r = Ok (decision_of DEAD_LETTER (Some id)) ∧
    memory_statuses b' = <[id := QUEUED]> (<[job_id job := FAILED]> (memory_statuses b)) ∧
    Dict.get id (_jobs b') = Some dead ∧ status dead = QUEUED ∧
    job_type dead = job_type job ∧ priority dead = priority job ∧
    queue_name dead = dead_letter_queue (Fallback.policy_for f (job_type job)) ∧
    tenant_id dead = tenant_id job ∧ user_id dead = user_id job ∧
    payload dead = [("error", PStr (exn_str err)); ("original_payload", PDict (payload job));
                    ("source_job_id", PStr (job_id job))] ∧
    depends_on dead = [] ∧ resources dead = []).
Proof.
  intros Hwf Hdl Hin. unfold Fallback.apply. rewrite Hdl.
  apply (update_status_step (B := Memory)); [done|]. intros b1 ok Hwf1 Hst. simpl in Hst.
  wp_steps. simpl. unfold Memory.enqueue. wp_steps.
  split; [by apply (memory_wf_set b1)|]. eexists _, _.
  split; [done|]. split; [|split; [apply Dict.get_set_eq|done]].
  apply map_eq. intros k. rewrite memory_lookup by (by apply (memory_wf_set b1)).
  simpl. rewrite Dict.get_set, lookup_insert. case_decide; [done|].
  rewrite <- memory_lookup, Hst by done. rewrite alter_const_insert; [done|].
  rewrite memory_lookup by done. by apply fmap_is_Some.
Qed.

Lemma dead_letter_outcome_witness :
  let b := memory_of [sample_job "a" 3 1] in
  let f := mkFallback [("t", mkPolicy DEAD_LETTER "dlq" None)] (λ _ _ _, mret tt) in
  wp (Fallback.apply f (sample_job "a" 3 1) (KeyError "k")) b (λ r b', memory_wf b' ∧ ∃ id dead,
    r = Ok (decision_of DEAD_LETTER (Some id)) ∧
    memory_statuses b' = <[id := QUEUED]> (<["a" := FAILED]> (memory_statuses b)) ∧
    Dict.get id (_jobs b') = Some dead ∧ status dead = QUEUED ∧
    job_type dead = "t" ∧ priority dead = 3%Z ∧ queue_name dead = "dlq" ∧
    tenant_id dead = None ∧ user_id dead = None ∧
    payload dead = [("error", PStr "'k'"); ("original_payload", PDict []); ("source_job_id", PStr "a")] ∧
    depends_on dead = [] ∧ resources dead = []).
Proof.
  intros b f. apply (dead_letter_outcome f (sample_job "a" 3 1) (KeyError "k")).
  - apply memory_of_wf.
  - reflexivity.
  - by exists (sample_job "a" 3 1).
Defined.
