(* ===== verification/Worker.v ===== *)
(** * Worker

    [worker/worker.py], [worker/context.py], [worker/handlers.py],
    [worker/heartbeat.py], [worker/pause.py]: the job context, the handler
    registry, and [Worker.run_once] with its try, except and finally blocks.
    Handlers, the identity check and the notifier are the caller's code and are
    parameters. Python 3.11 or later: [concurrent.futures.TimeoutError] is the
    built-in [TimeoutError]. *)

From S2P Require Import Prelude PyValue Domain Backend MemoryBackend Observability Graph.
From S2P Require Import Dependency Concurrency ResourcePool Dispatcher Fallback.

(** ** Job context *)

Record JobContext : Type := mkContext {
  ctx_job : Job;
  cancellation : bool;
  ctx_progress : dict pyval;
}.

Module Context.

Definition new (j : Job) : JobContext := mkContext j false [].

Definition is_cancelled (c : JobContext) : bool := cancellation c.

Definition check_cancellation : M JobContext unit :=
  c ← get_state;
  if is_cancelled c then raise (RuntimeError "Job cancelled") else mret tt.

Definition update_progress (percentage : pyval) (stage : string) (counters : dict Z)
    (current_item : option string) : M JobContext (dict pyval) :=
  now ← utcnow;
  let p := [("percentage", percentage); ("stage", PStr stage);
            ("counters", PDict (prod_map id PInt <$> counters));
            ("current_item", opt_str current_item); ("updated_at", PStr (isoformat now))] in
  modify (λ c, mkContext (ctx_job c) (cancellation c) p);;
  mret p.

End Context.

(** [PauseController] is its event flag. *)
Module PauseController.
Definition pause_task : M bool unit := modify (λ _, true).
Definition resume_task : M bool unit := modify (λ _, false).
Definition is_paused (paused : bool) : bool := paused.
End PauseController.

(** [HeartbeatManager] passes a heartbeat on to its backend. *)
Module HeartbeatManager.
Definition touch {B} `{QueueBackend B} (job_id : string) : M B bool := heartbeat job_id.
End HeartbeatManager.

(** ** Handlers

    The call of a handler as the worker sees it: by the deadline it has
    returned, or raised, or it is still running and [rest] is what it will
    still do. Handlers may use the shared objects of the system. *)
Inductive handler_step (B : Type) : Type :=
  | Finished
  | Running (rest : M (System B) unit).
Arguments Finished {B}.
Arguments Running {B}.

Definition JobHandler (B : Type) : Type := JobContext → M (System B) (handler_step B).

Record Worker (B : Type) : Type := mkWorker {
  w_system : System B;
  _handlers : dict (JobHandler B);
  w_audit : AuditEmitter;
  w_metrics : Metrics;
}.
Arguments mkWorker {B}.
Arguments w_system {B}.
Arguments _handlers {B}.
Arguments w_audit {B}.
Arguments w_metrics {B}.

#[export] Instance Worker_eta B : Eta (Worker B) := λ w,
  mkWorker (w_system w) (_handlers w) (w_audit w) (w_metrics w).

(** The settings fixed by the constructor; the timeout, a float, is its [repr]. *)
Record WorkerConfig (B : Type) : Type := mkConfig {
  _host_id : string;
  _worker_id : string;
  _queue_name : option string;
  _run_timeout_seconds : option string;
  _identity_authoriser : option (string → string → bool);
  _fallback_policies : option (FallbackPolicyManager B);
}.
Arguments mkConfig {B}.
Arguments _host_id {B}.
Arguments _worker_id {B}.
Arguments _queue_name {B}.
Arguments _run_timeout_seconds {B}.
Arguments _identity_authoriser {B}.
Arguments _fallback_policies {B}.

Definition is_timeout (x : exn) : bool := match x with TimeoutError _ => true | _ => false end.

Module HandlerRegistry.
Section registry.
Context {B : Type}.

Definition register (job_type : string) (h : JobHandler B) : M (Worker B) unit :=
  modify (λ w, w <| _handlers := Dict.set job_type h (_handlers w) |>).

Definition get (job_type : string) : M (Worker B) (JobHandler B) :=
  handlers ← gets _handlers;
  match Dict.get job_type handlers with
  | None => raise (KeyError ("Unknown job_type: " +:+ job_type))
  | Some h => mret h
  end.
End registry.
End HandlerRegistry.

Module Worker.
Section worker.
Context {B : Type} `{QueueBackend B} (cfg : WorkerConfig B).

Definition on_system {A} : M (System B) A → M (Worker B) A :=
  zoom w_system (λ s w, w <| w_system := s |>).
Definition audit (action outcome : string) : M (Worker B) unit :=
  zoom w_audit (λ a w, w <| w_audit := a |>) (_ ← emit action outcome; mret tt).
Definition inc (key : string) : M (Worker B) unit :=
  zoom w_metrics (λ m w, w <| w_metrics := m |>) (Metrics.inc key 1).

(** The constructor creates a dispatcher when one of the components is given. *)
Definition has_dispatcher (s : System B) : bool :=
  bool_decide (is_Some (sys_pool s)) || bool_decide (is_Some (sys_concurrency s))
  || bool_decide (is_Some (sys_tracker s)).

(** [if self._dispatcher is not None: self._dispatcher.release_job(job)] *)
Definition release_slots (job : Job) : M (Worker B) unit :=
  d ← gets (λ w : Worker B, has_dispatcher (w_system w));
  if (d : bool) then on_system (Dispatcher.release_job job) else mret tt.

Definition timed_out (t : string) (job : Job) : M (Worker B) unit :=
  _ ← on_system (on_backend (update_status (job_id job) (value TIMEOUT)));
  audit "job.transition" "failure";;
  inc "jobs.timed_out";;
  raise (TimeoutError ("Job timed out after " +:+ t +:+ "s")).

(** Lines 118-129. Leaving the [with] block of the executor waits for the
    handler's thread; what the handler still does and raises is ignored. *)
Definition execute (handler : JobHandler B) (job : Job) : M (Worker B) unit :=
  match _run_timeout_seconds cfg with
  | Some t =>
    step ← try_except (A := handler_step B) (on_system (handler (Context.new job)))
      (λ x, if is_timeout x then _ ← timed_out t job; mret Finished else raise x);
    match step with
    | Finished => mret tt
    | Running rest =>
      try_finally (timed_out t job) (try_except (on_system rest) (λ _, mret tt))
    end
  | None =>
    step ← on_system (handler (Context.new job));
    match step with
    | Finished => mret tt
    | Running rest => on_system rest
    end
  end.

(** The [except Exception as exc] block. *)
Definition on_failure (job : Job) (exc : exn) : M (Worker B) bool :=
  match _fallback_policies cfg with
  | Some f =>
    decision ← on_system (on_backend (Fallback.apply f job exc));
    audit "job.transition" "failure";;
    (if bool_decide (dec_status decision = value RETRY_WAIT) then inc "jobs.retry_wait"
     else if bool_decide (dec_status decision = value FAILED) then inc "jobs.failed"
     else mret tt);;
    if should_raise decision then raise exc else mret true
  | None =>
    _ ← on_system (on_backend (update_status (job_id job) (value FAILED)));
    audit "job.transition" "failure";;
    inc "jobs.failed";;
    raise exc
  end.

Definition run_body (handler : JobHandler B) (job : Job) : M (Worker B) bool :=
  _ ← on_system (on_backend (heartbeat (job_id job)));
  execute handler job;;
  _ ← on_system (on_backend (update_status (job_id job) (value SUCCEEDED)));
  audit "job.transition" "success";;
  inc "jobs.succeeded";;
  mret true.

(** From the claim on. *)
Definition run_selected (job : Job) : M (Worker B) bool :=
  claimed ← on_system (on_backend (claim (job_id job) (_host_id cfg) (_worker_id cfg)));
  if negb claimed then release_slots job;; mret false
  else
    audit "job.claim" "success";;
    handler ← HandlerRegistry.get (job_type job);
    try_finally (try_except (run_body handler job) (on_failure job)) (release_slots job).

Definition authorise : M (Worker B) unit :=
  match _identity_authoriser cfg with
  | Some auth =>
    if auth (_host_id cfg) (_worker_id cfg) then mret tt
    else raise (PermissionError ("Worker identity not authorised: " +:+ _host_id cfg +:+ ":"
                                 +:+ _worker_id cfg))
  | None => mret tt
  end.

Definition select : M (Worker B) (list Job) :=
  d ← gets (λ w : Worker B, has_dispatcher (w_system w));
  if (d : bool) then on_system (Dispatcher.select_eligible 1 (_queue_name cfg))
  else on_system (on_backend (dequeue 1 None (_queue_name cfg))).

Definition run_once : M (Worker B) bool :=
  authorise;;
  jobs ← select;
  match jobs with
  | [] => mret false
  | job :: _ => run_selected job
  end.

(** [run_forever]: [stops i] says whether [stop] was called before the [i]-th
    test of the loop. The fuel bounds the loops; it is exact when [max_loops]
    is given. *)
Fixpoint loop (stops : nat → bool) (max_loops : option Z) (fuel loops : nat) : M (Worker B) nat :=
  match fuel with
  | O => mret loops
  | S fuel =>
    if stops loops then mret loops
    else
      _ ← run_once;
      let loops := S loops in
      if match max_loops with Some n => (n <=? Z.of_nat loops)%Z | None => false end
      then mret loops
      else loop stops max_loops fuel loops
  end.

Definition run_forever (stops : nat → bool) (max_loops : Z) : M (Worker B) nat :=
  loop stops (Some max_loops) (Z.to_nat (Z.max 1 max_loops)) 0.
End worker.
End Worker.

(** ** What handlers may do

    [kept]: the backend stays well-formed and the shared components are not
    touched. *)
Definition kept {B} `{BackendContract B} (s s' : System B) : Prop :=
  backend_wf (sys_backend s) →
  backend_wf (sys_backend s') ∧ sys_concurrency s' = sys_concurrency s ∧
  sys_pool s' = sys_pool s ∧ sys_tracker s' = sys_tracker s.

#[export] Instance kept_preorder {B} `{BackendContract B} : PreOrder (@kept B _ _).
Proof.
  split; [done|]. intros s1 s2 s3 H12 H23 Hwf.
  destruct (H12 Hwf) as (Hwf2 & <- & <- & <-). exact (H23 Hwf2).
Qed.

(** A handler that keeps its hands off the components, before and after the
    deadline. What it does to the jobs of the backend is free. *)
Definition tame_handler {B} `{BackendContract B} (hd : JobHandler B) : Prop :=
  ∀ ctx s, wp (hd ctx) s (λ r s', kept s s' ∧
    ∀ rest, r = Ok (Running rest) → keeps kept rest).

(** The notifier of the fallback manager, when there is one, keeps the backend
    well-formed. *)
Definition tame_fallback {B} `{BackendContract B} (cfg : WorkerConfig B) : Prop :=
  match _fallback_policies cfg with
  | Some f => ∀ url body b, backend_wf b →
      wp (_notifier f "POST" url body) b (λ _ b', backend_wf b')
  | None => True
  end.

(** ... on the worker's state: the handlers stay registered too. *)
Definition wkept {B} `{BackendContract B} (w w' : Worker B) : Prop :=
  kept (w_system w) (w_system w') ∧ _handlers w' = _handlers w.

#[export] Instance wkept_preorder {B} `{BackendContract B} : PreOrder (@wkept B _ _).
Proof.
  split; [done|]. intros w1 w2 w3 [H12 E12] [H23 E23].
  split; [by etrans | congruence].
Qed.

Section worker_lemmas.
Context {B : Type} `{BackendContract B} (cfg : WorkerConfig B).

Lemma keeps_backend {A} (m : M B A) :
  (∀ b, backend_wf b → wp m b (λ _ b', backend_wf b')) → keeps kept (on_backend m).
Proof.
  intros Hm s. apply wp_zoom. intros e. specialize (Hm (sys_backend s)).
  destruct (m (sys_backend s) e) as [[r b'] e'] eqn:E. intros Hwf.
  specialize (Hm Hwf e). rewrite E in Hm. by simpl.
Qed.

Lemma keeps_system {A} (m : M (System B) A) : keeps kept m → keeps wkept (Worker.on_system m).
Proof. intros Hm. eapply keeps_zoom; [apply _|exact Hm|]. by split. Qed.

Lemma keeps_on_backend {A} (m : M B A) :
  (∀ b, backend_wf b → wp m b (λ _ b', backend_wf b')) → keeps wkept (Worker.on_system (on_backend m)).
Proof. intros Hm. by apply keeps_system, keeps_backend. Qed.

Lemma keeps_audit action outcome : keeps wkept (Worker.audit action outcome).
Proof. intros w. unfold Worker.audit. wp_steps. apply wp_emit. intros e _ _. by wp_steps. Qed.

Lemma keeps_inc key : keeps wkept (Worker.inc (B := B) key).
Proof. intros w. unfold Worker.inc, Metrics.inc. by wp_steps. Qed.

Lemma keeps_update_status id s : keeps wkept (Worker.on_system (on_backend (update_status id (value s)))).
Proof.
  apply keeps_on_backend. intros b Hb. eapply wp_mono; [by apply update_status_ok|]. naive_solver.
Qed.

Lemma keeps_heartbeat id : keeps wkept (Worker.on_system (on_backend (heartbeat id))).
Proof.
  apply keeps_on_backend. intros b Hb. eapply wp_mono; [by apply heartbeat_ok|]. naive_solver.
Qed.

Hint Resolve keeps_audit keeps_inc keeps_update_status keeps_heartbeat : py.

Lemma keeps_timed_out t j : keeps wkept (Worker.timed_out t j).
Proof using Type*. unfold Worker.timed_out. auto 10 with py typeclass_instances. Qed.
Hint Resolve keeps_timed_out : py.

Lemma keeps_execute hd j : tame_handler hd → keeps wkept (Worker.execute cfg hd j).
Proof using Type*.
  intros Ht w. unfold Worker.execute.
  assert (Hcall : wp (Worker.on_system (hd (Context.new j))) w (λ r w', wkept w w' ∧
    ∀ rest, r = Ok (Running rest) → keeps kept rest)).
  { apply wp_zoom. eapply wp_mono; [apply Ht|]. by intros r s' [? ?]. }
  destruct (_run_timeout_seconds cfg) as [t|]; wp_steps; (eapply wp_mono; [exact Hcall|]);
    intros [[|rest]|x] w1 [H1 Hrest]; simpl; try done; try (by wp_steps).
  - assert (keeps wkept (Worker.on_system rest)) by (apply keeps_system; eauto).
    assert (Hk : keeps wkept (try_finally (Worker.timed_out t j)
      (try_except (Worker.on_system rest) (λ _, mret tt)))) by auto with py typeclass_instances.
    eapply wp_mono; [exact (Hk w1)|].
    simpl. intros _ w2 ?. by etrans.
  - destruct (is_timeout x); wp_steps; [|done].
    eapply wp_mono; [apply keeps_timed_out|]. simpl. intros [[]|y] w2 ?; wp_steps; by etrans.
  - eapply wp_mono; [by apply keeps_system, Hrest|]. simpl. intros _ w2 ?. by etrans.
Qed.

Lemma keeps_on_failure j x : tame_fallback cfg → keeps wkept (Worker.on_failure cfg j x).
Proof using Type*.
  intros Ht. unfold Worker.on_failure, tame_fallback in *.
  destruct (_fallback_policies cfg) as [f|]; [|auto 10 with py typeclass_instances].
  apply keeps_bind; [apply _| |intros d].
  - apply keeps_on_backend. intros b Hb. by apply fallback_apply_wf.
  - apply keeps_bind; [apply _|auto with py typeclass_instances|intros _].
    apply keeps_bind; [apply _|repeat case_match; auto with py typeclass_instances|intros _].
    case_match; auto with py typeclass_instances.
Qed.

Lemma keeps_body hd j :
  tame_handler hd → tame_fallback cfg →
  keeps wkept (try_except (Worker.run_body cfg hd j) (Worker.on_failure cfg j)).
Proof using Type*.
  intros Hh Hf. apply keeps_try; [apply _| |intros x; by apply keeps_on_failure].
  unfold Worker.run_body. pose proof (keeps_execute hd j Hh). auto 20 with py typeclass_instances.
Qed.

(** ** Claiming and releasing *)

(** The slots held for a job that was picked next to [held] and [h]. *)
Definition holding (s : System B) (j : Job) (held : list slot) (h : gmap string (dict Z)) : Prop :=
  accounts s (pick_slot (_limits <$> sys_concurrency s) j held)
             (pick_room (limits <$> sys_pool s) j h) ∧ h !! job_id j = None.

Lemma holding_kept s s' j held h :
  sys_concurrency s' = sys_concurrency s → sys_pool s' = sys_pool s →
  holding s j held h → holding s' j held h.
Proof. unfold holding, accounts. by intros -> ->. Qed.

Lemma release_slots_ok w j held h :
  holding (w_system w) j held h →
  wp (Worker.release_slots j) w (λ r w', r = Ok tt ∧ accounts (w_system w') held h ∧
    sys_backend (w_system w') = sys_backend (w_system w) ∧ w_audit w' = w_audit w ∧
    same_limits (w_system w) (w_system w') ∧ _handlers w' = _handlers w ∧ w_metrics w' = w_metrics w).
Proof.
  intros [Hacc Hh]. unfold Worker.release_slots. wp_steps.
  destruct (Worker.has_dispatcher (w_system w)) eqn:E; wp_steps.
  - apply wp_zoom. eapply wp_mono; [by apply (release_job_ok _ held h)|]. intros r s' (Hs & -> & Ha). simpl.
    by split_and!; try apply Hs.
  - unfold Worker.has_dispatcher in E. apply orb_false_iff in E as [E _].
    apply orb_false_iff in E as [E1 E2].
    apply bool_decide_eq_false, eq_None_not_Some in E1, E2.
    split_and!; try done. by rewrite E1, E2 in Hacc.
Qed.

Lemma claim_step {A} w j (k : bool → M (Worker B) A) (Q : result A → Worker B → Prop) :
  backend_wf (sys_backend (w_system w)) →
  (∀ b', backend_wf b' →
     statuses b' = (if decide (statuses (sys_backend (w_system w)) !! job_id j = Some QUEUED)
       then <[job_id j := RUNNING]> (statuses (sys_backend (w_system w)))
       else statuses (sys_backend (w_system w))) →
     wp (k (bool_decide (statuses (sys_backend (w_system w)) !! job_id j = Some QUEUED)))
        (w <| w_system := w_system w <| sys_backend := b' |> |>) Q) →
  wp (ok ← Worker.on_system (on_backend (claim (job_id j) (_host_id cfg) (_worker_id cfg))); k ok) w Q.
Proof.
  intros Hwf Hk. wp_steps. do 2 apply wp_zoom. eapply wp_mono; [by apply claim_ok|].
  intros r b' (? & -> & ?). by apply Hk.
Qed.

Lemma run_selected_releases w j held h hd :
  backend_wf (sys_backend (w_system w)) → holding (w_system w) j held h →
  Dict.get (job_type j) (_handlers w) = Some hd → tame_handler hd → tame_fallback cfg →
  wp (Worker.run_selected cfg j) w (λ _ w',
    backend_wf (sys_backend (w_system w')) ∧ accounts (w_system w') held h).
Proof using Type*.
  intros Hwf Hold Hreg Htame Hfb. unfold Worker.run_selected.
  apply claim_step; [done|]. intros b' Hb' _.
  case_bool_decide; simpl.
  - unfold Worker.audit, HandlerRegistry.get. wp_steps. apply wp_emit. intros ev _ _. wp_steps. simpl.
    rewrite Hreg. wp_step.
    apply wp_finally. eapply wp_mono; [by apply keeps_body|]. simpl.
    intros r w2 [Hk _]. destruct (Hk Hb') as (Hb2 & Ec & Ep & _).
    eapply wp_mono; [apply (release_slots_ok _ j held h); by eapply holding_kept|].
    intros r2 w3 (-> & ? & Eb & _). by rewrite Eb.
  - wp_steps. eapply wp_mono; [by apply (release_slots_ok _ j held h)|].
    intros r w2 (-> & ? & Eb & _). wp_steps. by rewrite Eb.
Qed.

Lemma run_selected_unregistered w j held h :
  backend_wf (sys_backend (w_system w)) → holding (w_system w) j held h →
  statuses (sys_backend (w_system w)) !! job_id j = Some QUEUED →
  Dict.get (job_type j) (_handlers w) = None →
  wp (Worker.run_selected cfg j) w (λ r w', backend_wf (sys_backend (w_system w')) ∧
    r = Err (KeyError ("Unknown job_type: " +:+ job_type j)) ∧ holding (w_system w') j held h ∧
    statuses (sys_backend (w_system w')) =
      <[job_id j := RUNNING]> (statuses (sys_backend (w_system w)))).
Proof using Type*.
  intros Hwf Hold Hq Hno. unfold Worker.run_selected. apply claim_step; [done|].
  intros b' Hb'. rewrite decide_True, bool_decide_eq_true_2 by done. intros Hst. simpl.
  unfold Worker.audit, HandlerRegistry.get. wp_steps. apply wp_emit. intros ev _ _. wp_steps.
  simpl. rewrite Hno. by wp_steps.
Qed.
End worker_lemmas.

(** ** Outcomes

    What a handler does with a job, as far as the worker can tell: it returns,
    it raises, or it is still running at the deadline and ends with [late]. *)
Inductive verdict : Type :=
  | Returns
  | Raises (x : exn)
  | Late (late : result unit).

(** Statuses are not touched either. *)
Definition settled_step {B} `{BackendContract B} (s s' : System B) : Prop :=
  kept s s' ∧ (backend_wf (sys_backend s) → statuses (sys_backend s') = statuses (sys_backend s)).

Definition ends_as {B} `{BackendContract B} (v : verdict) (r : result (handler_step B)) : Prop :=
  match v with
  | Returns => r = Ok Finished
  | Raises x => r = Err x
  | Late late => ∃ rest, r = Ok (Running rest) ∧
      ∀ s, backend_wf (sys_backend s) → wp rest s (λ r s', settled_step s s' ∧ r = late)
  end.

Definition behaves {B} `{BackendContract B} (hd : JobHandler B) (j : Job) (v : verdict) : Prop :=
  ∀ s, backend_wf (sys_backend s) →
    wp (hd (Context.new j)) s (λ r s', settled_step s s' ∧ ends_as v r).

Definition timeout_error (t : string) : exn := TimeoutError ("Job timed out after " +:+ t +:+ "s").

(** How the call of the handler ends, and whether the timeout path was taken. *)
Definition call_result (timeout : option string) (v : verdict) : result unit * bool :=
  match v, timeout with
  | Returns, _ => (Ok tt, false)
  | Raises x, None => (Err x, false)
  | Raises x, Some t => if is_timeout x then (Err (timeout_error t), true) else (Err x, false)
  | Late late, None => (late, false)
  | Late _, Some t => (Err (timeout_error t), true)
  end.

(** The answer of [run_once] and the final status of a job whose handler ended
    with an exception. *)
Definition failure_outcome {B} `{BackendContract B} (fb : option (FallbackPolicyManager B))
    (notified : string → result unit) (j : Job) (x : exn) : result bool * JobStatus :=
  match fb with
  | None => (Err x, FAILED)
  | Some f =>
    let policy := Fallback.policy_for f (job_type j) in
    (match fallback_result policy notified with
     | Ok d => if should_raise d then Err x else Ok true
     | Err y => Err y
     end, fallback_status (pol_action policy))
  end.

Definition outcome {B} `{BackendContract B} (cfg : WorkerConfig B)
    (notified : string → result unit) (j : Job) (v : verdict) : result bool * JobStatus :=
  match (call_result (_run_timeout_seconds cfg) v).1 with
  | Ok _ => (Ok true, SUCCEEDED)
  | Err x => failure_outcome (_fallback_policies cfg) notified j x
  end.

(** The fallback manager: its notifier answers [notified], and the job's policy
    enqueues nothing. *)
Definition fallback_answers {B} `{BackendContract B} (cfg : WorkerConfig B)
    (notified : string → result unit) (j : Job) : Prop :=
  match _fallback_policies cfg with
  | Some f => notifies f notified ∧ pol_action (Fallback.policy_for f (job_type j)) ≠ DEAD_LETTER
  | None => True
  end.

Section outcomes.
Context {B : Type} `{BackendContract B} (cfg : WorkerConfig B).

(** The state of a worker, as far as outcomes are concerned: well-formed, the
    components of [s], the statuses [m]. *)
Definition at_status (s : System B) (m : queue_spec) (w : Worker B) : Prop :=
  backend_wf (sys_backend (w_system w)) ∧ statuses (sys_backend (w_system w)) = m ∧
  sys_concurrency (w_system w) = sys_concurrency s ∧ sys_pool (w_system w) = sys_pool s ∧
  sys_tracker (w_system w) = sys_tracker s.

Lemma audit_at s m w action out :
  at_status s m w → wp (Worker.audit action out) w (λ r w', r = Ok tt ∧ at_status s m w').
Proof. intros Hat. unfold Worker.audit. wp_steps. apply wp_emit. intros e _ _. by wp_steps. Qed.

Lemma inc_at s m w key :
  at_status s m w → wp (Worker.inc key) w (λ r w', r = Ok tt ∧ at_status s m w').
Proof. intros Hat. unfold Worker.inc, Metrics.inc. by wp_steps. Qed.

Lemma update_status_at s m w id st :
  at_status s m w →
  wp (Worker.on_system (on_backend (update_status id (value st)))) w (λ r w',
    (∃ ok, r = Ok ok) ∧ at_status s (alter (λ _, st) id m) w').
Proof.
  intros (Hwf & Hst & ? & ? & ?). do 2 apply wp_zoom.
  eapply wp_mono; [by apply update_status_ok|]. intros r b' (? & -> & Hb'). simpl.
  split; [eauto|]. by rewrite <- Hst.
Qed.

Lemma heartbeat_at s m w id :
  at_status s m w →
  wp (Worker.on_system (on_backend (heartbeat id))) w (λ r w', (∃ ok, r = Ok ok) ∧ at_status s m w').
Proof.
  intros (Hwf & Hst & ? & ? & ?). do 2 apply wp_zoom.
  eapply wp_mono; [by apply heartbeat_ok|]. intros r b' (? & Hb' & ? & ->). simpl.
  split; [eauto|]. by rewrite <- Hst.
Qed.

Lemma call_at {A} s m w (f : M (System B) A) P :
  at_status s m w →
  (∀ s, backend_wf (sys_backend s) → wp f s (λ r s', settled_step s s' ∧ P r)) →
  wp (Worker.on_system f) w (λ r w', at_status s m w' ∧ P r).
Proof.
  intros (Hwf & Hst & Hc & Hp & Ht) Hf. apply wp_zoom. eapply wp_mono; [by apply Hf|].
  intros r s' [[Hk Hm] HP]. destruct (Hk Hwf) as (? & Ec & Ep & Et). simpl.
  split; [|done]. split_and!; simpl; [done|by rewrite Hm|congruence..].
Qed.

Lemma timed_out_at s m w t j :
  at_status s m w →
  wp (Worker.timed_out t j) w (λ r w', r = Err (timeout_error t) ∧
    at_status s (alter (λ _, TIMEOUT) (job_id j) m) w').
Proof.
  intros Hat. unfold Worker.timed_out. wp_steps.
  eapply wp_mono; [by apply update_status_at|]. intros r w1 [[ok ->] Hat1]. wp_steps.
  eapply wp_mono; [by apply audit_at|]. intros r w2 [-> Hat2]. wp_steps.
  eapply wp_mono; [by apply inc_at|]. intros r w3 [-> Hat3]. by wp_steps.
Qed.

(** [m] with the timeout recorded, if it was. *)
Definition after_call (timeout : option string) (v : verdict) (id : string) (m : queue_spec)
    : queue_spec :=
  if (call_result timeout v).2 then alter (λ _, TIMEOUT) id m else m.

Lemma execute_at s m w hd j v :
  at_status s m w → behaves hd j v →
  wp (Worker.execute cfg hd j) w (λ r w', r = (call_result (_run_timeout_seconds cfg) v).1 ∧
    at_status s (after_call (_run_timeout_seconds cfg) v (job_id j) m) w').
Proof using Type*.
  intros Hat Hb. unfold Worker.execute, after_call.
  destruct (_run_timeout_seconds cfg) as [t|]; wp_steps; (eapply wp_mono;
    [exact (call_at s m w _ _ Hat Hb)|]); intros r w1 [Hat1 Hv]; destruct v as [|x|late]; simpl in *.
  - subst r. by wp_steps.
  - subst r. destruct (is_timeout x); simpl; wp_steps; [|done].
    eapply wp_mono; [by apply timed_out_at|]. by intros r w2 [-> ?].
  - destruct Hv as (rest & -> & Hrest). wp_steps.
    eapply wp_mono; [by apply timed_out_at|]. intros r w2 [-> Hat2]. wp_steps.
    eapply wp_mono; [exact (call_at s _ w2 rest _ Hat2 Hrest)|].
    intros [a|x] w3 [Hat3 _]; by wp_steps.
  - subst r. by wp_steps.
  - by subst r.
  - destruct Hv as (rest & -> & Hrest).
    eapply wp_mono; [exact (call_at s m w1 rest _ Hat1 Hrest)|]. by intros r w2 [? ->].
Qed.

Lemma on_failure_at s m w j x notified :
  at_status s m w → fallback_answers cfg notified j →
  wp (Worker.on_failure cfg j x) w (λ r w',
    r = (failure_outcome (_fallback_policies cfg) notified j x).1 ∧
    at_status s (alter (λ _, (failure_outcome (_fallback_policies cfg) notified j x).2) (job_id j) m) w').
Proof using Type*.
  intros Hat Hfb. unfold Worker.on_failure, failure_outcome, fallback_answers in *.
  destruct (_fallback_policies cfg) as [f|]; simpl; wp_steps.
  - destruct Hfb as [Hn Hdl]. destruct Hat as (Hwf & Hst & Hc & Hp & Ht).
    do 2 apply wp_zoom. eapply wp_mono; [by apply (fallback_apply_ok f j x _ notified)|].
    intros r b' (Hwf' & -> & Hst'). simpl. rewrite Hst in Hst'.
    set (w1 := w <| w_system := _ |>).
    assert (Hat1 : at_status s (alter (λ _, fallback_status (pol_action
      (Fallback.policy_for f (job_type j)))) (job_id j) m) w1) by (by split_and!).
    destruct (fallback_result _ notified) as [d|y]; [|done].
    wp_steps. eapply wp_mono; [by apply audit_at|]. intros r w2 [-> Hat2]. wp_steps.
    eapply (wp_mono _ _ (λ r w', r = Ok tt ∧ at_status s _ w')).
    { repeat case_match; [by apply inc_at|by apply inc_at|by wp_steps]. }
    intros r w3 [-> Hat3]. destruct (should_raise d); by wp_steps.
  - eapply wp_mono; [by apply update_status_at|]. intros r w1 [[ok ->] Hat1]. wp_steps.
    eapply wp_mono; [by apply audit_at|]. intros r w2 [-> Hat2]. wp_steps.
    eapply wp_mono; [by apply inc_at|]. intros r w3 [-> Hat3]. by wp_steps.
Qed.

Lemma alter_over {V} (m : gmap string V) id u v :
  alter (λ _, u) id (alter (λ _, v) id m) = alter (λ _, u) id m.
Proof.
  apply map_eq. intros k. destruct (decide (id = k)) as [->|].
  - rewrite !lookup_alter_eq. by destruct (m !! k).
  - by rewrite !lookup_alter_ne.
Qed.

(** The protected part of [run_once]. *)
Lemma body_at s m w hd j v notified :
  at_status s m w → behaves hd j v → fallback_answers cfg notified j →
  wp (try_except (Worker.run_body cfg hd j) (Worker.on_failure cfg j)) w (λ r w',
    r = (outcome cfg notified j v).1 ∧
    at_status s (alter (λ _, (outcome cfg notified j v).2) (job_id j) m) w').
Proof using Type*.
  intros Hat Hb Hfb. unfold Worker.run_body, outcome. wp_steps.
  eapply wp_mono; [by apply heartbeat_at|]. intros r w1 [[ok ->] Hat1]. wp_steps.
  eapply wp_mono; [by apply execute_at|]. intros r w2 [Hr Hat2]. subst r.
  assert (Hover : ∀ u, alter (λ _, u) (job_id j) (after_call (_run_timeout_seconds cfg) v (job_id j) m)
    = alter (λ _, u) (job_id j) m).
  { intros u. unfold after_call. case_match; [apply alter_over|done]. }
  destruct (call_result (_run_timeout_seconds cfg) v).1 as [[]|x]; simpl; wp_steps.
  - eapply wp_mono; [by apply update_status_at|]. intros r w3 [[ok' ->] Hat3]. rewrite Hover in Hat3.
    wp_steps. eapply wp_mono; [by apply audit_at|]. intros r w4 [-> Hat4]. wp_steps.
    eapply wp_mono; [by apply inc_at|]. intros r w5 [-> Hat5]. by wp_steps.
  - eapply wp_mono; [by apply on_failure_at|]. intros r w3 [-> Hat3]. by rewrite Hover in Hat3.
Qed.

Lemma run_selected_at w j held h hd v notified :
  backend_wf (sys_backend (w_system w)) → holding (w_system w) j held h →
  Dict.get (job_type j) (_handlers w) = Some hd → behaves hd j v →
  fallback_answers cfg notified j →
  wp (Worker.run_selected cfg j) w (λ r w',
    backend_wf (sys_backend (w_system w')) ∧ accounts (w_system w') held h ∧
    if decide (statuses (sys_backend (w_system w)) !! job_id j = Some QUEUED) then
      r = (outcome cfg notified j v).1 ∧
      statuses (sys_backend (w_system w')) =
        <[job_id j := (outcome cfg notified j v).2]> (statuses (sys_backend (w_system w)))
    else r = Ok false ∧
      statuses (sys_backend (w_system w')) = statuses (sys_backend (w_system w))).
Proof using Type*.
  intros Hwf Hold Hreg Hb Hfb. unfold Worker.run_selected.
  apply claim_step; [done|]. intros b' Hb' Hst.
  set (m := statuses (sys_backend (w_system w))) in *.
  destruct (decide (m !! job_id j = Some QUEUED)) as [Hq|Hq].
  - rewrite bool_decide_eq_true_2 by done. simpl.
    unfold Worker.audit, HandlerRegistry.get. wp_steps. apply wp_emit. intros ev _ _.
    wp_steps. simpl. rewrite Hreg. wp_step. apply wp_finally.
    eapply wp_mono; [apply (body_at (w_system w) (<[job_id j := RUNNING]> m)); try done; by split_and!|].
    intros r w1 [-> (Hwf1 & Hst1 & Ec & Ep & _)].
    eapply wp_mono; [apply (release_slots_ok w1 j held h); by eapply holding_kept|].
    intros r w2 (-> & ? & Eb & _). rewrite Eb. split_and!; [done..|].
    rewrite Hst1, alter_const_insert by (rewrite lookup_insert_eq; eauto).
    apply insert_insert_eq.
  - rewrite bool_decide_eq_false_2 by done. simpl. wp_steps.
    eapply wp_mono; [by apply (release_slots_ok _ j held h)|].
    intros r w2 (-> & ? & Eb & _). wp_steps. by rewrite Eb.
Qed.
End outcomes.

(** ** Selecting *)

Section selecting.
Context {B : Type} `{BackendContract B} (cfg : WorkerConfig B).

Lemma accounts_absent (s : System B) held h :
  Worker.has_dispatcher s = false → accounts s held h →
  sys_concurrency s = None ∧ sys_pool s = None ∧ sys_tracker s = None.
Proof.
  unfold Worker.has_dispatcher. intros E _. apply orb_false_iff in E as [E E3].
  apply orb_false_iff in E as [E1 E2].
  apply bool_decide_eq_false, eq_None_not_Some in E1, E2, E3. done.
Qed.

Lemma select_ok w held h (P : Job → Prop) :
  backend_wf (sys_backend (w_system w)) → accounts (w_system w) held h →
  _queue_name cfg ≠ Some "" → (∀ j, P j → may_ask h j) →
  offers P (sys_backend (w_system w)) 1 (_queue_name cfg) →
  wp (Worker.select cfg) w (λ r w',
    sys_backend (w_system w') = sys_backend (w_system w) ∧ _handlers w' = _handlers w ∧
    (r = Ok [] ∧ accounts (w_system w') held h ∨
     ∃ j, r = Ok [j] ∧ holding (w_system w') j held h ∧ P j ∧
       statuses (sys_backend (w_system w)) !! job_id j = Some QUEUED ∧
       deps_met (statuses (sys_backend (w_system w))) (sys_tracker (w_system w)) j)).
Proof using Type*.
  intros Hwf Hacc Hqn HP Hoff. unfold Worker.select. wp_steps.
  set (m := statuses (sys_backend (w_system w))).
  destruct (Worker.has_dispatcher (w_system w)) eqn:E.
  - apply wp_zoom. unfold Dispatcher.select_eligible. wp_steps.
    eapply wp_on_backend_read with (P := λ l,
      dequeued m 1 None (_queue_name cfg) l ∧ Forall P l).
    + eapply wp_mono; [eapply wp_conj; [by apply dequeue_status_ok|exact Hoff]|].
      intros r b' [(-> & l & -> & Hdq) Hf]. split; [done|]. exists l. split; [done|].
      split; [done|by apply Hf].
    + intros l ((Hlen & Hnd & Hq) & HPl).
      eapply wp_mono; [apply (selection_ok l _ held h []); try done|].
      { by eapply Forall_impl. }
      intros r s' (Hs' & l' & held' & h' & -> & Hacc' & Hsel). simpl.
      split; [apply Hs'|]. split; [done|].
      destruct Hs' as (_ & _ & Ec & Ep). fold m in Hsel.
      destruct l as [|j [|]]; [| |simpl in Hlen; lia].
      * inversion Hsel; subst. left. done.
      * apply Forall_cons in HPl as [HPj _]. apply Forall_cons in Hq as [(Hqj & _) _].
        inversion Hsel as [|? ? ? ? ? ? ? ? Hrest|? ? ? ? ? ? ? Hd Hs Hr Hrest]; subst;
          inversion Hrest; subst; [by left|right].
        exists j. split; [done|]. split; [|done]. split; [by rewrite Ec, Ep|].
        by apply HP.
  - destruct (accounts_absent _ _ _ E Hacc) as (Ec & Ep & Et).
    apply wp_zoom, (wp_on_backend_read _ _ (λ l, dequeued m 1 None (_queue_name cfg) l ∧ Forall P l)).
    + eapply wp_mono; [eapply wp_conj; [by apply dequeue_status_ok|exact Hoff]|].
      intros r b' [(-> & l & -> & Hdq) Hf]. split; [done|]. exists l. split; [done|].
      split; [done|by apply Hf].
    + intros l ((Hlen & Hnd & Hq) & HPl). simpl. split; [done|]. split; [done|].
      destruct l as [|j [|]]; [by left| |simpl in Hlen; lia].
      apply Forall_cons in HPl as [HPj _]. apply Forall_cons in Hq as [(Hqj & _) _].
      right. exists j. split; [done|]. unfold holding. rewrite Ec, Ep, Et. split; [|done].
      split; [done|by apply HP].
Qed.
End selecting.

(** ** Theorems *)



(** Losing the claim. When another worker took the job between the
    selection and the claim, or it was cancelled, [run_once] answers [False],
    changes no status, runs no handler and gives back the slots it acquired at
    the selection. *)
Theorem run_selected_claim_lost {B} `{BackendContract B} (cfg : WorkerConfig B) w j held h :
  backend_wf (sys_backend (w_system w)) → holding (w_system w) j held h →
  statuses (sys_backend (w_system w)) !! job_id j ≠ Some QUEUED →
  wp (Worker.run_selected cfg j) w (λ r w', r = Ok false ∧ accounts (w_system w') held h ∧
    statuses (sys_backend (w_system w')) = statuses (sys_backend (w_system w)) ∧
    w_audit w' = w_audit w).
Proof.
  intros Hwf Hold Hq. unfold Worker.run_selected. apply claim_step; [done|].
  intros b' Hb'. rewrite decide_False, bool_decide_eq_false_2 by done. intros Hst. simpl. wp_steps.
  eapply wp_mono; [by apply (release_slots_ok _ j held h)|].
  intros r w' (-> & ? & Eb & Ea & _). wp_steps. by rewrite Eb, Ea.
Qed.

(** A job whose type has no handler is lost. [run_once] claims the job
    before it looks the handler up, and the look-up is outside the [try] block:
    the [KeyError] leaves the job [running] with nobody to run it, and the slots
    it acquired at the selection are not given back. *)
Theorem unregistered_type_leaks {B} `{BackendContract B} (cfg : WorkerConfig B) w j held h :
  backend_wf (sys_backend (w_system w)) → holding (w_system w) j held h →
  statuses (sys_backend (w_system w)) !! job_id j = Some QUEUED →
  Dict.get (job_type j) (_handlers w) = None →
  wp (Worker.run_selected cfg j) w (λ r w',
    r = Err (KeyError ("Unknown job_type: " +:+ job_type j)) ∧ holding (w_system w') j held h ∧
    statuses (sys_backend (w_system w')) =
      <[job_id j := RUNNING]> (statuses (sys_backend (w_system w)))).
Proof.
  intros Hwf Hold Hq Hno. eapply wp_mono; [by apply (run_selected_unregistered cfg w j held h)|].
  by intros r w' [_ ?].
Qed.

(** A job that overruns its timeout is recorded as [failed], not as
    [timeout]: the status [timeout] that the inner handler writes is overwritten
    when the same exception reaches the outer one. *)
Theorem timeout_ends_failed {B} `{BackendContract B} (cfg : WorkerConfig B) w j held h hd t late :
  _run_timeout_seconds cfg = Some t → _fallback_policies cfg = None →
  backend_wf (sys_backend (w_system w)) → holding (w_system w) j held h →
  Dict.get (job_type j) (_handlers w) = Some hd → behaves hd j (Late late) →
  statuses (sys_backend (w_system w)) !! job_id j = Some QUEUED →
  wp (Worker.run_selected cfg j) w (λ r w',
    r = Err (timeout_error t) ∧ accounts (w_system w') held h ∧
    statuses (sys_backend (w_system w')) !! job_id j = Some FAILED).
Proof.
  intros Ht Hf Hwf Hold Hreg Hb Hq.
  eapply wp_mono.
  { apply (run_selected_at cfg w j held h hd (Late late) (λ _, Ok tt)); try done.
    unfold fallback_answers. by rewrite Hf. }
  simpl. intros r w' (_ & Hacc & Hout). rewrite decide_True in Hout by done.
  unfold outcome, call_result, failure_outcome in Hout. rewrite Ht, Hf in Hout. simpl in Hout.
  destruct Hout as [-> ->]. split_and!; [done..|]. by rewrite lookup_insert_eq.
Qed.

(** The identity check comes first. *)
Lemma authorise_refused {B} `{QueueBackend B} (cfg : WorkerConfig B) w auth :
  _identity_authoriser cfg = Some auth → auth (_host_id cfg) (_worker_id cfg) = false →
  wp (Worker.run_once cfg) w (λ r w', w' = w ∧
    r = Err (PermissionError ("Worker identity not authorised: " +:+ _host_id cfg +:+ ":"
                              +:+ _worker_id cfg))).
Proof.
  intros Ha Hno. unfold Worker.run_once, Worker.authorise. rewrite Ha, Hno. by wp_steps.
Qed.

(** The number of loops of [run_forever]: up to the first stop request, or until
    [max_loops], but at least one. *)
Fixpoint loops_run (stops : nat → bool) (n : nat) (k : nat) : nat :=
  match n with
  | O => k
  | S n => if stops k then k else loops_run stops n (S k)
  end.

Lemma loop_ok {B} `{BackendContract B} (cfg : WorkerConfig B) stops max (I : Worker B → Prop) fuel k w :
  (∀ w, I w → wp (Worker.run_once cfg) w (λ r w', I w' ∧ ∃ b, r = Ok b)) → I w →
  (0 < fuel)%nat → Z.of_nat (fuel + k) = Z.max 1 max →
  wp (Worker.loop cfg stops (Some max) fuel k) w (λ r w', I w' ∧ r = Ok (loops_run stops fuel k)).
Proof.
  intros Hrun. revert k w. induction fuel as [|fuel IH]; intros k w HI Hpos Hfuel; [lia|].
  simpl. destruct (stops k); [by wp_steps|].
  wp_steps. eapply wp_mono; [by apply Hrun|]. intros r w1 (HI1 & b & ->).
  destruct (Z.leb_spec max (Z.of_nat (S k))).
  - assert (fuel = 0) as -> by lia. by wp_steps.
  - destruct fuel as [|fuel]; [lia|]. apply IH; [done|lia|lia].
Qed.

(** [run_forever] with a bound terminates. When no job makes [run_once]
    raise, it runs until the first stop request or for [max_loops] loops, and
    at least one loop when [max_loops] is not positive. *)
Theorem run_forever_loops {B} `{BackendContract B} (cfg : WorkerConfig B) stops max_loops
    (I : Worker B → Prop) w :
  (∀ w, I w → wp (Worker.run_once cfg) w (λ r w', I w' ∧ ∃ b, r = Ok b)) → I w →
  wp (Worker.run_forever cfg stops max_loops) w (λ r w', I w' ∧
    r = Ok (loops_run stops (Z.to_nat (Z.max 1 max_loops)) 0)).
Proof. intros Hrun HI. apply loop_ok; [done|done|lia|lia]. Qed.

(** ** Concrete runs *)

Definition sample_config (timeout : option string) : WorkerConfig Memory :=
  mkConfig "localhost" "worker-1" None timeout None None.

Definition sample_worker (jobs : list Job) (hd : JobHandler Memory) : Worker Memory :=
  mkWorker (sample_system jobs) [("t", hd)] (mkAudit []) (mkMetrics ∅).

Definition raising_handler : JobHandler Memory := λ _, raise (ValueError "boom").
Definition slow_handler : JobHandler Memory := λ _, mret (Running (mret tt)).

Lemma sample_system_wf jobs : backend_wf (sys_backend (sample_system jobs)).
Proof. apply memory_of_wf. Qed.

Lemma raising_tame : tame_handler raising_handler.
Proof. intros ctx s. apply wp_raise. split; [reflexivity | by intros rest [=]]. Qed.

Lemma raising_behaves j : behaves raising_handler j (Raises (ValueError "boom")).
Proof. intros s Hs. apply wp_raise. split; [split; [reflexivity|done]|done]. Qed.

Lemma slow_behaves j : behaves slow_handler j (Late (Ok tt)).
Proof.
  intros s Hs. apply wp_ret. split; [split; [reflexivity|done]|]. exists (mret tt). split; [done|].
  intros s' Hs'. apply wp_ret. split; [split; [reflexivity|done]|done].
Qed.

(** The only job on offer. *)
Lemma sample_offers (P : Job → Prop) :
  P (gpu_job "a" 1) → offers P (memory_of [gpu_job "a" 1]) 1 None.
Proof. intros HP. apply memory_dequeue_run. intros l [= <-]. by repeat constructor. Qed.

(** The worker after it selected that job. *)
Definition selected_worker (hd : JobHandler Memory) : Worker Memory :=
  after (Worker.select (sample_config None)) (sample_worker [gpu_job "a" 1] hd).

Lemma selected_holding hd :
  let w := selected_worker hd in
  backend_wf (sys_backend (w_system w)) ∧ holding (w_system w) (gpu_job "a" 1) [] ∅.
Proof.
  intros w.
  destruct (wp_after _ _ _ (select_ok (sample_config None) (sample_worker [gpu_job "a" 1] hd) [] ∅
    (λ j, j = gpu_job "a" 1 ∧ may_ask ∅ j) (sample_system_wf _) (sample_system_accounts _)
    ltac:(done) ltac:(by intros j [_ ?]) ltac:(apply sample_offers; split; [done|apply gpu_may_ask])))
    as (Eb & _ & [[Hr _] | (j & _ & Hold & [-> _] & _)]).
  - exfalso. revert Hr. by vm_compute.
  - split; [|exact Hold]. unfold w, selected_worker. rewrite Eb. apply sample_system_wf.
Qed.



(** Another worker has claimed the job in the meantime. *)
Definition claimed_elsewhere (hd : JobHandler Memory) : Worker Memory :=
  after (Worker.on_system (on_backend (claim "a" "other" "worker-2"))) (selected_worker hd).

Lemma claimed_elsewhere_ok hd :
  let w := claimed_elsewhere hd in
  backend_wf (sys_backend (w_system w)) ∧ holding (w_system w) (gpu_job "a" 1) [] ∅.
Proof.
  destruct (selected_holding hd) as [Hwf Hold]. intros w.
  assert (Hw : wp (Worker.on_system (on_backend (claim "a" "other" "worker-2"))) (selected_worker hd)
    (λ _ w', backend_wf (sys_backend (w_system w')) ∧ holding (w_system w') (gpu_job "a" 1) [] ∅)).
  { do 2 apply wp_zoom. eapply wp_mono; [by apply claim_ok|]. by intros r b' (? & _). }
  apply (wp_after _ _ _ Hw).
Qed.

Lemma run_selected_claim_lost_witness :
  let w := claimed_elsewhere raising_handler in
  let cfg := sample_config None in
  wp (Worker.run_selected cfg (gpu_job "a" 1)) w (λ r w', r = Ok false ∧ accounts (w_system w') [] ∅ ∧
    statuses (sys_backend (w_system w')) = statuses (sys_backend (w_system w)) ∧
    w_audit w' = w_audit w).
Proof.
  intros w cfg. destruct (claimed_elsewhere_ok raising_handler) as [Hwf Hold].
  apply (run_selected_claim_lost cfg w (gpu_job "a" 1) [] ∅ Hwf Hold).
  vm_compute. discriminate.
Defined.

Lemma unregistered_type_leaks_witness :
  let w := selected_worker raising_handler <| _handlers := [] |> in
  let cfg := sample_config None in
  wp (Worker.run_selected cfg (gpu_job "a" 1)) w (λ r w',
    r = Err (KeyError "Unknown job_type: t") ∧ holding (w_system w') (gpu_job "a" 1) [] ∅ ∧
    statuses (sys_backend (w_system w')) =
      <["a" := RUNNING]> (statuses (sys_backend (w_system w)))).
Proof.
  intros w cfg. destruct (selected_holding raising_handler) as [Hwf Hold].
  apply (unregistered_type_leaks cfg w (gpu_job "a" 1) [] ∅ Hwf Hold).
  - vm_compute. reflexivity.
  - reflexivity.
Defined.

Lemma timeout_ends_failed_witness :
  let w := selected_worker slow_handler in
  let cfg := sample_config (Some "0.5") in
  wp (Worker.run_selected cfg (gpu_job "a" 1)) w (λ r w',
    r = Err (TimeoutError "Job timed out after 0.5s") ∧ accounts (w_system w') [] ∅ ∧
    statuses (sys_backend (w_system w')) !! "a" = Some FAILED).
Proof.
  intros w cfg. destruct (selected_holding slow_handler) as [Hwf Hold].
  apply (timeout_ends_failed cfg w (gpu_job "a" 1) [] ∅ slow_handler "0.5" (Ok tt)).
  - reflexivity.
  - reflexivity.
  - exact Hwf.
  - exact Hold.
  - vm_compute. reflexivity.
  - apply slow_behaves.
  - vm_compute. reflexivity.
Defined.

(** An empty queue: every loop finds nothing. *)
Definition idle (w : Worker Memory) : Prop := w_system w = mkSystem (mkMemory []) None None None.

Lemma idle_run w : idle w →
  wp (Worker.run_once (sample_config None)) w (λ r w', idle w' ∧ ∃ b, r = Ok b).
Proof.
  destruct w as [sys hs a m]. unfold idle. simpl. intros ->.
  unfold Worker.run_once, Worker.authorise, Worker.select, Worker.on_system, on_backend. wp_steps.
  simpl. wp_steps. simpl. apply wp_zoom, wp_zoom. simpl. apply memory_dequeue_run. simpl. wp_steps.
  split; [done|eauto].
Qed.

Lemma run_forever_loops_witness :
  let w := mkWorker (mkSystem (mkMemory []) None None None) [] (mkAudit []) (mkMetrics ∅) in
  wp (Worker.run_forever (sample_config None) (λ i, 3 <=? i)%nat 10) w (λ r w', idle w' ∧ r = Ok 3).
Proof.
  intros w. apply (run_forever_loops (sample_config None) (λ i, 3 <=? i)%nat 10 idle w).
  - exact idle_run.
  - reflexivity.
Defined.
