(* ===== verification/Admin.v ===== *)
(** * Administration

    [admin/service.py], [admin/bulk.py]: the control operations over the
    backend, each behind its permission. The permission checker is supplied by
    the caller. Jobs listed by [all_jobs] have distinct identifiers, so the
    status a loop reads from a job is not changed by its earlier iterations. *)

From S2P Require Import Prelude PyValue Domain Backend MemoryBackend Observability.

(** [AdminService]: the backend and the audit sink. *)
Record AdminService (B : Type) : Type := mkAdmin {
  adm_backend : B;
  adm_audit : AuditEmitter;
}.
Arguments mkAdmin {B}.
Arguments adm_backend {B}.
Arguments adm_audit {B}.

#[export] Instance AdminService_eta B : Eta (AdminService B) := λ a,
  mkAdmin (adm_backend a) (adm_audit a).

(** [if status and job.status.value != status: continue]: an absent or empty
    filter accepts everything. *)
Definition accepts (f : option string) (v : string) : bool :=
  match f with Some s => bool_decide (s = "") || bool_decide (v = s) | None => true end.

(** [age.total_seconds() > seconds] *)
Definition older_than (age seconds : Z) : bool := (seconds * 1000000 <? age)%Z.

Section checker.
Context (permission_checker : option (string → bool)).

Definition _require {S} (permission : string) : M S unit :=
  match permission_checker with
  | None => mret tt
  | Some check =>
    if negb (check permission)
    then raise (PermissionError ("Missing required permission: " +:+ permission)) else mret tt
  end.
End checker.

(** ** [BulkAdminOperations] *)
Module Bulk.
Section bulk.
Context {B : Type} `{QueueBackend B} (checker : option (string → bool)).

Definition filter_jobs (status' queue_name' job_type' : option string) : M B (list Job) :=
  jobs ← all_jobs;
  mret (foldl (λ out j,
    if negb (accepts status' (value (status j))) then out
    else if negb (accepts queue_name' (queue_name j)) then out
    else if negb (accepts job_type' (job_type j)) then out
    else out ++ [j]) [] jobs).

(** One target of [apply]; the test of the action comes last, so that an
    unsupported action raises at the first target. *)
Definition apply_to (action : string) (job_ids : option (gset string)) (count : Z) (j : Job) : M B Z :=
  if match job_ids with Some ids => bool_decide (job_id j ∉ ids) | None => false end then mret count
  else if bool_decide (action = "cancel") then
    ok ← update_status (job_id j) (value CANCELLED);
    mret (if (ok : bool) then (count + 1)%Z else count)
  else if bool_decide (action = "retry") then
    ok ← update_status (job_id j) (value QUEUED);
    mret (if (ok : bool) then (count + 1)%Z else count)
  else if bool_decide (action = "fail") then
    ok ← update_status (job_id j) (value FAILED);
    mret (if (ok : bool) then (count + 1)%Z else count)
  else raise (ValueError ("Unsupported bulk action: " +:+ action)).

Definition apply (action : string) (status' queue_name' job_type' : option string)
    (job_ids : option (gset string)) : M B Z :=
  _require checker "jobs.bulk";;
  targets ← filter_jobs status' queue_name' job_type';
  foldM (apply_to action job_ids) 0%Z targets.
End bulk.
End Bulk.

(** ** [AdminService] *)
Module Admin.
Section admin.
Context {B : Type} `{QueueBackend B} (checker : option (string → bool)).

Definition on_backend {A} : M B A → M (AdminService B) A :=
  zoom adm_backend (λ b a, a <| adm_backend := b |>).
Definition audit (action outcome : string) : M (AdminService B) unit :=
  zoom adm_audit (λ t a, a <| adm_audit := t |>) (_ ← emit action outcome; mret tt).

Definition submit_job (request : JobRequest) : M (AdminService B) string :=
  _require checker "jobs.submit";;
  j ← from_request request;
  on_backend (enqueue j).

Definition get_job (job_id : string) : M (AdminService B) (option Job) := on_backend (get job_id).

Definition list_jobs (limit : Z) : M (AdminService B) (list Job) := on_backend (dequeue limit None None).

Definition update_job (job_id : string) (priority' : option Z) : M (AdminService B) bool :=
  _require checker "jobs.update";;
  j ← on_backend (get job_id);
  match j with
  | None => mret false
  | Some j =>
    match priority' with
    | Some p =>
      on_backend (assign j (λ j, j <| priority := p |>));;
      _ ← on_backend (release job_id);
      mret tt
    | None => mret tt
    end;;
    mret true
  end.

Definition delete_job (job_id : string) : M (AdminService B) bool :=
  _require checker "jobs.delete";;
  on_backend (update_status job_id (value CANCELLED)).

(** [self._audit.emit(action, "success" if ok else "failure")] *)
Definition audit_ok (action : string) (ok : bool) : M (AdminService B) unit :=
  audit action (if ok then "success" else "failure").

Definition cancel_job (job_id : string) : M (AdminService B) bool :=
  _require checker "jobs.cancel";;
  ok ← on_backend (update_status job_id (value CANCELLED));
  audit_ok "job.cancel" ok;;
  mret ok.

Definition reschedule_job (job_id : string) (_next_run_at : Z) : M (AdminService B) bool :=
  _require checker "jobs.reschedule";;
  on_backend (update_status job_id (value QUEUED)).

Definition retry_now (job_id : string) : M (AdminService B) bool :=
  _require checker "jobs.retry";;
  ok ← on_backend (update_status job_id (value QUEUED));
  audit_ok "job.resubmit" ok;;
  mret ok.

(** The request [resubmit_job] and [reassign_queue] build from a job. *)
Definition clone_request (j : Job) (queue : string) : JobRequest :=
  new_request (job_type j)
    <| req_queue_name := queue |>
    <| req_payload := payload j |>
    <| req_priority := priority j |>
    <| req_correlation_id := correlation_id j |>
    <| req_app_id := app_id j |>
    <| req_tenant_id := tenant_id j |>
    <| req_user_id := user_id j |>
    <| req_session_id := session_id j |>
    <| req_channel_id := channel_id j |>.

Definition resubmit_job (job_id : string) : M (AdminService B) (option string) :=
  _require checker "jobs.resubmit";;
  j ← on_backend (get job_id);
  match j with
  | None => mret None
  | Some j =>
    clone ← from_request (clone_request j (queue_name j));
    id ← on_backend (enqueue clone);
    mret (Some id)
  end.

Definition clear_old_step (now max_age count : Z) (j : Job) : M B Z :=
  age ← elapsed now (updated_at j) (naive_times j);
  if older_than age max_age
     && negb (bool_decide (value (status j) ∈ ["succeeded"; "failed"; "cancelled"])) then
    ok ← update_status (job_id j) (value CANCELLED);
    mret (if (ok : bool) then (count + 1)%Z else count)
  else mret count.

(** [_policy] is [None] or maps option names to numbers. *)
Definition clear_old_jobs (_policy : option (dict Z)) : M (AdminService B) Z :=
  _require checker "jobs.purge";;
  let policy := match _policy with Some (_ :: _ as p) => p | _ => [("max_age_seconds", 86400%Z)] end in
  let max_age := Dict.get_default "max_age_seconds" 86400%Z policy in
  now ← utcnow;
  count ← on_backend (jobs ← all_jobs; foldM (clear_old_step now max_age) 0%Z jobs);
  (if bool_decide (count = 0%Z) then mret tt else audit "job.admin.purge" "success");;
  mret count.

Definition clear_stuck_step (action : string) (now timeout count : Z) (j : Job) : M B Z :=
  if negb (bool_decide (value (status j) = value RUNNING)) then mret count
  else
    age ← elapsed now (updated_at j) (naive_times j);
    if negb (older_than age timeout) then mret count
    else
    let target := if bool_decide (action = "cancel") then value CANCELLED else value FAILED in
    ok ← update_status (job_id j) target;
    mret (if (ok : bool) then (count + 1)%Z else count).

Definition clear_stuck_jobs (_filter : option (dict Z)) (_action : string) : M (AdminService B) Z :=
  _require checker "jobs.stuck_recovery";;
  let options := match _filter with Some (_ :: _ as p) => p | _ => [("claim_timeout_seconds", 60%Z)] end in
  let timeout := Dict.get_default "claim_timeout_seconds" 60%Z options in
  now ← utcnow;
  count ← on_backend (jobs ← all_jobs; foldM (clear_stuck_step _action now timeout) 0%Z jobs);
  (if bool_decide (count = 0%Z) then mret tt else audit "job.admin.stuck_recovery" "success");;
  mret count.

Definition reassign_queue (job_id queue : string) : M (AdminService B) bool :=
  _require checker "jobs.reassign";;
  j ← on_backend (get job_id);
  match j with
  | None => mret false
  | Some j =>
    clone ← from_request (clone_request j queue);
    id ← on_backend (enqueue clone);
    mret (truthy_str id)
  end.

Definition bulk_update (job_ids : list string) (action : string) : M (AdminService B) Z :=
  _require checker "jobs.bulk";;
  on_backend (Bulk.apply checker action None None None (Some (list_to_set job_ids))).

Definition queue_status : M (AdminService B) (dict Z) := on_backend get_queue_status.
End admin.
End Admin.

(** ** Specifications *)

(** The status a bulk action gives. *)
Definition bulk_target (action : string) : option JobStatus :=
  if bool_decide (action = "cancel") then Some CANCELLED
  else if bool_decide (action = "retry") then Some QUEUED
  else if bool_decide (action = "fail") then Some FAILED
  else None.

(** The jobs it applies to. *)
Definition bulk_selects (status' queue_name' job_type' : option string)
    (job_ids : option (gset string)) (j : Job) : Prop :=
  accepts status' (value (status j)) = true ∧ accepts queue_name' (queue_name j) = true ∧
  accepts job_type' (job_type j) = true ∧
  match job_ids with Some ids => job_id j ∈ ids | None => True end.

#[export] Instance bulk_selects_dec s q t ids j : Decision (bulk_selects s q t ids j).
Proof. unfold bulk_selects. destruct ids; apply _. Defined.

(** Exactly the jobs of [l] that satisfy [P] have status [s] in [m'], the others
    are as in [m]. *)
Definition marked (P : Job → Prop) (s : JobStatus) (l : list Job) (m m' : queue_spec) : Prop :=
  (∀ j, j ∈ l → P j → m' !! job_id j = Some s) ∧
  (∀ id, (∀ j, j ∈ l → job_id j = id → ¬ P j) → m' !! id = m !! id).

Definition matching (P : Job → Prop) `{∀ j, Decision (P j)} (s : JobStatus) (j : Job) : option JobStatus :=
  if decide (P j) then Some s else None.

Lemma swept_marked (P : Job → Prop) `{∀ j, Decision (P j)} s l m m' :
  swept (matching P s) l m m' ↔ marked P s l m m'.
Proof.
  unfold swept, marked, matching. split; intros [Hin Hout]; split.
  - intros j Hj HP. apply (Hin j s Hj). by rewrite decide_True.
  - intros id Hid. apply Hout. intros j Hj E. rewrite decide_False; [done|eauto].
  - intros j s' Hj. case_decide; [intros [= <-]; eauto|done].
  - intros id Hid. apply Hout. intros j Hj E HP. specialize (Hid j Hj E).
    by rewrite decide_True in Hid.
Qed.

Lemma picked_matching (P : Job → Prop) `{∀ j, Decision (P j)} s l :
  picked (matching P s) l = filter P l.
Proof.
  unfold picked, matching. apply list_filter_iff. intros j. case_decide; [naive_solver|].
  split; [by intros []|done].
Qed.

Lemma foldl_count {T} (l : list T) n : foldl (λ c _, (c + 1)%Z) n l = (n + Z.of_nat (length l))%Z.
Proof. revert n. induction l as [|x l IH]; intros n; simpl; [lia|]. rewrite IH. lia. Qed.

Section admin_lemmas.
Context {B : Type} `{BackendContract B}.

Lemma filter_jobs_fold (s q t : option string) jobs out :
  foldl (λ out j,
    if negb (accepts s (value (status j))) then out
    else if negb (accepts q (queue_name j)) then out
    else if negb (accepts t (job_type j)) then out
    else out ++ [j]) out jobs = out ++ filter (bulk_selects s q t None) jobs.
Proof.
  revert out. induction jobs as [|j jobs IH]; intros out; simpl; [by rewrite app_nil_r|].
  rewrite IH, filter_cons. case_decide as Hsel.
  - destruct Hsel as (-> & -> & -> & _). simpl. by rewrite <- app_assoc.
  - unfold bulk_selects in Hsel. repeat (case_match; [done|]).
    destruct Hsel. split_and!; [by apply negb_false_iff..|done].
Qed.

(** A sweep with one target status, counted. *)
Lemma wp_mark (P : Job → Prop) `{∀ j, Decision (P j)} s (f : Z → Job → M B Z) b l :
  (∀ n j, f n j = sweep_step (matching P s) (λ c _, (c + 1)%Z) n j) →
  backend_wf b → lists_some (statuses b) l →
  wp (foldM f 0%Z l) b (λ r b', backend_wf b' ∧ r = Ok (Z.of_nat (length (filter P l))) ∧
    marked P s l (statuses b) (statuses b')).
Proof.
  intros Hf Hwf Hl. eapply wp_mono; [by eapply wp_sweep|].
  intros r b' (? & -> & Hsw). rewrite picked_matching, foldl_count in *. by rewrite <- swept_marked.
Qed.
End admin_lemmas.

Definition permits (checker : option (string → bool)) (p : string) : bool :=
  match checker with Some check => check p | None => true end.

Lemma wp_require {S A} checker p (k : M S A) s Q :
  (if permits checker p then wp k s Q
   else Q (Err (PermissionError ("Missing required permission: " +:+ p))) s) →
  wp (_require checker p;; k) s Q.
Proof.
  intros HQ. unfold _require, permits in *. apply wp_bind.
  destruct checker as [check|]; [|by wp_step]. destruct (check p); simpl; by wp_step.
Qed.

Lemma runs_require {S A} e checker p (k : M S A) s (Q : result A → S → env → Prop) :
  (if permits checker p then runs e k s Q
   else Q (Err (PermissionError ("Missing required permission: " +:+ p))) s e) →
  runs e (_require checker p;; k) s Q.
Proof.
  unfold permits, _require, runs, mbind, M_bind. destruct checker as [check|]; [|done]. by destruct (check p).
Qed.

Section bulk_lemmas.
Context {B : Type} `{BackendContract B}.

(** Restricting the targets to the listed identifiers. *)
Definition listed (ids : option (gset string)) (j : Job) : Prop :=
  match ids with Some ids => job_id j ∈ ids | None => True end.
#[export] Instance listed_dec ids j : Decision (listed ids j).
Proof. unfold listed. destruct ids; apply _. Defined.

Lemma bulk_selects_listed s q t ids j :
  bulk_selects s q t ids j ↔ listed ids j ∧ bulk_selects s q t None j.
Proof. unfold bulk_selects, listed. tauto. Qed.

Lemma apply_to_sweep action ids target n j :
  bulk_target action = Some target →
  Bulk.apply_to action ids n j = sweep_step (matching (listed ids) target) (λ c _, (c + 1)%Z) n j.
Proof.
  intros Ht. unfold Bulk.apply_to, sweep_step, matching, listed, bulk_target in *.
  assert (Hid : (match ids with Some ids => bool_decide (job_id j ∉ ids) | None => false end) =
    negb (bool_decide (match ids with Some ids => job_id j ∈ ids | None => True end))).
  { destruct ids as [ids|]; [|done]. rewrite bool_decide_not. done. }
  rewrite Hid. case_bool_decide; simpl; [rewrite decide_True by done|by rewrite decide_False].
  repeat case_bool_decide; by simplify_eq.
Qed.

Lemma apply_to_unsupported action ids l n b :
  bulk_target action = None →
  wp (foldM (Bulk.apply_to action ids) n l) b (λ r b', b' = b ∧
    r = if decide (filter (listed ids) l = []) then Ok n
        else Err (ValueError ("Unsupported bulk action: " +:+ action))).
Proof.
  intros Ht. assert (Hstep : ∀ j, Bulk.apply_to action ids n j =
    if decide (listed ids j) then raise (ValueError ("Unsupported bulk action: " +:+ action))
    else mret n).
  { intros j. unfold Bulk.apply_to, bulk_target, listed in *. repeat (case_bool_decide; [done|]).
    destruct ids as [ids|]; [|done]. destruct (decide (job_id j ∈ ids)) as [Hi|Hi].
    - by rewrite bool_decide_eq_false_2 by tauto.
    - by rewrite bool_decide_eq_true_2. }
  induction l as [|j l IH]; [by wp_steps|]. simpl foldM. wp_steps. rewrite Hstep, filter_cons.
  destruct (decide (listed ids j)); wp_steps; [by rewrite decide_False|].
  exact IH.
Qed.

Lemma filter_jobs_run s q t b (Q : result (list Job) → B → Prop) :
  backend_wf b →
  (∀ l, lists_all (contents b) l → Q (Ok (filter (bulk_selects s q t None) l)) b) →
  wp (Bulk.filter_jobs s q t) b Q.
Proof.
  intros Hwf HQ. unfold Bulk.filter_jobs. wp_steps. eapply wp_mono; [by apply all_jobs_ok|].
  intros r b' (-> & l & -> & Hl). wp_steps. rewrite filter_jobs_fold. by apply HQ.
Qed.

Lemma filter_listed s q t ids (l : list Job) :
  filter (listed ids) (filter (bulk_selects s q t None) l) = filter (bulk_selects s q t ids) l.
Proof. rewrite list_filter_filter. apply list_filter_iff. intros j. by rewrite (bulk_selects_listed s q t ids). Qed.
End bulk_lemmas.

(** C40: bulk operations are exact. With the permission, [apply] gives exactly the
    stored jobs that pass every given filter on status, queue and type, and are
    listed when a list is given, the status of the action, leaves the others as
    they are, and answers how many it selected; an action that is
    not supported raises [ValueError] and changes nothing, unless no job is
    selected at all. Without the permission it raises [PermissionError] and
    changes nothing. *)
Theorem bulk_apply_exact {B} `{BackendContract B} checker action s q t ids b :
  backend_wf b →
  wp (Bulk.apply checker action s q t ids) b (λ r b',
    if permits checker "jobs.bulk" then
      let selected := filter (bulk_selects s q t ids) (jobs_in (contents b)) in
      match bulk_target action with
      | Some target => backend_wf b' ∧ r = Ok (Z.of_nat (length selected)) ∧
          statuses b' =
            (λ j, if decide (bulk_selects s q t ids j) then target else status j) <$> contents b
      | None => b' = b ∧
          r = if decide (selected = []) then Ok 0%Z
              else Err (ValueError ("Unsupported bulk action: " +:+ action))
      end
    else b' = b ∧ r = Err (PermissionError "Missing required permission: jobs.bulk")).
Proof.
  intros Hwf. unfold Bulk.apply. apply wp_require. destruct (permits checker "jobs.bulk"); [|done].
  apply wp_bind, filter_jobs_run; [done|]. intros l Hl.
  pose proof (lists_some_filter (bulk_selects s q t None) _ _ (lists_all_some b l Hwf Hl)) as Hsome.
  assert (Hsel : filter (bulk_selects s q t ids) l ≡ₚ filter (bulk_selects s q t ids) (jobs_in (contents b)))
    by by rewrite Hl.
  destruct (bulk_target action) as [target|] eqn:Ht.
  - eapply wp_mono; [apply (wp_mark (listed ids) target); [|done|exact Hsome]|].
    + intros n j. by apply apply_to_sweep.
    + intros r b' (? & -> & Hin & Hout). split; [done|]. rewrite filter_listed, Hsel. split; [done|].
      rewrite (swept_contents (matching (bulk_selects s q t ids) target) b l (statuses b')); [|done..|].
      * apply map_fmap_ext. intros id j _. unfold matching. by repeat case_decide.
      * apply swept_marked. split.
        -- intros j Hj [? ?]%bulk_selects_listed. apply Hin; [|done]. by apply list_elem_of_filter.
        -- intros id Hid. apply Hout. intros j [? Hj]%list_elem_of_filter E ?.
           apply (Hid j Hj E). by apply bulk_selects_listed.
  - eapply wp_mono; [by apply apply_to_unsupported|]. intros r b' [-> ->]. split; [done|].
    rewrite filter_listed. apply decide_ext. split; intros E; rewrite E in Hsel; [symmetry in Hsel|];
      by apply Permutation_nil_r in Hsel.
Qed.

(** Only the job of queue "q1" is cancelled. *)
Lemma bulk_apply_exact_witness :
  let b := memory_of [sample_job "a" 0 1; sample_job "b" 0 2 <| queue_name := "q1" |>] in
  wp (Bulk.apply (Some (λ p, bool_decide (p = "jobs.bulk"))) "cancel" None (Some "q1") None None) b (λ r b',
    backend_wf b' ∧
    r = Ok (Z.of_nat (length (filter (bulk_selects None (Some "q1") None None) (jobs_in (contents b))))) ∧
    statuses b' = (λ j, if decide (bulk_selects None (Some "q1") None None j) then CANCELLED else status j)
      <$> contents b) ∧
  (λ j, if decide (bulk_selects None (Some "q1") None None j) then CANCELLED else status j) <$> contents b =
    ({["a" := QUEUED; "b" := CANCELLED]} : queue_spec).
Proof.
  intros b. split; [|by vm_compute].
  exact (bulk_apply_exact (Some (λ p, bool_decide (p = "jobs.bulk"))) "cancel" None (Some "q1") None None b
           (memory_of_wf _)).
Defined.

(** Every guarded operation, with the permission it asks for and its answer
    forgotten. *)
Definition guarded {B} `{QueueBackend B} checker (id : string) (r : JobRequest) (p : Z)
    (ids : list string) (act : string) (policy : option (dict Z)) :
    list (string * M (AdminService B) unit) :=
  [("jobs.submit", _ ← Admin.submit_job checker r; mret tt);
   ("jobs.update", _ ← Admin.update_job checker id (Some p); mret tt);
   ("jobs.delete", _ ← Admin.delete_job checker id; mret tt);
   ("jobs.cancel", _ ← Admin.cancel_job checker id; mret tt);
   ("jobs.reschedule", _ ← Admin.reschedule_job checker id p; mret tt);
   ("jobs.retry", _ ← Admin.retry_now checker id; mret tt);
   ("jobs.resubmit", _ ← Admin.resubmit_job checker id; mret tt);
   ("jobs.purge", _ ← Admin.clear_old_jobs checker policy; mret tt);
   ("jobs.stuck_recovery", _ ← Admin.clear_stuck_jobs checker policy act; mret tt);
   ("jobs.reassign", _ ← Admin.reassign_queue checker id act; mret tt);
   ("jobs.bulk", _ ← Admin.bulk_update checker ids act; mret tt)].

(** No control operation gets past its permission. Each of the eleven
    operations of the service that change jobs raises [PermissionError] naming
    its own permission, and changes nothing, when the checker refuses that
    permission; over any backend. *)
Theorem permission_required {B} `{QueueBackend B} checker id r p ids act policy (a : AdminService B) perm op :
  (perm, op) ∈ guarded checker id r p ids act policy → permits checker perm = false →
  wp op a (λ res a', a' = a ∧
    res = Err (PermissionError ("Missing required permission: " +:+ perm))).
Proof.
  intros Hin Hno. unfold guarded in Hin.
  repeat (apply elem_of_cons in Hin as [Hin|Hin];
    [injection Hin as -> ->; apply wp_bind; apply wp_require; by rewrite Hno|]).
  by apply elem_of_nil in Hin.
Qed.

Lemma permission_required_witness :
  let a := mkAdmin (memory_of [sample_job "a" 0 1]) (mkAudit []) in
  wp (_ ← Admin.delete_job (Some (λ _, false)) "a"; mret tt) a (λ res a', a' = a ∧
    res = Err (PermissionError "Missing required permission: jobs.delete")).
Proof.
  intros a.
  apply (permission_required (Some (λ _, false)) "a" (new_request "t") 1 [] "" None a "jobs.delete").
  - unfold guarded. do 2 right. left.
  - reflexivity.
Defined.

(** ** Sweeps of the service *)

Definition unsettled_older (now max_age : Z) (j : Job) : Prop :=
  older_than (now - updated_at j) max_age = true ∧ status j ∉ [SUCCEEDED; FAILED; CANCELLED].
Definition running_older (now timeout : Z) (j : Job) : Prop :=
  older_than (now - updated_at j) timeout = true ∧ status j = RUNNING.

#[export] Instance unsettled_older_dec now n j : Decision (unsettled_older now n j).
Proof. unfold unsettled_older. apply _. Defined.
#[export] Instance running_older_dec now n j : Decision (running_older now n j).
Proof. unfold running_older. apply _. Defined.

(** The loops as sweeps. *)
Lemma settled_values s :
  bool_decide (value s ∈ ["succeeded"; "failed"; "cancelled"]) =
  bool_decide (s ∈ [SUCCEEDED; FAILED; CANCELLED]).
Proof. by destruct s. Qed.

Lemma elapsed_aware {S} now t : (elapsed now t false : M S Z) = mret (now - t)%Z.
Proof. done. Qed.

Lemma clear_old_sweep {B} `{QueueBackend B} now n c j : naive_times j = false →
  Admin.clear_old_step now n c j =
  sweep_step (matching (unsettled_older now n) CANCELLED) (λ c _, (c + 1)%Z) c j.
Proof.
  intros Hj. unfold Admin.clear_old_step, sweep_step, matching.
  rewrite Hj, elapsed_aware, bind_ret, settled_values.
  destruct (decide (unsettled_older now n j)) as [[-> Hs]|Hn].
  - by rewrite bool_decide_eq_false_2.
  - unfold unsettled_older in Hn. destruct (older_than (now - updated_at j) n); simpl; [|done].
    rewrite bool_decide_eq_true_2; [done|]. apply dec_stable. tauto.
Qed.

Lemma clear_stuck_sweep {B} `{QueueBackend B} act now n c j : naive_times j = false →
  Admin.clear_stuck_step act now n c j =
  sweep_step (matching (running_older now n) (if decide (act = "cancel") then CANCELLED else FAILED))
    (λ c _, (c + 1)%Z) c j.
Proof.
  intros Hj. unfold Admin.clear_stuck_step, sweep_step, matching. rewrite Hj, elapsed_aware, bind_ret.
  destruct (decide (running_older now n j)) as [[-> ->]|Hn].
  - rewrite bool_decide_eq_true_2 by done. simpl. case_bool_decide.
    + by rewrite decide_True.
    + by rewrite decide_False.
  - unfold running_older in Hn. destruct (decide (status j = RUNNING)) as [Hr|Hr].
    + rewrite bool_decide_eq_true_2 by congruence. simpl.
      destruct (older_than (now - updated_at j) n); [tauto|done].
    + by rewrite bool_decide_eq_false_2 by (by intros ?%value_inj).
Qed.

Definition number_option (key : string) (n : Z) (o : option (dict Z)) : Z :=
  match o with Some (_ :: _ as p) => Dict.get_default key n p | _ => n end.

Section service_sweeps.
Context {B : Type} `{BackendContract B}.

(** The tail of both sweeps: the loop, then the audit event, then the count. *)
Lemma sweep_and_audit (P : Job → Prop) `{∀ j, Decision (P j)} target f action (a : AdminService B) :
  let c := contents (adm_backend a) in
  (∀ n id j, c !! id = Some j → f n j = sweep_step (matching P target) (λ c _, (c + 1)%Z) n j) →
  backend_wf (adm_backend a) →
  wp (count ← Admin.on_backend (jobs ← all_jobs; foldM f 0%Z jobs);
      (if bool_decide (count = 0%Z) then mret tt else Admin.audit action "success");;
      mret count) a (λ r a', backend_wf (adm_backend a') ∧
        r = Ok (Z.of_nat (length (filter P (jobs_in c)))) ∧
        statuses (adm_backend a') = (λ j, if decide (P j) then target else status j) <$> c).
Proof.
  intros c Hf Hwf. wp_steps. apply wp_zoom. eapply wp_mono; [by eapply wp_sweep_all|].
  intros r b' (Hwf' & l & Hl & -> & Hsw). rewrite picked_matching, foldl_count.
  assert (Hlen : Z.of_nat (length (filter P l)) = Z.of_nat (length (filter P (jobs_in c)))) by (by rewrite Hl).
  assert (Hst : (λ j, default (status j) (matching P target j)) <$> c =
    (λ j, if decide (P j) then target else status j) <$> c).
  { apply map_fmap_ext. intros id j _. unfold matching. by case_decide. }
  unfold Admin.audit. wp_steps. case_bool_decide; wp_steps.
  - rewrite Hlen. split_and!; [done..|]. by rewrite <- Hst.
  - apply wp_emit. intros ev _ _. wp_steps. rewrite Hlen. split_and!; [done..|]. by rewrite <- Hst.
Qed.
End service_sweeps.

(** The recovery sweeps of the service are exact, when the jobs carry time zones.
    With the permission, [clear_stuck_jobs] cancels (or fails, when the action is
    not [cancel]) exactly the running jobs not updated for longer than the
    timeout, 60 seconds by default, at the time it starts, and [clear_old_jobs]
    cancels exactly the jobs not updated for longer than the age, a day by default,
    that are neither succeeded, failed nor cancelled; both answer how many they
    changed and touch no other job. *)
Theorem admin_sweeps_exact {B} `{BackendContract B} checker opts action (a : AdminService B) e :
  let c := contents (adm_backend a) in
  backend_wf (adm_backend a) → map_Forall (λ _ j, naive_times j = false) c →
  permits checker "jobs.stuck_recovery" = true → permits checker "jobs.purge" = true →
  runs e (Admin.clear_stuck_jobs checker opts action) a (λ r a' _,
    let P := running_older (now_at e) (number_option "claim_timeout_seconds" 60 opts) in
    backend_wf (adm_backend a') ∧ r = Ok (Z.of_nat (length (filter P (jobs_in c)))) ∧
    statuses (adm_backend a') =
      (λ j, if decide (P j) then (if decide (action = "cancel") then CANCELLED else FAILED) else status j) <$> c) ∧
  runs e (Admin.clear_old_jobs checker opts) a (λ r a' _,
    let P := unsettled_older (now_at e) (number_option "max_age_seconds" 86400 opts) in
    backend_wf (adm_backend a') ∧ r = Ok (Z.of_nat (length (filter P (jobs_in c)))) ∧
    statuses (adm_backend a') = (λ j, if decide (P j) then CANCELLED else status j) <$> c).
Proof.
  intros c Hwf Haware H1 H2. split; unfold Admin.clear_stuck_jobs, Admin.clear_old_jobs; apply runs_require.
  - rewrite H1. apply runs_now.
    apply (sweep_and_audit (running_older (now_at e) (number_option "claim_timeout_seconds" 60 opts))); [|done].
    intros n id j Hj%Haware. by destruct opts as [[|]|]; apply clear_stuck_sweep.
  - rewrite H2. apply runs_now.
    apply (sweep_and_audit (unsettled_older (now_at e) (number_option "max_age_seconds" 86400 opts))); [|done].
    intros n id j Hj%Haware. by destruct opts as [[|]|]; apply clear_old_sweep.
Qed.

(** Reassigning duplicates. [reassign_queue] stores a queued copy of the job
    in the target queue, but does nothing to the original: a queued job is then
    in both queues and will be run twice. *)
Theorem reassign_queue_duplicates checker id queue j (a : AdminService Memory) :
  memory_wf (adm_backend a) → permits checker "jobs.reassign" = true →
  Dict.get id (_jobs (adm_backend a)) = Some j → status j = QUEUED →
  ∀ e, env_uuid e (env_ids e) ≠ "" → Dict.get (env_uuid e (env_ids e)) (_jobs (adm_backend a)) = None →
  let '(r, a', _) := Admin.reassign_queue checker id queue a e in
  r = Ok true ∧ Dict.get id (_jobs (adm_backend a')) = Some j ∧
  ∃ copy, Dict.get (env_uuid e (env_ids e)) (_jobs (adm_backend a')) = Some copy ∧
    status copy = QUEUED ∧ queue_name copy = queue ∧ job_type copy = job_type j ∧
    payload copy = payload j.
Proof.
  intros Hwf Hp Hj Hq e Hne Hfresh. set (u := env_uuid e (env_ids e)) in *.
  assert (Hrun : ∃ copy e', Admin.reassign_queue checker id queue a e =
    (Ok true, a <| adm_backend := mkMemory (Dict.set u copy (_jobs (adm_backend a))) |>, e') ∧
    status copy = QUEUED ∧ queue_name copy = queue ∧ job_type copy = job_type j ∧
    payload copy = payload j).
  { exists (job_of_request (env_clock e (env_ticks e)) u (Admin.clone_request j queue)). eexists.
    split; [|done]. unfold Admin.reassign_queue, _require.
    assert (Hreq : match checker with Some check => check "jobs.reassign" | None => true end = true)
      by (destruct checker; exact Hp).
    assert (Hu : truthy_str u = true) by (unfold truthy_str; by rewrite bool_decide_eq_false_2).
    destruct checker as [check|]; unfold mbind, M_bind; cbn -[truthy_str]; rewrite ?Hreq;
      cbn -[truthy_str]; rewrite Hj; cbn -[truthy_str];
      unfold from_request, Admin.on_backend, zoom, Memory.enqueue, mbind, M_bind;
      cbn -[truthy_str]; fold u; by rewrite Hu. }
  destruct Hrun as (copy & e' & -> & Hcopy). simpl. split; [done|].
  rewrite Dict.get_set_ne, Dict.get_set_eq by congruence. split; [done|]. by exists copy.
Qed.

(** Changing the priority requeues. On the in-memory backend [update_job]
    with a priority sets it and then releases the job whatever its status: a
    running job goes back to the queue, its claim cleared, while its worker is
    still running it, and a finished one runs again. *)
Theorem update_job_requeues checker id p j (a : AdminService Memory) :
  memory_wf (adm_backend a) → permits checker "jobs.update" = true →
  Dict.get id (_jobs (adm_backend a)) = Some j →
  wp (Admin.update_job checker id (Some p)) a (λ r a', r = Ok true ∧ ∃ j',
    Dict.get id (_jobs (adm_backend a')) = Some j' ∧
    status j' = QUEUED ∧ claimed_by j' = None ∧ priority j' = p).
Proof.
  intros [_ Hid] Hp Hj. apply wp_require. rewrite Hp. wp_step. apply wp_zoom, wp_gets. rewrite Hj.
  unfold Admin.on_backend, assign, release. simpl.
  unfold Memory.assign, Memory.release, Memory.change, Memory.mutate. wp_steps. simpl.
  rewrite (Hid _ _ Hj), Dict.get_update, decide_True, Hj by done. simpl. wp_steps. simpl.
  split; [done|]. rewrite !Dict.get_update, !decide_True, Hj by done. simpl. by eexists.
Qed.

Lemma admin_sweeps_exact_witness :
  let a := mkAdmin (memory_of [sample_job "a" 0 1 <| status := RUNNING |>; sample_job "b" 0 2]) (mkAudit []) in
  let c := contents (adm_backend a) in
  runs env0 (Admin.clear_stuck_jobs None None "cancel") a (λ r a' _,
    let P := running_older (now_at env0) (number_option "claim_timeout_seconds" 60 None) in
    backend_wf (adm_backend a') ∧ r = Ok (Z.of_nat (length (filter P (jobs_in c)))) ∧
    statuses (adm_backend a') =
      (λ j, if decide (P j) then (if decide ("cancel" = "cancel") then CANCELLED else FAILED) else status j) <$> c).
Proof.
  intros a c. refine (proj1 (admin_sweeps_exact None None "cancel" a env0 _ _ eq_refl eq_refl)).
  - apply memory_of_wf.
  - apply (bool_decide_unpack _). by vm_compute.
Defined.

Lemma reassign_queue_duplicates_witness :
  let a := mkAdmin (memory_of [sample_job "a" 0 1]) (mkAudit []) in
  let '(r, a', _) := Admin.reassign_queue None "a" "other" a env0 in
  r = Ok true ∧ Dict.get "a" (_jobs (adm_backend a')) = Some (sample_job "a" 0 1) ∧
  ∃ copy, Dict.get (env_uuid env0 (env_ids env0)) (_jobs (adm_backend a')) = Some copy ∧
    status copy = QUEUED ∧ queue_name copy = "other" ∧ job_type copy = job_type (sample_job "a" 0 1) ∧
    payload copy = payload (sample_job "a" 0 1).
Proof.
  intros a.
  refine (reassign_queue_duplicates None "a" "other" (sample_job "a" 0 1) a (memory_of_wf _)
            eq_refl eq_refl eq_refl env0 _ eq_refl).
  vm_compute. discriminate.
Defined.

Lemma update_job_requeues_witness :
  let j := sample_job "a" 0 1 <| status := RUNNING |> <| claimed_by := Some "h:w" |> in
  let a := mkAdmin (memory_of [j]) (mkAudit []) in
  wp (Admin.update_job None "a" (Some 7%Z)) a (λ r a', r = Ok true ∧ ∃ j',
    Dict.get "a" (_jobs (adm_backend a')) = Some j' ∧
    status j' = QUEUED ∧ claimed_by j' = None ∧ priority j' = 7%Z).
Proof.
  intros j a.
  exact (update_job_requeues None "a" 7%Z j a (memory_of_wf _) eq_refl eq_refl).
Defined.
