(* ===== verification/Maintenance.v ===== *)
(** * Maintenance

    [maintenance/reaper.py], [ttl/expiry.py], [ttl/retention.py],
    [polling/poller.py]: the periodic sweep over all jobs and its age tests.
    [timedelta.total_seconds] is compared exactly in microseconds. *)

From S2P Require Import Prelude PyValue Domain Backend MemoryBackend.

(** ** Age tests; [now] is [None] when the current time is to be read, and [naive]
    says that the other datetime is. *)

Definition is_ttl_expired {S} (created_at : Z) (naive : bool) (ttl_seconds : Z) (now : option Z) : M S bool :=
  current ← match now with Some t => mret t | None => utcnow end;
  age ← elapsed current created_at naive;
  mret (ttl_seconds * 1000000 <? age)%Z.

Definition should_purge {S} (updated_at : Z) (naive : bool) (max_age_seconds : Z) (now : option Z) : M S bool :=
  current ← match now with Some t => mret t | None => utcnow end;
  age ← elapsed current updated_at naive;
  mret (max_age_seconds * 1000000 <? age)%Z.

Record PollPolicy : Type := mkPollPolicy { interval_seconds : Z; max_age_seconds : Z }.
Definition default_poll_policy : PollPolicy := mkPollPolicy 30 3600.
Definition should_continue_polling (age_seconds : Z) (p : PollPolicy) : bool :=
  (age_seconds <=? max_age_seconds p)%Z.

(** ** The reaper *)

(** The summary counts of [run_sweep]. *)
Record summary : Type := mkSummary {
  stuck_recovered : Z;
  ttl_expired : Z;
  retention_purged : Z;
}.

#[export] Instance summary_eta : Eta summary := λ s,
  mkSummary (stuck_recovered s) (ttl_expired s) (retention_purged s).

Module Reaper.
Section reaper.
Context {B : Type} `{QueueBackend B} (claim_timeout_seconds : Z).

(** [status == "running" and now - job.updated_at > claim timeout] *)
Definition is_stuck (now : Z) (j : Job) : M B bool :=
  if bool_decide (value (status j) = value RUNNING) then
    age ← elapsed now (updated_at j) (naive_times j);
    mret (claim_timeout_seconds * 1000000 <? age)%Z
  else mret false.

Definition find_stuck_job_ids : M B (list string) :=
  now ← utcnow;
  jobs ← dequeue 10000 None None;
  foldM (λ stuck j, old ← is_stuck now j; mret (if (old : bool) then stuck ++ [job_id j] else stuck)) [] jobs.

(** One iteration of the sweep. *)
Definition sweep_job (ttl_seconds retention_seconds now : Z) (s : summary) (j : Job) : M B summary :=
  stuck ← is_stuck now j;
  if (stuck : bool) then
    ok ← update_status (job_id j) (value FAILED);
    mret (if (ok : bool) then s <| stuck_recovered := (stuck_recovered s + 1)%Z |> else s)
  else
    expired ← (if bool_decide (value (status j) ∈ [value QUEUED; value RUNNING])
               then is_ttl_expired (created_at j) (naive_times j) ttl_seconds (Some now) else mret false);
    if (expired : bool) then
      ok ← update_status (job_id j) (value TTL_EXPIRED);
      mret (if (ok : bool) then s <| ttl_expired := (ttl_expired s + 1)%Z |> else s)
    else
      purge ← should_purge (updated_at j) (naive_times j) retention_seconds (Some now);
      if (purge : bool) then
        ok ← update_status (job_id j) (value CANCELLED);
        mret (if (ok : bool) then s <| retention_purged := (retention_purged s + 1)%Z |> else s)
      else mret s.

Definition run_sweep (ttl_seconds retention_seconds : Z) : M B summary :=
  now ← utcnow;
  jobs ← all_jobs;
  foldM (sweep_job ttl_seconds retention_seconds now) (mkSummary 0 0 0) jobs.
End reaper.
End Reaper.

(** ** What the sweep decides for a job *)

Inductive fate : Type := Stuck | Expired | Purged | Left.

#[export] Instance fate_eq_dec : EqDecision fate.
Proof. solve_decision. Defined.

Definition aged (now t seconds : Z) : Prop := (seconds * 1000000 < now - t)%Z.
#[export] Instance aged_dec now t seconds : Decision (aged now t seconds).
Proof. unfold aged. apply _. Defined.

(** First match: stuck running jobs, then expired queued or running jobs, then
    anything not updated for the retention period. *)
Definition fate_of (claim ttl retention now : Z) (j : Job) : fate :=
  if decide (status j = RUNNING ∧ aged now (updated_at j) claim) then Stuck
  else if decide ((status j = QUEUED ∨ status j = RUNNING) ∧ aged now (created_at j) ttl) then Expired
  else if decide (aged now (updated_at j) retention) then Purged
  else Left.

Definition fate_status (f : fate) : option JobStatus :=
  match f with
  | Stuck => Some FAILED
  | Expired => Some TTL_EXPIRED
  | Purged => Some CANCELLED
  | Left => None
  end.

(** The jobs of [l] with one fate. *)
Definition with_fate (fate' : Job → fate) (f : fate) (l : list Job) : Z :=
  Z.of_nat (length (filter (λ j, fate' j = f) l)).

Definition tick_fate (fate' : Job → fate) (s : summary) (j : Job) : summary :=
  match fate' j with
  | Stuck => s <| stuck_recovered := (stuck_recovered s + 1)%Z |>
  | Expired => s <| ttl_expired := (ttl_expired s + 1)%Z |>
  | Purged => s <| retention_purged := (retention_purged s + 1)%Z |>
  | Left => s
  end.

Lemma with_fate_cons fate' f j l :
  with_fate fate' f (j :: l) = ((if decide (fate' j = f) then 1 else 0) + with_fate fate' f l)%Z.
Proof. unfold with_fate. rewrite filter_cons. case_decide; simpl; lia. Qed.

Lemma foldl_tick fate' l s :
  foldl (tick_fate fate') s (picked (fate_status ∘ fate') l) =
  mkSummary (stuck_recovered s + with_fate fate' Stuck l)
    (ttl_expired s + with_fate fate' Expired l) (retention_purged s + with_fate fate' Purged l).
Proof.
  revert s. induction l as [|j l IH]; intros s.
  - unfold picked, with_fate. destruct s; simpl. f_equal; lia.
  - unfold picked. rewrite filter_cons, !with_fate_cons. fold (picked (fate_status ∘ fate') l).
    case_decide as Hp; simpl; rewrite IH; unfold tick_fate; simpl in Hp.
    + destruct (fate' j); simpl in *; try (by destruct Hp); destruct s; simpl; f_equal; lia.
    + destruct (fate' j); simpl in *; try (by destruct Hp; eauto); destruct s; simpl; f_equal; lia.
Qed.

(** The boolean tests of the code. *)
Lemma aged_test now t n : (n * 1000000 <? now - t)%Z = bool_decide (aged now t n).
Proof. unfold aged. destruct (Z.ltb_spec (n * 1000000) (now - t)); case_bool_decide; lia. Qed.

Lemma running_test s : bool_decide (value s = value RUNNING) = bool_decide (s = RUNNING).
Proof. by destruct s. Qed.

Lemma expirable_test s :
  bool_decide (value s ∈ [value QUEUED; value RUNNING]) = bool_decide (s = QUEUED ∨ s = RUNNING).
Proof. by destruct s. Qed.

Lemma is_ttl_expired_at {S} t n now :
  (is_ttl_expired t false n (Some now) : M S bool) = mret (bool_decide (aged now t n)).
Proof. unfold is_ttl_expired, elapsed. by rewrite !bind_ret, aged_test. Qed.

Lemma should_purge_at {S} t n now :
  (should_purge t false n (Some now) : M S bool) = mret (bool_decide (aged now t n)).
Proof. unfold should_purge, elapsed. by rewrite !bind_ret, aged_test. Qed.

Section reaper_lemmas.
Context {B : Type} `{BackendContract B}.

Lemma is_stuck_aware claim now j : naive_times j = false →
  (Reaper.is_stuck claim now j : M B bool) =
    mret (bool_decide (status j = RUNNING) && bool_decide (aged now (updated_at j) claim)).
Proof.
  intros Hj. unfold Reaper.is_stuck, elapsed. rewrite Hj, running_test.
  case_bool_decide; [|done]. by rewrite bind_ret, aged_test.
Qed.

Lemma sweep_job_step claim ttl retention now (s : summary) j : naive_times j = false →
  Reaper.sweep_job claim ttl retention now s j =
  sweep_step (fate_status ∘ fate_of claim ttl retention now) (tick_fate (fate_of claim ttl retention now)) s j.
Proof.
  intros Hj. unfold Reaper.sweep_job, sweep_step, tick_fate, fate_of. simpl.
  rewrite is_stuck_aware, bind_ret, Hj, expirable_test, is_ttl_expired_at, should_purge_at by done.
  destruct (decide (status j = RUNNING ∧ aged now (updated_at j) claim)) as [[Hr Ha]|Hn].
  - by rewrite (bool_decide_eq_true_2 _ Hr), (bool_decide_eq_true_2 _ Ha).
  - assert (bool_decide (status j = RUNNING) && bool_decide (aged now (updated_at j) claim) = false) as ->.
    { apply andb_false_iff. rewrite !bool_decide_eq_false. destruct (decide (status j = RUNNING)); tauto. }
    destruct (decide ((status j = QUEUED ∨ status j = RUNNING) ∧ aged now (created_at j) ttl)) as [[He Ha]|Hn'].
    + by rewrite (bool_decide_eq_true_2 _ He), (bool_decide_eq_true_2 _ Ha).
    + assert (Hfin : (if bool_decide (aged now (updated_at j) retention) then
          ok ← update_status (job_id j) (value CANCELLED);
          mret (if (ok : bool) then s <| retention_purged := (retention_purged s + 1)%Z |> else s)
        else mret s : M B summary) =
        match fate_status (if decide (aged now (updated_at j) retention) then Purged else Left) with
        | Some st => ok ← update_status (job_id j) (value st);
            mret (if (ok : bool) then
              match (if decide (aged now (updated_at j) retention) then Purged else Left) with
              | Stuck => s <| stuck_recovered := (stuck_recovered s + 1)%Z |>
              | Expired => s <| ttl_expired := (ttl_expired s + 1)%Z |>
              | Purged => s <| retention_purged := (retention_purged s + 1)%Z |>
              | Left => s
              end else s)
        | None => mret s
        end).
      { case_bool_decide; [by rewrite decide_True|by rewrite decide_False]. }
      rewrite <- Hfin. destruct (decide (status j = QUEUED ∨ status j = RUNNING)) as [He|He].
      * rewrite (bool_decide_eq_true_2 _ He).
        by rewrite (bool_decide_eq_false_2 (aged now (created_at j) ttl)) by tauto.
      * by rewrite (bool_decide_eq_false_2 _ He).
Qed.
End reaper_lemmas.

(** C27: the maintenance sweep is exact. Over any backend that meets the contract
    and hands out jobs with time zones, [run_sweep] reads the clock once and, by
    that reading and the times of the stored jobs, fails exactly the running jobs
    not updated for longer than the claim timeout, expires exactly the other
    queued or running jobs older than their time-to-live, cancels exactly the
    remaining jobs (whatever their status) not updated for longer than the
    retention period, leaves all others alone, and its summary counts each of the
    three groups. *)
Theorem run_sweep_exact {B} `{BackendContract B} claim ttl retention (b : B) e :
  backend_wf b → map_Forall (λ _ j, naive_times j = false) (contents b) →
  runs e (Reaper.run_sweep claim ttl retention) b (λ r b' _,
    let fate' := fate_of claim ttl retention (now_at e) in
    let l := jobs_in (contents b) in
    backend_wf b' ∧
    r = Ok (mkSummary (with_fate fate' Stuck l) (with_fate fate' Expired l) (with_fate fate' Purged l)) ∧
    statuses b' = (λ j, default (status j) (fate_status (fate' j))) <$> contents b).
Proof.
  intros Hwf Haware. unfold Reaper.run_sweep. apply runs_now.
  set (fate' := fate_of claim ttl retention (now_at e)).
  eapply wp_mono; [eapply (wp_sweep_all _ (fate_status ∘ fate') (tick_fate fate') _ b); [|done]|].
  - intros s id j Hj%Haware. by apply sweep_job_step.
  - intros r b' (Hwf' & l & Hl & -> & Hst). split; [done|]. split; [|exact Hst].
    rewrite foldl_tick. unfold with_fate. by rewrite Hl.
Qed.

(** Over a database that does not keep time zones the maintenance never works:
    the first job makes [run_sweep] raise [TypeError], and nothing is changed. *)
Theorem sweep_naive_raises {B} `{BackendContract B} claim ttl retention (b : B) :
  backend_wf b → map_Forall (λ _ j, naive_times j = true) (contents b) → contents b ≠ ∅ →
  wp (Reaper.run_sweep claim ttl retention) b (λ r b', b' = b ∧ r = Err naive_error).
Proof.
  intros Hwf Hnaive Hne. unfold Reaper.run_sweep. wp_step. apply wp_utcnow. intros now _. wp_steps.
  eapply wp_mono; [by apply all_jobs_ok|]. intros r b' (-> & l & -> & Hl).
  destruct l as [|j l].
  { apply Permutation_nil_l in Hl. unfold jobs_in in Hl. symmetry in Hl. apply fmap_nil_inv, map_to_list_empty_iff in Hl. done. }
  assert (Hj : naive_times j = true).
  { assert (Hin : j ∈ j :: l) by left. apply (lists_all_elem b) in Hin; [|done..]. by apply Hnaive in Hin. }
  simpl. wp_steps. unfold Reaper.sweep_job, Reaper.is_stuck, is_ttl_expired, should_purge, elapsed. rewrite Hj.
  wp_steps. case_bool_decide; wp_steps; [done|]. case_bool_decide; wp_steps; done.
Qed.

(** [find_stuck_job_ids] never finds anything: it looks for running jobs
    among the jobs [dequeue] offers, which are the queued ones. *)
Theorem find_stuck_finds_nothing {B} `{BackendContract B} claim (b : B) :
  backend_wf b →
  wp (Reaper.find_stuck_job_ids claim) b (λ r b', b' = b ∧ r = Ok []).
Proof.
  intros Hwf. unfold Reaper.find_stuck_job_ids. wp_step. apply wp_utcnow. intros now _. wp_step.
  eapply wp_mono; [by apply dequeue_status_ok|]. intros r b' (-> & l & -> & _ & _ & Hq). wp_steps.
  induction Hq as [|j l (_ & Hs & _) _ IH]; simpl; wp_steps; [done|].
  unfold Reaper.is_stuck. rewrite Hs, bool_decide_eq_false_2 by done. wp_steps. exact IH.
Qed.

(** At time 100 s: "a" has run for longer than a minute, "b" waits since 90 s. *)
Definition minute_env : env := Env (clock_of (λ _, 100000000%Z)) pretty 0 0.

Lemma run_sweep_exact_witness :
  let b := memory_of [sample_job "a" 0 1 <| status := RUNNING |>; sample_job "b" 0 90000000] in
  runs minute_env (Reaper.run_sweep 60 86400 2592000) b (λ r b' _,
    let fate' := fate_of 60 86400 2592000 (now_at minute_env) in
    let l := jobs_in (contents b) in
    backend_wf b' ∧
    r = Ok (mkSummary (with_fate fate' Stuck l) (with_fate fate' Expired l) (with_fate fate' Purged l)) ∧
    statuses b' = (λ j, default (status j) (fate_status (fate' j))) <$> contents b) ∧
  (λ j, default (status j) (fate_status (fate_of 60 86400 2592000 (now_at minute_env) j))) <$> contents b =
    ({["a" := FAILED; "b" := QUEUED]} : queue_spec).
Proof.
  intros b. split; [|by vm_compute]. apply (run_sweep_exact 60 86400 2592000 b minute_env).
  - apply memory_of_wf.
  - apply (bool_decide_unpack _). by vm_compute.
Defined.

Lemma find_stuck_finds_nothing_witness :
  let b := memory_of [sample_job "a" 0 1 <| status := RUNNING |>] in
  wp (Reaper.find_stuck_job_ids 60) b (λ r b', b' = b ∧ r = Ok []).
Proof. intros b. exact (find_stuck_finds_nothing 60 b (memory_of_wf _)). Defined.
