(* ===== verification/FanOut.v ===== *)
(** * Fan-out

    [fanout/manager.py]: child jobs linked to a parent and the aggregation of
    their statuses. *)

From Stdlib Require Import SpecFloat.
From S2P Require Import Prelude PyValue Isotime Meta PyFloat Domain Backend MemoryBackend Security Idempotency.
From S2P Require Import Observability Graph Dependency Queue.

Record ChildJobSpec : Type := mkChild {
  child_job_type : string;
  child_payload : dict pyval;
  child_queue_name : string;
  child_priority : Z;
}.

(** A child is given as a specification or as a dictionary. *)
Inductive child_arg : Type :=
  | ChildSpec (spec : ChildJobSpec)
  | ChildDict (spec : dict pyval).

Definition child_of (a : child_arg) : result ChildJobSpec :=
  match a with
  | ChildSpec spec => Ok spec
  | ChildDict spec =>
    jt ← argument "job_type" spec;
    d ← dict_of (argument_or "payload" (PDict []) spec);
    p ← py_int (AVal (argument_or "priority" (PInt 0) spec));
    Ok (mkChild (py_str jt) d (py_str (argument_or "queue_name" (PStr "default") spec)) p)
  end.

Definition active_states : list string :=
  [value QUEUED; value SCHEDULED; value RUNNING; value RETRY_WAIT; value PAUSED].

(** [sum(1 for state in statuses if test(state))] *)
Definition count_if (test : string → bool) (l : list string) : Z :=
  foldl (λ n s, if test s then (n + 1)%Z else n) 0%Z l.

Definition aggregate_child_statuses (statuses : list string) (threshold : option spec_float) : string :=
  if bool_decide (statuses = []) then value QUEUED
  else
    let success_count := count_if (λ s, bool_decide (s = value SUCCEEDED)) statuses in
    let failure_count := count_if (λ s, bool_decide (s = value FAILED)) statuses in
    let active_count := count_if (λ s, bool_decide (s ∈ active_states)) statuses in
    match threshold with
    | None =>
      if (0 <? failure_count)%Z then value FAILED
      else if (success_count =? Z.of_nat (length statuses))%Z then value SUCCEEDED
      else if (0 <? active_count)%Z then value RUNNING
      else value QUEUED
    | Some t =>
      let t := float_min (float_max t (float_of_Z 0)) (float_of_Z 1) in
      let ratio := float_div (float_of_Z success_count) (float_of_Z (Z.of_nat (length statuses))) in
      if (0 <? active_count)%Z then value RUNNING
      else if SFleb t ratio then value SUCCEEDED else value FAILED
    end.

Example aggregate_half :
  let half := float_div (float_of_Z 1) (float_of_Z 2) in
  aggregate_child_statuses ["succeeded"; "failed"] (Some half) = "succeeded" ∧
  aggregate_child_statuses ["succeeded"; "failed"; "failed"] (Some half) = "failed".
Proof. split; vm_compute; reflexivity. Qed.

(** ** [FanOutManager] *)

Record FanOutManager (B : Type) : Type := mkFanOut {
  fo_queue : JobQueue B;
  _children_by_parent : gmap string (list string);
}.
Arguments mkFanOut {B}.
Arguments fo_queue {B}.
Arguments _children_by_parent {B}.

#[export] Instance FanOutManager_eta B : Eta (FanOutManager B) := λ f,
  mkFanOut (fo_queue f) (_children_by_parent f).

Module FanOut.
Section fanout.
Context {B : Type} `{QueueBackend B}.

Definition on_queue {A} : M (JobQueue B) A → M (FanOutManager B) A :=
  zoom fo_queue (λ q f, f <| fo_queue := q |>).

(** The request of one child. *)
Definition child_request (parent : string) (spec : ChildJobSpec) : JobRequest :=
  new_request (child_job_type spec)
    <| req_queue_name := child_queue_name spec |>
    <| req_payload := Dict.set "__fanout_parent_job_id" (PStr parent) (child_payload spec) |>
    <| req_priority := child_priority spec |>.

Definition create_fan_out (parent : string) (child_specs : list child_arg)
    : M (FanOutManager B) (list string) :=
  ids ← foldM (λ ids a,
    spec ← lift (child_of a);
    id ← on_queue (Queue.submit (child_request parent spec)); mret (ids ++ [id])) [] child_specs;
  modify (λ f, f <| _children_by_parent := <[parent := ids]> (_children_by_parent f) |>);;
  mret ids.

Definition get_children (f : FanOutManager B) (parent : string) : list string :=
  default [] (_children_by_parent f !! parent).

Definition aggregate_parent_status (parent : string) (threshold : option spec_float)
    : M (FanOutManager B) string :=
  ids ← gets (λ f, get_children f parent);
  statuses ← foldM (λ statuses id,
    child ← on_queue (Queue.get id);
    match child with
    | None => mret (statuses ++ [value FAILED])
    | Some child => mret (statuses ++ [value (status child)])
    end) [] ids;
  mret (aggregate_child_statuses statuses threshold).

Definition cancel_parent_and_children (parent : string) : M (FanOutManager B) Z :=
  ok ← on_queue (Queue.cancel parent);
  ids ← gets (λ f, get_children f parent);
  foldM (λ cancelled id,
    ok ← on_queue (Queue.cancel id);
    mret (if (ok : bool) then (cancelled + 1)%Z else cancelled)) (if (ok : bool) then 1%Z else 0%Z) ids.
End fanout.
End FanOut.

(** ** Aggregation *)

Lemma count_if_length test l : count_if test l = Z.of_nat (length (filter (λ s, test s) l)).
Proof.
  unfold count_if. cut (∀ n, foldl (λ n s, if test s then (n + 1)%Z else n) n l =
    (n + Z.of_nat (length (filter (λ s, test s) l)))%Z); [intros H; by rewrite H|].
  induction l as [|s l IH]; intros n; simpl; [lia|]. rewrite IH, filter_cons.
  destruct (test s); simpl; lia.
Qed.

Lemma count_if_pos (P : string → Prop) `{∀ s, Decision (P s)} l :
  (0 <? count_if (λ s, bool_decide (P s)) l)%Z = true ↔ ∃ s, s ∈ l ∧ P s.
Proof.
  rewrite count_if_length, Z.ltb_lt. split.
  - intros Hpos. destruct (filter _ l) as [|s l'] eqn:E; [simpl in Hpos; lia|].
    exists s. assert (Hs : s ∈ s :: l') by left. rewrite <- E in Hs.
    apply list_elem_of_filter in Hs as [Hs ?]. split; [done|]. by apply bool_decide_unpack in Hs.
  - intros (s & Hs & HP).
    assert (Hf : s ∈ filter (λ s, bool_decide (P s)) l).
    { apply list_elem_of_filter. split; [by apply bool_decide_pack|done]. }
    destruct (filter _ l); [by apply elem_of_nil in Hf|]. simpl. lia.
Qed.

Lemma count_if_all (P : string → Prop) `{∀ s, Decision (P s)} l :
  (count_if (λ s, bool_decide (P s)) l =? Z.of_nat (length l))%Z = true ↔ ∀ s, s ∈ l → P s.
Proof.
  rewrite count_if_length, Z.eqb_eq, <- Forall_forall. induction l as [|s l IH]; [done|].
  pose proof (length_filter (λ s, bool_decide (P s)) l). rewrite filter_cons, Forall_cons, <- IH.
  case_decide as Hs; rewrite bool_decide_spec in Hs; simpl; split; try naive_solver lia.
  all: intros; try lia.
Qed.

Definition active : list JobStatus := [QUEUED; SCHEDULED; RUNNING; RETRY_WAIT; PAUSED].

Lemma active_values s : value s ∈ active_states ↔ s ∈ active.
Proof.
  rewrite <- (bool_decide_eq_true (value s ∈ _)), <- (bool_decide_eq_true (s ∈ active)). by destruct s.
Qed.

Section aggregation.
Context {B : Type} `{BackendContract B}.

(** The status a child counts with: a child that is gone counts as failed. *)
Definition child_status (m : queue_spec) (id : string) : JobStatus := default FAILED (m !! id).

Lemma collect_ok (f : FanOutManager B) ids acc :
  backend_wf (q_backend (fo_queue f)) →
  wp (foldM (λ statuses id,
    child ← FanOut.on_queue (Queue.get id);
    match child with
    | None => mret (statuses ++ [value FAILED])
    | Some child => mret (statuses ++ [value (status child)])
    end) acc ids) f (λ r f', f' = f ∧
      r = Ok (acc ++ (value ∘ child_status (statuses (q_backend (fo_queue f))) <$> ids))).
Proof.
  intros Hwf. revert acc. induction ids as [|id ids IH]; intros acc; simpl.
  { wp_steps. by rewrite app_nil_r. }
  wp_steps. apply wp_zoom. unfold Queue.get. apply wp_zoom.
  eapply wp_mono; [by apply get_status_ok|]. intros r b' (-> & oj & -> & Hst & _). simpl.
  assert (Hf : f <| fo_queue := fo_queue f <| q_backend := q_backend (fo_queue f) |> |> = f)
    by (destruct f as [[]]; done).
  rewrite Hf.
  assert (Hval : value (child_status (statuses (q_backend (fo_queue f))) id) =
    match oj with Some j => value (status j) | None => value FAILED end).
  { unfold child_status. rewrite <- Hst. by destruct oj. }
  destruct oj as [j|]; simpl in Hval; wp_steps; (eapply wp_mono; [apply IH|]);
    intros r f' [-> ->]; by rewrite <- app_assoc, Hval.
Qed.

(** The aggregate without a threshold, by the statuses of the children. *)
Definition aggregate_of (sts : list JobStatus) : JobStatus :=
  if decide (Exists (λ s, s = FAILED) sts) then FAILED
  else if decide (sts ≠ [] ∧ Forall (λ s, s = SUCCEEDED) sts) then SUCCEEDED
  else if decide (Exists (λ s, s ∈ active) sts) then RUNNING
  else QUEUED.

Lemma count_values_pos (P : string → Prop) `{∀ s, Decision (P s)} (R : JobStatus → Prop)
    `{∀ s, Decision (R s)} sts :
  (∀ s, P (value s) ↔ R s) →
  (0 <? count_if (λ s, bool_decide (P s)) (value <$> sts))%Z = bool_decide (Exists R sts).
Proof.
  intros HPR. apply eq_bool_prop_intro. rewrite !Is_true_true, count_if_pos, bool_decide_eq_true, Exists_exists.
  setoid_rewrite list_elem_of_fmap. split.
  - intros (v & (s & -> & Hs) & Hv). exists s. by rewrite <- HPR.
  - intros (s & Hs & HR). exists (value s). split; [eauto|]. by apply HPR.
Qed.

Lemma count_values_all (P : string → Prop) `{∀ s, Decision (P s)} (R : JobStatus → Prop)
    `{∀ s, Decision (R s)} sts :
  (∀ s, P (value s) ↔ R s) →
  (count_if (λ s, bool_decide (P s)) (value <$> sts) =? Z.of_nat (length (value <$> sts)))%Z =
  bool_decide (Forall R sts).
Proof.
  intros HPR. apply eq_bool_prop_intro. rewrite !Is_true_true, count_if_all, bool_decide_eq_true, Forall_forall.
  setoid_rewrite list_elem_of_fmap. split.
  - intros Hall s Hs. apply HPR, Hall. eauto.
  - intros Hall v (s & -> & Hs). by apply HPR, Hall.
Qed.

Lemma aggregate_spec (sts : list JobStatus) :
  aggregate_child_statuses (value <$> sts) None = value (aggregate_of sts).
Proof.
  unfold aggregate_child_statuses, aggregate_of. destruct sts as [|s0 sts0] eqn:Es; [done|].
  rewrite bool_decide_eq_false_2 by done. rewrite <- Es.
  rewrite (count_values_pos (λ s, s = value FAILED) (λ s, s = FAILED)),
    (count_values_all (λ s, s = value SUCCEEDED) (λ s, s = SUCCEEDED)),
    (count_values_pos (λ s, s ∈ active_states) (λ s, s ∈ active)).
  - case_bool_decide; [by rewrite decide_True|]. rewrite decide_False by done.
    case_bool_decide; [by rewrite decide_True by (split; [by subst|done])|].
    rewrite decide_False by tauto. case_bool_decide; [by rewrite decide_True|by rewrite decide_False].
  - apply active_values.
  - intros s. split; [apply value_inj|congruence].
  - intros s. split; [apply value_inj|congruence].
Qed.
End aggregation.

(** C39: the status of a parent is the aggregate of its children, exactly. Without
    a threshold it is [failed] when some child failed or is gone, otherwise
    [succeeded] when there are children and all succeeded, otherwise [running]
    when some child is queued, scheduled, running, waiting or paused, and
    otherwise (children cancelled, expired, dead-lettered) [queued]; nothing is
    changed by asking. *)
Theorem aggregate_parent_status_exact {B} `{BackendContract B} (f : FanOutManager B) parent :
  backend_wf (q_backend (fo_queue f)) →
  wp (FanOut.aggregate_parent_status parent None) f (λ r f', f' = f ∧
    r = Ok (value (aggregate_of
      (child_status (statuses (q_backend (fo_queue f))) <$> FanOut.get_children f parent)))).
Proof.
  intros Hwf. unfold FanOut.aggregate_parent_status. wp_steps.
  eapply wp_mono; [by apply collect_ok|]. intros r f' [-> ->]. wp_steps. split; [done|].
  rewrite app_nil_l, list_fmap_compose. by rewrite aggregate_spec.
Qed.

Lemma aggregate_parent_status_exact_witness :
  let f := mkFanOut (Queue.new (memory_of [sample_job "a" 0 1 <| status := SUCCEEDED |>]))
             {["p" := ["a"; "gone"]]} in
  wp (FanOut.aggregate_parent_status "p" None) f (λ r f', f' = f ∧
    r = Ok (value (aggregate_of
      (child_status (statuses (q_backend (fo_queue f))) <$> FanOut.get_children f "p")))) ∧
  aggregate_of (child_status (statuses (q_backend (fo_queue f))) <$> FanOut.get_children f "p") = FAILED.
Proof.
  intros f. split.
  - exact (aggregate_parent_status_exact f "p" (memory_of_wf _)).
  - vm_compute. reflexivity.
Defined.

Lemma runs_lift {S A} e (r : result A) (s : S) (Q : result A → S → env → Prop) : Q r s e → runs e (lift r) s Q.
Proof. done. Qed.

(** A child with a secret stops the loop where it is. *)
Lemma child_with_secret {B} `{QueueBackend B} (f : FanOutManager B) parent s2 :
  has_secret (PDict (req_payload (FanOut.child_request parent s2))) →
  wp (FanOut.on_queue (Queue.submit (FanOut.child_request parent s2))) f
    (λ r f', (∃ m, r = Err (ValueError m)) ∧ f' = f).
Proof.
  intros Hsec. unfold FanOut.on_queue, Queue.submit, validate_payload_size, assert_no_secrets. wp_steps.
  destruct f as [q ch]. destruct (_ <? _)%Z; wp_steps; [by split; [eexists|]|].
  apply payload_secret_iff in Hsec. rewrite Hsec. wp_steps. by split; [eexists|].
Qed.

(** A fan-out that fails leaves orphans. When the first child is accepted and the
    second is rejected, [create_fan_out] raises, the first child stays queued,
    and no children are recorded: neither the status nor the cancellation of the
    parent will reach it. *)
Theorem fan_out_failure_orphans {B} `{BackendContract B} (f : FanOutManager B) parent s1 s2 rest e :
  let q := fo_queue f in
  let id := job_id (submitted e (FanOut.child_request parent s1)) in
  backend_wf (q_backend q) → acceptable q (FanOut.child_request parent s1) →
  statuses (q_backend q) !! id = None →
  has_secret (PDict (req_payload (FanOut.child_request parent s2))) →
  let '(r, f', _) := FanOut.create_fan_out parent (ChildSpec s1 :: ChildSpec s2 :: rest) f e in
  (∃ m, r = Err (ValueError m)) ∧ statuses (q_backend (fo_queue f')) = <[id := QUEUED]> (statuses (q_backend q)) ∧
  ∀ p, FanOut.get_children f' p = FanOut.get_children f p.
Proof.
  intros q id Hwf Hacc Hfresh Hsec.
  pose proof (submit_plain q (FanOut.child_request parent s1) e Hwf Hacc eq_refl eq_refl Hfresh) as Hsub.
  set (Q := λ (r : result (list string)) f' (_ : env), (∃ m, r = Err (ValueError m)) ∧
    statuses (q_backend (fo_queue f')) = <[id := QUEUED]> (statuses (q_backend q)) ∧
    ∀ p, FanOut.get_children f' p = FanOut.get_children f p).
  change (runs e (FanOut.create_fan_out parent (ChildSpec s1 :: ChildSpec s2 :: rest)) f Q).
  unfold FanOut.create_fan_out. cbn [foldM child_of].
  do 3 apply runs_bind. apply runs_lift, runs_bind, runs_zoom. fold q. unfold runs at 1.
  destruct (Queue.submit _ q e) as [[res q1] e1]. destruct Hsub as (-> & _ & Hst).
  apply runs_ret. do 2 apply runs_bind. apply runs_lift, runs_bind, runs_wp.
  eapply wp_mono; [by apply child_with_secret|]. intros r f' [[m ->] ->] e'. split; [by eexists|]. by split.
Qed.

Lemma fan_out_failure_orphans_witness :
  let f : FanOutManager Memory := mkFanOut (Queue.new (mkMemory [])) ∅ in
  let s1 := mkChild "t" [] "default" 0 in
  let s2 := mkChild "t" [("password", PStr "x")] "default" 0 in
  let q := fo_queue f in
  let id := job_id (submitted env0 (FanOut.child_request "p" s1)) in
  let '(r, f', _) := FanOut.create_fan_out "p" [ChildSpec s1; ChildSpec s2] f env0 in
  (∃ m, r = Err (ValueError m)) ∧ statuses (q_backend (fo_queue f')) = <[id := QUEUED]> (statuses (q_backend q)) ∧
  ∀ p, FanOut.get_children f' p = FanOut.get_children f p.
Proof.
  intros f s1 s2. refine (fan_out_failure_orphans f "p" s1 s2 [] env0 memory_empty_wf _ _ _).
  - split; [vm_compute; discriminate|]. rewrite <- payload_secret_iff. vm_compute. discriminate.
  - reflexivity.
  - apply payload_secret_iff. vm_compute. reflexivity.
Defined.
