(* ===== verification/Deadlock.v ===== *)
(** * Deadlock avoidance

    [broker/deadlock.py]: the wait-for graph of [DeadlockGuard]. Methods hold
    the guard's lock, so each is one step. A Python set is a [gset]; the order
    in which its elements are pushed does not matter to the answer, the model
    uses the order of [elements]. *)

From S2P Require Import Prelude PyValue Graph.

(** [DeadlockGuard]: a job and the jobs it waits for. *)
Record DeadlockGuard : Type := mkGuard { _graph : dict (gset string) }.

Module Guard.

(** [self._graph.get(job_id, set())] *)
Definition waits_for (g : DeadlockGuard) (id : string) : gset string := Dict.get_default id ∅ (_graph g).

Definition _would_cycle (g : DeadlockGuard) (from_id to_id : string) : bool :=
  if bool_decide (from_id = to_id) then true
  else reaches (λ k, elements (waits_for g k)) (Dict.keys (_graph g)) from_id [to_id].

Definition add_dependency (job_id depends_on : string) : M DeadlockGuard bool :=
  g ← get_state;
  if _would_cycle g job_id depends_on then mret false
  else
    modify (λ g, mkGuard (Dict.set job_id ({[depends_on]} ∪ waits_for g job_id) (_graph g)));;
    mret true.

Definition remove_job (job_id : string) : M DeadlockGuard unit :=
  modify (λ g, mkGuard (Dict.pop job_id (_graph g)));;
  modify (λ g, mkGuard ((λ e : string * gset string, (e.1, e.2 ∖ {[job_id]})) <$> _graph g)).

Definition get_blocked_jobs (g : DeadlockGuard) : list string :=
  (filter (λ e : string * gset string, e.2 ≠ ∅) (_graph g)).*1.

Definition get_dependencies (g : DeadlockGuard) (id : string) : gset string := waits_for g id.

Definition yield_to (holder_id waiter_id : string) : M DeadlockGuard bool :=
  add_dependency waiter_id holder_id.

End Guard.

(** ** The wait-for relation *)

Definition waits (g : DeadlockGuard) : relation string := λ x y, y ∈ Guard.waits_for g x.

Definition guard_wf (g : DeadlockGuard) : Prop := Dict.wf (_graph g).

Lemma waits_edge g x y : edge (λ k, elements (Guard.waits_for g k)) x y ↔ waits g x y.
Proof. unfold edge, waits. by rewrite elem_of_elements. Qed.

Lemma waits_rtc g x y : rtc (edge (λ k, elements (Guard.waits_for g k))) x y ↔ rtc (waits g) x y.
Proof.
  split; apply rtc_subrel || (intros H; eapply rtc_subrel; [|exact H]); intros a b; apply waits_edge.
Qed.

Lemma would_cycle_spec g x y : guard_wf g → Guard._would_cycle g x y = true ↔ rtc (waits g) y x.
Proof.
  intros Hwf. unfold Guard._would_cycle. case_bool_decide as Hxy; [by subst; split|].
  rewrite reaches_spec; [|done|].
  - rewrite <- waits_rtc. split; [by intros (d & ->%list_elem_of_singleton & ?)|].
    intros Hr. exists y. split; [by left|done].
  - intros k Hk. unfold Guard.waits_for, Dict.get_default. apply Dict.get_None in Hk. by rewrite Hk.
Qed.

Definition with_wait (g : DeadlockGuard) (x y : string) : DeadlockGuard :=
  mkGuard (Dict.set x ({[y]} ∪ Guard.waits_for g x) (_graph g)).

Lemma waits_with g x y a b : waits (with_wait g x y) a b ↔ waits g a b ∨ (a = x ∧ b = y).
Proof.
  unfold waits, Guard.waits_for, with_wait, Dict.get_default. simpl. rewrite Dict.get_set.
  case_decide; subst; set_solver.
Qed.

Lemma waits_without g x a b :
  guard_wf g → waits (after (Guard.remove_job x) g) a b ↔ waits g a b ∧ a ≠ x ∧ b ≠ x.
Proof.
  intros Hwf. unfold after, waits, Guard.waits_for, Guard.remove_job, Dict.get_default. simpl.
  assert (Hmap : ∀ d : dict (gset string),
    Dict.get a ((λ e : string * gset string, (e.1, e.2 ∖ {[x]})) <$> d) = (.∖ {[x]}) <$> Dict.get a d).
  { induction d as [|[k v] d IH]; simpl; [done|]. by case_decide. }
  rewrite Hmap, Dict.get_pop by exact Hwf.
  case_decide; subst; simpl; [set_solver|]. destruct (Dict.get a (_graph g)); simpl; set_solver.
Qed.

(** ** Runs *)

Inductive guard_op : Type :=
  | AddDependency (x y : string)
  | RemoveJob (x : string)
  | YieldTo (holder waiter : string).

Definition exec_guard_op (op : guard_op) : M DeadlockGuard bool :=
  match op with
  | AddDependency x y => Guard.add_dependency x y
  | RemoveJob x => Guard.remove_job x;; mret true
  | YieldTo h w => Guard.yield_to h w
  end.

(** The relation, as the callers of the guard see it: an edge is refused exactly
    when it would close a cycle. *)
Inductive guard_run : relation string → list guard_op → list bool → relation string → Prop :=
  | guard_nil R R' : (∀ a b, R a b ↔ R' a b) → guard_run R [] [] R'
  | guard_add R x y ops bs R' :
      ¬ rtc R y x → guard_run (λ a b, R a b ∨ (a = x ∧ b = y)) ops bs R' →
      guard_run R (AddDependency x y :: ops) (true :: bs) R'
  | guard_refuse R x y ops bs R' :
      rtc R y x → guard_run R ops bs R' → guard_run R (AddDependency x y :: ops) (false :: bs) R'
  | guard_remove R x ops bs R' :
      guard_run (λ a b, R a b ∧ a ≠ x ∧ b ≠ x) ops bs R' →
      guard_run R (RemoveJob x :: ops) (true :: bs) R'
  | guard_yield R h w ops b bs R' :
      guard_run R (AddDependency w h :: ops) (b :: bs) R' →
      guard_run R (YieldTo h w :: ops) (b :: bs) R'.

Lemma rtc_ext (R S : relation string) : (∀ a b, R a b ↔ S a b) → ∀ a b, rtc R a b ↔ rtc S a b.
Proof. intros H a b. split; apply rtc_subrel; intros ? ?; apply H. Qed.

Lemma guard_run_ext R S ops bs R' :
  guard_run R ops bs R' → (∀ a b, R a b ↔ S a b) → guard_run S ops bs R'.
Proof.
  intros Hrun. revert S.
  induction Hrun as [R R' H|R x y ops bs R' Hn _ IH|R x y ops bs R' Hy _ IH|R x ops bs R' _ IH|
    R h w ops b bs R' _ IH]; intros S HS.
  - apply guard_nil. intros a b. by rewrite <- HS.
  - apply guard_add; [by rewrite <- (rtc_ext _ _ HS)|]. apply IH. intros a b. by rewrite HS.
  - apply guard_refuse; [by rewrite <- (rtc_ext _ _ HS)|]. by apply IH.
  - apply guard_remove, IH. intros a b. by rewrite HS.
  - by apply guard_yield, IH.
Qed.

Lemma guard_wf_remove g x : guard_wf g → guard_wf (after (Guard.remove_job x) g).
Proof.
  intros Hwf. unfold guard_wf, Dict.wf, Dict.keys, after. simpl.
  rewrite <- list_fmap_compose. apply (Dict.wf_pop x) in Hwf. exact Hwf.
Qed.

Lemma add_dependency_run g x y (Q : result bool → DeadlockGuard → Prop) :
  guard_wf g →
  (rtc (waits g) y x → Q (Ok false) g) →
  (¬ rtc (waits g) y x → guard_wf (with_wait g x y) → Q (Ok true) (with_wait g x y)) →
  wp (Guard.add_dependency x y) g Q.
Proof.
  intros Hwf Hno Hyes. unfold Guard.add_dependency. wp_steps.
  pose proof (would_cycle_spec g x y Hwf) as Hspec.
  destruct (Guard._would_cycle g x y); wp_steps; [by apply Hno, Hspec|].
  apply Hyes; [by rewrite <- Hspec|]. by apply Dict.wf_set.
Qed.

Lemma with_wait_acyclic g x y :
  acyclic (waits g) → ¬ rtc (waits g) y x → acyclic (waits (with_wait g x y)).
Proof.
  intros Hac Hn. apply (acyclic_add (waits g) _ x [y]); [|done|by intros d ->%list_elem_of_singleton].
  intros a b [?|[-> ->]]%waits_with; [by left|right]. split; [done|by left].
Qed.

Lemma exec_guard_ok op ops g (K : list bool → DeadlockGuard → Prop) :
  guard_wf g → acyclic (waits g) →
  (∀ b g', guard_wf g' → acyclic (waits g') →
     (∀ bs g'', guard_run (waits g') ops bs (waits g'') → guard_run (waits g) (op :: ops) (b :: bs) (waits g'')) →
     K [b] g') →
  wp (exec_guard_op op) g (λ r g', ∃ b, r = Ok b ∧ K [b] g').
Proof.
  intros Hwf Hac HK.
  assert (Hadd : ∀ x y (op' := AddDependency x y),
    (∀ b g', guard_wf g' → acyclic (waits g') →
      (∀ bs g'', guard_run (waits g') ops bs (waits g'') →
         guard_run (waits g) (op' :: ops) (b :: bs) (waits g'')) → K [b] g') →
    wp (Guard.add_dependency x y) g (λ r g', ∃ b, r = Ok b ∧ K [b] g')).
  { intros x y op' HK'. apply add_dependency_run; [done| |].
    - intros Hc. exists false. split; [done|]. apply HK'; [done|done|]. intros. by apply guard_refuse.
    - intros Hc Hwf'. exists true. split; [done|]. apply HK'; [done|by apply with_wait_acyclic|].
      intros bs g'' Hrun. apply guard_add; [done|]. eapply guard_run_ext; [exact Hrun|].
      intros a b. apply waits_with. }
  destruct op as [x y|x|h w]; simpl.
  - by apply Hadd.
  - pose proof (guard_wf_remove g x Hwf) as Hwf'. pose proof (waits_without g x) as Hw.
    unfold Guard.remove_job in *. wp_steps. exists true. split; [done|]. apply HK; [done| |].
    + eapply acyclic_mono; [|exact Hac]. intros a b Hab. by apply (Hw a b Hwf) in Hab as [? _].
    + intros bs g'' Hrun. apply guard_remove. eapply guard_run_ext; [exact Hrun|]. intros a b. by apply Hw.
  - apply Hadd. intros b g' ? ? Hrun. apply HK; [done|done|]. intros bs g'' ?. by apply guard_yield, Hrun.
Qed.

(** C28: the guard prevents deadlock. From an acyclic wait-for graph, every
    sequence of dependencies, yields and removals is answered exactly as the
    wait-for relation demands, a dependency being refused precisely when the job
    waited for already waits, directly or not, for the job itself; and the
    graph stays acyclic. *)
Theorem deadlock_guard_exact ops (g : DeadlockGuard) :
  guard_wf g → acyclic (waits g) →
  wp (foldM (λ bs op, b ← exec_guard_op op; mret (bs ++ [b])) [] ops) g (λ r g',
    ∃ bs, r = Ok bs ∧ guard_run (waits g) ops bs (waits g') ∧ acyclic (waits g')).
Proof.
  cut (∀ bs0 g, guard_wf g → acyclic (waits g) →
    wp (foldM (λ bs op, b ← exec_guard_op op; mret (bs ++ [b])) bs0 ops) g (λ r g',
      ∃ bs, r = Ok (bs0 ++ bs) ∧ guard_run (waits g) ops bs (waits g') ∧ acyclic (waits g'))).
  { intros H. exact (H [] g). }
  clear g. induction ops as [|op ops IH]; intros bs0 g Hwf Hac; simpl.
  - wp_steps. exists []. rewrite app_nil_r. split_and!; [done|by apply guard_nil|done].
  - wp_steps. eapply wp_mono; [apply (exec_guard_ok op ops g (λ bs g', guard_wf g' ∧ acyclic (waits g') ∧
      ∀ bs' g'', guard_run (waits g') ops bs' (waits g'') →
        guard_run (waits g) (op :: ops) (bs ++ bs') (waits g''))); [done|done|by intros b g' ? ? Hrun]|].
    intros r g' (b & -> & Hwf' & Hac' & Hrun). wp_steps. eapply wp_mono; [by apply IH|].
    intros r g'' (bs & -> & Hr & ?). exists (b :: bs). rewrite <- app_assoc.
    split_and!; [done|by apply Hrun|done].
Qed.

Lemma deadlock_guard_exact_witness :
  let ops := [AddDependency "a" "b"; YieldTo "c" "b"; AddDependency "c" "a"; RemoveJob "b";
              AddDependency "c" "a"] in
  wp (foldM (λ bs op, b ← exec_guard_op op; mret (bs ++ [b])) [] ops) (mkGuard []) (λ r g',
    ∃ bs, r = Ok bs ∧ guard_run (waits (mkGuard [])) ops bs (waits g') ∧ acyclic (waits g')).
Proof.
  intros ops. apply (deadlock_guard_exact ops (mkGuard [])).
  - constructor.
  - assert (Hnone : ∀ a b, ¬ waits (mkGuard []) a b) by (intros a b; apply not_elem_of_empty).
    intros x Hx. inversion Hx as [? ? H|? ? ? H]; exact (Hnone _ _ H).
Defined.

Example deadlock_answers :
  answer (foldM (λ bs op, b ← exec_guard_op op; mret (bs ++ [b])) []
    [AddDependency "a" "b"; YieldTo "c" "b"; AddDependency "c" "a"; RemoveJob "b"; AddDependency "c" "a"])
    (mkGuard []) = Ok [true; true; false; true; true].
Proof. vm_compute. reflexivity. Qed.
