(* ===== verification/Capacity.v ===== *)
(** * Capacity enforcement

    [broker/capacity.py]: named resources with a total and a used amount;
    [CapacityEnforcer.try_acquire] takes all it is asked for or nothing.
    Methods hold the enforcer's lock, so each is one step. *)

From S2P Require Import Prelude PyValue.

Record ResourceSlot : Type := mkResource {
  slot_name : string;
  total : Z;
  used : Z;
}.

#[export] Instance ResourceSlot_eta : Eta ResourceSlot := λ s, mkResource (slot_name s) (total s) (used s).

Module Slot.
Definition available (s : ResourceSlot) : Z := Z.max 0 (total s - used s).
Definition acquire (count : Z) : M ResourceSlot bool :=
  s ← get_state;
  if (total s <? used s + count)%Z then mret false
  else modify (λ s, s <| used := (used s + count)%Z |>);; mret true.
Definition release (count : Z) : M ResourceSlot unit :=
  modify (λ s, s <| used := Z.max 0 (used s - count) |>).
End Slot.

(** [CapacityEnforcer] *)
Record CapacityEnforcer : Type := mkCapacity { _slots : dict ResourceSlot }.

Module Capacity.

Definition register_resource (name : string) (total' : Z) : M CapacityEnforcer unit :=
  modify (λ c, mkCapacity (Dict.set name (mkResource name total' 0) (_slots c))).

(** A method of the slot object stored under a name, when there is one. *)
Definition on_slot {A} (name : string) (m : M ResourceSlot A) : M CapacityEnforcer (option A) :=
  zoom_opt (λ c, Dict.get name (_slots c)) (λ s c, mkCapacity (Dict.set name s (_slots c))) m.

(** The check loop. *)
Fixpoint all_available (c : CapacityEnforcer) (requirements : dict Z) : bool :=
  match requirements with
  | [] => true
  | (name, count) :: requirements =>
    match Dict.get name (_slots c) with
    | None => false
    | Some slot =>
      if (Slot.available slot <? count)%Z then false else all_available c requirements
    end
  end.

Definition try_acquire (requirements : dict Z) : M CapacityEnforcer bool :=
  c ← get_state;
  if negb (all_available c requirements) then mret false
  else
    foldM (λ _ '(name, count), _ ← on_slot name (Slot.acquire count); mret tt) tt requirements;;
    mret true.

Definition release (requirements : dict Z) : M CapacityEnforcer unit :=
  foldM (λ _ '(name, count), _ ← on_slot name (Slot.release count); mret tt) tt requirements.

Definition available (c : CapacityEnforcer) (name : string) : Z :=
  match Dict.get name (_slots c) with Some slot => Slot.available slot | None => 0 end.

(** The rows (name, total, used, available) of [stats]. *)
Definition stats (c : CapacityEnforcer) : list (string * (Z * Z * Z)) :=
  (λ e : string * ResourceSlot, (e.1, (total e.2, used e.2, Slot.available e.2))) <$> _slots c.

End Capacity.

(** ** Accounting *)

(** What a request asks of a resource. *)
Definition asked (requirements : dict Z) (name : string) : Z := Dict.get_default name 0%Z requirements.

(** Python dictionaries of counts that are not negative. *)
Definition requirements_wf (r : dict Z) : Prop := Dict.wf r ∧ ∀ name, (0 ≤ asked r name)%Z.

(** No resource is oversubscribed. *)
Definition capacity_wf (c : CapacityEnforcer) : Prop :=
  ∀ name s, Dict.get name (_slots c) = Some s → (0 ≤ used s ≤ total s)%Z.

(** The amounts in use, and what is known about the resources otherwise. *)
Definition used_of (c : CapacityEnforcer) (name : string) : option Z := used <$> Dict.get name (_slots c).
Definition total_of (c : CapacityEnforcer) (name : string) : option Z := total <$> Dict.get name (_slots c).

(** There is enough of everything asked for. *)
Definition satisfiable (c : CapacityEnforcer) (r : dict Z) : Prop :=
  ∀ name n, Dict.get name r = Some n →
    ∃ s, Dict.get name (_slots c) = Some s ∧ (used s + n ≤ total s)%Z.

(** [c'] is [c] with the amounts in use changed by [f]. *)
Definition changed (f : string → Z → Z) (c c' : CapacityEnforcer) : Prop :=
  ∀ name, used_of c' name = f name <$> used_of c name ∧ total_of c' name = total_of c name.

Lemma asked_cons name n r name' :
  asked ((name, n) :: r) name' = if decide (name' = name) then n else asked r name'.
Proof. unfold asked, Dict.get_default. simpl. by case_decide. Qed.

Lemma asked_absent r name : name ∉ Dict.keys r → asked r name = 0%Z.
Proof. unfold asked, Dict.get_default. by intros ->%Dict.get_None. Qed.

Lemma all_available_spec c r :
  capacity_wf c → requirements_wf r → Capacity.all_available c r = true ↔ satisfiable c r.
Proof.
  intros Hc [Hwf Hpos]. induction r as [|[k n] r IH]; simpl; [done|].
  unfold Dict.wf in Hwf. rewrite Dict.keys_cons, NoDup_cons in Hwf. destruct Hwf as [Hk Hwf].
  pose proof (Hpos k) as Hn. rewrite asked_cons, decide_True in Hn by done.
  assert (Hpos' : ∀ name, (0 ≤ asked r name)%Z).
  { intros name. specialize (Hpos name). rewrite asked_cons in Hpos.
    case_decide; [subst; by rewrite asked_absent|done]. }
  assert (Hcons : satisfiable c ((k, n) :: r) ↔
    (∃ s, Dict.get k (_slots c) = Some s ∧ (used s + n ≤ total s)%Z) ∧ satisfiable c r).
  { unfold satisfiable. split.
    - intros H. split; [apply H; simpl; by rewrite decide_True|].
      intros name m Hm. apply H. simpl. rewrite decide_False; [done|].
      intros ->. apply Dict.get_None in Hk. congruence.
    - intros [H1 H2] name m. simpl. case_decide; [|apply H2]. subst. by intros [= <-]. }
  rewrite Hcons, <- (IH Hwf Hpos'). destruct (Dict.get k (_slots c)) as [s|] eqn:E.
  - specialize (Hc k s E). unfold Slot.available.
    destruct (Z.ltb_spec (Z.max 0 (total s - used s)) n).
    + split; [done|]. intros [(s' & [= <-] & ?) _]. lia.
    + split; [|tauto]. intros. split; [|done]. exists s. split; [done|]. lia.
  - split; [done|]. by intros [(s & [=] & _) _].
Qed.

(** The loops change one slot after the other. *)
Lemma changed_step c name s' (g : Z → Z) :
  used s' = g (default 0%Z (used_of c name)) → Some (total s') = total_of c name →
  changed (λ k u, if decide (k = name) then g u else u) c (mkCapacity (Dict.set name s' (_slots c))).
Proof.
  unfold changed, used_of, total_of. intros Hu Ht k. simpl. rewrite Dict.get_set.
  destruct (decide (name = k)) as [->|Hne].
  - destruct (Dict.get k (_slots c)); simpl in *; [|done].
    rewrite Hu, decide_True by done. split; congruence.
  - destruct (Dict.get k (_slots c)); simpl; [|done]. by rewrite decide_False.
Qed.

Lemma changed_trans f g c1 c2 c3 :
  changed f c1 c2 → changed g c2 c3 → changed (λ k u, g k (f k u)) c1 c3.
Proof.
  intros H12 H23 k. destruct (H12 k) as [U T], (H23 k) as [U' T'].
  rewrite U', U, T', T. by destruct (used_of c1 k).
Qed.

Lemma changed_ext f g c c' :
  changed f c c' → (∀ k u, used_of c k = Some u → f k u = g k u) → changed g c c'.
Proof.
  intros H Hfg k. destruct (H k) as [U T]. split; [|done]. rewrite U.
  destruct (used_of c k) as [u|] eqn:E; [|done]. simpl. by rewrite (Hfg k u E).
Qed.

Lemma acquire_slot_ok c name n :
  (∃ s, Dict.get name (_slots c) = Some s ∧ (used s + n ≤ total s)%Z) →
  wp (Capacity.on_slot name (Slot.acquire n)) c (λ r c', (∃ o, r = Ok o) ∧
    changed (λ k u, if decide (k = name) then (u + n)%Z else u) c c').
Proof.
  intros (s & Hs & Hle). apply wp_zoom_opt. rewrite Hs. unfold Slot.acquire. wp_steps.
  destruct (Z.ltb_spec (total s) (used s + n)); [lia|]. wp_steps. split; [eauto|].
  apply (changed_step c name _ (λ u, (u + n)%Z)); unfold used_of, total_of; by rewrite Hs.
Qed.

Lemma release_slot_ok c name n :
  wp (Capacity.on_slot name (Slot.release n)) c (λ r c', (∃ o, r = Ok o) ∧
    changed (λ k u, if decide (k = name) then Z.max 0 (u - n) else u) c c').
Proof.
  apply wp_zoom_opt. destruct (Dict.get name (_slots c)) as [s|] eqn:Hs.
  - unfold Slot.release. wp_steps. split; [eauto|].
    apply (changed_step c name _ (λ u, Z.max 0 (u - n))); unfold used_of, total_of; by rewrite Hs.
  - split; [eauto|]. intros k. split; [|done]. unfold used_of. case_decide; [subst; by rewrite Hs|].
    by destruct (Dict.get k (_slots c)).
Qed.

Lemma acquire_loop_ok r c :
  Dict.wf r → satisfiable c r →
  wp (foldM (λ _ '(name, count), _ ← Capacity.on_slot name (Slot.acquire count); mret tt) tt r) c
    (λ res c', res = Ok tt ∧ changed (λ k u, (u + asked r k)%Z) c c').
Proof.
  unfold Dict.wf. revert c. induction r as [|[name n] r IH]; intros c; simpl.
  { intros _ _. wp_steps. split; [done|]. intros k. split; [|done].
    unfold asked, Dict.get_default. simpl. destruct (used_of c k); simpl; [f_equal; lia|done]. }
  rewrite Dict.keys_cons, NoDup_cons. intros [Hn Hwf] Hsat. wp_steps.
  eapply wp_mono; [apply acquire_slot_ok, Hsat; simpl; by rewrite decide_True|].
  intros res c1 [[o ->] H1]. wp_steps. eapply wp_mono; [apply (IH c1 Hwf)|].
  - intros k m Hk. destruct (Hsat k m) as (s & Hs & Hle).
    { simpl. rewrite decide_False; [done|]. intros ->. apply Dict.get_None in Hn. congruence. }
    destruct (H1 k) as [U T]. unfold used_of, total_of in U, T. rewrite Hs in U, T.
    assert (k ≠ name) by (intros ->; apply Dict.get_None in Hn; congruence).
    simpl in U, T. rewrite decide_False in U by done.
    destruct (Dict.get k (_slots c1)) as [s1|]; [|done]. exists s1. split; [done|].
    injection U as ->. injection T as ->. done.
  - intros res c2 [-> H2]. split; [done|].
    eapply changed_ext; [exact (changed_trans _ _ _ _ _ H1 H2)|]. intros k u _. simpl.
    rewrite asked_cons. case_decide; [subst; rewrite (asked_absent r) by done; lia|done].
Qed.

Lemma release_loop_ok r c :
  Dict.wf r →
  wp (Capacity.release r) c
    (λ res c', res = Ok tt ∧
       changed (λ k u, if decide (k ∈ Dict.keys r) then Z.max 0 (u - asked r k) else u) c c').
Proof.
  unfold Dict.wf, Capacity.release. revert c. induction r as [|[name n] r IH]; intros c; simpl.
  { intros _. wp_steps. split; [done|]. intros k. split; [|done]. by destruct (used_of c k). }
  rewrite Dict.keys_cons, NoDup_cons. intros [Hn Hwf]. wp_steps.
  eapply wp_mono; [apply release_slot_ok|]. intros res c1 [[o ->] H1]. wp_steps.
  eapply wp_mono; [by apply (IH c1)|]. intros res c2 [-> H2]. split; [done|].
  eapply changed_ext; [exact (changed_trans _ _ _ _ _ H1 H2)|]. intros k u _. simpl.
  rewrite asked_cons. destruct (decide (k = name)) as [->|Hne].
  - rewrite decide_False by done. by rewrite decide_True by left.
  - destruct (decide (k ∈ Dict.keys r)); [by rewrite decide_True by (by right)|].
    rewrite decide_False; [done|]. by intros [?|?]%elem_of_cons.
Qed.

Lemma changed_wf f c c' :
  capacity_wf c → changed f c c' →
  (∀ k s, Dict.get k (_slots c) = Some s → (0 ≤ f k (used s) ≤ total s)%Z) → capacity_wf c'.
Proof.
  intros Hc Hch Hf k s' Hs'. destruct (Hch k) as [U T]. unfold used_of, total_of in U, T.
  rewrite Hs' in U, T. destruct (Dict.get k (_slots c)) as [s|] eqn:E; [|done].
  injection U as ->. injection T as ->. by apply Hf.
Qed.

(** C33: capacity is taken all or nothing and never oversubscribed. [try_acquire]
    answers [True] exactly when every resource asked for exists and has that
    much left, and then takes exactly what was asked of each; otherwise it takes
    nothing. A later [release] of the same amounts gives them back, and a
    release of anything never makes an amount negative. *)
Theorem try_acquire_all_or_nothing c r :
  capacity_wf c → requirements_wf r →
  wp (Capacity.try_acquire r) c (λ res c', ∃ ok : bool, res = Ok ok ∧
    (ok = true ↔ satisfiable c r) ∧ capacity_wf c' ∧
    if ok then
      changed (λ k u, (u + asked r k)%Z) c c' ∧
      wp (Capacity.release r) c' (λ res' c'', res' = Ok tt ∧ capacity_wf c'' ∧ changed (λ _ u, u) c c'')
    else c' = c).
Proof.
  intros Hc [Hwf Hpos]. unfold Capacity.try_acquire. wp_steps.
  pose proof (all_available_spec c r Hc (conj Hwf Hpos)) as Hspec.
  destruct (Capacity.all_available c r); simpl.
  2:{ wp_steps. exists false. split_and!; [done| |done|done]. by rewrite <- Hspec. }
  assert (Hsat : satisfiable c r) by tauto.
  wp_steps. eapply wp_mono; [by apply acquire_loop_ok|]. intros res c1 [-> H1]. wp_steps.
  exists true. split; [done|]. split; [tauto|].
  assert (Hbound : ∀ k s, Dict.get k (_slots c) = Some s → (0 ≤ used s + asked r k ≤ total s)%Z).
  { intros k s Hs. specialize (Hc k s Hs). specialize (Hpos k).
    unfold asked, Dict.get_default in *. destruct (Dict.get k r) as [n|] eqn:E; simpl in *; [|lia].
    destruct (Hsat k n E) as (s' & Hs' & ?). rewrite Hs in Hs'. injection Hs' as <-. lia. }
  split; [by eapply (changed_wf _ c)|]. split; [done|].
  eapply wp_mono; [by apply release_loop_ok|]. intros res c2 [-> H2]. split; [done|].
  assert (H12 : changed (λ _ u, u) c c2).
  { eapply changed_ext; [exact (changed_trans _ _ _ _ _ H1 H2)|]. intros k u Hu. simpl.
    unfold used_of in Hu. apply fmap_Some in Hu as (s & Hs & ->). specialize (Hc k s Hs).
    case_decide as Hk; [lia|]. rewrite (asked_absent r) by done. lia. }
  split; [|done]. eapply changed_wf; [exact Hc|exact H12|]. intros k s Hs. by apply (Hc k s Hs).
Qed.

Lemma try_acquire_all_or_nothing_witness :
  let c := mkCapacity [("gpu", mkResource "gpu" 4 1); ("llm", mkResource "llm" 2 2)] in
  let r := [("gpu", 3%Z)] in
  wp (Capacity.try_acquire r) c (λ res c', ∃ ok : bool, res = Ok ok ∧
    (ok = true ↔ satisfiable c r) ∧ capacity_wf c' ∧
    if ok then
      changed (λ k u, (u + asked r k)%Z) c c' ∧
      wp (Capacity.release r) c' (λ res' c'', res' = Ok tt ∧ capacity_wf c'' ∧ changed (λ _ u, u) c c'')
    else c' = c) ∧
  answer (Capacity.try_acquire r) c = Ok true.
Proof.
  intros c r. split; [|by vm_compute]. apply (try_acquire_all_or_nothing c r).
  - intros name s. simpl. repeat case_decide; intros; simplify_eq; simpl; lia.
  - split; [by apply (bool_decide_unpack _); vm_compute|].
    intros name. unfold asked, Dict.get_default. simpl. case_decide; simpl; lia.
Defined.
