(* ===== verification/HeapQ.v ===== *)
(** * Binary heaps

    The algorithms of Python's [heapq], which the priority queue uses:
    [heappush], [heappop] and [heapify] on a list, with [_siftdown] and
    [_siftup]. [lt] is the element comparison [<]. The theorems are the
    module's contract: the elements are kept and the first is least. *)

From S2P Require Import Prelude.

Section heapq.
Context {A : Type} (lt : A → A → bool).

Definition parent (i : nat) : nat := (i - 1) / 2.

(** The loop of [_siftdown(heap, startpos, pos)]; [pos] decreases, so [pos] is
    enough fuel. *)
Fixpoint siftdown_loop (fuel : nat) (heap : list A) (newitem : A) (startpos pos : nat) : list A :=
  match fuel with
  | O => <[pos := newitem]> heap
  | S fuel =>
    if decide (startpos < pos) then
      match heap !! parent pos with
      | Some p =>
        if lt newitem p then siftdown_loop fuel (<[pos := p]> heap) newitem startpos (parent pos)
        else <[pos := newitem]> heap
      | None => <[pos := newitem]> heap
      end
    else <[pos := newitem]> heap
  end.

Definition siftdown (heap : list A) (startpos pos : nat) : list A :=
  match heap !! pos with
  | Some newitem => siftdown_loop pos heap newitem startpos pos
  | None => heap
  end.

(** The smaller child: the right one unless the left is less. *)
Definition smaller_child (heap : list A) (childpos : nat) : nat :=
  match heap !! childpos, heap !! S childpos with
  | Some l, Some r => if lt l r then childpos else S childpos
  | _, _ => childpos
  end.

(** The loop of [_siftup(heap, pos)]: the hole goes down to a leaf; its position
    increases, so the length is enough fuel. *)
Fixpoint siftup_loop (fuel : nat) (heap : list A) (pos : nat) : list A * nat :=
  match fuel with
  | O => (heap, pos)
  | S fuel =>
    let childpos := 2 * pos + 1 in
    if decide (childpos < length heap) then
      let childpos := smaller_child heap childpos in
      match heap !! childpos with
      | Some c => siftup_loop fuel (<[pos := c]> heap) childpos
      | None => (heap, pos)
      end
    else (heap, pos)
  end.

Definition siftup (heap : list A) (pos : nat) : list A :=
  match heap !! pos with
  | Some newitem =>
    let '(heap, leaf) := siftup_loop (length heap) heap pos in
    siftdown (<[leaf := newitem]> heap) pos leaf
  | None => heap
  end.

Definition heappush (heap : list A) (item : A) : list A :=
  siftdown (heap ++ [item]) 0 (length heap).

(** [lastelt = heap.pop()] and the rest; [None] is the [IndexError]. *)
Definition heappop (heap : list A) : option (A * list A) :=
  match last heap with
  | None => None
  | Some lastelt =>
    match take (length heap - 1) heap with
    | [] => Some (lastelt, [])
    | returnitem :: heap => Some (returnitem, siftup (lastelt :: heap) 0)
    end
  end.

(** [for i in reversed(range(n//2)): _siftup(x, i)] *)
Definition heapify (heap : list A) : list A :=
  foldl siftup heap (reverse (seq 0 (length heap / 2))).

(** ** Permutations *)

Lemma insert_cons_perm (l : list A) j x y :
  l !! j = Some y → y :: <[j := x]> l ≡ₚ x :: l.
Proof.
  revert j. induction l as [|a l IH]; intros [|j] Hj; simplify_eq/=; [done..|apply Permutation_swap|].
  rewrite Permutation_swap, IH by done. apply Permutation_swap.
Qed.

Lemma insert_insert_perm (l : list A) i j x y :
  i ≠ j → i < length l → l !! j = Some y → <[j := x]> (<[i := y]> l) ≡ₚ <[i := x]> l.
Proof.
  revert i j. induction l as [|a l IH]; intros [|i] [|j] Hne Hi Hj; simplify_eq/=; try lia.
  - by apply insert_cons_perm.
  - destruct (lookup_lt_is_Some_2 l i) as [b Hb]; [lia|].
    apply (insert_cons_perm l i x) in Hb as Hx. apply (insert_cons_perm l i y) in Hb as Hy.
    apply (Permutation_cons_inv (a := b)).
    transitivity (x :: y :: l); [rewrite Permutation_swap; by f_equiv|].
    transitivity (y :: x :: l); [apply Permutation_swap|].
    symmetry. rewrite Permutation_swap. by f_equiv.
  - f_equiv. apply IH; [lia|lia|done].
Qed.

Lemma parent_lt i : 0 < i → parent i < i.
Proof. intros. unfold parent. apply Nat.Div0.div_lt_upper_bound; lia. Qed.

Lemma siftdown_loop_perm fuel heap x start pos :
  pos < length heap → siftdown_loop fuel heap x start pos ≡ₚ <[pos := x]> heap.
Proof.
  revert heap pos. induction fuel as [|fuel IH]; intros heap pos Hpos; simpl; [done|].
  case_decide as Hs; [|done]. destruct (heap !! parent pos) as [p|] eqn:Hp; [|done].
  destruct (lt x p); [|done]. pose proof (parent_lt pos ltac:(lia)).
  rewrite IH by (rewrite length_insert; lia). by apply insert_insert_perm; [lia|lia|].
Qed.

Lemma siftdown_perm heap start pos : siftdown heap start pos ≡ₚ heap.
Proof.
  unfold siftdown. destruct (heap !! pos) as [x|] eqn:Hx; [|done].
  rewrite siftdown_loop_perm by (by eapply lookup_lt_Some). by rewrite list_insert_id.
Qed.

Lemma length_siftdown heap start pos : length (siftdown heap start pos) = length heap.
Proof. by rewrite siftdown_perm. Qed.

Lemma smaller_child_cases heap c :
  c < length heap →
  smaller_child heap c < length heap ∧ (smaller_child heap c = c ∨ smaller_child heap c = S c).
Proof.
  intros Hc. unfold smaller_child. destruct (heap !! c); [|by auto].
  destruct (heap !! S c) eqn:Hr; [|by auto]. apply lookup_lt_Some in Hr. case_match; auto.
Qed.

(** The hole filled with [x] is a permutation throughout. *)
Lemma siftup_loop_perm fuel heap pos x :
  pos < length heap →
  let '(heap', leaf) := siftup_loop fuel heap pos in
  leaf < length heap' ∧ length heap' = length heap ∧ <[leaf := x]> heap' ≡ₚ <[pos := x]> heap.
Proof.
  revert heap pos. induction fuel as [|fuel IH]; intros heap pos Hpos; cbn [siftup_loop]; [done|].
  case_decide as Hc; [|done]. destruct (smaller_child_cases heap _ Hc) as [Hlt Hch].
  destruct (heap !! smaller_child heap (2 * pos + 1)) as [c|] eqn:Hl; [|done].
  set (ch := smaller_child heap (2 * pos + 1)) in *.
  specialize (IH (<[pos := c]> heap) ch). rewrite length_insert in IH. specialize (IH Hlt).
  destruct (siftup_loop fuel (<[pos := c]> heap) ch) as [heap' leaf].
  destruct IH as (? & ? & Hperm). split_and!; [done|done|].
  rewrite Hperm. apply insert_insert_perm; [lia|done|done].
Qed.

Lemma siftup_perm heap pos : siftup heap pos ≡ₚ heap.
Proof.
  unfold siftup. destruct (heap !! pos) as [x|] eqn:Hx; [|done].
  pose proof (siftup_loop_perm (length heap) heap pos x (lookup_lt_Some _ _ _ Hx)) as H.
  destruct (siftup_loop (length heap) heap pos) as [heap' leaf]. destruct H as (? & ? & Hperm).
  by rewrite siftdown_perm, Hperm, list_insert_id.
Qed.

Lemma heappush_perm heap x : heappush heap x ≡ₚ x :: heap.
Proof. unfold heappush. rewrite siftdown_perm. by rewrite Permutation_app_comm. Qed.

Lemma heapify_perm heap : heapify heap ≡ₚ heap.
Proof.
  unfold heapify. generalize (reverse (seq 0 (length heap / 2))). intros l.
  revert heap. induction l as [|i l IH]; intros heap; simpl; [done|]. by rewrite IH, siftup_perm.
Qed.

(** ** The heap order *)

Context (lt_asym : ∀ x y, lt x y = true → lt y x = false).
Context (le_trans : ∀ x y z, lt y x = false → lt z y = false → lt z x = false).

Lemma parent_iff i p : 0 < i → parent i = p ↔ i = 2 * p + 1 ∨ i = 2 * p + 2.
Proof.
  intros Hi. unfold parent. pose proof (Nat.div_mod_eq (i - 1) 2).
  pose proof (Nat.mod_upper_bound (i - 1) 2). lia.
Qed.

(** [i] is below [s] in the tree. *)
Inductive desc (s : nat) : nat → Prop :=
  | desc_refl : desc s s
  | desc_child c : 0 < c → desc s (parent c) → desc s c.

Lemma desc_le s i : desc s i → s ≤ i.
Proof. induction 1 as [|c Hc _ IH]; [done|]. pose proof (parent_lt c Hc). lia. Qed.

Lemma desc_parent s i : desc s i → s < i → desc s (parent i).
Proof. intros Hd Hi. inversion Hd; subst; [lia|done]. Qed.

Lemma desc_root i : desc 0 i.
Proof.
  induction (Nat.lt_wf_0 i) as [i _ IH]. destruct i as [|i]; [constructor|].
  apply desc_child; [lia|]. apply IH, parent_lt. lia.
Qed.

(** The order holds at [i]: its parent is not greater. *)
Definition ordered (l : list A) (i : nat) : Prop :=
  ∀ x y, l !! parent i = Some x → l !! i = Some y → lt y x = false.

Definition heap_from (s : nat) (l : list A) : Prop := ∀ i, 0 < i → s ≤ parent i → ordered l i.

Definition is_heap : list A → Prop := heap_from 0.

(** The children of [pos] are not less than its parent. *)
Definition bridged (s : nat) (l : list A) (pos : nat) : Prop :=
  ∀ c x y, 0 < c → parent c = pos → s < pos →
    l !! parent pos = Some x → l !! c = Some y → lt y x = false.

Lemma siftdown_loop_heap fuel heap x s pos :
  pos < length heap → pos ≤ fuel → desc s pos →
  (∀ i, 0 < i → s ≤ parent i → i ≠ pos → ordered (<[pos := x]> heap) i) →
  bridged s (<[pos := x]> heap) pos →
  heap_from s (siftdown_loop fuel heap x s pos).
Proof using lt_asym le_trans.
  revert heap pos. induction fuel as [|fuel IH]; intros heap pos Hpos Hfuel Hd Hord Hbr; simpl.
  { intros i Hi Hs. apply Hord; lia. }
  case_decide as Hlt.
  2:{ intros i Hi Hs. apply Hord; [done|done|]. intros ->.
      pose proof (desc_le _ _ Hd). pose proof (parent_lt _ Hi). lia. }
  assert (Hp0 : 0 < pos) by lia. pose proof (parent_lt pos Hp0) as Hpp.
  destruct (lookup_lt_is_Some_2 heap (parent pos)) as [p Hp]; [lia|]. rewrite Hp.
  assert (Hp' : <[pos := x]> heap !! parent pos = Some p) by (by rewrite list_lookup_insert_ne by lia).
  pose proof (desc_parent _ _ Hd Hlt) as Hdp. pose proof (desc_le _ _ Hdp) as Hsp.
  destruct (lt x p) eqn:Exp.
  - apply IH; [rewrite length_insert; lia|lia|done| |].
    + intros i Hi Hs Hne a b. destruct (decide (i = pos)) as [->|Hip].
      * rewrite list_lookup_insert_eq by (rewrite length_insert; lia).
        rewrite list_lookup_insert_ne, list_lookup_insert_eq by lia. intros [= <-] [= <-]. by apply lt_asym.
      * rewrite (list_lookup_insert_ne _ _ i), (list_lookup_insert_ne _ _ i) by done.
        intros Ha Hb. assert (Hb' : <[pos := x]> heap !! i = Some b) by (by rewrite list_lookup_insert_ne).
        destruct (decide (parent i = parent pos)) as [E|E].
        -- rewrite E, list_lookup_insert_eq in Ha by (rewrite length_insert; lia). injection Ha as <-.
           apply (le_trans _ p); [by apply lt_asym|]. apply (Hord i); [done|done|done| |done]. by rewrite E.
        -- rewrite list_lookup_insert_ne in Ha by done. destruct (decide (parent i = pos)) as [E'|E'].
           ++ rewrite E', list_lookup_insert_eq in Ha by done. injection Ha as <-. by apply (Hbr i).
           ++ rewrite list_lookup_insert_ne in Ha by done. apply (Hord i); [done|done|done| |done].
              by rewrite list_lookup_insert_ne.
    + intros c a b Hc Hcp Hs Ha Hb. pose proof (parent_lt (parent pos) ltac:(lia)).
      rewrite !list_lookup_insert_ne in Ha by lia.
      assert (Hap : lt p a = false).
      { apply (Hord (parent pos)); [lia| |lia| |done].
        - by apply desc_le, desc_parent.
        - by rewrite list_lookup_insert_ne by lia. }
      pose proof (parent_lt c Hc). rewrite list_lookup_insert_ne in Hb by lia.
      destruct (decide (c = pos)) as [->|Hcpos].
      * rewrite list_lookup_insert_eq in Hb by done. by injection Hb as <-.
      * rewrite list_lookup_insert_ne in Hb by done. apply (le_trans _ p); [done|].
        apply (Hord c); [done|lia|done|by rewrite Hcp|by rewrite list_lookup_insert_ne].
  - intros i Hi Hs. destruct (decide (i = pos)) as [->|Hip]; [|by apply Hord].
    intros a b. rewrite Hp', list_lookup_insert_eq by done. by intros [= <-] [= <-].
Qed.

(** The hole of [siftup]: the order holds away from it and across it. *)
Definition holed (s : nat) (l : list A) (pos : nat) : Prop :=
  desc s pos ∧ bridged s l pos ∧
  ∀ i, 0 < i → s ≤ parent i → i ≠ pos → parent i ≠ pos → ordered l i.

Lemma lt_irrefl z : lt z z = false.
Proof using lt_asym. destruct (lt z z) eqn:E; [|done]. by rewrite (lt_asym z z E) in E. Qed.

(** The chosen child is not greater than its sibling. *)
Lemma smaller_child_least heap pos c x y :
  2 * pos + 1 < length heap → 0 < c → parent c = pos →
  heap !! smaller_child heap (2 * pos + 1) = Some x → heap !! c = Some y → lt y x = false.
Proof using lt_asym.
  intros Hlt Hc Hcp Hx Hy. apply (parent_iff c pos Hc) in Hcp. unfold smaller_child in Hx.
  replace (2 * pos + 2) with (S (2 * pos + 1)) in Hcp by lia.
  destruct (heap !! (2 * pos + 1)) as [l|] eqn:El; [|by apply lookup_ge_None in El; lia].
  pose proof lt_irrefl.
  destruct (heap !! S (2 * pos + 1)) as [r|] eqn:Er.
  - destruct (lt l r) eqn:Elr; destruct Hcp as [-> | ->]; simplify_eq; auto.
  - destruct Hcp as [-> | ->]; simplify_eq; auto.
Qed.

Lemma holed_step s heap pos x :
  holed s heap pos → 2 * pos + 1 < length heap →
  heap !! smaller_child heap (2 * pos + 1) = Some x →
  holed s (<[pos := x]> heap) (smaller_child heap (2 * pos + 1)).
Proof using lt_asym.
  intros (Hd & Hbr & Hord) Hlt Hx.
  destruct (smaller_child_cases heap _ Hlt) as [Hchl Hch].
  set (ch := smaller_child heap (2 * pos + 1)) in *.
  assert (Hcp : parent ch = pos) by (apply parent_iff; lia).
  pose proof (desc_le _ _ Hd) as Hsp. split; [|split].
  - apply desc_child; [lia|by rewrite Hcp].
  - intros k a b Hk Hkp Hs. rewrite Hcp, list_lookup_insert_eq by lia. intros [= <-].
    pose proof (parent_lt k Hk). rewrite list_lookup_insert_ne by lia. intros Hb.
    apply (Hord k); [done|lia|lia|lia|by rewrite Hkp|done].
  - intros i Hi Hs Hne Hne' a b. destruct (decide (i = pos)) as [->|Hip].
    + pose proof (parent_lt pos Hi). rewrite list_lookup_insert_ne, list_lookup_insert_eq by lia.
      intros Ha [= <-]. by apply (Hbr ch); [lia|done|lia| |].
    + rewrite (list_lookup_insert_ne _ _ i) by done. intros Ha Hb.
      destruct (decide (parent i = pos)) as [E|E].
      * rewrite E, list_lookup_insert_eq in Ha by lia. injection Ha as <-.
        by apply (smaller_child_least heap pos i).
      * rewrite list_lookup_insert_ne in Ha by done. by apply (Hord i).
Qed.

Lemma siftup_loop_heap fuel heap s pos :
  pos < length heap → length heap - pos ≤ fuel → holed s heap pos →
  let '(heap', leaf) := siftup_loop fuel heap pos in
  holed s heap' leaf ∧ leaf < length heap' ∧ length heap' ≤ 2 * leaf + 1.
Proof using lt_asym.
  revert heap pos. induction fuel as [|fuel IH]; intros heap pos Hpos Hfuel Hh; [lia|].
  cbn [siftup_loop]. case_decide as Hlt; [|by split_and!; [|lia..]].
  destruct (smaller_child_cases heap _ Hlt) as [Hchl Hch].
  destruct (lookup_lt_is_Some_2 _ _ Hchl) as [x Hx]. rewrite Hx.
  apply IH; [by rewrite length_insert|rewrite length_insert; lia|by apply holed_step].
Qed.

Lemma siftup_heap heap s : s < length heap → heap_from (S s) heap → heap_from s (siftup heap s).
Proof using lt_asym le_trans.
  intros Hs Hh. unfold siftup. destruct (lookup_lt_is_Some_2 _ _ Hs) as [x Hx]. rewrite Hx.
  assert (Hhole : holed s heap s).
  { split; [constructor|]. split; [intros c a b _ _ ?; lia|].
    intros i Hi Hsi Hne Hne'. apply Hh; [done|lia]. }
  pose proof (siftup_loop_heap (length heap) heap s s Hs ltac:(lia) Hhole) as Hloop.
  destruct (siftup_loop (length heap) heap s) as [h leaf].
  destruct Hloop as ((Hd & Hbr & Hord) & Hleaf & Hlen). unfold siftdown.
  rewrite list_lookup_insert_eq by done.
  assert (Hno : ∀ c y, 0 < c → parent c = leaf → h !! c = Some y → False).
  { intros c y Hc Hcp%(parent_iff c leaf Hc) Hy%lookup_lt_Some. lia. }
  apply siftdown_loop_heap; rewrite ?length_insert, ?list_insert_insert_eq; [done|done|done| |].
  - intros i Hi Hsi Hne a b. rewrite (list_lookup_insert_ne _ _ i) by done. intros Ha Hb.
    destruct (decide (parent i = leaf)) as [E|E]; [by destruct (Hno i b)|].
    rewrite list_lookup_insert_ne in Ha by done. by apply (Hord i).
  - intros c a b Hc Hcp _ _. pose proof (parent_lt c Hc).
    rewrite list_lookup_insert_ne by lia. intros Hb. by destruct (Hno c b).
Qed.

(** ** The contract of the module *)

Lemma heap_nil : is_heap [].
Proof. intros i _ _ x y Hx. by rewrite lookup_nil in Hx. Qed.

Lemma heappush_heap heap x : is_heap heap → is_heap (heappush heap x).
Proof using lt_asym le_trans.
  intros Hh. unfold heappush, siftdown.
  rewrite lookup_app_r, Nat.sub_diag by done. simpl.
  assert (Hid : <[length heap := x]> (heap ++ [x]) = heap ++ [x]).
  { apply list_insert_id. rewrite lookup_app_r, Nat.sub_diag by done. done. }
  apply siftdown_loop_heap; rewrite ?Hid; [rewrite length_app; simpl; lia|done|apply desc_root| |].
  - intros i Hi _ Hne a b Ha Hb. pose proof (parent_lt i Hi).
    assert (i < length heap) by (apply lookup_lt_Some in Hb; rewrite length_app in Hb; simpl in Hb; lia).
    rewrite lookup_app_l in Ha, Hb by lia. by apply (Hh i); [|lia| |].
  - intros c a b Hc Hcp _ _ Hb. apply lookup_lt_Some in Hb. rewrite length_app in Hb. simpl in Hb.
    pose proof (parent_lt c Hc). lia.
Qed.

Lemma heap_root_least l r : is_heap l → l !! 0 = Some r → ∀ i y, l !! i = Some y → lt y r = false.
Proof using lt_asym le_trans.
  intros Hh Hr i. induction (Nat.lt_wf_0 i) as [i _ IH]. intros y Hy.
  destruct (decide (i = 0)) as [->|Hi].
  - simplify_eq. apply lt_irrefl.
  - pose proof (parent_lt i ltac:(lia)) as Hp.
    destruct (lookup_lt_is_Some_2 l (parent i)) as [p Hpar]; [apply lookup_lt_Some in Hy; lia|].
    apply (le_trans _ p); [by apply (IH (parent i))|]. by apply (Hh i); [lia|lia| |].
Qed.

Lemma heappop_spec l :
  is_heap l →
  match heappop l with
  | None => l = []
  | Some (r, l') => l ≡ₚ r :: l' ∧ is_heap l' ∧ ∀ y, y ∈ l → lt y r = false
  end.
Proof using lt_asym le_trans.
  intros Hh. unfold heappop. destruct (last l) as [z|] eqn:Hz; [|by apply last_None].
  apply last_Some in Hz as [l0 ->]. rewrite length_app. simpl.
  replace (length l0 + 1 - 1) with (length l0) by lia. rewrite take_app_length.
  destruct l0 as [|r l0]; simpl.
  { split; [done|]. split; [intros i Hi _ a b; by rewrite lookup_nil|].
    intros y ->%list_elem_of_singleton. apply lt_irrefl. }
  split_and!.
  - rewrite siftup_perm. f_equiv. by rewrite Permutation_app_comm.
  - apply siftup_heap; [simpl; lia|]. intros i Hi Hs a b Ha Hb.
    pose proof (parent_lt i Hi). destruct i as [|i]; [lia|]. destruct (parent (S i)) as [|p] eqn:Ep; [lia|].
    simpl in Ha, Hb. apply (Hh (S i)); [lia|lia| |].
    + rewrite Ep. simpl. rewrite lookup_app_l; [done|]. by eapply lookup_lt_Some.
    + simpl. rewrite lookup_app_l; [done|]. by eapply lookup_lt_Some.
  - intros y [i Hi]%list_elem_of_lookup. by eapply (heap_root_least (r :: l0 ++ [z]) r Hh).
Qed.

Lemma heapify_heap l : is_heap (heapify l).
Proof using lt_asym le_trans.
  unfold heapify.
  assert (Hgen : ∀ k h, k ≤ length h → heap_from k h → is_heap (foldl siftup h (reverse (seq 0 k)))).
  { induction k as [|k IH]; intros h Hk Hh; [done|].
    rewrite seq_S, reverse_snoc. simpl. apply IH.
    - rewrite siftup_perm. lia.
    - by apply siftup_heap. }
  apply Hgen.
  - apply Nat.Div0.div_le_upper_bound. lia.
  - intros i Hi Hs a b _ Hb%lookup_lt_Some. exfalso.
    pose proof (Nat.div_mod_eq (length l) 2). pose proof (Nat.mod_upper_bound (length l) 2).
    destruct (proj1 (parent_iff i (parent i) Hi) eq_refl); lia.
Qed.
End heapq.
