(* ===== verification/Priority.v ===== *)
(** * Priority queue

    [broker/priority.py]: [PriorityQueue], a heap of entries ordered by priority,
    then by the monotonic clock, then by a sequence number. Methods hold the
    queue's lock, so each is one step. *)

From S2P Require Import Prelude PyValue HeapQ.

(** [Priority]: a lower number is a higher priority. *)
Inductive Priority : Type := CRITICAL | HIGH | NORMAL | BULK.

#[export] Instance Priority_eq_dec : EqDecision Priority.
Proof. solve_decision. Defined.

Definition priority_value (p : Priority) : Z :=
  match p with CRITICAL => 0 | HIGH => 1 | NORMAL => 2 | BULK => 3 end.

(** [Priority(v)] *)
Definition Priority_of (v : Z) : option Priority :=
  find_by (λ p, (priority_value p =? v)%Z) [CRITICAL; HIGH; NORMAL; BULK].

Record _PriorityItem (T : Type) : Type := mkItem {
  it_priority : Z;
  timestamp : Z;
  sequence : Z;
  item : T;
}.
Arguments mkItem {T}.
Arguments it_priority {T}.
Arguments timestamp {T}.
Arguments sequence {T}.
Arguments item {T}.

(** The order of the dataclass: lexicographic, the item not compared. *)
Definition item_lt {T} (a b : _PriorityItem T) : bool :=
  ((it_priority a <? it_priority b)
   || ((it_priority a =? it_priority b)
       && ((timestamp a <? timestamp b)
           || ((timestamp a =? timestamp b) && (sequence a <? sequence b)))))%Z%bool.

Record PriorityQueue (T : Type) : Type := mkPQ { _heap : list (_PriorityItem T); _seq : Z }.
Arguments mkPQ {T}.
Arguments _heap {T}.
Arguments _seq {T}.

Module PQ.
Section queue.
Context {T : Type}.

Definition new : PriorityQueue T := mkPQ [] 0.

Definition put (x : T) (priority : Priority) : M (PriorityQueue T) unit :=
  modify (λ q, mkPQ (_heap q) (_seq q + 1));;
  now ← utcnow;
  q ← get_state;
  let entry := mkItem (priority_value priority) now (_seq q) x in
  modify (λ q, mkPQ (heappush item_lt (_heap q) entry) (_seq q)).

Definition get : M (PriorityQueue T) (option T) :=
  q ← get_state;
  match heappop item_lt (_heap q) with
  | None => mret None
  | Some (e, heap) => modify (λ q, mkPQ heap (_seq q));; mret (Some (item e))
  end.

Definition peek : M (PriorityQueue T) (option (T * Priority)) :=
  q ← get_state;
  match _heap q with
  | [] => mret None
  | entry :: _ =>
    match Priority_of (it_priority entry) with
    | Some p => mret (Some (item entry, p))
    | None => raise (ValueError (pretty (it_priority entry) +:+ " is not a valid Priority"))
    end
  end.

(** The rebuilt list and the number of entries changed. *)
Definition adjusted (predicate : T → bool) (p : Priority) (heap : list (_PriorityItem T))
    : list (_PriorityItem T) * Z :=
  foldl (λ '(new_heap, n) entry,
    if predicate (item entry)
    then (new_heap ++ [mkItem (priority_value p) (timestamp entry) (sequence entry) (item entry)], (n + 1)%Z)
    else (new_heap ++ [entry], n)) ([], 0%Z) heap.

Definition adjust_priority (predicate : T → bool) (p : Priority) : M (PriorityQueue T) Z :=
  q ← get_state;
  let '(new_heap, n) := adjusted predicate p (_heap q) in
  modify (λ q, mkPQ (heapify item_lt new_heap) (_seq q));;
  mret n.

Definition len (q : PriorityQueue T) : Z := Z.of_nat (length (_heap q)).

Definition count_by_priority (q : PriorityQueue T) (p : Priority) : Z :=
  foldl (λ n entry, if (it_priority entry =? priority_value p)%Z then (n + 1)%Z else n) 0%Z (_heap q).
End queue.
End PQ.

(** ** Specification: the entries as a multiset *)

Inductive pq_op (T : Type) : Type :=
  | PPut (x : T) (p : Priority)
  | PGet
  | PAdjust (f : T → bool) (p : Priority).
Arguments PPut {T}.
Arguments PGet {T}.
Arguments PAdjust {T}.

Inductive pq_reply (T : Type) : Type :=
  | PUnit
  | PItem (x : option T)
  | PCount (n : Z).
Arguments PUnit {T}.
Arguments PItem {T}.
Arguments PCount {T}.

Definition exec_pq {T} (op : pq_op T) : M (PriorityQueue T) (pq_reply T) :=
  match op with
  | PPut x p => PQ.put x p;; mret PUnit
  | PGet => x ← PQ.get; mret (PItem x)
  | PAdjust f p => n ← PQ.adjust_priority f p; mret (PCount n)
  end.

Definition reprioritise {T} (f : T → bool) (p : Priority) (e : _PriorityItem T) : _PriorityItem T :=
  if f (item e) then mkItem (priority_value p) (timestamp e) (sequence e) (item e) else e.

(** What each operation may answer and leave, from the entries [l]. *)
Definition pq_spec {T} (op : pq_op T) (l : list (_PriorityItem T)) (seq : Z)
    (r : pq_reply T) (l' : list (_PriorityItem T)) (seq' : Z) : Prop :=
  match op with
  | PPut x p => ∃ now, r = PUnit ∧ seq' = (seq + 1)%Z ∧
      l' ≡ₚ mkItem (priority_value p) now (seq + 1) x :: l
  | PGet => seq' = seq ∧
      (l = [] ∧ l' = [] ∧ r = PItem None ∨
       ∃ e, l ≡ₚ e :: l' ∧ r = PItem (Some (item e)) ∧ ∀ e', e' ∈ l' → item_lt e e' = true)
  | PAdjust f p => seq' = seq ∧ l' ≡ₚ reprioritise f p <$> l ∧
      r = PCount (Z.of_nat (length (filter (λ e, f (item e)) l)))
  end.

(** A heap of entries with distinct sequence numbers already handed out. *)
Definition pq_wf {T} (q : PriorityQueue T) : Prop :=
  is_heap item_lt (_heap q) ∧ NoDup (sequence <$> _heap q) ∧
  Forall (λ e, sequence e ≤ _seq q)%Z (_heap q).

Section priority.
Context {T : Type}.
Implicit Types (q : PriorityQueue T) (a b c : _PriorityItem T).

Lemma item_lt_asym a b : item_lt a b = true → item_lt b a = false.
Proof. unfold item_lt. lia. Qed.

Lemma item_le_trans a b c : item_lt b a = false → item_lt c b = false → item_lt c a = false.
Proof. unfold item_lt. lia. Qed.

Lemma item_lt_total a b : sequence a ≠ sequence b → item_lt b a = false → item_lt a b = true.
Proof. unfold item_lt. lia. Qed.

Lemma adjusted_spec f p (l : list (_PriorityItem T)) :
  PQ.adjusted f p l = (reprioritise f p <$> l, Z.of_nat (length (filter (λ e, f (item e)) l))).
Proof.
  unfold PQ.adjusted. cut (∀ acc n, foldl (λ '(new_heap, n) entry,
    if f (item entry)
    then (new_heap ++ [mkItem (priority_value p) (timestamp entry) (sequence entry) (item entry)], (n + 1)%Z)
    else (new_heap ++ [entry], n)) (acc, n) l =
    (acc ++ (reprioritise f p <$> l), (n + Z.of_nat (length (filter (λ e, f (item e)) l)))%Z)).
  { intros H. by rewrite H. }
  induction l as [|e l IH]; intros acc n; simpl; [by rewrite app_nil_r, Z.add_0_r|].
  rewrite filter_cons. unfold reprioritise at 1. destruct (f (item e)); rewrite IH, <- app_assoc; simpl.
  - f_equal. lia.
  - done.
Qed.

Lemma sequence_reprioritise f p (l : list (_PriorityItem T)) :
  sequence <$> (reprioritise f p <$> l) = sequence <$> l.
Proof.
  rewrite <- list_fmap_compose. apply list_fmap_ext. intros i e _. simpl. unfold reprioritise.
  by destruct (f (item e)).
Qed.

Lemma pq_wf_perm q l' (Hh : is_heap item_lt l') s' :
  l' ≡ₚ _heap q → pq_wf q → s' = _seq q → pq_wf (mkPQ l' s').
Proof. intros Hp (_ & Hnd & Hall) ->. split_and!; simpl; [done|by rewrite Hp|by rewrite Hp]. Qed.
End priority.

(** C31: the priority queue serves the most urgent entry first, and equal
    priorities in the order they came. Every operation of the heap keeps its
    invariant and simulates the multiset of entries: [put] adds one entry with a
    fresh sequence number; [get] removes and returns an entry that is strictly
    before all others by priority, time and sequence number, or nothing when the
    queue is empty; [adjust_priority] changes the priority of exactly the
    matching entries, keeping their age, and counts them. *)
Theorem priority_queue_simulates {T} (op : pq_op T) (q : PriorityQueue T) :
  pq_wf q →
  wp (exec_pq op) q (λ r q', pq_wf q' ∧ ∃ rep, r = Ok rep ∧
    pq_spec op (_heap q) (_seq q) rep (_heap q') (_seq q')).
Proof.
  intros (Hheap & Hnd & Hall). destruct op as [x p| |f p]; simpl.
  - unfold PQ.put. wp_steps. simpl. set (e := mkItem _ _ _ _).
    pose proof (heappush_perm item_lt (_heap q) e) as Hperm. split.
    + split_and!; simpl.
      * apply heappush_heap; [apply item_lt_asym|apply item_le_trans|done].
      * rewrite Hperm. simpl. apply NoDup_cons. split; [|done].
        intros (e' & He' & Hin)%list_elem_of_fmap. rewrite Forall_forall in Hall.
        specialize (Hall e' Hin). simpl in He'. lia.
      * rewrite Hperm. apply Forall_cons. split; [simpl; lia|]. eapply Forall_impl; [done|]. simpl; lia.
    + eexists. split; [done|]. by eexists.
  - unfold PQ.get. wp_steps.
    pose proof (heappop_spec item_lt item_lt_asym item_le_trans (_heap q) Hheap) as Hpop.
    destruct (heappop item_lt (_heap q)) as [[e h]|]; wp_steps.
    + destruct Hpop as (Hperm & Hh & Hmin). simpl.
      assert (Hnd' : NoDup (sequence <$> e :: h)) by (by rewrite <- Hperm).
      simpl in Hnd'. apply NoDup_cons in Hnd' as [He Hnd'].
      assert (Hall' : Forall (λ e, sequence e ≤ _seq q)%Z (e :: h)) by (by rewrite <- Hperm).
      apply Forall_cons in Hall' as [_ Hall']. split; [by split_and!|].
      eexists. split; [done|]. split; [done|]. right. exists e. split; [done|]. split; [done|].
      intros e' He'. apply item_lt_total.
      * intros E. apply He. rewrite E. by apply list_elem_of_fmap_2.
      * apply Hmin. rewrite Hperm. by right.
    + split; [by split_and!|]. eexists. split; [done|]. split; [done|]. by left.
  - unfold PQ.adjust_priority. wp_steps. rewrite adjusted_spec. wp_steps. simpl.
    pose proof (heapify_perm item_lt (reprioritise f p <$> _heap q)) as Hperm. split.
    + split_and!; simpl.
      * apply heapify_heap; [apply item_lt_asym|apply item_le_trans].
      * by rewrite Hperm, sequence_reprioritise.
      * rewrite Hperm, Forall_fmap. eapply Forall_impl; [done|]. intros e He. simpl.
        unfold reprioritise. by destruct (f (item e)).
    + eexists. split; [done|]. by split_and!.
Qed.

(** Three entries, the last one raised to the top. *)
Definition sample_pq : PriorityQueue string :=
  after (PQ.put "a" NORMAL;; PQ.put "b" BULK;; PQ.put "c" NORMAL;;
         _ ← PQ.adjust_priority (λ x, bool_decide (x = "b")) CRITICAL; mret tt) PQ.new.

Lemma priority_queue_simulates_witness :
  pq_wf (PQ.new (T := string)) ∧
  wp (exec_pq PGet) (PQ.new (T := string)) (λ r q', pq_wf q' ∧ ∃ rep, r = Ok rep ∧
    pq_spec PGet [] 0 rep (_heap q') (_seq q')) ∧
  answer (x ← PQ.get; y ← PQ.get; z ← PQ.get; w ← PQ.get; mret [x; y; z; w]) sample_pq =
    Ok [Some "b"; Some "a"; Some "c"; None].
Proof.
  assert (Hwf : pq_wf (PQ.new (T := string))).
  { split_and!; [by apply heap_nil|constructor|constructor]. }
  split; [exact Hwf|]. split; [exact (priority_queue_simulates PGet PQ.new Hwf)|].
  vm_compute. reflexivity.
Defined.
