(* ===== verification/SqlBackend.v ===== *)
(** * The SQL backend

    [storage/sqlalchemy/models.py], [storage/sqlalchemy/repo.py],
    [backends/sql_backend.py]. The database is not part of the repository: the
    [jobs] table is the interface [SqlTable] (the statements the repository
    issues, through SQLAlchemy) with the laws [SqlLaws] (what SQL documents of
    them). A JSON column is a Python value, or its text when the driver does not
    decode it. A [with engine.begin()] block is one
    transaction; [claim_interleaved] looks inside the one of [set_claimed]. *)

From S2P Require Import Prelude PyValue Json Domain Backend MemoryBackend Meta.

(** ** The table *)

(** A row of [jobs]. The times are instants; [col_naive] says that they come
    without a time zone. *)
Record job_row : Type := mkRow {
  col_job_id : string;
  col_job_type : string;
  col_queue_name : string;
  col_payload : pyval;
  col_meta : pyval;
  col_status : string;
  col_priority : Z;
  col_claimed_by : option string;
  col_created_at : Z;
  col_updated_at : Z;
  col_naive : bool;
}.

#[export] Instance job_row_eta : Eta job_row := λ r, mkRow
  (col_job_id r) (col_job_type r) (col_queue_name r) (col_payload r) (col_meta r) (col_status r)
  (col_priority r) (col_claimed_by r) (col_created_at r) (col_updated_at r) (col_naive r).

(** The statements. [select_rows where order limit]; without [ORDER BY] the order
    is the one that holds of everything. [update_rows where set] answers the
    number of rows matched. *)
Class SqlTable (T : Type) := {
  insert_row : job_row → M T unit;
  select_rows : (job_row → bool) → (job_row → job_row → bool) → option Z → M T (list job_row);
  update_rows : (job_row → bool) → (job_row → job_row) → M T Z;
  ping : M T unit;
}.

Definition limited {A} (limit : option Z) (l : list A) : list A :=
  match limit with Some n => take (Z.to_nat n) l | None => l end.

(** A [DateTime(timezone=True)] column as the databases have it: PostgreSQL keeps
    the instant, to the microsecond, and hands out aware datetimes; SQLite keeps
    the fields of the UTC datetime and hands out naive ones; so does MySQL, whose
    [DATETIME] counts seconds. [zone] says whether datetimes come back aware and
    [time] is the precision. *)
Definition as_stored (zone : bool) (time : Z → Z) (r : job_row) : job_row :=
  r <| col_created_at := time (col_created_at r) |> <| col_updated_at := time (col_updated_at r) |>
    <| col_naive := negb zone |>.

(** What SQL says of the statements: the primary key is unique; a query answers
    the rows that match in an order that respects [ORDER BY], ties in any order; an
    update changes the rows that match and no others. *)
Class SqlLaws (T : Type) `{SqlTable T} := {
  rows : T → list job_row;
  keeps_zone : bool;
  db_time : Z → Z;
  db_time_ok t : datetime_ok t → datetime_ok (db_time t);
  insert_ok t r :
    wp (insert_row r) t (λ res t',
      if decide (col_job_id r ∈ col_job_id <$> rows t) then t' = t ∧ ∃ x, res = Err x
      else res = Ok tt ∧ rows t' ≡ₚ as_stored keeps_zone db_time r :: rows t);
  select_ok t w leb limit :
    (∀ x y, leb x y = true ∨ leb y x = true) →
    (∀ x y z, leb x y = true → leb y z = true → leb x z = true) →
    from_option (λ n, 0 ≤ n)%Z True limit →
    wp (select_rows w leb limit) t (λ res t', t' = t ∧ ∃ l,
      l ≡ₚ filter (λ r, w r = true) (rows t) ∧ StronglySorted (λ x y, leb x y = true) l ∧
      res = Ok (limited limit l));
  update_ok t w f :
    (∀ r, w r = true → col_job_id (f r) = col_job_id r) →
    wp (update_rows w f) t (λ res t',
      res = Ok (Z.of_nat (length (filter (λ r, w r = true) (rows t)))) ∧
      rows t' ≡ₚ (λ r, if w r then as_stored keeps_zone db_time (f r) else r) <$> rows t);
  ping_ok t : wp ping t (λ _ t', t' = t);
}.

(** ** Rows and jobs *)

(** [payload = row\["payload"\]], decoded when it is text. *)
Definition row_payload (v : pyval) : result (dict pyval) :=
  v ← match v with PStr s => json_loads s | v => Ok v end;
  match v with PDict d => Ok d | _ => Err type_error end.

(** [meta = row.get("meta") or {}], decoded when it is text. *)
Definition row_meta (v : pyval) : result (dict pyval) :=
  if negb (truthy v) then Ok []
  else
    v ← match v with PStr s => json_loads s | v => Ok v end;
    match v with PDict d => Ok d | _ => Err type_error end.

(** [JobStatus(row\["status"\])] *)
Definition row_status (v : string) : result JobStatus :=
  match JobStatus_of v with
  | Some s => Ok s
  | None => Err (ValueError (repr_str v +:+ " is not a valid JobStatus"))
  end.

Definition row_to_job (row : job_row) : result Job :=
  payload ← row_payload (col_payload row);
  meta ← row_meta (col_meta row);
  st ← row_status (col_status row);
  meta_fields meta
    (new_job (col_job_id row) (col_job_type row) (col_queue_name row) payload st
       (col_priority row) (col_created_at row) (col_updated_at row)
     <| claimed_by := col_claimed_by row |> <| naive_times := col_naive row |>).

(** The row [enqueue] inserts. *)
Definition job_to_row (j : Job) : job_row :=
  mkRow (job_id j) (job_type j) (queue_name j) (PDict (payload j)) (PDict (to_meta_dict j))
    (value (status j)) (priority j) (claimed_by j) (created_at j) (updated_at j) (naive_times j).

(** ** [SQLAlchemyJobRepository] *)

(** The handle on the database, kept by the repository and the backend. *)
Record SQLQueueBackend (T : Type) : Type := mkSql { sql_table : T }.
Arguments mkSql {T}.
Arguments sql_table {T}.

Module Repo.
Section repo.
Context {T : Type} `{SqlTable T}.

(** One transaction. *)
Definition transaction {A} : M T A → M (SQLQueueBackend T) A := zoom sql_table (λ t _, mkSql t).

Definition enqueue (job : Job) : M (SQLQueueBackend T) string :=
  transaction (insert_row (job_to_row job));;
  mret (job_id job).

(** [.order_by(priority.desc(), created_at.asc())] *)
Definition dispatch_before (r1 r2 : job_row) : bool :=
  ((col_priority r2 <? col_priority r1)
   || ((col_priority r1 =? col_priority r2) && (col_created_at r1 <=? col_created_at r2)))%Z%bool.

Definition unordered (r1 r2 : job_row) : bool := true.

Definition queued_where (jt qn : option string) (r : job_row) : bool :=
  bool_decide (col_status r = value QUEUED)
  && (if truthy_opt_str jt then bool_decide (Some (col_job_type r) = jt) else true)
  && (if truthy_opt_str qn then bool_decide (Some (col_queue_name r) = qn) else true).

(** [\[row_to_job(dict(r)) for r in rows\]] *)
Definition jobs_of (rows : list job_row) : result (list Job) := mapM row_to_job rows.

Definition queued (limit : Z) (jt qn : option string) : M (SQLQueueBackend T) (list Job) :=
  rows ← transaction (select_rows (queued_where jt qn) dispatch_before (Some limit));
  lift (jobs_of rows).

(** [self.jobs.c.job_id == job_id] *)
Definition has_id (id : string) (r : job_row) : bool := bool_decide (col_job_id r = id).

(** [conn.execute(select(...).where(job_id == ...)).mappings().one_or_none()] *)
Definition one_or_none (id : string) : M T (option job_row) :=
  rows ← select_rows (has_id id) unordered None;
  match rows with
  | [] => mret None
  | [r] => mret (Some r)
  | _ => raise (UserError "MultipleResultsFound" "Multiple rows were found when one or none was required")
  end.

Definition get (id : string) : M (SQLQueueBackend T) (option Job) :=
  row ← transaction (one_or_none id);
  match row with
  | None => mret None
  | Some row => job ← lift (row_to_job row); mret (Some job)
  end.

(** [dict(row\["meta"\] or {})] *)
Definition copy_meta (v : pyval) : result (dict pyval) :=
  if negb (truthy v) then Ok [] else match v with PDict d => Ok d | _ => Err type_error end.

(** Lines 107-120: the guarded update. *)
Definition claim_update (id host_id worker_id : string) (meta : dict pyval) (now : Z) : M T Z :=
  update_rows (λ r, has_id id r && bool_decide (col_status r = value QUEUED))
    (λ r, r <| col_status := value RUNNING |>
            <| col_claimed_by := Some (host_id +:+ ":" +:+ worker_id) |>
            <| col_meta := PDict meta |>
            <| col_updated_at := now |>).

Definition set_claimed (id host_id worker_id : string) : M (SQLQueueBackend T) bool :=
  transaction (
    row ← one_or_none id;
    match row with
    | None => mret false
    | Some row =>
      meta ← lift (copy_meta (col_meta row));
      let meta := claimed_meta host_id worker_id meta in
      now ← utcnow;
      rowcount ← claim_update id host_id worker_id meta now;
      mret (rowcount =? 1)%Z
    end).

Definition set_status (id status' : string) (clear_claim : bool) : M (SQLQueueBackend T) bool :=
  now ← utcnow;
  rowcount ← transaction (update_rows (has_id id) (λ r,
    let r := r <| col_status := status' |> <| col_updated_at := now |> in
    if clear_claim then r <| col_claimed_by := None |> else r));
  mret (rowcount =? 1)%Z.

Definition heartbeat (id : string) : M (SQLQueueBackend T) bool :=
  rowcount ← transaction (now ← utcnow; update_rows (has_id id) (λ r, r <| col_updated_at := now |>));
  mret (rowcount =? 1)%Z.

Definition all_jobs : M (SQLQueueBackend T) (list Job) :=
  rows ← transaction (select_rows (λ _, true) unordered None);
  lift (jobs_of rows).

Definition queue_status : M (SQLQueueBackend T) (dict Z) :=
  rows ← transaction (select_rows (λ _, true) unordered None);
  mret (foldl (λ counts r, let k := col_status r in
               Dict.set k (Dict.get_default k 0 counts + 1)%Z counts) [] rows).

Definition health_check : M (SQLQueueBackend T) bool :=
  try_except (transaction ping;; mret true) (λ _, mret false).

(** Lines 168-173 and their copies: the metadata to change, decoded when the
    driver hands over text, empty when it cannot be read. *)
Definition editable_meta (v : pyval) : result (dict pyval) :=
  match v with
  | PDict d => Ok d
  | PStr s => match loads s with
              | Some (PDict d) => Ok d
              | Some _ => Err type_error
              | None => Ok []
              end
  | _ => Ok []
  end.

(** The body shared by [record_attempt], [update_progress] and [store_result]. *)
Definition edit_meta (id : string) (edit : dict pyval → result (dict pyval)) : M (SQLQueueBackend T) bool :=
  transaction (
    row ← one_or_none id;
    match row with
    | None => mret false
    | Some row =>
      meta ← lift (editable_meta (col_meta row));
      meta ← lift (edit meta);
      now ← utcnow;
      rowcount ← update_rows (has_id id)
        (λ r, r <| col_meta := PDict meta |> <| col_updated_at := now |>);
      mret (rowcount =? 1)%Z
    end).

Definition record_attempt (id : string) (error : option string) : M (SQLQueueBackend T) bool :=
  edit_meta id (λ meta,
    attempts ← match Dict.get "attempts" meta with
               | None => Ok 0%Z
               | Some (PInt n) => Ok n
               | Some (PBool b) => Ok (if b then 1 else 0)%Z
               | Some _ => Err type_error
               end;
    let meta := Dict.set "attempts" (PInt (attempts + 1)) meta in
    Ok (match error with Some e => Dict.set "last_error" (PStr e) meta | None => meta end)).

Definition update_progress (id : string) (p : dict pyval) : M (SQLQueueBackend T) bool :=
  edit_meta id (λ meta, Ok (Dict.set "progress" (PDict p) meta)).

Definition store_result (id : string) (res : pyval) : M (SQLQueueBackend T) bool :=
  edit_meta id (λ meta, Ok (Dict.set "result" res meta)).

(** The jobs handed out are built from the rows: copies. *)
Definition deref (j : Job) : M (SQLQueueBackend T) Job := mret j.
Definition assign (j : Job) (f : Job → Job) : M (SQLQueueBackend T) unit := mret tt.
End repo.
End Repo.

(** ** [SQLQueueBackend] *)

#[export] Instance sql_backend {T} `{SqlTable T} : QueueBackend (SQLQueueBackend T) := {|
  enqueue := Repo.enqueue;
  dequeue := Repo.queued;
  claim := Repo.set_claimed;
  release id := Repo.set_status id (value QUEUED) true;
  heartbeat := Repo.heartbeat;
  get := Repo.get;
  update_status id s := Repo.set_status id s true;
  get_queue_status := Repo.queue_status;
  health_check := Repo.health_check;
  all_jobs := Repo.all_jobs;
  record_attempt := Repo.record_attempt;
  update_progress := Repo.update_progress;
  store_result := Repo.store_result;
  deref := Repo.deref;
  assign := Repo.assign;
|}.

(** ** Tables in memory

    The rows in order of insertion, their JSON columns always decoded, with the
    datetimes of one of three databases: the instances that show the laws can
    hold. MySQL truncates to the second, its mode TIME_TRUNCATE_FRACTIONAL. *)
Inductive database : Type := PostgreSQL | SQLite | MySQL.

Definition aware_database (d : database) : bool := match d with PostgreSQL => true | _ => false end.
Definition database_time (d : database) (t : Z) : Z :=
  match d with MySQL => t / 1000000 * 1000000 | _ => t end.
Definition kept_row (d : database) : job_row → job_row := as_stored (aware_database d) (database_time d).

Record db_rows (d : database) : Type := mkRows { db_list : list job_row }.
Arguments mkRows {d}.
Arguments db_list {d}.

#[export] Instance rows_table {d} : SqlTable (db_rows d) := {|
  insert_row r := t ← gets db_list;
    if bool_decide (col_job_id r ∈ col_job_id <$> t)
    then raise (UserError "IntegrityError" "UNIQUE constraint failed: jobs.job_id")
    else modify (λ t, mkRows (db_list t ++ [kept_row d r]));
  select_rows w leb limit :=
    gets (λ t, limited limit (stable_sort leb (filter (λ r, w r = true) (db_list t))));
  update_rows w f := t ← gets db_list;
    modify (λ t, mkRows ((λ r, if w r then kept_row d (f r) else r) <$> db_list t));;
    mret (Z.of_nat (length (filter (λ r, w r = true) t)));
  ping := mret tt;
|}.

Lemma database_time_ok d t : datetime_ok t → datetime_ok (database_time d t).
Proof.
  unfold datetime_ok. destruct d; cbn [database_time]; [done|done|].
  intros [Hlo Hhi]. pose proof (Z.div_mod t 1000000 ltac:(done)). pose proof (Z.mod_pos_bound t 1000000 ltac:(done)).
  pose proof (Z.div_le_mono _ _ 1000000 ltac:(done) Hlo) as Hd. change (-62135596800000000 / 1000000)%Z with (-62135596800)%Z in Hd.
  lia.
Qed.

Lemma rows_insert_ok {d} (t : db_rows d) r :
  wp (insert_row r) t (λ res t',
    if decide (col_job_id r ∈ col_job_id <$> db_list t) then t' = t ∧ ∃ x, res = Err x
    else res = Ok tt ∧ db_list t' ≡ₚ kept_row d r :: db_list t).
Proof.
  simpl. wp_steps. case_decide as H; [rewrite bool_decide_eq_true_2 by done|
    rewrite bool_decide_eq_false_2 by done]; wp_steps.
  - split; [done|]. eauto.
  - split; [done|]. simpl. by rewrite (comm (++)).
Qed.

Lemma rows_select_ok {d} (t : db_rows d) w leb limit :
  (∀ x y, leb x y = true ∨ leb y x = true) →
  (∀ x y z, leb x y = true → leb y z = true → leb x z = true) →
  from_option (λ n, 0 ≤ n)%Z True limit →
  wp (select_rows w leb limit) t (λ res t', t' = t ∧ ∃ l,
    l ≡ₚ filter (λ r, w r = true) (db_list t) ∧ StronglySorted (λ x y, leb x y = true) l ∧
    res = Ok (limited limit l)).
Proof.
  intros Htot Htr _. simpl. wp_steps. split; [done|].
  exists (stable_sort leb (filter (λ r, w r = true) (db_list t))). split; [apply stable_sort_perm|].
  split; [|done]. by apply stable_sort_sorted_by.
Qed.

Lemma rows_update_ok {d} (t : db_rows d) w f :
  (∀ r, w r = true → col_job_id (f r) = col_job_id r) →
  wp (update_rows w f) t (λ res t',
    res = Ok (Z.of_nat (length (filter (λ r, w r = true) (db_list t)))) ∧
    db_list t' ≡ₚ (λ r, if w r then kept_row d (f r) else r) <$> db_list t).
Proof. intros _. simpl. by wp_steps. Qed.

Lemma rows_ping_ok {d} (t : db_rows d) : wp ping t (λ _ t', t' = t).
Proof. simpl. by wp_steps. Qed.

#[export] Instance rows_table_laws {d} : SqlLaws (db_rows d) := {|
  rows := db_list;
  keeps_zone := aware_database d;
  db_time := database_time d;
  db_time_ok := database_time_ok d;
  insert_ok := rows_insert_ok;
  select_ok := rows_select_ok;
  update_ok := rows_update_ok;
  ping_ok := rows_ping_ok;
|}.

(** ** Reading rows back *)

(** A row that can be read, with its metadata decoded. *)
Definition row_ok (r : job_row) : Prop :=
  (∃ j, row_to_job r = Ok j) ∧ ∃ m, col_meta r = PDict m.

(** What a job shows of its row. *)
Definition shows (r : job_row) (j : Job) : Prop :=
  job_id j = col_job_id r ∧ value (status j) = col_status r ∧ job_type j = col_job_type r ∧
  queue_name j = col_queue_name r ∧ priority j = col_priority r ∧ created_at j = col_created_at r.

Lemma row_to_job_shows r j : row_to_job r = Ok j → shows r j.
Proof.
  unfold row_to_job. destruct (row_payload (col_payload r)) as [p|]; [|done]. simpl.
  destruct (row_meta (col_meta r)) as [m|]; [|done]. simpl. unfold row_status.
  destruct (JobStatus_of (col_status r)) as [s|] eqn:E; [|done]. simpl. intros Hm.
  apply JobStatus_of_Some in E.
  destruct (meta_fields_total _ _ _ (new_job (col_job_id r) (col_job_type r) (col_queue_name r) p s
       (col_priority r) (col_created_at r) (col_updated_at r) <| claimed_by := col_claimed_by r |> <| naive_times := col_naive r |>) Hm)
    as (j' & Hj' & ?). rewrite Hm in Hj'. injection Hj' as <-. unfold shows. simpl in *. naive_solver.
Qed.

Lemma row_ok_status r : row_ok r → ∃ s, col_status r = value s.
Proof. intros [[j Hj] _]. exists (status j). symmetry. by apply (row_to_job_shows _ _ Hj). Qed.

(** A row with the payload and the metadata of a readable one is readable. *)
Lemma row_ok_columns r r' :
  row_ok r → col_payload r' = col_payload r → col_meta r' = col_meta r →
  (∃ s, col_status r' = value s) → row_ok r'.
Proof.
  unfold row_ok, row_to_job. intros [[j Hj] Hm'] -> -> [s ->]. split; [|done]. clear Hm'.
  destruct (row_payload (col_payload r)) as [p|]; [|done]. simpl in *.
  destruct (row_meta (col_meta r)) as [m|]; [|done]. simpl in *.
  unfold row_status in *. destruct (JobStatus_of (col_status r)); [|done]. simpl in *.
  rewrite JobStatus_of_value. simpl.
  destruct (meta_fields_total _ _ _ (new_job (col_job_id r') (col_job_type r') (col_queue_name r') p s
       (col_priority r') (col_created_at r') (col_updated_at r') <| claimed_by := col_claimed_by r' |> <| naive_times := col_naive r' |>) Hj)
    as (j' & Hj' & _). eauto.
Qed.

Lemma row_meta_dict d : row_meta (PDict d) = Ok d.
Proof. by destruct d. Qed.

Lemma row_ok_meta r m : row_ok r → col_meta r = PDict m → meta_ok m.
Proof.
  unfold row_ok, row_to_job. intros [[j Hj] _] Hm.
  destruct (row_payload (col_payload r)) as [p|]; [|done]. cbn [mbind result_bind] in *.
  rewrite Hm, row_meta_dict in Hj. cbn [mbind result_bind] in *.
  destruct (row_status (col_status r)) as [s|]; [|done]. eexists _, j. exact Hj.
Qed.

Lemma row_ok_claim_meta r m h w :
  row_ok r → meta_ok m →
  row_ok
    (r <| col_meta := PDict (claimed_meta h w m) |>).
Proof.
  unfold row_ok, row_to_job. intros [[j Hj] [m0 Hm0]] (i & i' & Hm).
  cbn [set_field col_payload col_meta col_status]. split; [|by eexists].
  destruct (row_payload (col_payload r)) as [p|]; [|done]. cbn [mbind result_bind] in *.
  rewrite Hm0, row_meta_dict in Hj. cbn [mbind result_bind] in *.
  destruct (row_status (col_status r)) as [s|]; [|done]. cbn [mbind result_bind] in *.
  rewrite row_meta_dict. cbn [mbind result_bind].
  match goal with |- ∃ x, meta_fields ?m ?j = _ =>
    pose proof (meta_fields_claim _ _ _ j h w Hm) as Hok; destruct (meta_fields m j) end;
    [by eexists|done].
Qed.

(** The guarded update of a claim keeps the row readable. *)
Lemma row_ok_claim r m h w now c :
  row_ok r → meta_ok m →
  row_ok (r <| col_status := value RUNNING |> <| col_claimed_by := c |>
    <| col_meta := PDict (claimed_meta h w m) |>
    <| col_updated_at := now |>).
Proof.
  intros Hr Hm. eapply row_ok_columns; [by apply (row_ok_claim_meta r m h w)|done|done|by exists RUNNING].
Qed.

Lemma row_ok_stored zone time r : row_ok r → row_ok (as_stored zone time r).
Proof. intros Hr. eapply row_ok_columns; [exact Hr|done|done|exact (row_ok_status r Hr)]. Qed.

(** ** What survives the table *)

(** The job of the row [enqueue] sends: the columns and the fields of
    [to_meta_dict] survive, the others are back at their defaults. *)
Definition carried (j : Job) : Job :=
  j <| resources := [] |> <| depends_on := [] |> <| attempt := 0%Z |> <| max_attempts := 3%Z |>
    <| next_run_at := None |> <| started_at := None |> <| finished_at := None |>
    <| last_heartbeat_at := None |> <| last_error := None |> <| result_ref := None |>
    <| progress := None |> <| run_timeout_ms := None |> <| claim_timeout_ms := None |>
    <| trace_id := None |> <| version := 0%Z |>.

Lemma row_to_job_to_row j : row_to_job (job_to_row j) = Ok (carried j).
Proof.
  unfold row_to_job, job_to_row. cbn [col_payload col_meta col_status].
  unfold row_payload. cbn [mbind result_bind]. rewrite row_meta_dict. cbn [mbind result_bind].
  unfold row_status. rewrite JobStatus_of_value. cbn [mbind result_bind].
  unfold meta_fields. rewrite context_fields_job. cbn [mbind result_bind]. rewrite run_fields_job.
  by destruct j.
Qed.

(** The job as it is read back after [enqueue]: the times as the database keeps
    them, with or without their zone. *)
Definition persisted (zone : bool) (time : Z → Z) (j : Job) : Job :=
  carried j <| created_at := time (created_at j) |> <| updated_at := time (updated_at j) |>
    <| naive_times := negb zone |>.

Lemma row_to_job_stored zone time j : row_to_job (as_stored zone time (job_to_row j)) = Ok (persisted zone time j).
Proof.
  pose proof (row_to_job_to_row (j <| created_at := time (created_at j) |> <| updated_at := time (updated_at j) |>
    <| naive_times := negb zone |>)) as H. exact H.
Qed.

Lemma row_ok_job j : row_ok (job_to_row j).
Proof. split; eexists; [apply row_to_job_to_row|done]. Qed.

(** ** Invariant and abstraction *)

Section sql.
Context {T : Type} `{SqlLaws T}.
Implicit Types (b : SQLQueueBackend T).

Definition table_rows b : list job_row := rows (sql_table b).

(** The primary key holds and every row can be read. *)
Definition sql_wf b : Prop :=
  NoDup (col_job_id <$> table_rows b) ∧ Forall row_ok (table_rows b).

(** What the rows hold under their key, when [f] reads one. *)
Definition keyed {A} (f : job_row → option A) (l : list job_row) : gmap string A :=
  list_to_map (omap (λ r, pair (col_job_id r) <$> f r) l).

Definition sql_statuses b : queue_spec := keyed (λ r, JobStatus_of (col_status r)) (table_rows b).

Definition row_job r : option Job := match row_to_job r with Ok j => Some j | Err _ => None end.

Definition sql_contents b : job_map := keyed row_job (table_rows b).

Lemma row_job_Some r j : row_job r = Some j ↔ row_to_job r = Ok j.
Proof. unfold row_job. destruct (row_to_job r); naive_solver. Qed.

Lemma keyed_nodup {A} (f : job_row → option A) l :
  NoDup (col_job_id <$> l) → NoDup (omap (λ r, pair (col_job_id r) <$> f r) l).*1.
Proof.
  intros Hnd. eapply sublist_NoDup; [exact Hnd|]. clear. induction l as [|r l IH]; [done|].
  rewrite fmap_cons. cbn [omap list_omap]. destruct (f r); cbn; [by apply sublist_skip|by apply sublist_cons].
Qed.

Lemma keyed_lookup {A} (f : job_row → option A) l id x :
  NoDup (col_job_id <$> l) →
  keyed f l !! id = Some x ↔ ∃ r, r ∈ l ∧ col_job_id r = id ∧ f r = Some x.
Proof.
  intros Hnd. unfold keyed. rewrite <- elem_of_list_to_map by (by apply keyed_nodup).
  rewrite list_elem_of_omap. setoid_rewrite fmap_Some. naive_solver.
Qed.

Lemma sql_lookup b id s :
  sql_wf b → sql_statuses b !! id = Some s ↔
  ∃ r, r ∈ table_rows b ∧ col_job_id r = id ∧ col_status r = value s.
Proof.
  intros [Hnd _]. unfold sql_statuses. rewrite keyed_lookup by done. by setoid_rewrite JobStatus_of_Some.
Qed.

Lemma sql_contents_lookup b id j :
  sql_wf b → sql_contents b !! id = Some j ↔
  ∃ r, r ∈ table_rows b ∧ col_job_id r = id ∧ row_to_job r = Ok j.
Proof.
  intros [Hnd _]. unfold sql_contents. rewrite keyed_lookup by done. by setoid_rewrite row_job_Some.
Qed.

Lemma sql_contents_ids b id j : sql_wf b → sql_contents b !! id = Some j → job_id j = id.
Proof.
  intros Hwf (r & _ & <- & Hj)%sql_contents_lookup; [|done]. by destruct (row_to_job_shows _ _ Hj).
Qed.

Lemma sql_contents_statuses b : sql_wf b → sql_statuses b = status <$> sql_contents b.
Proof.
  intros Hwf. apply map_eq. intros id. apply option_eq. intros s.
  rewrite lookup_fmap, fmap_Some, sql_lookup by done. setoid_rewrite sql_contents_lookup; [|done]. split.
  - intros (r & Hr & Hid & Hs). pose proof (proj2 Hwf) as Hok. rewrite Forall_forall in Hok.
    destruct (Hok r Hr) as [[j Hj] _]. exists j. split; [by exists r|].
    destruct (row_to_job_shows _ _ Hj) as (_ & Hst & _). apply (inj value). congruence.
  - intros (j & (r & Hr & Hid & Hj) & ->). exists r. split_and!; [done|done|].
    by destruct (row_to_job_shows _ _ Hj) as (_ & -> & _).
Qed.

Lemma sql_lookup_None b id : sql_wf b → sql_statuses b !! id = None ↔ id ∉ col_job_id <$> table_rows b.
Proof.
  intros Hwf. rewrite list_elem_of_fmap. split.
  - intros Hn (r & -> & Hr). pose proof (proj2 Hwf) as Hok. rewrite Forall_forall in Hok.
    destruct (row_ok_status _ (Hok r Hr)) as [s Hs].
    assert (sql_statuses b !! col_job_id r = Some s) by (apply sql_lookup; [done|eauto]). congruence.
  - intros Hn. destruct (sql_statuses b !! id) as [s|] eqn:E; [|done].
    apply sql_lookup in E as (r & Hr & <- & _); [|done]. destruct Hn. eauto.
Qed.

Lemma sql_row b r : sql_wf b → r ∈ table_rows b →
  ∃ s, col_status r = value s ∧ sql_statuses b !! col_job_id r = Some s.
Proof.
  intros Hwf Hr. pose proof (proj2 Hwf) as Hok. rewrite Forall_forall in Hok.
  destruct (row_ok_status _ (Hok r Hr)) as [s Hs]. exists s. split; [done|].
  apply sql_lookup; eauto.
Qed.

(** Rows changed one by one, each keeping its key: [g] says what happens to the
    status of job [id]; the others keep theirs. *)
Lemma sql_changed b t' id (F : job_row → job_row) (g : JobStatus → JobStatus) :
  sql_wf b → rows t' ≡ₚ F <$> table_rows b →
  (∀ r, r ∈ table_rows b → col_job_id (F r) = col_job_id r ∧ row_ok (F r) ∧
    ∀ s, col_status r = value s → col_status (F r) = value (if decide (id = col_job_id r) then g s else s)) →
  sql_wf (mkSql t') ∧ sql_statuses (mkSql t') = alter g id (sql_statuses b).
Proof.
  intros Hwf Hp HF.
  assert (Hids : col_job_id <$> (F <$> table_rows b) = col_job_id <$> table_rows b).
  { rewrite <- list_fmap_compose. apply list_fmap_ext. intros i r Hr.
    apply HF. by eapply list_elem_of_lookup_2. }
  assert (Hwf' : sql_wf (mkSql t')).
  { unfold sql_wf, table_rows. simpl. rewrite Hp, Hids. split; [apply Hwf|].
    apply Forall_fmap, Forall_forall. intros r Hr. by apply HF. }
  split; [done|]. apply map_eq. intros k. apply option_eq. intros s'.
  rewrite sql_lookup, lookup_alter_Some by done. unfold table_rows at 1. simpl. setoid_rewrite Hp.
  setoid_rewrite list_elem_of_fmap. split.
  - intros (_ & (r & -> & Hr) & <- & Hs'). destruct (HF r Hr) as (Hid & _ & Hst). rewrite Hid.
    destruct (sql_row b r Hwf Hr) as (s & Hs & Hl). rewrite (Hst s Hs) in Hs'.
    apply (inj value) in Hs'. case_decide; [left|right]; naive_solver.
  - intros Hk. assert (∃ s, sql_statuses b !! k = Some s ∧ s' = if decide (id = k) then g s else s)
      as (s & Hl & ->).
    { destruct Hk as [(<- & s & ? & ?)|[? ?]]; [exists s; by rewrite decide_True|
        exists s'; by rewrite decide_False]. }
    apply sql_lookup in Hl as (r & Hr & <- & Hs); [|done].
    destruct (HF r Hr) as (Hid & _ & Hst). exists (F r). split; [by exists r|].
    split; [done|]. by apply Hst.
Qed.

(** The rows with one identifier: none or one. *)
Lemma rows_with_id b id :
  sql_wf b → (filter (λ r, Repo.has_id id r = true) (table_rows b) = [] ∧ sql_statuses b !! id = None) ∨
  (∃ r, filter (λ r, Repo.has_id id r = true) (table_rows b) = [r] ∧ r ∈ table_rows b ∧ col_job_id r = id).
Proof.
  intros Hwf. destruct Hwf as [Hnd Hok] eqn:E. clear E.
  destruct (filter _ _) as [|r [|r' l]] eqn:E.
  - left. split; [done|]. apply sql_lookup_None; [done|]. rewrite list_elem_of_fmap.
    intros (r & -> & Hr). apply (filter_nil_iff _ _) in E. rewrite Forall_forall in E.
    apply (E r Hr). by apply bool_decide_eq_true.
  - right. exists r. assert (Hr : r ∈ filter (λ r, Repo.has_id id r = true) (table_rows b)) by (rewrite E; left).
    apply list_elem_of_filter in Hr as [Hid Hr]. apply bool_decide_eq_true in Hid. by split_and!.
  - exfalso. assert (Hs : NoDup (col_job_id <$> filter (λ r, Repo.has_id id r = true) (table_rows b))).
    { eapply sublist_NoDup; [exact Hnd|]. apply fmap_sublist, sublist_filter. }
    assert (Hall : ∀ x, x ∈ filter (λ r, Repo.has_id id r = true) (table_rows b) → col_job_id x = id).
    { intros x [Hx _]%list_elem_of_filter. by apply bool_decide_eq_true in Hx. }
    rewrite E in Hs, Hall. simpl in Hs. apply NoDup_cons in Hs as [Hn _]. destruct Hn.
    rewrite (Hall r), (Hall r'); left || (right; left).
Qed.

(** The lookup of one row inside a transaction. *)
Lemma one_or_none_ok b id Q :
  sql_wf b →
  (∀ r, r ∈ table_rows b → col_job_id r = id → Q (Ok (Some r)) (sql_table b)) →
  (sql_statuses b !! id = None → Q (Ok None) (sql_table b)) →
  wp (Repo.one_or_none id) (sql_table b) Q.
Proof.
  intros Hwf Hsome Hnone. unfold Repo.one_or_none. wp_steps.
  eapply wp_mono; [apply (select_ok _ _ Repo.unordered None); [by left|done|done]|].
  intros res t' (-> & l & Hl & _ & ->). simpl.
  destruct (rows_with_id b id Hwf) as [[Hf Hn]|(r & Hf & Hr & Hid)];
    unfold table_rows in Hf; rewrite Hf in Hl.
  - apply Permutation_nil_r in Hl as ->. wp_steps. by apply Hnone.
  - apply Permutation_singleton_r in Hl as ->. wp_steps. by apply Hsome.
Qed.

(** An update of one row by key. *)
Lemma update_by_id b id (f : job_row → job_row) g :
  sql_wf b → (∀ r, col_job_id (f r) = col_job_id r) →
  (∀ r, r ∈ table_rows b → row_ok (f r)) →
  (∀ r s, col_status r = value s → col_status (f r) = value (g s)) →
  wp (update_rows (Repo.has_id id) f) (sql_table b) (λ res t', sql_wf (mkSql t') ∧
    res = Ok (if decide (is_Some (sql_statuses b !! id)) then 1 else 0)%Z ∧
    sql_statuses (mkSql t') = alter g id (sql_statuses b)).
Proof.
  intros Hwf Hid Hok Hst. eapply wp_mono; [apply update_ok; intros r _; apply Hid|].
  intros res t' [-> Hp]. destruct (sql_changed b t' id
    (λ r, if Repo.has_id id r then as_stored keeps_zone db_time (f r) else r) g Hwf Hp) as [Hwf' Hs'].
  { intros r Hr. unfold Repo.has_id. pose proof (proj2 Hwf) as Hall. rewrite Forall_forall in Hall.
    case_bool_decide as E.
    - split_and!; [exact (Hid r)|by apply row_ok_stored, Hok|].
      intros s Hs. rewrite decide_True by done. exact (Hst r s Hs).
    - split_and!; [done|by apply Hall|]. intros s Hs. by rewrite decide_False. }
  split; [done|]. split; [|done]. unfold Repo.has_id in *.
  destruct (rows_with_id b id Hwf) as [[Hf Hn]|(r & Hf & Hr & <-)];
    unfold table_rows in Hf; unfold Repo.has_id in Hf; rewrite Hf; simpl.
  - rewrite decide_False; [done|]. rewrite Hn. by intros [].
  - destruct (sql_row b r Hwf Hr) as (s & _ & Hs). rewrite decide_True; [done|]. by exists s.
Qed.

Lemma rowcount_one (P : Prop) `{Decision P} : ((if decide P then 1 else 0) =? 1)%Z = bool_decide P.
Proof. by case_bool_decide; case_decide. Qed.

(** ** The contract *)

Lemma sql_set_status_ok b id s :
  sql_wf b →
  wp (Repo.set_status id (value s) true) b (λ r b', sql_wf b' ∧
    r = Ok (bool_decide (is_Some (sql_statuses b !! id))) ∧
    sql_statuses b' = alter (λ _, s) id (sql_statuses b)).
Proof.
  intros Hwf. unfold Repo.set_status. wp_steps. apply wp_zoom.
  eapply wp_mono; [apply (update_by_id b id _ (λ _, s)); [done|done| |done]|].
  - intros r Hr. pose proof (proj2 Hwf) as Hall. rewrite Forall_forall in Hall.
    by eapply row_ok_columns; [apply (Hall r Hr)|..]; [..|exists s].
  - intros res t' (Hwf' & -> & Hs'). cbn beta iota. wp_steps. rewrite rowcount_one. by split_and!.
Qed.

Lemma sql_heartbeat_ok b id :
  sql_wf b →
  wp (Repo.heartbeat id) b (λ r b', sql_wf b' ∧ sql_statuses b' = sql_statuses b ∧ ∃ v, r = Ok v).
Proof.
  intros Hwf. unfold Repo.heartbeat. wp_steps. apply wp_zoom. wp_steps.
  eapply wp_mono; [apply (update_by_id b id _ (λ s, s)); [done|done| |done]|].
  - intros r Hr. pose proof (proj2 Hwf) as Hall. rewrite Forall_forall in Hall.
    eapply row_ok_columns; [apply (Hall r Hr)|done|done|]. by apply (row_ok_status _ (Hall r Hr)).
  - intros res t' (Hwf' & -> & Hs'). cbn beta iota. wp_steps. split_and!; [done| |by eexists].
    rewrite Hs'. by apply alter_id.
Qed.

Lemma sql_get_ok b id :
  sql_wf b → wp (Repo.get id) b (λ r b', b' = b ∧ r = Ok (sql_contents b !! id)).
Proof.
  intros Hwf. unfold Repo.get. wp_steps. apply wp_zoom. apply one_or_none_ok; [done|..].
  - intros r Hr Hid. cbn beta iota. wp_steps. apply wp_lift.
    pose proof (proj2 Hwf) as Hall. rewrite Forall_forall in Hall. destruct (Hall r Hr) as [[j Hj] _].
    rewrite Hj. wp_steps. split; [by destruct b|].
    rewrite (proj2 (sql_contents_lookup b id j Hwf)); [done|]. by exists r.
  - intros Hn. cbn beta iota. wp_steps. split; [by destruct b|].
    rewrite sql_contents_statuses, lookup_fmap, fmap_None in Hn by done. by rewrite Hn.
Qed.

Definition reads (r : job_row) (j : Job) : Prop := row_to_job r = Ok j.

Lemma jobs_of_ok l :
  Forall row_ok l → ∃ js, Repo.jobs_of l = Ok js ∧ Forall2 reads l js.
Proof.
  induction 1 as [|r l [[j Hj] _] _ (js & Hjs & Hall)]; [by exists []|].
  exists (j :: js). unfold Repo.jobs_of in *. simpl. rewrite Hj. simpl. rewrite Hjs.
  split; [done|]. by constructor.
Qed.

Lemma reads_ids l js : Forall2 reads l js → job_id <$> js = col_job_id <$> l.
Proof.
  induction 1 as [|r j l js Hj _ IH]; [done|]. destruct (row_to_job_shows _ _ Hj) as (Hid & _).
  by rewrite !fmap_cons, Hid, IH.
Qed.

Lemma reads_keyed l js : Forall2 reads l js → (omap (λ r, pair (col_job_id r) <$> row_job r) l).*2 = js.
Proof.
  induction 1 as [|r j l js Hj _ IH]; [done|]. cbn [omap list_omap].
  rewrite (proj2 (row_job_Some r j) Hj). cbn. by rewrite <- IH.
Qed.

Lemma sql_all_jobs_ok b :
  sql_wf b →
  wp Repo.all_jobs b (λ r b', b' = b ∧ ∃ l, r = Ok l ∧ lists_all (sql_contents b) l).
Proof.
  intros Hwf. unfold Repo.all_jobs. wp_steps. apply wp_zoom.
  eapply wp_mono; [apply (select_ok _ _ Repo.unordered None); [by left|done|done]|].
  intros res t' (-> & l & Hl & _ & ->). cbn beta iota. simpl limited. apply wp_lift.
  rewrite filter_all in Hl by (by apply Forall_true). fold (table_rows b) in Hl.
  destruct (jobs_of_ok l) as (js & -> & Hsh); [rewrite Hl; apply Hwf|].
  split; [by destruct b|]. exists js. split; [done|]. unfold lists_all, jobs_in, sql_contents, keyed.
  rewrite map_to_list_to_map by (apply keyed_nodup, Hwf). rewrite <- Hl. by rewrite (reads_keyed l js Hsh).
Qed.

Lemma queued_where_spec jt qn r :
  jt ≠ Some "" → qn ≠ Some "" →
  Repo.queued_where jt qn r = true ↔
  col_status r = value QUEUED ∧ matches jt (col_job_type r) ∧ matches qn (col_queue_name r).
Proof.
  intros Hjt Hqn. unfold Repo.queued_where, matches, truthy_opt_str, truthy_str.
  rewrite !andb_true_iff, bool_decide_eq_true.
  destruct jt as [t|], qn as [q|]; rewrite ?(bool_decide_eq_false_2 (t = "")), ?(bool_decide_eq_false_2 (q = ""))
    by congruence; simpl; rewrite ?bool_decide_eq_true; naive_solver.
Qed.

Lemma dispatch_before_total r1 r2 : Repo.dispatch_before r1 r2 = true ∨ Repo.dispatch_before r2 r1 = true.
Proof. unfold Repo.dispatch_before. lia. Qed.
Lemma dispatch_before_trans r1 r2 r3 :
  Repo.dispatch_before r1 r2 = true → Repo.dispatch_before r2 r3 = true → Repo.dispatch_before r1 r3 = true.
Proof. unfold Repo.dispatch_before. lia. Qed.

Lemma sql_queued_ok b limit jt qn :
  sql_wf b → (0 ≤ limit)%Z → jt ≠ Some "" → qn ≠ Some "" →
  wp (Repo.queued limit jt qn) b (λ r b', b' = b ∧
    ∃ l, r = Ok l ∧ dequeued (sql_statuses b) limit jt qn l ∧
      ∀ j, j ∈ l → sql_contents b !! job_id j = Some j).
Proof.
  intros Hwf Hl Hjt Hqn. unfold Repo.queued. wp_steps. apply wp_zoom.
  eapply wp_mono; [by apply (select_ok _ _ Repo.dispatch_before (Some limit));
    [apply dispatch_before_total|apply dispatch_before_trans|]|].
  intros res t' (-> & l & Hp & _ & ->). cbn beta iota. simpl limited. apply wp_lift.
  fold (table_rows b) in Hp. pose proof Hwf as [Hnd Hok].
  destruct (jobs_of_ok (take (Z.to_nat limit) l)) as (js & -> & Hsh).
  { apply Forall_take. rewrite Hp. rewrite Forall_forall in *.
    intros x [_ Hx]%list_elem_of_filter. by apply Hok. }
  split; [by destruct b|]. exists js. split; [done|].
  assert (Hrow : ∀ j, j ∈ js → ∃ r, r ∈ table_rows b ∧ Repo.queued_where jt qn r = true ∧ reads r j).
  { intros j [i Hi]%list_elem_of_lookup. destruct (Forall2_lookup_r _ _ _ _ _ Hsh Hi) as (r & Hr & Hj).
    apply lookup_take_Some in Hr as [Hr%list_elem_of_lookup_2 _].
    rewrite Hp, list_elem_of_filter in Hr. exists r. tauto. }
  split; [split_and!|].
  - rewrite <- (Forall2_length _ _ _ Hsh), length_take. lia.
  - rewrite (reads_ids _ js Hsh). eapply sublist_NoDup; [|apply fmap_sublist, sublist_take].
    rewrite Hp. eapply sublist_NoDup; [exact Hnd|]. apply fmap_sublist, sublist_filter.
  - apply Forall_forall. intros j (r & Hin & Hw & Hj)%Hrow.
    apply queued_where_spec in Hw as (Hq & ? & ?); [|done..].
    destruct (row_to_job_shows _ _ Hj) as (Hid & Hst & Hty & Hqu & _).
    rewrite Hq in Hst. apply (inj value) in Hst.
    rewrite Hid, Hty, Hqu. split_and!; try done. apply sql_lookup; eauto.
  - intros j (r & Hin & _ & Hj)%Hrow. apply sql_contents_lookup; [done|]. exists r.
    by destruct (row_to_job_shows _ _ Hj) as (-> & _).
Qed.

(** An identifier that is taken is refused. *)
Lemma sql_enqueue_taken b j :
  sql_wf b → is_Some (sql_statuses b !! job_id j) →
  wp (Repo.enqueue j) b (λ r b', ∃ x, r = Err x).
Proof.
  intros Hwf Hex. unfold Repo.enqueue. wp_steps. apply wp_zoom.
  eapply wp_mono; [apply insert_ok|]. intros res t'. fold (table_rows b).
  pose proof (sql_lookup_None b (job_id j) Hwf) as Hnone. simpl col_job_id. case_decide as Hin.
  - intros (-> & x & ->). by eexists.
  - destruct Hex as [s Hs]. apply Hnone in Hin. congruence.
Qed.

Lemma sql_enqueue_ok b j :
  sql_wf b → wp (Repo.enqueue j) b (λ r b', sql_wf b' ∧
    (sql_statuses b !! job_id j = None →
     r = Ok (job_id j) ∧ table_rows b' ≡ₚ as_stored keeps_zone db_time (job_to_row j) :: table_rows b ∧
     sql_statuses b' = <[job_id j := status j]> (sql_statuses b))).
Proof.
  intros Hwf. unfold Repo.enqueue. wp_steps. apply wp_zoom.
  eapply wp_mono; [apply insert_ok|]. intros res t'. fold (table_rows b).
  pose proof (sql_lookup_None b (job_id j) Hwf) as Hnone. simpl col_job_id.
  case_decide as Hin.
  - intros (-> & x & ->). cbn beta iota. split; [by destruct b|]. by intros Hn%Hnone.
  - intros [-> Hp]. cbn beta iota. wp_steps.
    assert (Hwf' : sql_wf (mkSql t')).
    { unfold sql_wf, table_rows. simpl. rewrite Hp. split.
      - rewrite fmap_cons, NoDup_cons. by split; [|apply Hwf].
      - constructor; [apply row_ok_stored, row_ok_job|apply Hwf]. }
    split; [done|]. intros _. split; [done|]. split; [done|].
    apply map_eq. intros id. apply option_eq. intros s.
    rewrite sql_lookup, lookup_insert_Some, sql_lookup by done.
    unfold table_rows at 1. simpl. setoid_rewrite Hp. setoid_rewrite elem_of_cons. split.
    + intros (r & [->|Hr] & <- & Hs); [left; split; [done|]; apply (inj value); done|].
      right. split; [|eauto]. intros E. apply Hin. simpl. rewrite E. by apply list_elem_of_fmap_2.
    + intros [[<- <-]|(_ & r & ? & ? & ?)]; [by exists (as_stored keeps_zone db_time (job_to_row j)); split; [left|]|].
      exists r. split_and!; [by right|done|done].
Qed.

(** The guarded update is a claim of the abstract queue, whatever readable
    metadata it writes. *)
Lemma claim_update_ok b id host worker m now :
  sql_wf b → meta_ok m →
  wp (Repo.claim_update id host worker
       (Dict.set "worker_id" (PStr worker) (Dict.set "host_id" (PStr host) m)) now) (sql_table b)
    (λ r t', sql_wf (mkSql t') ∧
      r = Ok (if decide (sql_statuses b !! id = Some QUEUED) then 1 else 0)%Z ∧
      sql_statuses (mkSql t') = if decide (sql_statuses b !! id = Some QUEUED)
                                then <[id := RUNNING]> (sql_statuses b) else sql_statuses b).
Proof.
  intros Hwf Hm. unfold Repo.claim_update. pose proof (proj2 Hwf) as Hall. rewrite Forall_forall in Hall.
  eapply wp_mono; [by apply update_ok|]. intros res t' [-> Hp].
  destruct (sql_changed b t' id _ (λ s, if decide (s = QUEUED) then RUNNING else s) Hwf Hp) as [Hwf' Hs'].
  { intros r Hr. unfold Repo.has_id.
    destruct (bool_decide (col_job_id r = id)) eqn:Ei; [apply bool_decide_eq_true in Ei|apply bool_decide_eq_false in Ei].
    - destruct (bool_decide (col_status r = value QUEUED)) eqn:Eq; [apply bool_decide_eq_true in Eq|apply bool_decide_eq_false in Eq]; simpl.
      + split_and!; [done|by apply row_ok_stored, row_ok_claim; [apply Hall|]|]. intros s Hs.
        rewrite Eq in Hs. apply (inj value) in Hs as <-. by rewrite decide_True.
      + split_and!; [done|by apply Hall|]. intros s Hs. rewrite decide_True by done.
        rewrite decide_False; [done|]. congruence.
    - simpl. split_and!; [done|by apply Hall|]. intros s Hs. by rewrite decide_False. }
  split; [done|]. rewrite Hs'. clear Hs' Hp.
  destruct (rows_with_id b id Hwf) as [[Hf Hn]|(r & Hf & Hr & Hid)].
  - rewrite Hn. simpl.
    rewrite (proj2 (filter_nil_iff _ _)); [split; [done|]|].
    + apply alter_id. intros x. by rewrite Hn.
    + apply filter_nil_iff in Hf. eapply Forall_impl; [exact Hf|]. simpl.
      intros r Hr [H1 _]%andb_true_iff. done.
  - destruct (sql_row b r Hwf Hr) as (s & Hs & Hl). rewrite Hid in Hl. rewrite Hl.
    assert (Hcount : length (filter (λ r, Repo.has_id id r && bool_decide (col_status r = value QUEUED) = true)
        (table_rows b)) = if decide (s = QUEUED) then 1 else 0).
    { rewrite (list_filter_iff _ (λ r, col_status r = value QUEUED ∧ Repo.has_id id r = true)).
      - rewrite <- list_filter_filter, Hf. rewrite filter_cons, filter_nil. rewrite Hs.
        repeat case_decide; naive_solver.
      - intros x. rewrite andb_true_iff, bool_decide_eq_true. tauto. }
    fold (table_rows b). rewrite Hcount. destruct (decide (s = QUEUED)) as [->|Hne].
    + rewrite !decide_True by done. split; [done|]. apply map_eq. intros k.
      rewrite lookup_alter, lookup_insert. case_decide; [subst; by rewrite Hl|done].
    + rewrite !decide_False by congruence. split; [done|]. apply alter_id. intros x.
      rewrite Hl. intros [= ->]. by rewrite decide_False.
Qed.

Lemma sql_claim_ok b id host worker :
  sql_wf b →
  wp (Repo.set_claimed id host worker) b (λ r b', sql_wf b' ∧
    r = Ok (bool_decide (sql_statuses b !! id = Some QUEUED)) ∧
    sql_statuses b' = if decide (sql_statuses b !! id = Some QUEUED)
                      then <[id := RUNNING]> (sql_statuses b) else sql_statuses b).
Proof.
  intros Hwf. unfold Repo.set_claimed. apply wp_zoom. wp_steps. apply one_or_none_ok; [done|..].
  - intros r Hr Hid. pose proof (proj2 Hwf) as Hall. rewrite Forall_forall in Hall.
    destruct (Hall r Hr) as [_ [m Hm]]. cbn beta iota. wp_steps. apply wp_lift. rewrite Hm.
    assert (Repo.copy_meta (PDict m) = Ok m) as -> by (by destruct m). wp_steps.
    eapply wp_mono; [apply claim_update_ok; [done|by eapply row_ok_meta; [apply Hall|]]|].
    intros res t' (Hwf' & -> & Hs'). wp_steps. rewrite rowcount_one. by split_and!.
  - intros Hn. cbn beta iota. wp_steps. rewrite Hn. simpl. by destruct b.
Qed.

Lemma sql_deref_ok b j :
  sql_wf b →
  wp (Repo.deref j) b (λ r b', b' = b ∧ ∃ j', r = Ok j' ∧ job_id j' = job_id j).
Proof. intros Hwf. unfold Repo.deref. wp_steps. by split; [|eexists]. Qed.

Lemma sql_enqueue_fresh b j :
  sql_wf b → wp (Repo.enqueue j) b (λ r b', sql_wf b' ∧ (sql_statuses b !! job_id j = None →
    r = Ok (job_id j) ∧ sql_statuses b' = <[job_id j := status j]> (sql_statuses b))).
Proof. intros Hwf. eapply wp_mono; [by apply sql_enqueue_ok|]. naive_solver. Qed.
End sql.

#[export] Instance sql_contract {T} `{SqlLaws T} : BackendContract (SQLQueueBackend T) := {|
  backend_wf := sql_wf;
  statuses := sql_statuses;
  contents := sql_contents;
  contents_statuses := sql_contents_statuses;
  contents_ids := sql_contents_ids;
  enqueue_ok := sql_enqueue_fresh;
  dequeue_ok := sql_queued_ok;
  claim_ok := sql_claim_ok;
  release_ok b id := sql_set_status_ok b id QUEUED;
  heartbeat_ok := sql_heartbeat_ok;
  get_ok := sql_get_ok;
  update_status_ok := sql_set_status_ok;
  all_jobs_ok := sql_all_jobs_ok;
  deref_ok := sql_deref_ok;
|}.

(** ** Theorems *)

(** C10: over SQL the backend refines the abstract queue. For any table with the
    laws of SQL, any sequence of enqueues of fresh identifiers, claims, releases,
    status updates, heartbeats and lookups gets the replies of the map from
    identifiers to statuses, so everything proved of the contract's clients
    holds over SQL too. *)
Theorem sql_refines_queue_spec {T} `{SqlLaws T} (rqs : list request) (b : SQLQueueBackend T) :
  sql_wf b → fresh_ids rqs (sql_statuses b) →
  wp (exec_run rqs) b (λ r b', sql_wf b' ∧
    r = Ok (spec_run rqs (sql_statuses b)).1 ∧
    sql_statuses b' = (spec_run rqs (sql_statuses b)).2).
Proof. exact (exec_run_refines rqs b []). Qed.

(** C20: what SQL keeps of a job. After [enqueue] of a job with a fresh identifier
    into any table, [get] answers the job with its columns and the fields of its
    metadata as submitted, except the two times, which are what the database keeps
    of them and come back aware exactly when the database keeps the zone, and with
    its resources, its dependencies, its attempt limit, its timeouts and the other
    fields of its run back at their defaults. So the dispatcher, which reads them
    from the jobs of [dequeue], sees a job that needs no slots and waits for
    nothing. *)
Theorem sql_roundtrip {T} `{SqlLaws T} (j : Job) (b : SQLQueueBackend T) :
  sql_wf b → sql_statuses b !! job_id j = None →
  wp (_ ← enqueue j; get (job_id j)) b (λ r b', sql_wf b' ∧
    r = Ok (Some (persisted keeps_zone db_time j)) ∧
    resources (persisted keeps_zone db_time j) = [] ∧ depends_on (persisted keeps_zone db_time j) = []).
Proof.
  intros Hwf Hfresh. wp_steps. eapply wp_mono; [by apply sql_enqueue_ok|].
  intros r b' (Hwf' & Hnew). destruct (Hnew Hfresh) as (-> & Hp & Hs).
  simpl. eapply wp_mono; [by apply sql_get_ok|]. intros r b'' [-> ->].
  rewrite (proj2 (sql_contents_lookup b' (job_id j) (persisted keeps_zone db_time j) Hwf')); [done|].
  exists (as_stored keeps_zone db_time (job_to_row j)). rewrite Hp.
  split_and!; [left|done|apply row_to_job_stored].
Qed.

(** The statements of several workers, interleaved: the query of [set_claimed],
    its guarded update with the metadata read earlier, and whole requests. *)
Inductive sql_statement : Type :=
  | ReadMeta (id : string)
  | GuardedUpdate (id host worker : string) (meta : dict pyval)
  | Request (rq : request).

Definition exec_statement {T} `{SqlTable T} (st : sql_statement) : M (SQLQueueBackend T) reply :=
  match st with
  | ReadMeta id => _ ← Repo.transaction (Repo.one_or_none id); mret RUnit
  | GuardedUpdate id host worker meta =>
    now ← utcnow;
    rowcount ← Repo.transaction (Repo.claim_update id host worker
      (claimed_meta host worker meta) now);
    mret (RBool (rowcount =? 1)%Z)
  | Request rq => exec_step rq
  end.

(** The request of the abstract queue a statement stands for. *)
Definition statement_request (st : sql_statement) : request :=
  match st with
  | ReadMeta id => Heartbeat id
  | GuardedUpdate id host worker _ => Claim id host worker
  | Request rq => rq
  end.

(** The metadata of a guarded update was read from a row. *)
Definition read_meta_ok (st : sql_statement) : Prop :=
  match st with GuardedUpdate _ _ _ m => meta_ok m | _ => True end.

Lemma exec_statement_ok {T} `{SqlLaws T} st (b : SQLQueueBackend T) :
  sql_wf b → read_meta_ok st → fresh_ids [statement_request st] (sql_statuses b) →
  wp (exec_statement st) b (λ r b', sql_wf b' ∧
    r = Ok (spec_step (statement_request st) (sql_statuses b)).1 ∧
    sql_statuses b' = (spec_step (statement_request st) (sql_statuses b)).2).
Proof.
  intros Hwf Hm [Hfresh _]. destruct st as [id|id host worker m|rq]; simpl.
  - unfold Repo.transaction. wp_steps. apply one_or_none_ok; [done|..]; intros; cbn beta iota; wp_steps; by destruct b.
  - unfold Repo.transaction. wp_steps. eapply wp_mono; [by apply claim_update_ok|].
    intros r t' (Hwf' & -> & Hs). cbn beta iota. wp_steps. rewrite rowcount_one, Hs.
    by destruct (decide (sql_statuses b !! id = Some QUEUED));
      [rewrite bool_decide_eq_true_2 by done|rewrite bool_decide_eq_false_2 by done].
  - exact (exec_step_refines rq b Hwf Hfresh).
Qed.

Definition exec_statements {T} `{SqlTable T} (sts : list sql_statement) (rps : list reply)
    : M (SQLQueueBackend T) (list reply) :=
  foldM (λ rps st, rp ← exec_statement st; mret (rps ++ [rp])) rps sts.

Lemma exec_statements_refine {T} `{SqlLaws T} sts rps (b : SQLQueueBackend T) :
  sql_wf b → Forall read_meta_ok sts → fresh_ids (statement_request <$> sts) (sql_statuses b) →
  wp (exec_statements sts rps) b (λ r _,
    r = Ok (rps ++ (spec_run (statement_request <$> sts) (sql_statuses b)).1)).
Proof.
  intros Hwf Hm. revert b rps Hwf. unfold exec_statements.
  induction Hm as [|st sts Hst _ IH]; intros b rps Hwf Hf; simpl.
  { wp_steps. by rewrite app_nil_r. }
  destruct Hf as [Hnew Hrest]. wp_steps. eapply wp_mono; [by apply exec_statement_ok|].
  intros r b' (Hwf' & -> & Hs'). wp_steps. rewrite <- Hs' in Hrest.
  eapply wp_mono; [by apply IH|]. intros r b'' ->. rewrite Hs'.
  destruct (spec_step _ _) as [rp m]; simpl. destruct (spec_run _ m) as [rps' m']; simpl.
  by rewrite <- app_assoc.
Qed.

(** C13: the claim of the SQL backend is atomic statement by statement. However the
    queries and the guarded updates of any number of workers interleave with
    each other and with other requests, as long as none puts the job back into
    the queue, at most one guarded update for it matches a row, and none when
    the job is not queued to begin with. *)
Theorem sql_claim_exclusive {T} `{SqlLaws T} (id : string) (sts : list sql_statement)
    (b : SQLQueueBackend T) :
  sql_wf b → Forall read_meta_ok sts → fresh_ids (statement_request <$> sts) (sql_statuses b) →
  Forall (λ st, ¬ revives id (statement_request st)) sts →
  wp (exec_statements sts []) b (λ r _, ∃ rps, r = Ok rps ∧
    claims_won id (statement_request <$> sts) rps ≤
      (if decide (sql_statuses b !! id = Some QUEUED) then 1 else 0)).
Proof.
  intros Hwf Hm Hf Hrev.
  eapply wp_mono; [by apply exec_statements_refine|].
  intros r _ ->. eexists. split; [done|]. simpl. apply claims_won_bound. by apply Forall_fmap.
Qed.

Lemma filter_fmap {A} (P : A → Prop) `{∀ x, Decision (P x)} (f : A → A) (l : list A) :
  (∀ x, P (f x) ↔ P x) → filter P (f <$> l) = f <$> filter P l.
Proof.
  intros Hf. induction l as [|x l IH]; [done|]. rewrite fmap_cons, !filter_cons, IH.
  repeat case_decide; naive_solver.
Qed.

Lemma jobs_of_bad {T} `{SqlTable T} l r x :
  r ∈ l → row_to_job r = Err x → ∃ y, Repo.jobs_of l = Err y.
Proof.
  unfold Repo.jobs_of. intros Hr Hx. induction Hr as [l|r r' l _ IH]; simpl.
  - rewrite Hx. by eexists.
  - destruct (row_to_job r'); simpl; [|by eexists]. destruct (IH Hx) as [y ->]. by eexists.
Qed.

(** The SQL backend takes any text for a status. [update_status] with a text
    that is no status answers [True] for a job that exists, and from then on
    [get] of that job and [all_jobs] raise [ValueError]; the in-memory backend
    raises at the update. *)
Theorem sql_bad_status_poisons {T} `{SqlLaws T} id bad (b : SQLQueueBackend T) :
  sql_wf b → is_Some (sql_statuses b !! id) → (∀ s, bad ≠ value s) →
  wp (update_status id bad) b (λ r b', r = Ok true ∧
    wp (get id) b' (λ r' _, r' = Err (ValueError (repr_str bad +:+ " is not a valid JobStatus"))) ∧
    wp all_jobs b' (λ r' _, ∃ x, r' = Err x)).
Proof.
  intros Hwf Hex Hbad. simpl. unfold Repo.set_status. wp_steps. apply wp_zoom.
  match goal with |- context [update_rows _ ?f] => set (F := f) end.
  eapply wp_mono; [by apply update_ok|]. intros res t' [-> Hp]. cbn beta iota. wp_steps.
  destruct (rows_with_id b id Hwf) as [[_ Hn]|(r & Hf & Hr & Hid)]; [rewrite Hn in Hex; by destruct Hex|].
  unfold table_rows in Hf, Hr. rewrite Hf. split; [done|].
  assert (Hread : row_to_job (as_stored keeps_zone db_time (F r)) =
    Err (ValueError (repr_str bad +:+ " is not a valid JobStatus"))).
  { pose proof (proj2 Hwf) as Hok. rewrite Forall_forall in Hok.
    destruct (Hok r Hr) as [[j Hj] [m Hm]]. unfold row_to_job in *. simpl.
    destruct (row_payload _); [|done]. rewrite Hm, row_meta_dict. cbn [mbind result_bind].
    unfold row_status. destruct (JobStatus_of bad) as [s|] eqn:E; [|done].
    apply JobStatus_of_Some in E. by destruct (Hbad s). }
  split.
  - unfold Repo.get, Repo.one_or_none. wp_steps. apply wp_zoom. wp_steps.
    eapply wp_mono; [apply (select_ok _ _ Repo.unordered None); [by left|done|done]|].
    intros res t'' (-> & l & Hl & _ & ->). simpl in *. rewrite Hp, filter_fmap, Hf in Hl.
    + simpl in Hl. unfold Repo.has_id in Hl. rewrite bool_decide_eq_true_2 in Hl by done.
      apply Permutation_singleton_r in Hl as ->. wp_steps. apply wp_lift. by rewrite Hread.
    + intros x. unfold Repo.has_id. by case_bool_decide; simpl; case_bool_decide.
  - unfold Repo.all_jobs. wp_steps. apply wp_zoom.
    eapply wp_mono; [apply (select_ok _ _ Repo.unordered None); [by left|done|done]|].
    intros res t'' (-> & l & Hl & _ & ->). cbn beta iota. simpl limited. apply wp_lift.
    rewrite filter_all in Hl by (by apply Forall_true). simpl in Hl. rewrite Hp in Hl.
    destruct (λ H, jobs_of_bad l (as_stored keeps_zone db_time (F r)) _ H Hread) as [y ->]; [|by eexists].
    rewrite Hl. apply list_elem_of_fmap. exists r. split; [|done].
    unfold Repo.has_id. by rewrite bool_decide_eq_true_2.
Qed.

(** ** Witnesses, on the tables in memory *)

Definition sql_of (d : database) (l : list Job) : SQLQueueBackend (db_rows d) :=
  mkSql (mkRows ((λ j, kept_row d (job_to_row j)) <$> l)).

Lemma sql_of_wf d l : NoDup (job_id <$> l) → sql_wf (sql_of d l).
Proof.
  intros Hnd. unfold sql_wf, table_rows. simpl. split; [by rewrite <- list_fmap_compose|].
  apply Forall_fmap, Forall_true. intros j. apply row_ok_stored, row_ok_job.
Qed.

Lemma sql_refines_queue_spec_witness :
  let rqs := [Enqueue (sample_job "a" 0 1); Claim "a" "h" "w"; Claim "a" "h" "w2";
              Release "a"; UpdateStatus "b" FAILED; GetStatus "a"] in
  let b := sql_of PostgreSQL [] in
  sql_wf b ∧ fresh_ids rqs (sql_statuses b) ∧
  wp (exec_run rqs) b (λ r b', sql_wf b' ∧
    r = Ok [RId "a"; RBool true; RBool false; RBool true; RBool false; RStatus (Some QUEUED)] ∧
    sql_statuses b' = {["a" := QUEUED]}).
Proof.
  intros rqs b.
  assert (Hwf : sql_wf b) by (apply sql_of_wf; constructor).
  assert (Hf : fresh_ids rqs (sql_statuses b)) by (vm_compute; tauto).
  split; [exact Hwf|]. split; [exact Hf|].
  exact (sql_refines_queue_spec rqs b Hwf Hf).
Defined.

(** MySQL drops the fraction of the second and the zone. *)
Lemma sql_roundtrip_witness :
  let j := sample_job "a" 0 1500000 <| depends_on := ["b"] |> <| tenant_id := Some "t1" |> in
  let b := sql_of MySQL [] in
  let kept := persisted (aware_database MySQL) (database_time MySQL) j in
  wp (_ ← enqueue j; get (job_id j)) b (λ r b', sql_wf b' ∧ r = Ok (Some kept) ∧
    resources kept = [] ∧ depends_on kept = []) ∧
  (created_at j, naive_times j) = (1500000%Z, false) ∧ (created_at kept, naive_times kept) = (1000000%Z, true).
Proof.
  intros j b kept. split; [|by vm_compute].
  refine (sql_roundtrip j b _ _); [apply sql_of_wf; constructor|by vm_compute].
Defined.

Lemma sql_claim_exclusive_witness :
  let b := sql_of PostgreSQL [sample_job "a" 0 1] in
  let sts := [ReadMeta "a"; ReadMeta "a"; GuardedUpdate "a" "h" "w1" []; GuardedUpdate "a" "h" "w2" [];
              Request (Heartbeat "a")] in
  wp (exec_statements sts []) b (λ r _, ∃ rps, r = Ok rps ∧
    claims_won "a" (statement_request <$> sts) rps ≤
      (if decide (sql_statuses b !! "a" = Some QUEUED) then 1 else 0)) ∧
  answer (exec_statements sts []) b =
    Ok [RUnit; RUnit; RBool true; RBool false; RUnit].
Proof.
  intros b sts. assert (Hm : meta_ok []) by (eexists (sample_job "a" 0 1), _; reflexivity).
  split; [|vm_compute; reflexivity].
  refine (sql_claim_exclusive "a" sts b _ _ _ _).
  - apply sql_of_wf. repeat constructor. by intros ?%elem_of_nil.
  - repeat constructor; exact Hm.
  - vm_compute. tauto.
  - repeat constructor; simpl; tauto.
Defined.

Lemma sql_bad_status_poisons_witness :
  let b := sql_of PostgreSQL [sample_job "a" 0 1] in
  wp (update_status "a" "done") b (λ r b', r = Ok true ∧
    wp (get "a") b' (λ r' _, r' = Err (ValueError (repr_str "done" +:+ " is not a valid JobStatus"))) ∧
    wp all_jobs b' (λ r' _, ∃ x, r' = Err x)).
Proof.
  intros b. apply (sql_bad_status_poisons "a" "done" b).
  - apply sql_of_wf. repeat constructor. by intros ?%elem_of_nil.
  - vm_compute. by eexists.
  - by intros [].
Defined.
