(* ===== verification/RedisBackend.v ===== *)
(** * The Redis backend

    [backends/redis_backend.py]: jobs as hashes, a sorted set of identifiers as
    the queue, and a lease key with a time to live for every claimed job. The
    two Lua scripts are sequences of commands nothing interleaves with. *)

From S2P Require Import Prelude PyValue Json Isotime Domain Meta RedisClient Backend MemoryBackend.

(** ** Jobs and hashes *)

(** The text redis-py writes for [job.result_ref or ""]. *)
Definition result_text (v : option pyval) : result string :=
  match v with
  | None => Ok ""
  | Some v =>
    if negb (truthy v) then Ok ""
    else match v with
         | PStr s => Ok s
         | PInt z => Ok (pretty z)
         | PFloat r => Ok r
         | _ => Err (UserError "DataError" "Invalid input of type")
         end
  end.

(** [x.isoformat() if x else ""], [json.dumps(x) if x else ""],
    [str(x) if x is not None else ""] *)
Definition opt_iso (t : option Z) : string := from_option isoformat "" t.
Definition opt_dumps (d : option (dict pyval)) : string :=
  match d with None | Some [] => "" | Some d => dumps (PDict d) end.
Definition opt_pretty (z : option Z) : string := from_option pretty "" z.

(** The datetimes of [job] are aware, as [utcnow] makes them: their text ends in
    the offset. *)
Definition job_to_hash (job : Job) : result (dict string) :=
  ref ← result_text (result_ref job);
  mret [("job_id", job_id job);
        ("job_type", job_type job);
        ("queue_name", queue_name job);
        ("payload", dumps (PDict (payload job)));
        ("meta", dumps (PDict (to_meta_dict job)));
        ("status", value (status job));
        ("priority", pretty (priority job));
        ("claimed_by", default "" (claimed_by job));
        ("created_at", isoformat (created_at job));
        ("updated_at", isoformat (updated_at job));
        ("resources", dumps (PDict (prod_map id PInt <$> resources job)));
        ("depends_on", dumps (PList (PStr <$> depends_on job)));
        ("attempt", pretty (attempt job));
        ("max_attempts", pretty (max_attempts job));
        ("started_at", opt_iso (started_at job));
        ("finished_at", opt_iso (finished_at job));
        ("last_heartbeat_at", opt_iso (last_heartbeat_at job));
        ("last_error", opt_dumps (last_error job));
        ("result_ref", ref);
        ("progress", opt_dumps (progress job));
        ("run_timeout_ms", opt_pretty (run_timeout_ms job));
        ("claim_timeout_ms", opt_pretty (claim_timeout_ms job));
        ("trace_id", default "" (trace_id job));
        ("version", pretty (version job))].

(** [data\[key\]], and [data.get(key) or d]. *)
Definition item (key : string) (v : option string) : result string :=
  match v with Some s => Ok s | None => Err (KeyError key) end.
Definition text_or (d : string) (v : option string) : string :=
  match v with Some s => if truthy_str s then s else d | None => d end.

(** [int(s)], [datetime.fromisoformat(s)], [json.loads(s)] for a dictionary. *)
Definition read_int (s : string) : result Z :=
  match parse_int s with
  | Some z => Ok z
  | None => Err (ValueError ("invalid literal for int() with base 10: " +:+ repr_str s))
  end.
Definition read_time (s : string) : result Z :=
  match fromisoformat s with
  | Some t => Ok t
  | None => Err (ValueError ("Invalid isoformat string: " +:+ repr_str s))
  end.
Definition read_dict (s : string) : result (dict pyval) :=
  v ← json_loads s;
  match v with PDict d => Ok d | _ => Err type_error end.

(** [resources], a dictionary of integers, and [depends_on], a list of texts. *)
Fixpoint int_items (d : dict pyval) : result (dict Z) :=
  match d with
  | [] => Ok []
  | (k, PInt z) :: d => d ← int_items d; Ok ((k, z) :: d)
  | _ :: _ => Err type_error
  end.
Definition read_ints (s : string) : result (dict Z) := d ← read_dict s; int_items d.

Fixpoint str_values (l : list pyval) : result (list string) :=
  match l with
  | [] => Ok []
  | PStr s :: l => l ← str_values l; Ok (s :: l)
  | _ :: _ => Err type_error
  end.
Definition read_strs (s : string) : result (list string) :=
  v ← json_loads s;
  match v with PList l => str_values l | _ => Err type_error end.

(** [_opt_dt], [_opt_int], [_opt_json_dict]: an empty text is [None]. *)
Definition optional {A} (read : string → result A) (v : option string) : result (option A) :=
  let s := default "" v in
  if truthy_str s then a ← read s; mret (Some a) else mret None.

(** [data.get(key) or None] *)
Definition opt_text (v : option string) : option string :=
  match v with Some s => if truthy_str s then Some s else None | None => None end.

Definition hash_status (v : option string) : result JobStatus :=
  s ← item "status" v;
  match JobStatus_of s with
  | Some s => Ok s
  | None => Err (ValueError (repr_str s +:+ " is not a valid JobStatus"))
  end.

Definition hash_to_job (data : hash) : result Job :=
  meta ← read_dict (text_or "{}" (data !! "meta"));
  id ← item "job_id" (data !! "job_id");
  type ← item "job_type" (data !! "job_type");
  queue ← item "queue_name" (data !! "queue_name");
  payload ← (s ← item "payload" (data !! "payload"); read_dict s);
  st ← hash_status (data !! "status");
  prio ← (s ← item "priority" (data !! "priority"); read_int s);
  created ← (s ← item "created_at" (data !! "created_at"); read_time s);
  updated ← (s ← item "updated_at" (data !! "updated_at"); read_time s);
  res ← read_ints (text_or "{}" (data !! "resources"));
  deps ← read_strs (text_or "[]" (data !! "depends_on"));
  att ← read_int (text_or "0" (data !! "attempt"));
  max ← read_int (text_or "3" (data !! "max_attempts"));
  started ← optional read_time (data !! "started_at");
  finished ← optional read_time (data !! "finished_at");
  beat ← optional read_time (data !! "last_heartbeat_at");
  error ← optional read_dict (data !! "last_error");
  prog ← optional read_dict (data !! "progress");
  run ← optional read_int (data !! "run_timeout_ms");
  claim ← optional read_int (data !! "claim_timeout_ms");
  ver ← read_int (text_or "0" (data !! "version"));
  context_fields meta
    (new_job id type queue payload st prio created updated
       <| claimed_by := opt_text (data !! "claimed_by") |>
       <| resources := res |> <| depends_on := deps |>
       <| attempt := att |> <| max_attempts := max |>
       <| started_at := started |> <| finished_at := finished |> <| last_heartbeat_at := beat |>
       <| last_error := error |> <| result_ref := PStr <$> opt_text (data !! "result_ref") |>
       <| progress := prog |> <| run_timeout_ms := run |> <| claim_timeout_ms := claim |>
       <| trace_id := opt_text (data !! "trace_id") |> <| version := ver |>).

(** ** Scripts *)

Section scripts.
Context {C : Type} `{RedisClient C}.

(** [_CLAIM_LUA], with its keys and arguments. *)
Definition claim_lua (job_key queue_key lease_key : string)
    (queued running claimed_by meta now job_id : string) (timeout : Z) : M C Z :=
  cur ← hget job_key "status";
  if bool_decide (cur ≠ Some queued) then mret 0%Z
  else
    hset job_key [("status", running); ("claimed_by", claimed_by); ("meta", meta);
                  ("updated_at", now); ("started_at", now); ("last_heartbeat_at", now)];;
    zrem queue_key job_id;;
    set_ex lease_key claimed_by timeout;;
    mret 1%Z.

(** [_HEARTBEAT_LUA] *)
Definition heartbeat_lua (job_key lease_key : string) (running now : string) (timeout : Z) : M C Z :=
  cur ← hget job_key "status";
  if bool_decide (cur ≠ Some running) then mret 0%Z
  else
    hset job_key [("updated_at", now); ("last_heartbeat_at", now)];;
    expire lease_key timeout;;
    mret 1%Z.
End scripts.

(** ** [RedisQueueBackend] *)

Record RedisQueueBackend (C : Type) : Type := mkRedis {
  _client : C;
  _prefix : string;
  _queue_key : string;
  _lease_timeout : Z;
}.
Arguments mkRedis {C}.
Arguments _client {C}.
Arguments _prefix {C}.
Arguments _queue_key {C}.
Arguments _lease_timeout {C}.

(** [RedisQueueBackend(redis_url, key_prefix, lease_timeout_seconds)] *)
Definition new_redis_backend {C} (client : C) (key_prefix : string) (lease_timeout_seconds : Z)
    : RedisQueueBackend C :=
  mkRedis client key_prefix (key_prefix +:+ ":queue") lease_timeout_seconds.

Definition _job_key {C} (self : RedisQueueBackend C) (job_id : string) : string :=
  _prefix self +:+ ":job:" +:+ job_id.
Definition _lease_key {C} (self : RedisQueueBackend C) (job_id : string) : string :=
  _prefix self +:+ ":lease:" +:+ job_id.

(** [str(key).rsplit(":", 1)\[-1\]] *)
Fixpoint after_colon (s : string) : string :=
  match s with
  | EmptyString => EmptyString
  | String c t => if contains ":" t then after_colon t
                  else if bool_decide (c = ":"%char) then t else s
  end.

Module Redis.
Section redis.
Context {C : Type} `{RedisClient C}.
Implicit Types (self : RedisQueueBackend C).

Definition call {A} : M C A → M (RedisQueueBackend C) A :=
  zoom _client (λ c self, mkRedis c (_prefix self) (_queue_key self) (_lease_timeout self)).

(** [int(time.time() * 1000)] *)
Definition time_ms : M (RedisQueueBackend C) Z := now ← utcnow; mret (now / 1000)%Z.

(** [datetime.now(tz=timezone.utc).isoformat()] *)
Definition now_iso : M (RedisQueueBackend C) string := now ← utcnow; mret (isoformat now).

Definition score (priority now : Z) : Z := (priority * 10000000000 - now)%Z.

Definition enqueue (job : Job) : M (RedisQueueBackend C) string :=
  self ← get_state;
  mapping ← lift (job_to_hash job);
  call (hset (_job_key self (job_id job)) mapping);;
  now ← time_ms;
  call (zadd (_queue_key self) (job_id job) (score (priority job) now));;
  mret (job_id job).

Definition get (job_id : string) : M (RedisQueueBackend C) (option Job) :=
  self ← get_state;
  data ← call (hgetall (_job_key self job_id));
  if bool_decide (data = ∅) then mret None
  else job ← lift (hash_to_job data); mret (Some job).

Definition wanted (jt qn : option string) (job : Job) : bool :=
  bool_decide (status job = QUEUED)
  && match jt with Some t => bool_decide (job_type job = t) | None => true end
  && match qn with Some q => bool_decide (queue_name job = q) | None => true end.

(** The [for] loop of [dequeue]. *)
Fixpoint dequeue_loop (limit : Z) (jt qn : option string) (ids : list string) (jobs : list Job)
    : M (RedisQueueBackend C) (list Job) :=
  match ids with
  | [] => mret jobs
  | id :: ids =>
    if (limit <=? Z.of_nat (length jobs))%Z then mret jobs
    else
      job ← get id;
      let jobs := match job with
                  | Some j => if wanted jt qn j then jobs ++ [j] else jobs
                  | None => jobs
                  end in
      dequeue_loop limit jt qn ids jobs
  end.

Definition dequeue (limit : Z) (jt qn : option string) : M (RedisQueueBackend C) (list Job) :=
  self ← get_state;
  ids ← call (zrevrange (_queue_key self) 0 (Z.max 0 (limit * 3 - 1)));
  dequeue_loop limit jt qn ids [].

(** The metadata [claim] writes, from the text it read. *)
Definition claim_meta (host_id worker_id : string) (raw : option string) : result (dict pyval) :=
  meta ← read_dict (text_or "{}" raw);
  mret (claimed_meta host_id worker_id meta).

(** [except RedisError: return False] *)
Definition or_false (m : M (RedisQueueBackend C) bool) : M (RedisQueueBackend C) bool :=
  try_except m (λ x, if redis_error x then mret false else raise x).

(** Lines 263-278: the script, with the metadata read before it. *)
Definition run_claim (job_id host_id worker_id now : string) (meta : dict pyval)
    : M (RedisQueueBackend C) bool :=
  self ← get_state;
  or_false (
    res ← call (claim_lua (_job_key self job_id) (_queue_key self) (_lease_key self job_id)
                  (value QUEUED) (value RUNNING) (host_id +:+ ":" +:+ worker_id)
                  (dumps (PDict meta)) now job_id (_lease_timeout self));
    mret (res =? 1)%Z).

Definition claim (job_id host_id worker_id : string) : M (RedisQueueBackend C) bool :=
  self ← get_state;
  now ← now_iso;
  raw ← call (hget (_job_key self job_id) "meta");
  meta ← lift (claim_meta host_id worker_id raw);
  run_claim job_id host_id worker_id now meta.

(** Lines 282-294: back into the queue; [release] then deletes the lease. *)
Definition requeue (job_id : string) : M (RedisQueueBackend C) bool :=
  self ← get_state;
  job ← get job_id;
  match job with
  | None => mret false
  | Some job =>
    now ← now_iso;
    call (hset (_job_key self job_id)
            [("status", value QUEUED); ("claimed_by", ""); ("updated_at", now)]);;
    ms ← time_ms;
    call (zadd (_queue_key self) job_id (score (priority job) ms));;
    mret true
  end.

Definition drop_lease (job_id : string) : M (RedisQueueBackend C) unit :=
  self ← get_state; call (delete_keys [_lease_key self job_id]).

Definition release (job_id : string) : M (RedisQueueBackend C) bool :=
  found ← requeue job_id;
  if (found : bool) then drop_lease job_id;; mret true else mret false.

Definition heartbeat (job_id : string) : M (RedisQueueBackend C) bool :=
  self ← get_state;
  now ← now_iso;
  or_false (
    res ← call (heartbeat_lua (_job_key self job_id) (_lease_key self job_id) (value RUNNING) now
                  (_lease_timeout self));
    mret (res =? 1)%Z).

Definition terminal : list string :=
  [value SUCCEEDED; value FAILED; value CANCELLED; value TTL_EXPIRED; value DEAD_LETTERED].

Definition update_status (job_id status : string) : M (RedisQueueBackend C) bool :=
  self ← get_state;
  found ← call (exists_key (_job_key self job_id));
  if negb found then mret false
  else
    now ← now_iso;
    let mapping := [("status", status); ("updated_at", now)] in
    let mapping := if bool_decide (status ∈ terminal) then mapping ++ [("finished_at", now)]
                   else mapping in
    call (hset (_job_key self job_id) mapping);;
    (if bool_decide (status ≠ value QUEUED) then call (zrem (_queue_key self) job_id) else mret tt);;
    (if bool_decide (status ∈ terminal) then call (delete_keys [_lease_key self job_id]) else mret tt);;
    mret true.

(** [self._client.scan_iter(f"{self._prefix}:job:*")] *)
Definition scan_jobs : M (RedisQueueBackend C) (list string) :=
  self ← get_state;
  call (scan_iter ((_prefix self +:+ ":job:") +:+ "*")).

Definition get_queue_status : M (RedisQueueBackend C) (dict Z) :=
  keys ← scan_jobs;
  foldM (λ counts key,
    status ← call (hget key "status");
    mret (match opt_text status with
          | Some s => Dict.set s (Dict.get_default s 0 counts + 1)%Z counts
          | None => counts
          end)) [] keys.

Definition health_check : M (RedisQueueBackend C) bool := or_false (call redis_ping).

Definition all_jobs : M (RedisQueueBackend C) (list Job) :=
  keys ← scan_jobs;
  foldM (λ jobs key,
    job ← get (after_colon key);
    mret (match job with Some j => jobs ++ [j] | None => jobs end)) [] keys.

(** The body shared by the three operations below: nothing for a key that does
    not exist, else a mapping that also sets [updated_at]. *)
Definition edit (job_id : string) (body : string → string → M (RedisQueueBackend C) unit)
    : M (RedisQueueBackend C) bool :=
  self ← get_state;
  found ← call (exists_key (_job_key self job_id));
  if negb found then mret false
  else now ← now_iso; body (_job_key self job_id) now;; mret true.

(** A pipeline runs all its commands, then raises the first error. *)
Definition record_attempt (job_id : string) (error : option string) : M (RedisQueueBackend C) bool :=
  edit job_id (λ key now,
    call (try_finally (hincrby key "attempt" 1)
      (hset key (("updated_at", now) ::
        match error with Some e => [("last_error", dumps (PDict [("message", PStr e)]))] | None => [] end)))).

Definition update_progress (job_id : string) (p : dict pyval) : M (RedisQueueBackend C) bool :=
  edit job_id (λ key now, call (hset key [("progress", dumps (PDict p)); ("updated_at", now)])).

Definition store_result (job_id : string) (res : pyval) : M (RedisQueueBackend C) bool :=
  edit job_id (λ key now,
    s ← lift match res with
             | PDict _ => Ok (dumps res)
             | PStr s => Ok s
             | PInt z => Ok (pretty z)
             | PFloat r => Ok r
             | _ => Err (UserError "DataError" "Invalid input of type")
             end;
    call (hset key [("result_ref", s); ("updated_at", now)])).

Definition reap_step (reaped : list string) (key : string) : M (RedisQueueBackend C) (list string) :=
  self ← get_state;
  let job_id := after_colon key in
  status ← call (hget key "status");
  if bool_decide (status ≠ Some (value RUNNING)) then mret reaped
  else
    leased ← call (exists_key (_lease_key self job_id));
    if (leased : bool) then mret reaped
    else
      released ← release job_id;
      mret (if (released : bool) then reaped ++ [job_id] else reaped).

Definition reap_expired_leases : M (RedisQueueBackend C) (list string) :=
  keys ← scan_jobs; foldM reap_step [] keys.

Definition lease_ttl (job_id : string) : M (RedisQueueBackend C) Z :=
  self ← get_state; call (ttl (_lease_key self job_id)).

Definition close : M (RedisQueueBackend C) unit := call redis_close.

Definition clear_prefix : M (RedisQueueBackend C) unit :=
  self ← get_state;
  keys ← call (scan_iter ((_prefix self +:+ ":") +:+ "*"));
  if bool_decide (keys = []) then mret tt else call (delete_keys keys).

(** The jobs handed out are built from the hashes: copies. *)
Definition deref (j : Job) : M (RedisQueueBackend C) Job := mret j.
Definition assign (j : Job) (f : Job → Job) : M (RedisQueueBackend C) unit := mret tt.
End redis.
End Redis.

#[export] Instance redis_backend {C} `{RedisClient C} : QueueBackend (RedisQueueBackend C) := {|
  enqueue := Redis.enqueue;
  dequeue := Redis.dequeue;
  claim := Redis.claim;
  release := Redis.release;
  heartbeat := Redis.heartbeat;
  get := Redis.get;
  update_status := Redis.update_status;
  get_queue_status := Redis.get_queue_status;
  health_check := Redis.health_check;
  all_jobs := Redis.all_jobs;
  record_attempt := Redis.record_attempt;
  update_progress := Redis.update_progress;
  store_result := Redis.store_result;
  deref := Redis.deref;
  assign := Redis.assign;
|}.

(** ** Reading back what was written *)

(** What the types of [Job] say of its fields, and JSON of its dictionaries. *)
Record storable (j : Job) : Prop := {
  st_payload : json_ok (PDict (payload j));
  st_meta : json_ok (PDict (to_meta_dict j));
  st_resources : Dict.wf (resources j) ∧ Forall (λ kv, python_str kv.1) (resources j);
  st_depends_on : Forall python_str (depends_on j);
  st_created : datetime_ok (created_at j);
  st_updated : datetime_ok (updated_at j);
  st_started : from_option datetime_ok True (started_at j);
  st_finished : from_option datetime_ok True (finished_at j);
  st_heartbeat : from_option datetime_ok True (last_heartbeat_at j);
  st_error : from_option (λ d, json_ok (PDict d)) True (last_error j);
  st_progress : from_option (λ d, json_ok (PDict d)) True (progress j);
  st_result : from_option (λ v, ∃ s, v = PStr s) True (result_ref j);
  st_aware : naive_times j = false;
}.

(** An empty text, an empty dictionary. *)
Definition some_text (o : option string) : option string :=
  match o with Some "" => None | o => o end.
Definition some_dict (o : option (dict pyval)) : option (dict pyval) :=
  match o with Some [] => None | o => o end.
Definition some_result (o : option pyval) : option pyval :=
  match o with Some (PStr "") => None | o => o end.

(** The job as it is read back: [next_run_at] is not stored, and an empty text or
    dictionary reads as none. *)
Definition kept (j : Job) : Job :=
  j <| next_run_at := None |> <| claimed_by := some_text (claimed_by j) |>
    <| last_error := some_dict (last_error j) |> <| progress := some_dict (progress j) |>
    <| result_ref := some_result (result_ref j) |> <| trace_id := some_text (trace_id j) |>.

Lemma datetime_valid t : datetime_ok t → valid_time t.
Proof. unfold datetime_ok, valid_time, valid_days. intros H. div_lia. Qed.

Lemma read_dict_dumps d : json_ok (PDict d) → read_dict (dumps (PDict d)) = Ok d.
Proof. intros H. unfold read_dict, json_loads. by rewrite loads_dumps. Qed.

Lemma read_int_pretty z : read_int (pretty z) = Ok z.
Proof. unfold read_int. by rewrite parse_int_pretty. Qed.

Lemma read_time_iso t : datetime_ok t → read_time (isoformat t) = Ok t.
Proof. intros H. unfold read_time. by rewrite fromisoformat_isoformat by by apply datetime_valid. Qed.

Lemma read_ints_dumps (d : dict Z) :
  Dict.wf d → Forall (λ kv, python_str kv.1) d →
  read_ints (dumps (PDict (prod_map id PInt <$> d))) = Ok d.
Proof.
  intros Hwf Hs. unfold read_ints. rewrite read_dict_dumps.
  - cbn [mbind result_bind]. clear. induction d as [|[k z] d IH]; [done|].
    change (mbind (λ d, Ok ((k, z) :: d)) (int_items (prod_map id PInt <$> d)) = Ok ((k, z) :: d)).
    by rewrite IH.
  - constructor.
    + unfold Dict.wf, Dict.keys in *. by rewrite <- list_fmap_compose.
    + by apply Forall_fmap.
    + apply Forall_fmap, Forall_forall. intros [k z] _. constructor.
Qed.

Lemma read_strs_dumps (l : list string) :
  Forall python_str l → read_strs (dumps (PList (PStr <$> l))) = Ok l.
Proof.
  intros Hs. unfold read_strs, json_loads. rewrite loads_dumps.
  - cbn [mbind result_bind]. clear. induction l as [|s l IH]; [done|].
    change (mbind (λ l, Ok (s :: l)) (str_values (PStr <$> l)) = Ok (s :: l)). by rewrite IH.
  - constructor. apply Forall_fmap. eapply Forall_impl; [exact Hs|]. intros s ?. by constructor.
Qed.

(** A text that can be read is not empty. *)
Lemma text_or_read {A} (read : string → result A) d s a :
  is_ok (read "") = false → read s = Ok a → text_or d (Some s) = s.
Proof. intros H0 Hs. destruct s; [|done]. by rewrite Hs in H0. Qed.

Lemma optional_read {A} (read : string → result A) s a :
  is_ok (read "") = false → read s = Ok a → optional read (Some s) = Ok (Some a).
Proof.
  intros H0 Hs. unfold optional. simpl. destruct s; [by rewrite Hs in H0|]. simpl. by rewrite Hs.
Qed.

Lemma optional_iso o : from_option datetime_ok True o → optional read_time (Some (opt_iso o)) = Ok o.
Proof. destruct o as [t|]; [|done]. intros H. by apply optional_read, read_time_iso. Qed.

Lemma optional_pretty o : optional read_int (Some (opt_pretty o)) = Ok o.
Proof. destruct o as [z|]; [|done]. by apply optional_read, read_int_pretty. Qed.

Lemma optional_dumps o : from_option (λ d, json_ok (PDict d)) True o →
  optional read_dict (Some (opt_dumps o)) = Ok (some_dict o).
Proof. destruct o as [[|kv d]|]; [done| |done]. intros H. by apply optional_read, read_dict_dumps. Qed.

Lemma opt_text_default o : opt_text (Some (default "" o)) = some_text o.
Proof. by destruct o as [[]|]. Qed.

(** ** Setting fields *)

Lemma lookup_set_fields mapping h k :
  Dict.wf mapping →
  set_fields h mapping !! k = match Dict.get k mapping with Some v => Some v | None => h !! k end.
Proof.
  unfold Dict.wf. revert h. induction mapping as [|[k' v] mapping IH]; intros h; [done|].
  rewrite Dict.keys_cons, NoDup_cons. intros [Hk Hnd]. cbn [set_fields foldl fst snd Dict.get].
  fold (set_fields (<[k' := v]> h) mapping). rewrite (IH _ Hnd).
  destruct (decide (k = k')) as [->|Hne].
  - apply Dict.get_None in Hk. rewrite Hk. by rewrite lookup_insert_eq.
  - destruct (Dict.get k mapping); [done|]. by rewrite lookup_insert_ne.
Qed.

Lemma result_text_ok o :
  from_option (λ v, ∃ s, v = PStr s) True o →
  ∃ r, result_text o = Ok r ∧ PStr <$> opt_text (Some r) = some_result o.
Proof.
  destruct o as [v|]; [|by exists ""]. intros [s ->]. exists s. by destruct s.
Qed.

(** A field that was read, by the text it was read from. *)
Ltac read_field H := rewrite H; cbn [mbind result_bind].

Lemma hash_roundtrip j h mapping :
  storable j → job_to_hash j = Ok mapping → hash_to_job (set_fields h mapping) = Ok (kept j).
Proof.
  intros [Hp Hm [Hrw Hrs] Hd Hc Hu Hst Hf Hb He Hpr Hr Haw]. unfold job_to_hash.
  destruct (result_text_ok _ Hr) as (r & -> & Href). cbn [mbind result_bind]. intros [= <-].
  match goal with |- context [set_fields h ?l] => set (M := l) end.
  assert (Hg : ∀ k v, Dict.get k M = Some v → set_fields h M !! k = Some v).
  { intros k v Hv. rewrite lookup_set_fields, Hv; [done|]. by apply (bool_decide_unpack _); vm_compute. }
  unfold hash_to_job.
  rewrite (Hg "meta" _ eq_refl), (Hg "job_id" _ eq_refl), (Hg "job_type" _ eq_refl),
    (Hg "queue_name" _ eq_refl), (Hg "payload" (dumps (PDict (payload j))) eq_refl), (Hg "status" _ eq_refl),
    (Hg "priority" _ eq_refl), (Hg "created_at" _ eq_refl), (Hg "updated_at" _ eq_refl),
    (Hg "resources" _ eq_refl), (Hg "depends_on" _ eq_refl), (Hg "attempt" _ eq_refl),
    (Hg "max_attempts" _ eq_refl), (Hg "started_at" _ eq_refl), (Hg "finished_at" _ eq_refl),
    (Hg "last_heartbeat_at" _ eq_refl), (Hg "last_error" _ eq_refl), (Hg "progress" _ eq_refl),
    (Hg "run_timeout_ms" _ eq_refl), (Hg "claim_timeout_ms" _ eq_refl), (Hg "version" _ eq_refl),
    (Hg "claimed_by" _ eq_refl), (Hg "result_ref" _ eq_refl), (Hg "trace_id" _ eq_refl).
  clear Hg M. cbn [item mbind result_bind]. unfold hash_status. cbn [item mbind result_bind].
  rewrite JobStatus_of_value. 
  rewrite (text_or_read read_dict _ _ _ eq_refl (read_dict_dumps _ Hm)),
    (text_or_read read_ints _ _ _ eq_refl (read_ints_dumps _ Hrw Hrs)),
    (text_or_read read_strs _ _ _ eq_refl (read_strs_dumps _ Hd)),
    !(text_or_read read_int _ _ _ eq_refl (read_int_pretty _)).
  read_field (read_dict_dumps _ Hm). read_field (read_dict_dumps _ Hp).
  rewrite !read_int_pretty. read_field (read_time_iso _ Hc). read_field (read_time_iso _ Hu).
  read_field (read_ints_dumps _ Hrw Hrs). read_field (read_strs_dumps _ Hd).
  read_field (optional_iso _ Hst). read_field (optional_iso _ Hf). read_field (optional_iso _ Hb).
  read_field (optional_dumps _ He). read_field (optional_dumps _ Hpr). rewrite !optional_pretty.
  cbn [mbind result_bind]. rewrite context_fields_job, Href, !opt_text_default. destruct j; simpl in *; by subst.
Qed.

(** ** Hashes that can be read *)

(** Metadata that can be read, as [dumps] writes it. *)
Definition meta_text_ok (v : option string) : Prop :=
  ∃ m i i', v = Some (dumps (PDict m)) ∧ json_ok (PDict m) ∧ context_fields m i = Ok i'.

(** What each field has to be, for the hash to be read. *)
Definition field_specs : list (string * (option string → Prop)) :=
  [("meta", meta_text_ok);
   ("job_id", is_Some);
   ("job_type", is_Some);
   ("queue_name", is_Some);
   ("payload", λ v, ∃ s d, v = Some s ∧ read_dict s = Ok d);
   ("status", λ v, ∃ s, v = Some (value s));
   ("priority", λ v, ∃ s z, v = Some s ∧ read_int s = Ok z);
   ("created_at", λ v, ∃ s t, v = Some s ∧ read_time s = Ok t);
   ("updated_at", λ v, ∃ s t, v = Some s ∧ read_time s = Ok t);
   ("resources", λ v, ∃ d, read_ints (text_or "{}" v) = Ok d);
   ("depends_on", λ v, ∃ l, read_strs (text_or "[]" v) = Ok l);
   ("attempt", λ v, ∃ z, read_int (text_or "0" v) = Ok z);
   ("max_attempts", λ v, ∃ z, read_int (text_or "3" v) = Ok z);
   ("started_at", λ v, ∃ o, optional read_time v = Ok o);
   ("finished_at", λ v, ∃ o, optional read_time v = Ok o);
   ("last_heartbeat_at", λ v, ∃ o, optional read_time v = Ok o);
   ("last_error", λ v, ∃ o, optional read_dict v = Ok o);
   ("progress", λ v, ∃ o, optional read_dict v = Ok o);
   ("run_timeout_ms", λ v, ∃ o, optional read_int v = Ok o);
   ("claim_timeout_ms", λ v, ∃ o, optional read_int v = Ok o);
   ("version", λ v, ∃ z, read_int (text_or "0" v) = Ok z)].

Definition hash_ok (h : hash) : Prop := Forall (λ ks, ks.2 (h !! ks.1)) field_specs.

(** What a job shows of its hash. *)
Definition hash_shows (h : hash) (j : Job) : Prop :=
  h !! "job_id" = Some (job_id j) ∧ h !! "status" = Some (value (status j)) ∧
  h !! "job_type" = Some (job_type j) ∧ h !! "queue_name" = Some (queue_name j) ∧
  ∃ s, h !! "priority" = Some s ∧ read_int s = Ok (priority j).

Lemma hash_ok_read h : hash_ok h → ∃ j, hash_to_job h = Ok j ∧ hash_shows h j.
Proof.
  unfold hash_ok, field_specs. rewrite !Forall_cons. cbn [fst snd].
  intros ((m & i & i' & Hmt & Hmj & Hctx) & [id Hid] & [ty Hty] & [qn Hqn] & (p & d & Hp & Hd) & [s Hs] &
    (pr & z & Hpr & Hz) & (c & tc & Hc & Htc) & (u & tu & Hu & Htu) & (rs & Hrs) & (ds & Hds) & (a & Ha) &
    (mx & Hmx) & (st & Hst) & (fi & Hfi) & (hb & Hhb) & (le & Hle) & (pg & Hpg) & (rt & Hrt) & (ct & Hct) &
    (v & Hv) & _).
  unfold hash_to_job, hash_shows. rewrite Hid, Hty, Hqn, Hp, Hs, Hpr, Hc, Hu, Hmt.
  pose proof (read_dict_dumps _ Hmj) as Hm. rewrite (text_or_read read_dict _ _ _ eq_refl Hm).
  read_field Hm. cbn [item mbind result_bind]. unfold hash_status. cbn [item mbind result_bind].
  rewrite JobStatus_of_value. read_field Hd. read_field Hz. read_field Htc. read_field Htu. read_field Hrs.
  read_field Hds. read_field Ha. read_field Hmx. read_field Hst. read_field Hfi. read_field Hhb.
  read_field Hle. read_field Hpg. read_field Hrt. read_field Hct. read_field Hv.
  match goal with |- ∃ j, context_fields m ?k = _ ∧ _ =>
    destruct (context_fields_total _ _ _ k Hctx) as (j & Hj & E1 & E2 & E3 & E4 & E5 & _) end.
  exists j. split; [exact Hj|]. simpl in E1, E2, E3, E4, E5. rewrite E1, E2, E3, E4, E5.
  split_and!; [done..|]. by exists pr.
Qed.

Lemma storable_hash j : storable j → ∃ mapping, job_to_hash j = Ok mapping ∧ mapping ≠ [] ∧ Dict.wf mapping ∧
  ∀ h, hash_ok (set_fields h mapping) ∧ set_fields h mapping !! "job_id" = Some (job_id j) ∧
    set_fields h mapping !! "status" = Some (value (status j)) ∧
    set_fields h mapping !! "priority" = Some (pretty (priority j)).
Proof.
  intros [Hp Hm [Hrw Hrs] Hd Hc Hu Hst Hf Hb He Hpr Hr Haw]. unfold job_to_hash.
  destruct (result_text_ok _ Hr) as (r & -> & Href). eexists. split; [reflexivity|].
  match goal with |- ?l ≠ _ ∧ _ => set (M := l) end.
  assert (Hwf : Dict.wf M) by (by apply (bool_decide_unpack _); vm_compute). split; [done|]. split; [done|].
  intros h. assert (Hg : ∀ k v, Dict.get k M = Some v → set_fields h M !! k = Some v).
  { intros k v Hv. by rewrite lookup_set_fields, Hv. }
  split; [|split_and!; by apply Hg]. unfold hash_ok, field_specs. rewrite !Forall_cons. cbn [fst snd].
  split_and!.
  - eexists _, j, _. split; [by apply Hg|]. split; [done|apply context_fields_job].
  - rewrite (Hg "job_id" _ eq_refl). by eexists.
  - rewrite (Hg "job_type" _ eq_refl). by eexists.
  - rewrite (Hg "queue_name" _ eq_refl). by eexists.
  - eexists (dumps (PDict (payload j))), _. split; [by apply Hg|by apply read_dict_dumps].
  - eexists. by apply Hg.
  - eexists _, _. split; [by apply Hg|by apply read_int_pretty].
  - eexists _, _. split; [by apply Hg|by apply read_time_iso].
  - eexists _, _. split; [by apply Hg|by apply read_time_iso].
  - rewrite (Hg "resources" _ eq_refl), (text_or_read read_ints _ _ _ eq_refl (read_ints_dumps _ Hrw Hrs)).
    eexists. by apply read_ints_dumps.
  - rewrite (Hg "depends_on" _ eq_refl), (text_or_read read_strs _ _ _ eq_refl (read_strs_dumps _ Hd)).
    eexists. by apply read_strs_dumps.
  - rewrite (Hg "attempt" _ eq_refl), (text_or_read read_int _ _ _ eq_refl (read_int_pretty _)).
    eexists. by apply read_int_pretty.
  - rewrite (Hg "max_attempts" _ eq_refl), (text_or_read read_int _ _ _ eq_refl (read_int_pretty _)).
    eexists. by apply read_int_pretty.
  - rewrite (Hg "started_at" _ eq_refl). eexists. by apply optional_iso.
  - rewrite (Hg "finished_at" _ eq_refl). eexists. by apply optional_iso.
  - rewrite (Hg "last_heartbeat_at" _ eq_refl). eexists. by apply optional_iso.
  - rewrite (Hg "last_error" _ eq_refl). eexists. by apply optional_dumps.
  - rewrite (Hg "progress" _ eq_refl). eexists. by apply optional_dumps.
  - rewrite (Hg "run_timeout_ms" _ eq_refl). eexists. by apply optional_pretty.
  - rewrite (Hg "claim_timeout_ms" _ eq_refl). eexists. by apply optional_pretty.
  - rewrite (Hg "version" _ eq_refl), (text_or_read read_int _ _ _ eq_refl (read_int_pretty _)).
    eexists. by apply read_int_pretty.
  - by apply Forall_nil.
Qed.

(** Setting fields to readable values keeps a hash readable. *)
Lemma hash_ok_set h mapping :
  Dict.wf mapping → hash_ok h →
  Forall (λ ks, from_option (λ v, ks.2 (Some v)) True (Dict.get ks.1 mapping)) field_specs →
  hash_ok (set_fields h mapping).
Proof.
  intros Hwf Hh Hm. unfold hash_ok in *. rewrite Forall_forall in *. intros [k spec] Hk.
  specialize (Hh _ Hk). specialize (Hm _ Hk). simpl in *. rewrite lookup_set_fields by done.
  by destruct (Dict.get k mapping).
Qed.
