(* ===== verification/RedisTheorems.v ===== *)
(** * The Redis backend: theorems

    The hashes, the queue and the leases a key space holds under a prefix, the
    effect of every command on them, and from these the simulation of the
    abstract queue, the exclusivity of claims and the recovery of lost jobs. *)

From S2P Require Import Prelude PyValue Json Isotime Domain Meta RedisClient Backend MemoryBackend RedisBackend.

(** ** The keys of a prefix *)

Definition job_key (p id : string) : string := p +:+ ":job:" +:+ id.
Definition lease_key (p id : string) : string := p +:+ ":lease:" +:+ id.
Definition queue_key (p : string) : string := p +:+ ":queue".

Lemma app_inj_str p a b : p +:+ a = p +:+ b → a = b.
Proof. induction p as [|c p IH]; [done|]. rewrite !app_cons. intros [= E]. auto. Qed.

#[export] Instance job_key_inj p : Inj (=) (=) (job_key p).
Proof. intros a b E%app_inj_str%app_inj_str. done. Qed.
#[export] Instance lease_key_inj p : Inj (=) (=) (lease_key p).
Proof. intros a b E%app_inj_str%app_inj_str. done. Qed.

Lemma job_lease p a b : job_key p a ≠ lease_key p b.
Proof. intros E%app_inj_str. done. Qed.
Lemma job_queue p a : job_key p a ≠ queue_key p.
Proof. intros E%app_inj_str. done. Qed.
Lemma lease_queue p a : lease_key p a ≠ queue_key p.
Proof. intros E%app_inj_str. done. Qed.

(** What the key space holds under a prefix: the hashes, the queue and the
    leases that have not expired. *)
Record holds_map (p : string) (m : redis_map) (J : gmap string hash) (q : gmap string Z)
    (L : gmap string string) : Prop := {
  hm_jobs id : m !! job_key p id = RHash <$> J !! id;
  hm_queue : m !! queue_key p = if decide (q = ∅) then None else Some (RZset q);
  hm_leases id : m !! lease_key p id = RText <$> L !! id;
  hm_fields id h : J !! id = Some h → h ≠ ∅;
}.

Lemma aged_holds p m m' J q L : aged m m' → holds_map p m J q L →
  ∃ L', L' ⊆ L ∧ holds_map p m' J q L'.
Proof.
  intros Ha [Hj Hq Hl Hf]. exists (filter (λ '(id, _), is_Some (m' !! lease_key p id)) L).
  split; [apply map_filter_subseteq|]. split; [| | |done].
  - intros id. destruct (Ha (job_key p id)) as [->|(_ & s & Hs)]; [done|].
    rewrite Hj in Hs. by destruct (J !! id).
  - destruct (Ha (queue_key p)) as [->|(_ & s & Hs)]; [done|]. rewrite Hq in Hs. by case_decide.
  - intros id. rewrite map_lookup_filter. specialize (Hl id).
    destruct (Ha (lease_key p id)) as [E|(E & _)]; destruct (L !! id) as [s|]; simpl in *;
      [|congruence| |done]; case_guard as G; simpl; [congruence| | |done].
    + destruct G. rewrite E, Hl. by eexists.
    + rewrite E in G. by destruct G.
Qed.

Lemma set_fields_nonempty h mapping : mapping ≠ [] → set_fields h mapping ≠ ∅.
Proof.
  assert (Hne : ∀ mapping h, h ≠ ∅ → set_fields h mapping ≠ ∅).
  { clear. intros mapping. induction mapping as [|[k v] mapping IH]; intros h Hh; [done|].
    exact (IH _ (insert_non_empty _ _ _)). }
  destruct mapping as [|[k v] mapping]; [done|]. intros _. exact (Hne mapping _ (insert_non_empty _ _ _)).
Qed.

Lemma holds_set_job p m J q L id h : h ≠ ∅ →
  holds_map p m J q L → holds_map p (<[job_key p id := RHash h]> m) (<[id := h]> J) q L.
Proof.
  intros Hh [Hj Hq Hl Hf]. split.
  - intros id'. destruct (decide (id = id')) as [->|Hne]; [by rewrite !lookup_insert_eq|].
    rewrite !lookup_insert_ne by (done || by intros ?%(inj (job_key p))). done.
  - rewrite lookup_insert_ne by apply job_queue. done.
  - intros id'. rewrite lookup_insert_ne by apply job_lease. done.
  - intros id' h' [[-> ->]|[_ ?]]%lookup_insert_Some; eauto.
Qed.

Lemma holds_put_queue p m J q L q' :
  holds_map p m J q L → holds_map p (put_zset (queue_key p) q' m) J q' L.
Proof.
  intros [Hj Hq Hl Hf]. unfold put_zset.
  assert (∀ id, queue_key p ≠ job_key p id) by (intros id E; by apply (job_queue p id)).
  assert (∀ id, queue_key p ≠ lease_key p id) by (intros id E; by apply (lease_queue p id)).
  destruct (decide (q' = ∅)) as [->|Hq'].
  - split; [intros id| |intros id|done]; rewrite ?lookup_delete_ne by done; [done| |done].
    by rewrite lookup_delete_eq, decide_True.
  - split; [intros id| |intros id|done]; rewrite ?lookup_insert_ne by done; [done| |done].
    by rewrite lookup_insert_eq, decide_False.
Qed.

Lemma holds_put_lease p m J q L id s :
  holds_map p m J q L → holds_map p (<[lease_key p id := RText s]> m) J q (<[id := s]> L).
Proof.
  intros [Hj Hq Hl Hf].
  assert (∀ id', lease_key p id ≠ job_key p id') by (intros id' E; by apply (job_lease p id' id)).
  split; [intros id'| |intros id'|done]; rewrite ?lookup_insert_ne by (done || apply lease_queue); [done..|].
  destruct (decide (id = id')) as [->|Hne]; [by rewrite !lookup_insert_eq|].
  rewrite !lookup_insert_ne by (done || by intros ?%(inj (lease_key p))). done.
Qed.

Lemma holds_delete_lease p m J q L id :
  holds_map p m J q L → holds_map p (delete (lease_key p id) m) J q (delete id L).
Proof.
  intros [Hj Hq Hl Hf].
  assert (∀ id', lease_key p id ≠ job_key p id') by (intros id' E; by apply (job_lease p id' id)).
  split; [intros id'| |intros id'|done]; rewrite ?lookup_delete_ne by (done || apply lease_queue); [done..|].
  destruct (decide (id = id')) as [->|Hne]; [by rewrite !lookup_delete_eq|].
  rewrite !lookup_delete_ne by (done || by intros ?%(inj (lease_key p))). done.
Qed.

Lemma zset_at_queue p m J q L : holds_map p m J q L → zset_at (queue_key p) m = Some q.
Proof. intros [_ Hq _ _]. unfold zset_at. rewrite Hq. case_decide; by subst. Qed.

(** ** The commands, on what the key space holds *)

Section commands.
Context {C : Type} `{RedisLaws C}.
Context (p : string).

Definition holds (c : C) J q L : Prop := holds_map p (db c) J q L.

Context (c : C) (J : gmap string hash) (q : gmap string Z) (L : gmap string string).
Context (Hc : holds c J q L).

(** The key space has aged. *)
Local Ltac age :=
  match goal with Ha : aged (db c) _ |- _ =>
    destruct (aged_holds _ _ _ _ _ _ Ha Hc) as (L' & HL & Hm) end.

Lemma wp_hset_job id mapping (Q : result unit → C → Prop) : mapping ≠ [] →
  (∀ c' L', L' ⊆ L → holds c' (<[id := set_fields (default ∅ (J !! id)) mapping]> J) q L' → Q (Ok tt) c') →
  wp (hset (job_key p id) mapping) c Q.
Proof using Hc.
  intros Hne HQ. eapply wp_mono; [by apply hset_ok|]. intros r c' (m & Ha & E). age.
  unfold do_hset in E. rewrite (hm_jobs _ _ _ _ _ Hm) in E.
  pose proof (holds_set_job _ _ _ _ _ id _ (set_fields_nonempty (default ∅ (J !! id)) _ Hne) Hm) as Hm'.
  destruct (J !! id) as [h|]; simpl in *; injection E as -> E; eapply HQ; eauto; unfold holds; by rewrite E.
Qed.

Lemma wp_hget_job id f (Q : result (option string) → C → Prop) :
  (∀ c' L', L' ⊆ L → holds c' J q L' → Q (Ok (J !! id ≫= lookup f)) c') →
  wp (hget (job_key p id) f) c Q.
Proof using Hc.
  intros HQ. eapply wp_mono; [by apply hget_ok|]. intros r c' (Ha & ->). age.
  unfold do_hget. rewrite (hm_jobs _ _ _ _ _ Hm). destruct (J !! id); eauto.
Qed.

Lemma wp_hgetall_job id (Q : result hash → C → Prop) :
  (∀ c' L', L' ⊆ L → holds c' J q L' → Q (Ok (default ∅ (J !! id))) c') →
  wp (hgetall (job_key p id)) c Q.
Proof using Hc.
  intros HQ. eapply wp_mono; [by apply hgetall_ok|]. intros r c' (Ha & ->). age.
  unfold do_hgetall. rewrite (hm_jobs _ _ _ _ _ Hm). destruct (J !! id); eauto.
Qed.

Lemma wp_exists_job id (Q : result bool → C → Prop) :
  (∀ c' L', L' ⊆ L → holds c' J q L' → Q (Ok (bool_decide (is_Some (J !! id)))) c') →
  wp (exists_key (job_key p id)) c Q.
Proof using Hc.
  intros HQ. eapply wp_mono; [by apply exists_ok|]. intros r c' (Ha & ->). age.
  rewrite (hm_jobs _ _ _ _ _ Hm).
  replace (bool_decide (is_Some (RHash <$> J !! id))) with (bool_decide (is_Some (J !! id))) by
    (by destruct (J !! id)). eauto.
Qed.

Lemma wp_exists_lease id (Q : result bool → C → Prop) :
  (∀ c' L', L' ⊆ L → holds c' J q L' → Q (Ok (bool_decide (is_Some (L' !! id)))) c') →
  wp (exists_key (lease_key p id)) c Q.
Proof using Hc.
  intros HQ. eapply wp_mono; [by apply exists_ok|]. intros r c' (Ha & ->). age.
  rewrite (hm_leases _ _ _ _ _ Hm).
  replace (bool_decide (is_Some (RText <$> L' !! id))) with (bool_decide (is_Some (L' !! id))) by
    (by destruct (L' !! id)). eauto.
Qed.

Lemma wp_zadd_queue id z (Q : result unit → C → Prop) : exact_score z →
  (∀ c' L', L' ⊆ L → holds c' J (<[id := z]> q) L' → Q (Ok tt) c') →
  wp (zadd (queue_key p) id z) c Q.
Proof using Hc.
  intros Hz HQ. eapply wp_mono; [by apply zadd_ok|]. intros r c' (m & Ha & E). age.
  unfold do_zadd in E. rewrite (zset_at_queue _ _ _ _ _ Hm) in E. injection E as -> E.
  eapply HQ; [exact HL|]. unfold holds. rewrite E. by eapply holds_put_queue.
Qed.

Lemma wp_zrem_queue id (Q : result unit → C → Prop) :
  (∀ c' L', L' ⊆ L → holds c' J (delete id q) L' → Q (Ok tt) c') →
  wp (zrem (queue_key p) id) c Q.
Proof using Hc.
  intros HQ. eapply wp_mono; [by apply zrem_ok|]. intros r c' (m & Ha & E). age.
  unfold do_zrem in E. rewrite (zset_at_queue _ _ _ _ _ Hm) in E. injection E as -> E.
  eapply HQ; [exact HL|]. unfold holds. rewrite E. by eapply holds_put_queue.
Qed.

Lemma wp_zrevrange_queue stop (Q : result (list string) → C → Prop) : (0 ≤ stop)%Z →
  (∀ c' L' l, L' ⊆ L → holds c' J q L' → ranking q l → Q (Ok (take (Z.to_nat (stop + 1)) l)) c') →
  wp (zrevrange (queue_key p) 0 stop) c Q.
Proof using Hc.
  intros Hs HQ. eapply wp_mono; [by apply zrevrange_ok|]. intros r c' (Ha & E). age.
  rewrite (zset_at_queue _ _ _ _ _ Hm) in E. destruct E as (l & Hl & ->). eauto.
Qed.

Lemma wp_delete_lease id (Q : result unit → C → Prop) :
  (∀ c' L', L' ⊆ L → holds c' J q (delete id L') → Q (Ok tt) c') →
  wp (delete_keys [lease_key p id]) c Q.
Proof using Hc.
  intros HQ. eapply wp_mono; [by apply delete_ok|]. intros r c' (m & Ha & -> & E). age.
  eapply HQ; [exact HL|]. unfold holds. rewrite E. by apply holds_delete_lease.
Qed.

Lemma wp_set_lease id s n (Q : result unit → C → Prop) : (0 < n)%Z →
  (∀ c' L', L' ⊆ L → holds c' J q (<[id := s]> L') → Q (Ok tt) c') →
  wp (set_ex (lease_key p id) s n) c Q.
Proof using Hc.
  intros Hn HQ. eapply wp_mono; [by apply set_ex_ok|]. intros r c' (m & Ha & E). age.
  unfold do_set_ex in E. rewrite (proj2 (Z.leb_gt _ _)) in E by done. injection E as -> E.
  eapply HQ; [exact HL|]. unfold holds. rewrite E. by apply holds_put_lease.
Qed.

Lemma wp_expire_lease id n (Q : result unit → C → Prop) : (0 < n)%Z →
  (∀ c' L', L' ⊆ L → holds c' J q L' → Q (Ok tt) c') →
  wp (expire (lease_key p id) n) c Q.
Proof using Hc.
  intros Hn HQ. eapply wp_mono; [by apply expire_ok|]. intros r c' (Ha & ->). age. eauto.
Qed.

Lemma starts_with_job_key k : starts_with (p +:+ ":job:") k = true ↔ ∃ id, k = job_key p id.
Proof using Type. rewrite starts_with_spec. unfold job_key. by setoid_rewrite app_assoc_str. Qed.

Lemma wp_scan_jobs (Q : result (list string) → C → Prop) : literal (p +:+ ":job:") = true →
  (∀ c' L' l, L' ⊆ L → holds c' J q L' →
    (∀ k, k ∈ l ↔ ∃ id, k = job_key p id ∧ is_Some (J !! id)) → Q (Ok l) c') →
  wp (scan_iter ((p +:+ ":job:") +:+ "*")) c Q.
Proof using Hc.
  intros Hp HQ. eapply wp_mono; [by apply scan_ok|]. intros r c' (Ha & l & -> & Hl). age.
  eapply HQ; [exact HL|exact Hm|]. intros k. rewrite Hl, starts_with_job_key. split.
  - intros [[id ->] Hk]. exists id. split; [done|]. rewrite (hm_jobs _ _ _ _ _ Hm) in Hk.
    by apply fmap_is_Some in Hk.
  - intros (id & -> & Hk). split; [by eexists|]. rewrite (hm_jobs _ _ _ _ _ Hm). by apply fmap_is_Some.
Qed.
End commands.

(** ** The operations *)

(** A hash of the backend: readable, under its own identifier, its priority small
    enough for its score to be exact. *)
Definition small_priority (z : Z) : Prop := (-875000 ≤ z ≤ 875000)%Z.

Definition job_hash (id : string) (h : hash) : Prop :=
  hash_ok h ∧ h !! "job_id" = Some id ∧
  ∃ s z, h !! "priority" = Some s ∧ read_int s = Ok z ∧ small_priority z.

Definition jobs_ok (J : gmap string hash) : Prop := map_Forall job_hash J.

Definition status_of (h : hash) : option JobStatus := h !! "status" ≫= JobStatus_of.

Lemma small_score z t : small_priority z → datetime_ok t → exact_score (Redis.score z (t / 1000)).
Proof. unfold small_priority, datetime_ok, exact_score, Redis.score. intros ??. div_lia. Qed.

Lemma wp_iso {C} `{RedisClient C} (b : RedisQueueBackend C) (Q : result string → RedisQueueBackend C → Prop) :
  (∀ t, datetime_ok t → Q (Ok (isoformat t)) b) → wp Redis.now_iso b Q.
Proof. intros HQ. apply wp_bind, wp_utcnow. intros t Ht. by apply wp_ret, HQ. Qed.

Lemma wp_ms {C} `{RedisClient C} (b : RedisQueueBackend C) (Q : result Z → RedisQueueBackend C → Prop) :
  (∀ t, datetime_ok t → Q (Ok (t / 1000)%Z) b) → wp Redis.time_ms b Q.
Proof. intros HQ. apply wp_bind, wp_utcnow. intros t Ht. by apply wp_ret, HQ. Qed.

Lemma wp_call {C} `{RedisClient C} {A} (m : M C A) c p t
    (Q : result A → RedisQueueBackend C → Prop) :
  wp m c (λ r c', Q r (new_redis_backend c' p t)) → wp (Redis.call m) (new_redis_backend c p t) Q.
Proof. intros HQ. by apply wp_zoom. Qed.

Lemma json_ok_claimed d h w :
  json_ok (PDict d) → python_str h → python_str w → json_ok (PDict (claimed_meta h w d)).
Proof.
  intros. unfold claimed_meta.
  apply json_ok_set; [apply json_ok_set|..]; (by apply python_str_ascii) || (by constructor) || done.
Qed.

Section operations.
Context {C : Type} `{RedisLaws C}.
Context (p : string) (t : Z).
Implicit Types (J : gmap string hash) (q : gmap string Z) (L : gmap string string).

Lemma wp_get c J q L id (Q : result (option Job) → RedisQueueBackend C → Prop) :
  holds p c J q L → jobs_ok J →
  (∀ c' L' oj, L' ⊆ L → holds p c' J q L' →
     match J !! id with
     | None => oj = None
     | Some h => ∃ j, oj = Some j ∧ hash_to_job h = Ok j ∧ hash_shows h j ∧ job_id j = id ∧
                   small_priority (priority j)
     end → Q (Ok oj) (new_redis_backend c' p t)) →
  wp (Redis.get id) (new_redis_backend c p t) Q.
Proof.
  intros Hc HJ HQ. unfold Redis.get. wp_steps. apply wp_call. eapply wp_hgetall_job; [done|].
  intros c' L' HL Hc'. cbn beta iota. destruct (J !! id) as [h|] eqn:E; simpl default.
  - rewrite bool_decide_eq_false_2 by (by eapply hm_fields).
    destruct (HJ _ _ E) as (Hok & Hid & s & z & Hs & Hz & Hp).
    destruct (hash_ok_read _ Hok) as (j & Hj & Hsh). rewrite Hj. wp_steps. apply wp_lift. wp_steps.
    eapply HQ; [done|done|]. exists j. split_and!; try done.
    + destruct Hsh as (Hid' & _). congruence.
    + destruct Hsh as (_ & _ & _ & _ & s' & Hs' & Hz'). congruence.
  - rewrite bool_decide_eq_true_2 by done. wp_steps. by eapply HQ.
Qed.

End operations.

(** Setting fields of a stored hash. *)
Lemma job_hash_set id h mapping :
  job_hash id h → Dict.wf mapping →
  Dict.get "job_id" mapping = None → Dict.get "priority" mapping = None →
  Forall (λ ks, from_option (λ v, ks.2 (Some v)) True (Dict.get ks.1 mapping)) field_specs →
  job_hash id (set_fields h mapping).
Proof.
  intros (Hok & Hid & s & z & Hs & Hz) Hwf H1 H2 Hm. split; [by apply hash_ok_set|].
  rewrite !lookup_set_fields, H1, H2 by done. eauto.
Qed.

Lemma status_set h mapping v :
  Dict.wf mapping → Dict.get "status" mapping = Some v → status_of (set_fields h mapping) = JobStatus_of v.
Proof. intros Hwf Hs. unfold status_of. by rewrite lookup_set_fields, Hs. Qed.

Lemma status_keep h mapping :
  Dict.wf mapping → Dict.get "status" mapping = None → status_of (set_fields h mapping) = status_of h.
Proof. intros Hwf Hs. unfold status_of. by rewrite lookup_set_fields, Hs. Qed.

Lemma job_hash_status id h : job_hash id h → ∃ s, h !! "status" = Some (value s) ∧ status_of h = Some s.
Proof.
  intros (Hok & _). destruct (hash_ok_read _ Hok) as (j & _ & _ & Hs & _).
  exists (status j). split; [done|]. unfold status_of. rewrite Hs. apply JobStatus_of_value.
Qed.

(** The specifications of the fields a mapping does not set are trivial. *)
Ltac only_set :=
  unfold field_specs; rewrite !Forall_cons; cbn [fst snd]; split_and!; try exact I; try exact (Forall_nil_2 _).
Ltac wf_mapping := by apply (bool_decide_unpack _); vm_compute.

Section changes.
Context {C : Type} `{RedisLaws C}.
Context (p : string) (t : Z).
Context (c : C) (J : gmap string hash) (q : gmap string Z) (L : gmap string string).
Context (Hc : holds p c J q L) (HJ : jobs_ok J).
Implicit Types (Q : result bool → RedisQueueBackend C → Prop).

(** Continue with the hash that was there. *)
Local Ltac known E := rewrite E; cbn [from_option default mbind option_bind].

Lemma wp_requeue id Q :
  (∀ c' L', J !! id = None → L' ⊆ L → holds p c' J q L' → Q (Ok false) (new_redis_backend c' p t)) →
  (∀ c' h h' z L', J !! id = Some h → job_hash id h' → status_of h' = Some QUEUED → L' ⊆ L →
     holds p c' (<[id := h']> J) (<[id := z]> q) L' → Q (Ok true) (new_redis_backend c' p t)) →
  wp (Redis.requeue id) (new_redis_backend c p t) Q.
Proof using Hc HJ.
  intros HN HS. unfold Redis.requeue. wp_steps. eapply wp_get; [done|done|].
  intros c1 L1 oj HL1 H1 Hoj. cbn beta iota. destruct (J !! id) as [h|] eqn:E.
  - destruct Hoj as (j & -> & _ & _ & _ & Hz). wp_steps. apply wp_iso. intros now Hnow. wp_steps.
    apply wp_call. eapply wp_hset_job; [done|done|]. intros c2 L2 HL2 H2. wp_steps.
    apply wp_ms. intros ms Hms. wp_steps. apply wp_call.
    eapply wp_zadd_queue; [done|by apply small_score|]. intros c3 L3 HL3 H3. wp_steps.
    rewrite E in H3. eapply HS; [done| | | |exact H3].
    + eapply job_hash_set; [by apply HJ|wf_mapping|done|done|]. only_set; [by exists QUEUED|].
      eexists _, _. split; [done|by apply read_time_iso].
    + erewrite status_set; [apply JobStatus_of_value|wf_mapping|done].
    + by repeat (etrans; [eassumption|]).
  - subst oj. wp_steps. by eapply HN.
Qed.

Lemma wp_drop id (Q' : result unit → RedisQueueBackend C → Prop) :
  (∀ c' L', L' ⊆ L → holds p c' J q (delete id L') → Q' (Ok tt) (new_redis_backend c' p t)) →
  wp (Redis.drop_lease id) (new_redis_backend c p t) Q'.
Proof using Hc. intros HQ. unfold Redis.drop_lease. wp_steps. apply wp_call. by eapply wp_delete_lease. Qed.
End changes.

Section claims.
Context {C : Type} `{RedisLaws C}.
Context (p : string) (t : Z).
Context (c : C) (J : gmap string hash) (q : gmap string Z) (L : gmap string string).
Context (Hc : holds p c J q L) (HJ : jobs_ok J).
Implicit Types (Q : result bool → RedisQueueBackend C → Prop).

Lemma wp_release id Q :
  (∀ c' L', J !! id = None → L' ⊆ L → holds p c' J q L' → Q (Ok false) (new_redis_backend c' p t)) →
  (∀ c' h h' z L', J !! id = Some h → job_hash id h' → status_of h' = Some QUEUED → L' ⊆ L →
     holds p c' (<[id := h']> J) (<[id := z]> q) (delete id L') → Q (Ok true) (new_redis_backend c' p t)) →
  wp (Redis.release id) (new_redis_backend c p t) Q.
Proof using Hc HJ.
  intros HN HS. unfold Redis.release. wp_steps. eapply wp_requeue; [done|done|..].
  - intros c1 L1 E HL1 H1. cbn beta iota. wp_steps. by eapply HN.
  - intros c1 h h' z L1 E Hh' Hs HL1 H1. cbn beta iota. wp_steps. eapply wp_drop; [done|].
    intros c2 L2 HL2 H2. wp_steps. eapply HS; [done|done|done| |exact H2]. by etrans.
Qed.

(** The metadata a claim writes, whether the job exists or not. *)
Lemma claim_meta_ok id host worker : python_str host → python_str worker →
  ∃ m, Redis.claim_meta host worker (J !! id ≫= lookup "meta") = Ok m ∧ json_ok (PDict m) ∧
    ∃ i i', context_fields m i = Ok i'.
Proof using HJ.
  intros Hhost Hworker. unfold Redis.claim_meta.
  destruct (J !! id) as [h|] eqn:E; cbn [mbind option_bind].
  - destruct (HJ _ _ E) as (Hok & _). apply Forall_cons_1 in Hok as [(m & i & i' & Hm & Hmj & Hi) _].
    simpl in Hm. rewrite Hm. pose proof (read_dict_dumps _ Hmj) as Hr.
    rewrite (text_or_read read_dict _ _ _ eq_refl Hr), Hr. cbn [mbind result_bind].
    eexists. split; [done|]. split; [by apply json_ok_claimed|].
    destruct (context_fields_claim _ _ _ i host worker Hi) as [j Hj]. eauto.
  - eexists. split; [done|]. split.
    + apply json_ok_claimed; [|done..]. constructor; [apply Dict.wf_nil|apply Forall_nil_2..].
    + destruct (context_fields_nil (new_job "" "" "" [] QUEUED 0 0 0)) as [j0 Hj0].
      destruct (context_fields_claim _ _ _ j0 host worker Hj0) as [j Hj]. eauto.
Qed.

(** The claim script. *)
Lemma wp_run_claim id host worker now m Q : (0 < t)%Z → datetime_ok now →
  json_ok (PDict m) → (∃ i i', context_fields m i = Ok i') →
  (∀ c' L', J !! id ≫= status_of ≠ Some QUEUED → L' ⊆ L → holds p c' J q L' →
     Q (Ok false) (new_redis_backend c' p t)) →
  (∀ c' h h' L', J !! id = Some h → status_of h = Some QUEUED → job_hash id h' →
     status_of h' = Some RUNNING → h' !! "claimed_by" = Some (host +:+ ":" +:+ worker) →
     L' ⊆ L → holds p c' (<[id := h']> J) (delete id q) (<[id := host +:+ ":" +:+ worker]> L') →
     Q (Ok true) (new_redis_backend c' p t)) →
  wp (Redis.run_claim id host worker (isoformat now) m) (new_redis_backend c p t) Q.
Proof using Hc HJ.
  intros Ht Hnow Hm (i & i' & Hi) HN HS. unfold Redis.run_claim, Redis.or_false. wp_steps.
  apply wp_call. unfold claim_lua. wp_steps. eapply wp_hget_job; [done|].
  intros c1 L1 HL1 H1. cbn beta iota. destruct (J !! id) as [h|] eqn:E; cbn [mbind option_bind].
  - destruct (job_hash_status _ _ (HJ _ _ E)) as (s & Hs & Hst). rewrite Hs.
    destruct (decide (s = QUEUED)) as [->|Hne].
    + rewrite bool_decide_eq_false_2 by naive_solver. wp_steps.
      eapply wp_hset_job; [done|done|]. intros c2 L2 HL2 H2. wp_steps.
      eapply wp_zrem_queue; [done|]. intros c3 L3 HL3 H3. wp_steps.
      eapply wp_set_lease; [done|done|]. intros c4 L4 HL4 H4. wp_steps.
      rewrite E in H4. eapply HS; [done|done| | | | |exact H4].
      * eapply job_hash_set; [by apply HJ|wf_mapping|done|done|]. only_set.
        -- by eexists _, _, _.
        -- by exists RUNNING.
        -- eexists _, _. split; [done|by apply read_time_iso].
        -- eexists. by apply (optional_iso (Some now)).
        -- eexists. by apply (optional_iso (Some now)).
      * erewrite status_set; [apply JobStatus_of_value|wf_mapping|done].
      * rewrite lookup_set_fields by wf_mapping. done.
      * by repeat (etrans; [eassumption|]).
    + rewrite bool_decide_eq_true_2 by (intros [= ?%(inj value)]; done). wp_steps. eapply HN; [|done|done].
      simpl. congruence.
  - rewrite bool_decide_eq_true_2 by done. wp_steps. by eapply HN.
Qed.
End claims.

Section requests.
Context {C : Type} `{RedisLaws C}.
Context (p : string) (t : Z).
Context (c : C) (J : gmap string hash) (q : gmap string Z) (L : gmap string string).
Context (Hc : holds p c J q L) (HJ : jobs_ok J).
Implicit Types (Q : result bool → RedisQueueBackend C → Prop).

Lemma wp_claim id host worker Q : (0 < t)%Z → python_str host → python_str worker →
  (∀ c' L', J !! id ≫= status_of ≠ Some QUEUED → L' ⊆ L → holds p c' J q L' →
     Q (Ok false) (new_redis_backend c' p t)) →
  (∀ c' h h' L', J !! id = Some h → status_of h = Some QUEUED → job_hash id h' →
     status_of h' = Some RUNNING → h' !! "claimed_by" = Some (host +:+ ":" +:+ worker) →
     L' ⊆ L → holds p c' (<[id := h']> J) (delete id q) (<[id := host +:+ ":" +:+ worker]> L') →
     Q (Ok true) (new_redis_backend c' p t)) →
  wp (Redis.claim id host worker) (new_redis_backend c p t) Q.
Proof using Hc HJ.
  intros Ht Hhost Hworker HN HS. unfold Redis.claim. wp_steps. apply wp_iso. intros now Hnow. wp_steps.
  apply wp_call. eapply wp_hget_job; [done|]. intros c1 L1 HL1 H1. wp_steps. apply wp_lift.
  destruct (claim_meta_ok J HJ id host worker Hhost Hworker) as (m & Hm & Hmj & Hctx). rewrite Hm.
  eapply wp_run_claim; eauto.
  - intros c2 L2 ? HL2 H2. apply (HN c2 L2); [done|by etrans|done].
  - intros c2 h h' L2 ????? HL2 H2. apply (HS c2 h h' L2); try done. by etrans.
Qed.

Lemma wp_heartbeat id Q : (0 < t)%Z →
  (∀ c' L', J !! id ≫= status_of ≠ Some RUNNING → L' ⊆ L → holds p c' J q L' →
     Q (Ok false) (new_redis_backend c' p t)) →
  (∀ c' h h' L', J !! id = Some h → status_of h = Some RUNNING → job_hash id h' →
     status_of h' = Some RUNNING → L' ⊆ L → holds p c' (<[id := h']> J) q L' →
     Q (Ok true) (new_redis_backend c' p t)) →
  wp (Redis.heartbeat id) (new_redis_backend c p t) Q.
Proof using Hc HJ.
  intros Ht HN HS. unfold Redis.heartbeat, Redis.or_false. wp_steps. apply wp_iso. intros now Hnow. wp_steps.
  apply wp_call. unfold heartbeat_lua. wp_steps. eapply wp_hget_job; [done|].
  intros c1 L1 HL1 H1. cbn beta iota. destruct (J !! id) as [h|] eqn:E; cbn [mbind option_bind].
  - destruct (job_hash_status _ _ (HJ _ _ E)) as (s & Hs & Hst). rewrite Hs.
    destruct (decide (s = RUNNING)) as [->|Hne].
    + rewrite bool_decide_eq_false_2 by naive_solver. wp_steps.
      eapply wp_hset_job; [done|done|]. intros c2 L2 HL2 H2. wp_steps.
      eapply wp_expire_lease; [done|done|]. intros c3 L3 HL3 H3. wp_steps.
      rewrite E in H3. eapply HS; [done|done| | | |exact H3].
      * eapply job_hash_set; [by apply HJ|wf_mapping|done|done|]. only_set.
        -- eexists _, _. split; [done|by apply read_time_iso].
        -- eexists. by apply (optional_iso (Some now)).
      * rewrite status_keep; [done|wf_mapping|done].
      * by repeat (etrans; [eassumption|]).
    + rewrite bool_decide_eq_true_2 by (intros [= ?%(inj value)]; done). wp_steps. eapply HN; [|done|done].
      simpl. congruence.
  - rewrite bool_decide_eq_true_2 by done. wp_steps. by eapply HN.
Qed.

Lemma wp_leave_queue c' J' q' L' (b : bool) id (Q : result unit → RedisQueueBackend C → Prop) :
  holds p c' J' q' L' →
  (∀ c'' L'', L'' ⊆ L' → holds p c'' J' (if b then delete id q' else q') L'' →
     Q (Ok tt) (new_redis_backend c'' p t)) →
  wp (if b then Redis.call (zrem (queue_key p) id) else mret tt) (new_redis_backend c' p t) Q.
Proof using Type.
  intros Hc' HQ. destruct b; [|wp_steps; by eapply HQ]. apply wp_call. by eapply wp_zrem_queue.
Qed.

Lemma wp_drop_lease c' J' q' L' (b : bool) id (Q : result unit → RedisQueueBackend C → Prop) :
  holds p c' J' q' L' →
  (∀ c'' L'', L'' ⊆ L' → holds p c'' J' q' (if b then delete id L'' else L'') →
     Q (Ok tt) (new_redis_backend c'' p t)) →
  wp (if b then Redis.call (delete_keys [lease_key p id]) else mret tt) (new_redis_backend c' p t) Q.
Proof using Type.
  intros Hc' HQ. destruct b; [|wp_steps; by eapply HQ]. apply wp_call. by eapply wp_delete_lease.
Qed.

(** [update_status] takes the job out of the queue unless it puts it back there,
    where it does not add it. *)
Lemma wp_update_status id s Q :
  (∀ c' L', J !! id = None → L' ⊆ L → holds p c' J q L' → Q (Ok false) (new_redis_backend c' p t)) →
  (∀ c' h h' L', J !! id = Some h → job_hash id h' → status_of h' = Some s → L' ⊆ L →
     holds p c' (<[id := h']> J) (if decide (s = QUEUED) then q else delete id q)
       (if bool_decide (value s ∈ Redis.terminal) then delete id L' else L') →
     Q (Ok true) (new_redis_backend c' p t)) →
  wp (Redis.update_status id (value s)) (new_redis_backend c p t) Q.
Proof using Hc HJ.
  intros HN HS. unfold Redis.update_status. wp_steps. apply wp_call. eapply wp_exists_job; [done|].
  intros c1 L1 HL1 H1. cbn beta iota. destruct (J !! id) as [h|] eqn:E.
  - rewrite bool_decide_eq_true_2 by done. cbn [negb]. wp_steps. apply wp_iso. intros now Hnow. wp_steps.
    apply wp_call.
    assert (Hmap : ∃ mapping, mapping ≠ [] ∧ Dict.wf mapping ∧ job_hash id (set_fields h mapping) ∧
        status_of (set_fields h mapping) = Some s ∧
        mapping = if bool_decide (value s ∈ Redis.terminal)
                  then [("status", value s); ("updated_at", isoformat now)] ++ [("finished_at", isoformat now)]
                  else [("status", value s); ("updated_at", isoformat now)]).
    { case_bool_decide; (eexists; split_and!; [| | | |reflexivity];
        [done|wf_mapping| |erewrite status_set; [apply JobStatus_of_value|wf_mapping|done]]);
      (eapply job_hash_set; [by apply HJ|wf_mapping|done|done|]); only_set; try (by exists s);
        try (eexists _, _; split; [done|by apply read_time_iso]).
      eexists. by apply (optional_iso (Some now)). }
    destruct Hmap as (mapping & Hne & Hwf & Hjh & Hst & Emap). rewrite <- Emap.
    eapply wp_hset_job; [done|done|]. intros c2 L2 HL2 H2. rewrite E in H2. simpl default in H2.
    wp_steps. eapply wp_leave_queue; [exact H2|]. intros c3 L3 HL3 H3. cbn beta iota. wp_steps.
    eapply wp_drop_lease; [exact H3|]. intros c4 L4 HL4 H4. cbn beta iota. wp_steps.
    eapply HS; [done|exact Hjh|done| |].
    + by repeat (etrans; [eassumption|]).
    + destruct (decide (s = QUEUED)) as [->|Hs]; [done|]. rewrite bool_decide_eq_true_2 in H4; [done|].
      by intros ?%(inj value).
  - rewrite bool_decide_eq_false_2 by (by intros []). cbn [negb]. wp_steps. by eapply HN.
Qed.
End requests.

(** The job a hash reads as. *)
Definition read_job (J : gmap string hash) (id : string) : option Job :=
  h ← J !! id; match hash_to_job h with Ok j => Some j | Err _ => None end.

Lemma read_job_Some J id j : jobs_ok J → read_job J id = Some j →
  job_id j = id ∧ omap status_of J !! id = Some (status j).
Proof.
  unfold read_job. intros HJ. rewrite lookup_omap. destruct (J !! id) as [h|] eqn:E; [|done].
  cbn [mbind option_bind]. destruct (HJ _ _ E) as (Hok & Hid & _).
  destruct (hash_ok_read _ Hok) as (j' & -> & H1 & H2 & _). intros [= ->]. split; [congruence|].
  unfold status_of. rewrite H2. simpl. apply JobStatus_of_value.
Qed.

Lemma read_job_is J id s : jobs_ok J → omap status_of J !! id = Some s →
  ∃ j, read_job J id = Some j ∧ job_id j = id ∧ status j = s.
Proof.
  intros HJ Hs. rewrite lookup_omap in Hs. unfold read_job. destruct (J !! id) as [h|] eqn:E; [|done].
  cbn [mbind option_bind] in *. destruct (HJ _ _ E) as (Hok & Hid & _).
  destruct (hash_ok_read _ Hok) as (j & -> & H1 & H2 & _). exists j. split; [done|]. split; [congruence|].
  unfold status_of in Hs. rewrite H2 in Hs. simpl in Hs. rewrite JobStatus_of_value in Hs. congruence.
Qed.

Section listings.
Context {C : Type} `{RedisLaws C}.
Context (p : string) (t : Z).
Implicit Types (J : gmap string hash) (q : gmap string Z) (L : gmap string string).

Lemma wp_get_read c J q L id (Q : result (option Job) → RedisQueueBackend C → Prop) :
  holds p c J q L → jobs_ok J →
  (∀ c' L', L' ⊆ L → holds p c' J q L' → Q (Ok (read_job J id)) (new_redis_backend c' p t)) →
  wp (Redis.get id) (new_redis_backend c p t) Q.
Proof.
  intros Hc HJ HQ. eapply wp_get; [done|done|]. intros c' L' oj HL Hc' Hoj.
  specialize (HQ c' L' HL Hc'). unfold read_job in HQ. destruct (J !! id) as [h|]; cbn [mbind option_bind] in HQ.
  - destruct Hoj as (j & -> & Hj & _). by rewrite Hj in HQ.
  - by subst.
Qed.

Lemma wp_enqueue c J q L job (Q : result string → RedisQueueBackend C → Prop) :
  holds p c J q L → storable job → small_priority (priority job) →
  (∀ c' h' z L', job_hash (job_id job) h' → status_of h' = Some (status job) →
     hash_to_job h' = Ok (kept job) → L' ⊆ L →
     holds p c' (<[job_id job := h']> J) (<[job_id job := z]> q) L' →
     Q (Ok (job_id job)) (new_redis_backend c' p t)) →
  wp (Redis.enqueue job) (new_redis_backend c p t) Q.
Proof.
  intros Hc Hst Hp HQ. destruct (storable_hash _ Hst) as (mapping & Hm & Hne & Hwf & Hok).
  unfold Redis.enqueue. wp_steps. rewrite Hm. apply wp_lift. wp_steps. apply wp_call.
  eapply wp_hset_job; [done|done|]. intros c1 L1 HL1 H1. wp_steps. apply wp_ms. intros ms Hms. wp_steps.
  apply wp_call. eapply wp_zadd_queue; [done|by apply small_score|]. intros c2 L2 HL2 H2. wp_steps.
  destruct (Hok (default ∅ (J !! job_id job))) as (Hhash & Hid & Hs & Hpr).
  eapply HQ; [| | | |exact H2].
  - split; [done|]. split; [done|]. eexists _, _. split; [done|]. split; [apply read_int_pretty|done].
  - unfold status_of. rewrite Hs. apply JobStatus_of_value.
  - by apply hash_roundtrip.
  - by etrans.
Qed.

(** [dequeue] walks the first identifiers of the ranking. *)
Lemma wp_dequeue_loop c J q L limit jt qn ids jobs (Q : result (list Job) → RedisQueueBackend C → Prop) :
  holds p c J q L → jobs_ok J →
  (∀ c' L', L' ⊆ L → holds p c' J q L' →
     Q (Ok (jobs ++ take (Z.to_nat limit - length jobs)
              (filter (λ j, Redis.wanted jt qn j = true) (omap (read_job J) ids))))
       (new_redis_backend c' p t)) →
  wp (Redis.dequeue_loop limit jt qn ids jobs) (new_redis_backend c p t) Q.
Proof.
  intros Hc HJ. revert c L jobs Hc. induction ids as [|id ids IH]; intros c L jobs Hc HQ; cbn [Redis.dequeue_loop].
  - wp_steps. specialize (HQ c L). cbn [omap list_omap] in HQ.
    rewrite filter_nil, take_nil, app_nil_r in HQ. by apply HQ.
  - destruct (Z.leb_spec limit (Z.of_nat (length jobs))) as [Hl|Hl].
    { wp_steps. specialize (HQ c L). replace (Z.to_nat limit - length jobs)%nat with 0%nat in HQ by lia.
      rewrite take_0, app_nil_r in HQ. by apply HQ. }
    wp_steps. eapply wp_get_read; [done|done|]. intros c1 L1 HL1 H1. cbn beta iota.
    apply (IH c1 L1); [done|]. intros c2 L2 HL2 H2. specialize (HQ c2 L2 ltac:(by etrans) H2).
    cbn [omap list_omap] in HQ. destruct (read_job J id) as [j|]; [|done].
    rewrite filter_cons in HQ. destruct (Redis.wanted jt qn j).
    + rewrite decide_True in HQ by done. rewrite length_app. simpl.
      replace (Z.to_nat limit - length jobs)%nat with (S (Z.to_nat limit - (length jobs + 1)))%nat in HQ by lia.
      by rewrite <- app_assoc.
    + by rewrite decide_False in HQ by done.
Qed.

Lemma wp_dequeue c J q L limit jt qn (Q : result (list Job) → RedisQueueBackend C → Prop) :
  holds p c J q L → jobs_ok J →
  (∀ c' L' ids, L' ⊆ L → holds p c' J q L' → ranking q ids →
     Q (Ok (take (Z.to_nat limit) (filter (λ j, Redis.wanted jt qn j = true)
              (omap (read_job J) (take (Z.to_nat (Z.max 1 (limit * 3))) ids)))))
       (new_redis_backend c' p t)) →
  wp (Redis.dequeue limit jt qn) (new_redis_backend c p t) Q.
Proof.
  intros Hc HJ HQ. unfold Redis.dequeue. wp_steps. apply wp_call.
  eapply wp_zrevrange_queue; [done|lia|]. intros c1 L1 ids HL1 H1 Hids. cbn beta iota.
  eapply wp_dequeue_loop; [done|done|]. intros c2 L2 HL2 H2. simpl length. rewrite Nat.sub_0_r, app_nil_l.
  replace (Z.max 0 (limit * 3 - 1) + 1)%Z with (Z.max 1 (limit * 3)) by lia.
  apply (HQ c2 L2); [by etrans|done|done].
Qed.
End listings.

(** ** Scans *)

Definition no_colon (id : string) : Prop := contains ":" id = false.

Lemma after_colon_app s id : no_colon id → after_colon (s +:+ String ":" id) = id.
Proof.
  intros Hid. induction s as [|c s IH]; rewrite ?app_nil, ?app_cons; cbn [after_colon].
  - rewrite Hid. by rewrite bool_decide_eq_true_2.
  - assert (contains ":" (s +:+ String ":" id) = true) as ->; [|done].
    apply contains_spec. by exists s, id.
Qed.

Lemma after_colon_job p id : no_colon id → after_colon (job_key p id) = id.
Proof.
  intros Hid. unfold job_key. change (":job:" +:+ id) with (":job" +:+ String ":" id).
  rewrite <- app_assoc_str. by apply after_colon_app.
Qed.

Lemma statuses_insert (J : gmap string hash) id h s : status_of h = Some s →
  omap status_of (<[id := h]> J) = <[id := s]> (omap status_of J).
Proof. apply omap_insert_Some. Qed.

Section scans.
Context {C : Type} `{RedisLaws C}.
Context (p : string) (t : Z).
Implicit Types (J : gmap string hash) (q : gmap string Z) (L : gmap string string).

Lemma wp_scan c J q L (Q : result (list string) → RedisQueueBackend C → Prop) :
  holds p c J q L → literal (p +:+ ":job:") = true →
  (∀ c' L' l, L' ⊆ L → holds p c' J q L' →
    (∀ k, k ∈ l ↔ ∃ id, k = job_key p id ∧ is_Some (J !! id)) → Q (Ok l) (new_redis_backend c' p t)) →
  wp Redis.scan_jobs (new_redis_backend c p t) Q.
Proof.
  intros Hc Hp HQ. unfold Redis.scan_jobs. wp_steps. apply wp_call. by eapply wp_scan_jobs.
Qed.

Lemma wp_all_jobs c J q L (Q : result (list Job) → RedisQueueBackend C → Prop) :
  holds p c J q L → jobs_ok J → literal (p +:+ ":job:") = true →
  (∀ c' L' l, L' ⊆ L → holds p c' J q L' →
    (∀ k, k ∈ l ↔ ∃ id, k = job_key p id ∧ is_Some (J !! id)) →
    Q (Ok (omap (read_job J) (after_colon <$> l))) (new_redis_backend c' p t)) →
  wp Redis.all_jobs (new_redis_backend c p t) Q.
Proof.
  intros Hc HJ Hp HQ. unfold Redis.all_jobs. wp_steps. eapply wp_scan; [done|done|].
  intros c1 L1 l HL1 H1 Hl. cbn beta iota.
  eapply (wp_foldM _ (λ dn jobs b, jobs = omap (read_job J) (after_colon <$> dn) ∧
    ∃ c' L', b = new_redis_backend c' p t ∧ L' ⊆ L ∧ holds p c' J q L')).
  - split; [done|]. eauto.
  - intros dn k todo jobs b -> (-> & c2 & L2 & -> & HL2 & H2). wp_steps.
    eapply wp_get_read; [done|done|]. intros c3 L3 HL3 H3. cbn beta iota. wp_steps.
    rewrite fmap_app, omap_app. simpl. split; [by destruct (read_job J _); rewrite ?app_nil_r|].
    eexists _, _. split; [done|]. split; [by etrans|done].
  - intros jobs b (-> & c2 & L2 & -> & HL2 & H2). by eapply HQ.
Qed.

(** What the loop of [reap_expired_leases] has done after some keys. *)
Record reaping (J : gmap string hash) (L : gmap string string) (dn reaped : list string)
    (c' : C) (J' : gmap string hash) (q' : gmap string Z) (L' : gmap string string) : Prop := {
  rp_holds : holds p c' J' q' L';
  rp_ok : jobs_ok J';
  rp_leases : L' ⊆ L;
  rp_nodup : NoDup reaped;
  rp_reaped id : id ∈ reaped → omap status_of J !! id = Some RUNNING ∧
    omap status_of J' !! id = Some QUEUED ∧ is_Some (q' !! id) ∧ L' !! id = None;
  rp_others id : id ∉ reaped → J' !! id = J !! id;
  rp_live id : job_key p id ∈ dn → omap status_of J !! id = Some RUNNING → id ∉ reaped → is_Some (L !! id);
}.

Lemma reaping_skip J L dn reaped c J' q' L' id c1 L1 :
  reaping J L dn reaped c J' q' L' → L1 ⊆ L' → holds p c1 J' q' L1 →
  (omap status_of J !! id = Some RUNNING → id ∉ reaped → is_Some (L !! id)) →
  reaping J L (dn ++ [job_key p id]) reaped c1 J' q' L1.
Proof.
  intros [H1 H2 H3 H4 H5 H6 H7] HL Hc Hid. split; [done|done|by etrans|done| |done|].
  - intros id' (? & ? & ? & ?)%H5. split_and!; try done. by eapply lookup_weaken_None.
  - intros id' [?|E%list_elem_of_singleton]%elem_of_app; [by eauto|]. by apply (inj _) in E as ->.
Qed.

Lemma reaping_release J L dn reaped c J' q' L' id c1 L1 h' z :
  reaping J L dn reaped c J' q' L' → L1 ⊆ L' → job_hash id h' → status_of h' = Some QUEUED →
  holds p c1 (<[id := h']> J') (<[id := z]> q') (delete id L1) →
  omap status_of J' !! id = Some RUNNING →
  reaping J L (dn ++ [job_key p id]) (reaped ++ [id]) c1 (<[id := h']> J') (<[id := z]> q') (delete id L1).
Proof.
  intros [H1 H2 H3 H4 H5 H6 H7] HL Hh' Hs Hc Hrun.
  assert (Hid : id ∉ reaped) by (intros Hid; apply H5 in Hid as (_ & E & _); congruence).
  assert (HLd : delete id L1 ⊆ L') by (etrans; [apply delete_subseteq|done]).
  split; [done|by apply map_Forall_insert_2|by etrans| | | |].
  - apply NoDup_app. split_and!; [done|set_solver|apply NoDup_singleton].
  - intros id' [Hin| ->%list_elem_of_singleton]%elem_of_app.
    + assert (id ≠ id') by (by intros ->). destruct (H5 _ Hin) as (? & ? & ? & ?).
      rewrite (statuses_insert _ _ _ _ Hs), !lookup_insert_ne, lookup_delete_ne by done.
      split_and!; try done. by eapply lookup_weaken_None.
    + rewrite (statuses_insert _ _ _ _ Hs), !lookup_insert_eq, lookup_delete_eq. split_and!; try done.
      rewrite lookup_omap in Hrun |- *. by rewrite H6 in Hrun.
  - intros id' Hn. assert (id ≠ id') by (intros ->; set_solver). rewrite lookup_insert_ne by done.
    apply H6. set_solver.
  - intros id' [?|E%list_elem_of_singleton]%elem_of_app ? Hn; [apply H7; set_solver|].
    apply (inj _) in E as ->. set_solver.
Qed.

Lemma wp_reap_step J L dn reaped c J' q' L' id (Q : result (list string) → RedisQueueBackend C → Prop) :
  reaping J L dn reaped c J' q' L' → no_colon id →
  (∀ reaped1 c1 J1 q1 L1, reaping J L (dn ++ [job_key p id]) reaped1 c1 J1 q1 L1 →
     Q (Ok reaped1) (new_redis_backend c1 p t)) →
  wp (Redis.reap_step reaped (job_key p id)) (new_redis_backend c p t) Q.
Proof.
  intros Hr Hid HQ. unfold Redis.reap_step. wp_steps. rewrite after_colon_job by done.
  apply wp_call. eapply wp_hget_job; [apply Hr|]. intros c1 L1 HL1 H1. cbn beta iota.
  destruct (decide (omap status_of J' !! id = Some RUNNING)) as [Hrun|Hrun].
  - rewrite lookup_omap in Hrun. destruct (J' !! id) as [h|] eqn:E; [|done]. cbn [mbind option_bind] in *.
    destruct (job_hash_status _ _ (rp_ok _ _ _ _ _ _ _ _ Hr _ _ E)) as (s & Hs & Hst).
    rewrite Hst in Hrun. injection Hrun as ->. rewrite Hs, bool_decide_eq_false_2 by naive_solver.
    wp_steps. apply wp_call. eapply wp_exists_lease; [done|]. intros c2 L2 HL2 H2. cbn beta iota.
    destruct (bool_decide_reflect (is_Some (L2 !! id))) as [Hl|Hl].
    + wp_steps. eapply HQ, reaping_skip; [exact Hr|by etrans|exact H2|]. intros _ _. destruct Hl as [s Hl].
      exists s. eapply lookup_weaken; [exact Hl|]. etrans; [exact HL2|]. etrans; [exact HL1|apply Hr].
    + wp_steps. eapply wp_release; [exact H2|apply Hr|..].
      * intros c3 L3 E'. congruence.
      * intros c3 h0 h' z L3 _ Hh' Hst' HL3 H3. cbn beta iota. wp_steps.
        eapply HQ, reaping_release; [exact Hr| |done|done|exact H3|].
        -- etrans; [exact HL3|]. by etrans.
        -- rewrite lookup_omap, E. done.
  - rewrite bool_decide_eq_true_2.
    + wp_steps. eapply HQ, reaping_skip; [exact Hr|exact HL1|exact H1|]. intros Hrun' Hn.
      rewrite lookup_omap in Hrun, Hrun'. by rewrite (rp_others _ _ _ _ _ _ _ _ Hr _ Hn) in Hrun.
    + intros Hs. apply Hrun. rewrite lookup_omap. destruct (J' !! id) as [h|]; [|done].
      cbn [mbind option_bind] in *. unfold status_of. rewrite Hs. simpl. apply JobStatus_of_value.
Qed.

Lemma wp_reap c J q L (Q : result (list string) → RedisQueueBackend C → Prop) :
  holds p c J q L → jobs_ok J → literal (p +:+ ":job:") = true →
  (∀ id, is_Some (J !! id) → no_colon id) →
  (∀ reaped c' J' q' L' l, (∀ id, is_Some (J !! id) → job_key p id ∈ l) →
     reaping J L l reaped c' J' q' L' → Q (Ok reaped) (new_redis_backend c' p t)) →
  wp Redis.reap_expired_leases (new_redis_backend c p t) Q.
Proof.
  intros Hc HJ Hp Hids HQ. unfold Redis.reap_expired_leases. wp_steps. eapply wp_scan; [done|done|].
  intros c1 L1 l HL1 H1 Hl. cbn beta iota.
  eapply (wp_foldM _ (λ dn reaped b, ∃ c' J' q' L', b = new_redis_backend c' p t ∧
    reaping J L dn reaped c' J' q' L')).
  - eexists _, _, _, _. split; [done|].
    split; [done|done|done|constructor|by intros id ?%elem_of_nil|done|by intros id ?%elem_of_nil].
  - intros dn k todo reaped b El (c2 & J2 & q2 & L2 & -> & Hr).
    destruct (proj1 (Hl k)) as (id & -> & Hk); [rewrite El; set_solver|].
    eapply wp_reap_step; [exact Hr|by apply Hids|]. intros. eexists _, _, _, _. by split.
  - intros reaped b (c2 & J2 & q2 & L2 & -> & Hr). eapply HQ; [|exact Hr].
    intros id Hk. apply Hl. eauto.
Qed.
End scans.

(** ** The backend and the abstract queue *)

(** A backend under prefix [p] with lease time [t]: the statuses of its jobs, the
    scores of its queue, and the leases that have not expired. *)
Definition redis_is {C} `{RedisLaws C} (p : string) (t : Z) (b : RedisQueueBackend C)
    (m : queue_spec) (q : gmap string Z) (L : gmap string string) : Prop :=
  ∃ c J, b = new_redis_backend c p t ∧ holds p c J q L ∧ jobs_ok J ∧ m = omap status_of J.

(** A backend in some state of the abstract queue. *)
Definition redis_at {C} `{RedisLaws C} (p : string) (t : Z) (b : RedisQueueBackend C) (m : queue_spec) : Prop :=
  ∃ q L, redis_is p t b m q L.

(** What can be stored, and named. *)
Definition request_ok (rq : request) : Prop :=
  match rq with
  | Enqueue j => storable j ∧ small_priority (priority j)
  | Claim _ host worker => python_str host ∧ python_str worker
  | _ => True
  end.

Section simulation.
Context {C : Type} `{RedisLaws C}.
Context (p : string) (t : Z) (Ht : (0 < t)%Z).

Lemma redis_at_intro c (J : gmap string hash) q L m :
  holds p c J q L → jobs_ok J → m = omap status_of J → redis_at p t (new_redis_backend c p t) m.
Proof using Type. intros. eexists q, L, c, J. by split_and!. Qed.

(** The state after one hash was written. *)
Lemma redis_at_set c (J : gmap string hash) q L m id h s :
  holds p c (<[id := h]> J) q L → jobs_ok J → job_hash id h → status_of h = Some s →
  m = omap status_of J → redis_at p t (new_redis_backend c p t) (<[id := s]> m).
Proof using Type.
  intros Hc HJ Hh Hs ->. eapply redis_at_intro; [exact Hc|by apply map_Forall_insert_2|].
  symmetry. by apply statuses_insert.
Qed.

Lemma status_known (J : gmap string hash) id h : jobs_ok J → J !! id = Some h →
  ∃ s, omap status_of J !! id = Some s ∧ status_of h = Some s.
Proof using Type.
  intros HJ E. destruct (job_hash_status _ _ (HJ _ _ E)) as (s & _ & Hs). exists s.
  by rewrite lookup_omap, E.
Qed.

Lemma status_unknown (J : gmap string hash) id : J !! id = None → omap status_of J !! id = None.
Proof using Type. intros E. by rewrite lookup_omap, E. Qed.

Lemma redis_step rq b m :
  redis_at p t b m → request_ok rq →
  wp (exec_step rq) b (λ r b', r = Ok (spec_step rq m).1 ∧ redis_at p t b' (spec_step rq m).2).
Proof using Ht.
  intros (q & L & c & J & -> & Hc & HJ & Em) Hok. destruct rq as [j|id host worker|id|id s|id|id]; cbn [exec_step].
  - destruct Hok as [Hst Hp]. simpl enqueue. wp_steps. eapply wp_enqueue; [done..|].
    intros c' h' z L' Hh Hs _ HL Hc'. cbn beta iota. wp_steps. split; [done|]. by eapply redis_at_set.
  - destruct Hok as [Hh Hw]. simpl claim. wp_steps. eapply wp_claim; [done..| |].
    + intros c' L' Hn HL Hc'. cbn beta iota. wp_steps. simpl. rewrite decide_False.
      * split; [done|]. by eapply redis_at_intro.
      * by rewrite Em, lookup_omap.
    + intros c' h h' L' E Hq Hh' Hs _ HL Hc'. cbn beta iota. wp_steps. simpl. rewrite decide_True.
      * split; [done|]. by eapply redis_at_set.
      * by rewrite Em, lookup_omap, E.
  - simpl release. wp_steps. eapply wp_release; [done..| |].
    + intros c' L' E HL Hc'. cbn beta iota. wp_steps. simpl. apply status_unknown in E. rewrite <- Em in E.
      rewrite E, alter_const_None by done. split; [done|]. by eapply redis_at_intro.
    + intros c' h h' z L' E Hh' Hs HL Hc'. cbn beta iota. wp_steps. simpl.
      destruct (status_known _ _ _ HJ E) as (s & Es & _). rewrite <- Em in Es.
      rewrite Es, alter_const_insert by done. split; [done|]. by eapply redis_at_set.
  - simpl update_status. wp_steps. eapply wp_update_status; [done..| |].
    + intros c' L' E HL Hc'. cbn beta iota. wp_steps. simpl. apply status_unknown in E. rewrite <- Em in E.
      rewrite E, alter_const_None by done. split; [done|]. by eapply redis_at_intro.
    + intros c' h h' L' E Hh' Hs HL Hc'. cbn beta iota. wp_steps. simpl.
      destruct (status_known _ _ _ HJ E) as (s' & Es & _). rewrite <- Em in Es.
      rewrite Es, alter_const_insert by done. split; [done|]. by eapply redis_at_set.
  - simpl heartbeat. wp_steps. eapply wp_heartbeat; [done..| |].
    + intros c' L' _ HL Hc'. cbn beta iota. wp_steps. split; [done|]. by eapply redis_at_intro.
    + intros c' h h' L' E Hrun Hh' Hs HL Hc'. cbn beta iota. wp_steps. split; [done|].
      destruct (status_known _ _ _ HJ E) as (s' & Es & Hs'). rewrite <- Em in Es.
      assert (s' = RUNNING) as -> by congruence. rewrite <- (insert_id m id RUNNING Es).
      by eapply redis_at_set.
  - simpl get. wp_steps. eapply wp_get_read; [done..|]. intros c' L' HL Hc'. cbn beta iota. wp_steps. simpl.
    split; [|by eapply redis_at_intro]. do 2 f_equal. rewrite Em.
    destruct (read_job J id) as [j|] eqn:E.
    + simpl. by destruct (read_job_Some _ _ _ HJ E) as [_ ->].
    + destruct (omap status_of J !! id) as [s|] eqn:Es; [|done].
      destruct (read_job_is _ _ _ HJ Es) as (j & Ej & _). congruence.
Qed.
End simulation.

(** ** Claims among other commands *)

(** Whether the key space says a job is queued. *)
Definition queued_in (p id : string) (m : redis_map) : bool :=
  match m !! job_key p id with
  | Some (RHash h) => bool_decide (h !! "status" = Some (value QUEUED))
  | _ => false
  end.

(** What the clients of a Redis server send it while claims for one job run: the
    claim script with the texts of some worker, and anything else. *)
Inductive client_action (C : Type) : Type :=
  | RunScript (claimed_by meta now : string)
  | Other (a : M C unit).
Arguments RunScript {C}.
Arguments Other {C}.

(** The server runs them one after the other and counts the scripts that answer 1;
    an error goes back to the client that sent the command. *)
Definition run_action {C} `{RedisClient C} (p id : string) (t : Z) (won : nat) (a : client_action C) : M C nat :=
  match a with
  | RunScript claimed_by meta now =>
      try_except
        (res ← claim_lua (job_key p id) (queue_key p) (lease_key p id) (value QUEUED) (value RUNNING)
                 claimed_by meta now id t;
         mret (if (res =? 1)%Z then S won else won))
        (λ _, mret won)
  | Other a => try_except (a;; mret won) (λ _, mret won)
  end.

Definition run_actions {C} `{RedisClient C} (p id : string) (t : Z) (l : list (client_action C)) : M C nat :=
  foldM (run_action p id t) 0 l.

(** A command that does not put the job into the queue. *)
Definition no_requeue {C} `{RedisLaws C} (p id : string) (a : client_action C) : Prop :=
  match a with
  | RunScript _ _ _ => True
  | Other a => ∀ c, queued_in p id (db c) = false → wp a c (λ _ c', queued_in p id (db c') = false)
  end.

Lemma queued_aged p id m m' : aged m m' → queued_in p id m' = queued_in p id m.
Proof.
  intros Ha. unfold queued_in. by destruct (Ha (job_key p id)) as [->|(-> & s & ->)].
Qed.

Lemma queued_put p id k v m : k ≠ job_key p id → queued_in p id (<[k := v]> m) = queued_in p id m.
Proof. intros. unfold queued_in. by rewrite lookup_insert_ne. Qed.

Lemma queued_put_zset p id k z m : k ≠ job_key p id → queued_in p id (put_zset k z m) = queued_in p id m.
Proof.
  intros. unfold put_zset. case_decide; [|by apply queued_put]. unfold queued_in. by rewrite lookup_delete_ne.
Qed.

(** The script answers 1 only when the job was queued, and it is not afterwards. *)
Lemma claim_lua_wins {C} `{RedisLaws C} p id t claimed_by meta now (c : C) :
  wp (claim_lua (job_key p id) (queue_key p) (lease_key p id) (value QUEUED) (value RUNNING)
        claimed_by meta now id t) c (λ r c',
    queued_in p id (db c') = false ∧ (r = Ok 1%Z → queued_in p id (db c) = true)).
Proof.
  unfold claim_lua. wp_steps. eapply wp_mono; [apply hget_ok|]. intros r1 c1 (Ha1 & ->).
  rewrite <- (queued_aged _ _ _ _ Ha1). unfold do_hget.
  destruct (db c1 !! job_key p id) as [[h|z|s]|] eqn:E;
    [|by unfold queued_in; rewrite E|by unfold queued_in; rewrite E|].
  - assert (Hq : queued_in p id (db c1) = bool_decide (h !! "status" = Some (value QUEUED)))
      by (unfold queued_in; by rewrite E).
    cbn beta iota. destruct (decide (h !! "status" = Some (value QUEUED))) as [Hs|Hs].
    2:{ rewrite bool_decide_eq_true_2 by done. wp_steps. split; [|done]. rewrite Hq.
        by apply bool_decide_eq_false_2. }
    rewrite bool_decide_eq_false_2 by naive_solver. rewrite bool_decide_eq_true_2 in Hq by done. wp_steps.
    rewrite Hq.
    eapply wp_mono; [by apply hset_ok|]. intros r2 c2 (m2 & Ha2 & E2). unfold do_hset in E2.
    assert (Hm2 : m2 !! job_key p id = Some (RHash h)).
    { destruct (Ha2 (job_key p id)) as [->|(_ & s & Hs')]; congruence. }
    rewrite Hm2 in E2. injection E2 as -> E2.
    assert (Hrun : queued_in p id (db c2) = false).
    { unfold queued_in. rewrite E2, lookup_insert_eq. apply bool_decide_eq_false_2.
        by rewrite !lookup_insert_ne, lookup_insert_eq by done. }
    wp_steps. eapply wp_mono; [apply zrem_ok|]. intros r3 c3 (m3 & Ha3 & E3).
    rewrite <- (queued_aged _ _ _ _ Ha3) in Hrun. unfold do_zrem in E3.
    assert (Hrun3 : queued_in p id (db c3) = false).
    { destruct (zset_at (queue_key p) m3); injection E3 as -> ->; [|done].
      rewrite queued_put_zset; [done|]. intros E'. by apply (job_queue p id). }
    destruct r3 as [[]|x]; [|done]. wp_steps.
    eapply wp_mono; [apply set_ex_ok|]. intros r4 c4 (m4 & Ha4 & E4).
    rewrite <- (queued_aged _ _ _ _ Ha4) in Hrun3. unfold do_set_ex in E4.
    assert (Hrun4 : queued_in p id (db c4) = false).
    { destruct (t <=? 0)%Z; injection E4 as -> ->; [done|]. rewrite queued_put; [done|].
      intros E'. by apply (job_lease p id id). }
    destruct r4 as [[]|x]; [|done]. by wp_steps.
  - assert (Hq : queued_in p id (db c1) = false) by (unfold queued_in; by rewrite E).
    rewrite bool_decide_eq_true_2 by done. by wp_steps.
Qed.

(** C8: claims over Redis are exclusive. Whatever the workers that claim a job and
    all other clients of the server send it, in any order, as long as no other
    command puts the job back into the queue, at most one run of the claim
    script answers 1, and none when the job is not queued to begin with; the
    key space need not be one the backend wrote, leases may expire at any
    moment, and an error in the middle of the script does not matter. *)
Theorem redis_claim_exclusive {C} `{RedisLaws C} (p id : string) (t : Z) (l : list (client_action C)) (c : C) :
  Forall (no_requeue p id) l →
  wp (run_actions p id t l) c (λ r _, ∃ won, r = Ok won ∧
    won ≤ if queued_in p id (db c) then 1 else 0).
Proof.
  intros Hl. unfold run_actions.
  apply (wp_foldM _ (λ _ won c', won + (if queued_in p id (db c') then 1 else 0) ≤
    if queued_in p id (db c) then 1 else 0)); [lia| |intros won c' ?; exists won; split; [done|lia]].
  intros dn a todo won c' -> Hwon. apply Forall_app in Hl as [_ [Ha _]%Forall_cons].
  destruct a as [claimed_by meta now|a]; cbn [run_action].
  - wp_steps. eapply wp_mono; [apply claim_lua_wins|]. intros r c'' (Hq & Hr).
    destruct r as [n|x]; wp_steps; rewrite Hq; [|lia].
    destruct (Z.eqb_spec n 1) as [->|]; [|lia]. rewrite Hr in Hwon by done. lia.
  - wp_steps. destruct (queued_in p id (db c')) eqn:E.
    + apply (wp_mono _ _ (λ _ _, True)); [intros e; by destruct (a c' e) as [[??]?]|].
      intros [u|x] c'' _; wp_steps; destruct (queued_in p id (db c'')); lia.
    + eapply wp_mono; [by apply Ha|]. intros [u|x] c'' Hq; wp_steps; rewrite Hq; lia.
Qed.

(** *** What the walk along a ranking finds *)

Lemma ranking_nodup q l : ranking q l → NoDup l.
Proof. intros [Hp _]. rewrite Hp. apply NoDup_fst_map_to_list. Qed.

Lemma elem_of_ranking q l id : ranking q l → id ∈ l ↔ is_Some (q !! id).
Proof.
  intros [Hp _]. rewrite Hp, list_elem_of_fmap. split.
  - intros ([k z] & -> & Hz%elem_of_map_to_list). by eexists.
  - intros [z Hz]. exists (id, z). split; [done|]. by apply elem_of_map_to_list.
Qed.

Lemma ranking_length q l : ranking q l → length l = size q.
Proof. intros [Hp _]. by rewrite Hp, length_fmap, length_map_to_list. Qed.

Lemma wanted_spec jt qn j : Redis.wanted jt qn j = true ↔
  status j = QUEUED ∧ matches jt (job_type j) ∧ matches qn (queue_name j).
Proof.
  unfold Redis.wanted. rewrite !andb_true_iff, bool_decide_eq_true.
  destruct jt, qn; simpl; rewrite ?bool_decide_eq_true; naive_solver.
Qed.

(** The jobs [dequeue] returns, along some identifiers. *)
Definition found (J : gmap string hash) (limit : Z) (jt qn : option string) (ids : list string) : list Job :=
  take (Z.to_nat limit) (filter (λ j, Redis.wanted jt qn j = true) (omap (read_job J) ids)).

Lemma read_jobs_ids J ids : jobs_ok J → job_id <$> omap (read_job J) ids `sublist_of` ids.
Proof.
  intros HJ. induction ids as [|id ids IH]; [done|]. cbn [omap list_omap].
  destruct (read_job J id) as [j|] eqn:E; [|by apply sublist_cons].
  apply read_job_Some in E as [E _]; [|done]. rewrite fmap_cons, E. by apply sublist_skip.
Qed.

Lemma found_ids J limit jt qn ids : jobs_ok J → job_id <$> found J limit jt qn ids `sublist_of` ids.
Proof.
  intros HJ. etrans; [|by apply read_jobs_ids]. apply fmap_sublist.
  etrans; [apply sublist_take|apply sublist_filter].
Qed.

Lemma elem_of_found J limit jt qn ids j : jobs_ok J → j ∈ found J limit jt qn ids →
  Redis.wanted jt qn j = true ∧ omap status_of J !! job_id j = Some (status j).
Proof.
  intros HJ Hj. apply elem_of_take in Hj as (i & Hj & _).
  apply list_elem_of_lookup_2, list_elem_of_filter in Hj as [Hw Hj].
  apply list_elem_of_omap in Hj as (id & _ & Hr). apply read_job_Some in Hr as [<- Hr]; [|done].
  by split.
Qed.

Lemma found_dequeued J limit jt qn ids :
  jobs_ok J → (0 ≤ limit)%Z → NoDup ids → dequeued (omap status_of J) limit jt qn (found J limit jt qn ids).
Proof.
  intros HJ Hl Hnd. split; [|split].
  - unfold found. rewrite length_take. lia.
  - eapply sublist_NoDup; [exact Hnd|by apply found_ids].
  - apply Forall_forall. intros j Hj. apply elem_of_found in Hj as [(Hs & Ht & Hn)%wanted_spec Hm]; [|done].
    rewrite Hs in Hm. by split_and!.
Qed.

Lemma found_all J limit ids id :
  jobs_ok J → id ∈ ids → omap status_of J !! id = Some QUEUED →
  id ∈ job_id <$> found J limit None None ids ∨ length (found J limit None None ids) = Z.to_nat limit.
Proof.
  intros HJ Hid Hm. destruct (read_job_is _ _ _ HJ Hm) as (j & Hr & Hj & Hs). unfold found.
  assert (Hin : j ∈ filter (λ j, Redis.wanted None None j = true) (omap (read_job J) ids)).
  { apply list_elem_of_filter. split; [by apply wanted_spec|]. apply list_elem_of_omap. eauto. }
  destruct (decide (length (filter (λ j, Redis.wanted None None j = true) (omap (read_job J) ids))
    ≤ Z.to_nat limit)) as [Hle|Hgt].
  - left. rewrite take_ge by done. rewrite <- Hj. by apply list_elem_of_fmap_2.
  - right. rewrite length_take. lia.
Qed.

(** ** Theorems *)

(** C9: over Redis the backend refines the abstract queue. Any sequence of enqueues,
    claims, releases, status updates, heartbeats and lookups, of jobs and worker
    names that can be written as JSON, gets the replies of the map from
    identifiers to statuses, whatever the clock reads and whenever leases
    expire. *)
Theorem redis_refines_queue_spec {C} `{RedisLaws C} (p : string) (t : Z) (rqs : list request)
    (b : RedisQueueBackend C) (m : queue_spec) :
  (0 < t)%Z → redis_at p t b m → Forall request_ok rqs →
  wp (exec_run rqs) b (λ r b', r = Ok (spec_run rqs m).1 ∧ redis_at p t b' (spec_run rqs m).2).
Proof.
  intros Ht Hb Hok.
  pose proof (wp_simulates exec_step id (redis_at p t) request_ok
    (λ rq b m Hb Hrq, redis_step p t Ht rq b m Hb Hrq) rqs b m [] Hb Hok) as Hrun.
  by rewrite list_fmap_id in Hrun.
Qed.

(** C19: what Redis keeps of a job. After [enqueue], [get] answers the job with its
    payload, its metadata, its resources and its dependencies as submitted;
    [next_run_at] is lost, and an empty text or dictionary reads as none. *)
Theorem redis_roundtrip {C} `{RedisLaws C} (p : string) (t : Z) (j : Job)
    (b : RedisQueueBackend C) (m : queue_spec) :
  redis_at p t b m → storable j → small_priority (priority j) →
  wp (_ ← enqueue j; get (job_id j)) b (λ r b', r = Ok (Some (kept j)) ∧
    redis_at p t b' (<[job_id j := status j]> m) ∧
    (last_error j = None → progress j = None → result_ref j = None → claimed_by j = None →
     next_run_at j = None → trace_id j = None → kept j = j)).
Proof.
  intros (q & L & c & J & -> & Hc & HJ & Em) Hst Hp. wp_steps. simpl enqueue. eapply wp_enqueue; [done..|].
  intros c1 h' z L1 Hh Hs Hj HL1 H1. cbn beta iota. simpl get.
  eapply wp_get_read; [exact H1|by apply map_Forall_insert_2|]. intros c2 L2 HL2 H2.
  unfold read_job. rewrite lookup_insert_eq. cbn [mbind option_bind]. rewrite Hj.
  split; [done|]. split; [by eapply redis_at_set|]. destruct j; simpl. by intros -> -> -> -> -> ->.
Qed.

(** C35: what [dequeue] hands out: at most [limit] queued jobs of the type and the
    queue asked for, none twice, the highest scores first, and the state is
    left alone. It looks at no more than the first [3 * limit] identifiers of
    the ranking of all queues: when the whole sorted set is no longer than that
    and there is no filter, a queued job in it is returned unless [limit] others
    are. *)
Theorem redis_dequeue_ranked {C} `{RedisLaws C} (p : string) (t : Z) (limit : Z) (jt qn : option string)
    (b : RedisQueueBackend C) (m : queue_spec) (q : gmap string Z) (L : gmap string string) :
  redis_is p t b m q L → (0 < limit)%Z →
  wp (dequeue limit jt qn) b (λ r b', (∃ L', L' ⊆ L ∧ redis_is p t b' m q L') ∧
    ∃ ids l, r = Ok l ∧ ranking q ids ∧ dequeued m limit jt qn l ∧
      job_id <$> l `sublist_of` take (Z.to_nat (limit * 3)) ids ∧
      (jt = None → qn = None → (Z.of_nat (size q) ≤ limit * 3)%Z → ∀ id, is_Some (q !! id) →
       m !! id = Some QUEUED → id ∈ job_id <$> l ∨ Z.of_nat (length l) = limit)).
Proof.
  intros (c & J & -> & Hc & HJ & ->) Hl. eapply wp_dequeue; [done..|]. intros c1 L1 ids HL1 H1 Hids.
  split; [by eexists L1; split; [|eexists c1, J]|]. replace (Z.max 1 (limit * 3)) with (limit * 3)%Z by lia.
  exists ids. eexists. split; [done|]. split; [done|]. split_and!.
  - apply found_dequeued; [done|lia|]. eapply sublist_NoDup; [by eapply ranking_nodup|apply sublist_take].
  - by apply found_ids.
  - intros -> -> Hsize id Hid Hm. rewrite (take_ge ids) by (rewrite (ranking_length q) by done; lia).
    destruct (found_all J limit ids id HJ) as [Hin|Hlen]; [by eapply elem_of_ranking|done|by left|].
    right. fold (found J limit None None ids). rewrite Hlen. lia.
Qed.

(** C22: [reap_expired_leases] finds the jobs whose worker is gone. For a prefix
    without pattern characters and identifiers without colons it releases
    every running job whose lease had expired when it was called; every job it
    reports was running, is queued and in the sorted set again and has no
    lease; all other jobs keep their status, so a job whose lease is alive at
    the end was not touched. *)
Theorem redis_reap {C} `{RedisLaws C} (p : string) (t : Z)
    (b : RedisQueueBackend C) (m : queue_spec) (q : gmap string Z) (L : gmap string string) :
  redis_is p t b m q L → literal (p +:+ ":job:") = true → (∀ id, is_Some (m !! id) → no_colon id) →
  wp Redis.reap_expired_leases b (λ r b', ∃ reaped m' q' L',
    r = Ok reaped ∧ redis_is p t b' m' q' L' ∧ L' ⊆ L ∧ NoDup reaped ∧ ∀ id,
      m' !! id = (if decide (id ∈ reaped) then Some QUEUED else m !! id) ∧
      (id ∈ reaped → m !! id = Some RUNNING ∧ is_Some (q' !! id) ∧ L' !! id = None) ∧
      (m !! id = Some RUNNING → L !! id = None → id ∈ reaped)).
Proof.
  intros (c & J & -> & Hc & HJ & ->) Hp Hids. eapply wp_reap; [done..| |].
  - intros id [h E]. destruct (job_hash_status _ _ (HJ _ _ E)) as (s & _ & Hs).
    apply Hids. exists s. by rewrite lookup_omap, E.
  - intros reaped c' J' q' L' l Hl [H1 H2 H3 H4 H5 H6 H7].
    exists reaped, (omap status_of J'), q', L'. split; [done|]. split; [by eexists _, _|].
    split; [done|]. split; [done|]. intros id. split_and!.
    + case_decide as Hin; [by apply H5|]. by rewrite !lookup_omap, H6.
    + intros (?&?&?&?)%H5. by split_and!.
    + intros Hrun Hdead. destruct (decide (id ∈ reaped)) as [|Hn]; [done|].
      destruct (H7 id) as [s Hs]; [|done|done|congruence]. apply Hl.
      rewrite lookup_omap in Hrun. destruct (J !! id); [by eexists|done].
Qed.

(** [update_status] does not put a job back into the sorted set. A job that was
    claimed, and so left the queue, and is then set to queued, as
    [AdminService.retry_now] and [reschedule_job] do, is reported as queued by [get]
    but no [dequeue] returns it. *)
Theorem redis_requeue_lost {C} `{RedisLaws C} (p : string) (t : Z) (id : string) (limit : Z)
    (jt qn : option string) (b : RedisQueueBackend C) (m : queue_spec) (q : gmap string Z) L :
  redis_is p t b m q L → is_Some (m !! id) → q !! id = None →
  wp (_ ← update_status id (value QUEUED); dequeue limit jt qn) b (λ r b', ∃ l, r = Ok l ∧
    redis_at p t b' (<[id := QUEUED]> m) ∧ id ∉ job_id <$> l).
Proof.
  intros (c & J & -> & Hc & HJ & ->) Hex Hq. wp_steps. simpl update_status.
  eapply wp_update_status; [done..| |].
  - intros c1 L1 E. rewrite lookup_omap, E in Hex. by destruct Hex.
  - intros c1 h h' L1 E Hh' Hs HL1 H1. cbn beta iota. rewrite decide_True in H1 by done. simpl dequeue.
    assert (HJ' : jobs_ok (<[id := h']> J)) by (by apply map_Forall_insert_2).
    eapply wp_dequeue; [exact H1|done|]. intros c2 L2 ids HL2 H2 Hids. eexists. split; [done|].
    split; [by eapply redis_at_set|]. intros Hid.
    fold (found (<[id := h']> J) limit jt qn (take (Z.to_nat (Z.max 1 (limit * 3))) ids)) in Hid.
    assert (Hin : id ∈ ids).
    { eapply elem_of_submseteq; [exact Hid|]. apply sublist_submseteq.
      etrans; [by apply found_ids|apply sublist_take]. }
    apply (elem_of_ranking q) in Hin as [z Hz]; [|done]. congruence.
Qed.

(** A lease can be lost. [release] puts the job into the queue before it deletes
    the lease. When a worker claims the job in between, its claim succeeds, the
    reaper then deletes the lease the worker just got, and the next
    [reap_expired_leases] takes the job away from it, although the lease time
    has not passed. *)
Theorem redis_release_race {C} `{RedisLaws C} (p : string) (t : Z) (id host worker : string)
    (b : RedisQueueBackend C) (m : queue_spec) q L :
  (0 < t)%Z → redis_is p t b m q L → is_Some (m !! id) → python_str host → python_str worker →
  literal (p +:+ ":job:") = true → (∀ id, is_Some (m !! id) → no_colon id) →
  wp (requeued ← Redis.requeue id; claimed ← claim id host worker; _ ← Redis.drop_lease id;
      reaped ← Redis.reap_expired_leases; mret (requeued, claimed, reaped)) b (λ r b',
    ∃ reaped, r = Ok (true, true, reaped) ∧ id ∈ reaped).
Proof.
  intros Ht (c & J & -> & Hc & HJ & ->) Hex Hhost Hworker Hp Hids. wp_steps.
  eapply wp_requeue; [done|done|..].
  { intros c1 L1 E. rewrite lookup_omap, E in Hex. by destruct Hex. }
  intros c1 h h1 z L1 E Hh1 Hs1 HL1 H1. cbn beta iota. wp_steps. simpl claim.
  assert (HJ1 : jobs_ok (<[id := h1]> J)) by (by apply map_Forall_insert_2).
  eapply wp_claim; [done|done|done|done|done| |].
  { intros c2 L2 Hn. rewrite lookup_insert_eq in Hn. by destruct Hn. }
  intros c2 h1' h2 L2 E2 _ Hh2 Hs2 _ HL2 H2. cbn beta iota. wp_steps. eapply wp_drop; [done|].
  intros c3 L3 HL3 H3. cbn beta iota. wp_steps. rewrite insert_insert_eq in H3.
  assert (HJ2 : jobs_ok (<[id := h2]> J)) by (by apply map_Forall_insert_2).
  eapply wp_reap; [done|done|done| |].
  - intros id' [<-|[_ Hin]]%lookup_insert_is_Some; apply Hids;
      [by destruct (status_known _ _ _ HJ E) as (s & -> & _); eexists|].
    destruct Hin as [h' Hin]. destruct (status_known _ _ _ HJ Hin) as (s' & -> & _). by eexists.
  - intros reaped c4 J4 q4 L4 l Hl [_ _ _ _ _ _ H7]. cbn beta iota. wp_steps. exists reaped. split; [done|].
    destruct (decide (id ∈ reaped)) as [|Hn]; [done|]. destruct (H7 id) as [s Hs].
    + apply Hl. by rewrite lookup_insert_eq.
    + by rewrite lookup_omap, lookup_insert_eq.
    + done.
    + by rewrite lookup_delete_eq in Hs.
Qed.

(** ** Witnesses, on the key space itself *)

(** A key space with one job and a queue. *)
Definition stored (p : string) (j : Job) (q : gmap string Z) : redis_map :=
  put_zset (queue_key p) q
    match job_to_hash j with
    | Ok mapping => <[job_key p (job_id j) := RHash (set_fields ∅ mapping)]> ∅
    | Err _ => ∅
    end.

Lemma holds_empty p : holds_map p ∅ ∅ ∅ ∅.
Proof. by split. Qed.

Lemma stored_is p t j q : storable j → small_priority (priority j) →
  redis_is p t (new_redis_backend (stored p j q) p t) {[job_id j := status j]} q ∅.
Proof.
  intros Hst Hp. destruct (storable_hash _ Hst) as (mapping & Hm & Hne & Hwf & Hok).
  destruct (Hok ∅) as (Hhash & Hid & Hs & Hpr).
  assert (Hst' : status_of (set_fields ∅ mapping) = Some (status j))
    by (unfold status_of; rewrite Hs; apply JobStatus_of_value).
  eexists _, (<[job_id j := set_fields ∅ mapping]> ∅). split; [done|]. split; [|split].
  - unfold holds, stored. simpl. rewrite Hm. eapply holds_put_queue, holds_set_job, holds_empty.
    by apply set_fields_nonempty.
  - apply map_Forall_insert_2; [|apply map_Forall_empty]. split; [done|]. split; [done|].
    eexists _, _. split; [done|]. split; [apply read_int_pretty|done].
  - rewrite (statuses_insert _ _ _ _ Hst'). by rewrite omap_empty, insert_empty.
Qed.

Lemma empty_redis_at p t : redis_at p t (new_redis_backend (∅ : redis_map) p t) ∅.
Proof. eexists ∅, ∅, ∅, ∅. split; [done|]. split; [apply holds_empty|]. split; [apply map_Forall_empty|done]. Qed.

Definition sample (id : string) (s : JobStatus) : Job :=
  new_job id "etl" "default" [("n", PInt 1)] s 5 1700000000000000 1700000000000001
    <| resources := [("gpu", 2%Z)] |> <| depends_on := ["z"] |>.

Ltac json_typed := repeat (first [by apply python_str_ascii | by apply (bool_decide_unpack _); vm_compute | constructor]).

Lemma sample_storable s : storable (sample "a" s).
Proof. split; try exact I; try (unfold datetime_ok; simpl; lia); json_typed. Qed.

Lemma redis_refines_queue_spec_witness :
  let b := new_redis_backend (∅ : redis_map) "p" 120 in
  let rqs := [Enqueue (sample "a" QUEUED); Claim "a" "h" "w"; Claim "a" "h" "v"; GetStatus "a"] in
  wp (exec_run rqs) b (λ r b', r = Ok (spec_run rqs ∅).1 ∧ redis_at "p" 120 b' (spec_run rqs ∅).2).
Proof.
  refine (redis_refines_queue_spec "p" 120 _ _ ∅ _ (empty_redis_at "p" 120) _); [lia|].
  constructor; [split; [apply sample_storable|unfold small_priority; simpl; lia]|].
  constructor; [split; by apply python_str_ascii|]. constructor; [split; by apply python_str_ascii|].
  by constructor.
Defined.

Lemma redis_roundtrip_witness :
  let b := new_redis_backend (∅ : redis_map) "p" 120 in
  let j := sample "a" QUEUED in
  wp (_ ← enqueue j; get (job_id j)) b (λ r b', r = Ok (Some (kept j)) ∧
    redis_at "p" 120 b' (<[job_id j := status j]> ∅) ∧
    (last_error j = None → progress j = None → result_ref j = None → claimed_by j = None →
     next_run_at j = None → trace_id j = None → kept j = j)).
Proof.
  refine (redis_roundtrip "p" 120 (sample "a" QUEUED) _ ∅ (empty_redis_at "p" 120) (sample_storable _) _).
  unfold small_priority. simpl. lia.
Defined.

Lemma redis_dequeue_ranked_witness :
  let q := {["a" := 1%Z]} in
  let m : queue_spec := {["a" := QUEUED]} in
  wp (dequeue 1 None None) (new_redis_backend (stored "p" (sample "a" QUEUED) q) "p" 120) (λ r b',
    (∃ L', L' ⊆ ∅ ∧ redis_is "p" 120 b' m q L') ∧
    ∃ ids l, r = Ok l ∧ ranking q ids ∧ dequeued m 1 None None l ∧
      job_id <$> l `sublist_of` take (Z.to_nat (1 * 3)) ids ∧
      (@None string = None → @None string = None → (Z.of_nat (size q) ≤ 1 * 3)%Z → ∀ id, is_Some (q !! id) →
       m !! id = Some QUEUED → id ∈ job_id <$> l ∨ Z.of_nat (length l) = 1%Z)).
Proof.
  refine (redis_dequeue_ranked "p" 120 1 None None _ _ {["a" := 1%Z]} ∅
    (stored_is "p" 120 (sample "a" QUEUED) _ (sample_storable _) _) _); [|lia].
  unfold small_priority. simpl. lia.
Defined.

Lemma only_a (id : string) (s : JobStatus) : is_Some (({["a" := s]} : queue_spec) !! id) → no_colon id.
Proof. intros [x Hx]. apply lookup_singleton_Some in Hx as [<- _]. done. Qed.

Lemma redis_reap_witness :
  let m : queue_spec := {["a" := RUNNING]} in
  wp Redis.reap_expired_leases (new_redis_backend (stored "p" (sample "a" RUNNING) ∅) "p" 120)
    (λ r b', ∃ reaped m' q' L',
      r = Ok reaped ∧ redis_is "p" 120 b' m' q' L' ∧ L' ⊆ ∅ ∧ NoDup reaped ∧ ∀ id,
        m' !! id = (if decide (id ∈ reaped) then Some QUEUED else m !! id) ∧
        (id ∈ reaped → m !! id = Some RUNNING ∧ is_Some (q' !! id) ∧ L' !! id = None) ∧
        (m !! id = Some RUNNING → (∅ : gmap string string) !! id = None → id ∈ reaped)).
Proof.
  refine (redis_reap "p" 120 _ {["a" := RUNNING]} ∅ ∅
    (stored_is "p" 120 (sample "a" RUNNING) ∅ (sample_storable _) _) eq_refl (λ id, only_a id RUNNING)).
  unfold small_priority. simpl. lia.
Defined.

Lemma redis_requeue_lost_witness :
  wp (_ ← update_status "a" (value QUEUED); dequeue 5 None None)
    (new_redis_backend (stored "p" (sample "a" RUNNING) ∅) "p" 120) (λ r b', ∃ l, r = Ok l ∧
      redis_at "p" 120 b' (<["a" := QUEUED]> {["a" := RUNNING]}) ∧ "a" ∉ job_id <$> l).
Proof.
  refine (redis_requeue_lost "p" 120 "a" 5 None None _ {["a" := RUNNING]} ∅ ∅
    (stored_is "p" 120 (sample "a" RUNNING) ∅ (sample_storable _) _) (mk_is_Some _ RUNNING eq_refl) eq_refl).
  unfold small_priority. simpl. lia.
Defined.

Lemma redis_release_race_witness :
  wp (requeued ← Redis.requeue "a"; claimed ← claim "a" "h" "w"; _ ← Redis.drop_lease "a";
      reaped ← Redis.reap_expired_leases; mret (requeued, claimed, reaped))
    (new_redis_backend (stored "p" (sample "a" RUNNING) ∅) "p" 120) (λ r b',
    ∃ reaped, r = Ok (true, true, reaped) ∧ "a" ∈ reaped).
Proof.
  refine (redis_release_race "p" 120 "a" "h" "w" _ {["a" := RUNNING]} ∅ ∅ _
    (stored_is "p" 120 (sample "a" RUNNING) ∅ (sample_storable _) _) (mk_is_Some _ RUNNING eq_refl)
    (python_str_ascii "h" eq_refl) (python_str_ascii "w" eq_refl) eq_refl (λ id, only_a id RUNNING)); [lia|].
  unfold small_priority. simpl. lia.
Defined.

(** Two workers claim the job, a third client removes it from the sorted set. *)
Lemma redis_claim_exclusive_witness :
  let l : list (client_action redis_map) :=
    [RunScript "h:1" "{}" "now"; Other (zrem (queue_key "p") "a"); RunScript "h:2" "{}" "now"] in
  let c := stored "p" (sample "a" QUEUED) {["a" := 1%Z]} in
  wp (run_actions "p" "a" 120 l) c (λ r _, ∃ won, r = Ok won ∧
    won ≤ if queued_in "p" "a" (db c) then 1 else 0) ∧
  answer (run_actions "p" "a" 120 l) c = Ok 1.
Proof.
  split; [|by vm_compute]. refine (redis_claim_exclusive "p" "a" 120 _ _ _).
  constructor; [done|]. constructor; [|by constructor]. intros c Hc.
  eapply wp_mono; [apply zrem_ok|]. intros r c' (m & Ha & E). unfold do_zrem in E.
  rewrite <- (queued_aged _ _ _ _ Ha) in Hc.
  destruct (zset_at (queue_key "p") m); apply (f_equal snd) in E; cbn [snd] in E; rewrite E; [|done].
  by rewrite queued_put_zset.
Defined.
