(* ===== verification/Hybrid.v ===== *)
(** * The hybrid backend

    [backends/hybrid_backend.py]: queue operations go to Redis, the state of jobs
    to SQL. Both backends hold a copy of every job's status; the theorems say
    when the copies agree, and how they come apart. *)

From S2P Require Import Prelude PyValue Json Domain Meta Backend SqlBackend RedisClient RedisBackend RedisTheorems.

Record HybridQueueBackend (C T : Type) : Type := mkHybrid {
  _redis : RedisQueueBackend C;
  _sql : SQLQueueBackend T;
}.
Arguments mkHybrid {C T}.
Arguments _redis {C T}.
Arguments _sql {C T}.

Module Hybrid.
Section hybrid.
Context {C T : Type} `{RedisClient C, SqlTable T}.
Abbreviation self := (HybridQueueBackend C T).

Definition on_redis {A} : M (RedisQueueBackend C) A → M self A := zoom _redis (λ r h, mkHybrid r (_sql h)).
Definition on_sql {A} : M (SQLQueueBackend T) A → M self A := zoom _sql (λ s h, mkHybrid (_redis h) s).

Definition enqueue (job : Job) : M self string :=
  on_sql (enqueue job);; on_redis (enqueue job).

Definition dequeue (limit : Z) (jt qn : option string) : M self (list Job) :=
  on_redis (dequeue limit jt qn).

Definition claim (id host_id worker_id : string) : M self bool :=
  claimed ← on_redis (claim id host_id worker_id);
  if negb claimed then mret false
  else on_sql (claim id host_id worker_id);; mret true.

Definition release (id : string) : M self bool :=
  on_sql (release id);; on_redis (release id).

Definition heartbeat (id : string) : M self bool :=
  on_sql (heartbeat id);; on_redis (heartbeat id).

Definition get (id : string) : M self (option Job) := on_sql (get id).

Definition update_status (id status : string) : M self bool :=
  on_redis (update_status id status);; on_sql (update_status id status).

Definition get_queue_status : M self (dict Z) := on_sql get_queue_status.

Definition health_check : M self bool :=
  ok ← on_sql health_check;
  if (ok : bool) then on_redis health_check else mret false.

Definition all_jobs : M self (list Job) := on_sql all_jobs.

Definition record_attempt (id : string) (error : option string) : M self bool :=
  on_sql (record_attempt id error).

Definition update_progress (id : string) (p : dict pyval) : M self bool := on_sql (update_progress id p).

Definition store_result (id : string) (res : pyval) : M self bool := on_sql (store_result id res).

(** Both backends hand out copies. *)
Definition deref (j : Job) : M self Job := mret j.
Definition assign (j : Job) (f : Job → Job) : M self unit := mret tt.
End hybrid.
End Hybrid.

#[export] Instance hybrid_backend {C T} `{RedisClient C, SqlTable T} :
    QueueBackend (HybridQueueBackend C T) := {|
  enqueue := Hybrid.enqueue;
  dequeue := Hybrid.dequeue;
  claim := Hybrid.claim;
  release := Hybrid.release;
  heartbeat := Hybrid.heartbeat;
  get := Hybrid.get;
  update_status := Hybrid.update_status;
  get_queue_status := Hybrid.get_queue_status;
  health_check := Hybrid.health_check;
  all_jobs := Hybrid.all_jobs;
  record_attempt := Hybrid.record_attempt;
  update_progress := Hybrid.update_progress;
  store_result := Hybrid.store_result;
  deref := Hybrid.deref;
  assign := Hybrid.assign;
|}.

(** ** The two copies *)

Section agreement.
Context {C T : Type} `{RedisLaws C, SqlLaws T}.
Context (p : string) (t : Z) (Ht : (0 < t)%Z).
Implicit Types (h : HybridQueueBackend C T) (m : queue_spec).

(** Both copies are the map [m]. *)
Definition agree h m : Prop :=
  redis_at p t (_redis h) m ∧ sql_wf (_sql h) ∧ sql_statuses (_sql h) = m.

(** One request, sent to one of the backends. *)
Lemma wp_on_redis rq h m {A} (f : M (RedisQueueBackend C) A) (g : A → reply) Q :
  redis_at p t (_redis h) m → request_ok rq →
  exec_step (B := RedisQueueBackend C) rq = (a ← f; mret (g a)) →
  (∀ a r, g a = (spec_step rq m).1 → redis_at p t r (spec_step rq m).2 → Q (Ok a) (mkHybrid r (_sql h))) →
  wp (Hybrid.on_redis f) h Q.
Proof using Ht.
  intros Hr Hok E HQ. apply wp_zoom. pose proof (redis_step p t Ht rq _ _ Hr Hok) as Hs.
  rewrite E in Hs. apply wp_map_inv in Hs. eapply wp_mono; [exact Hs|].
  intros [a|x] r [Ha Hr']; [|done]. injection Ha as Ha. by apply HQ.
Qed.

Lemma wp_on_sql rq h m {A} (f : M (SQLQueueBackend T) A) (g : A → reply) Q :
  sql_wf (_sql h) → sql_statuses (_sql h) = m →
  match rq with Enqueue j => m !! job_id j = None | _ => True end →
  exec_step (B := SQLQueueBackend T) rq = (a ← f; mret (g a)) →
  (∀ a s, g a = (spec_step rq m).1 → sql_wf s → sql_statuses s = (spec_step rq m).2 →
     Q (Ok a) (mkHybrid (_redis h) s)) →
  wp (Hybrid.on_sql f) h Q.
Proof using Type*.
  intros Hwf <- Hfresh E HQ. apply wp_zoom. pose proof (exec_step_refines rq (_sql h) Hwf Hfresh) as Hs.
  rewrite E in Hs. apply wp_map_inv in Hs. eapply wp_mono; [exact Hs|].
  intros [a|x] s (Hwf' & Ha & Hs'); [|done]. injection Ha as Ha. by apply HQ.
Qed.

Lemma agree_step rq h m :
  agree h m → request_ok rq → match rq with Enqueue j => m !! job_id j = None | _ => True end →
  wp (exec_step rq) h (λ r h', r = Ok (spec_step rq m).1 ∧ agree h' (spec_step rq m).2).
Proof using Ht.
  intros (Hr & Hwf & Hs) Hok Hf. destruct rq as [j|id host worker|id|id s|id|id]; cbn [exec_step].
  - simpl enqueue. unfold Hybrid.enqueue. wp_steps. eapply (wp_on_sql (Enqueue j)); [done|done|done|reflexivity|].
    intros a s Ha Hwf' Hs'. cbn beta iota. eapply (wp_on_redis (Enqueue j)); [exact Hr|exact Hok|reflexivity|].
    intros a' r Ha' Hr'. cbn beta iota. wp_steps. rewrite Ha'. by split_and!.
  - simpl claim. unfold Hybrid.claim. wp_steps. eapply (wp_on_redis (Claim id host worker)); [done|done|reflexivity|].
    intros a r Ha Hr'. cbn beta iota. simpl in Ha, Hr' |- *.
    destruct (decide (m !! id = Some QUEUED)) as [Hq|Hq]; injection Ha as ->; cbn [negb]; [|by wp_steps].
    wp_steps. eapply (wp_on_sql (Claim id host worker)); [exact Hwf|exact Hs|done|reflexivity|].
    intros a s _ Hwf' Hs'. cbn beta iota. wp_steps. simpl in Hs'. by rewrite decide_True in Hs'.
  - simpl release. unfold Hybrid.release. wp_steps. eapply (wp_on_sql (Release id)); [done|done|done|reflexivity|].
    intros a s Ha Hwf' Hs'. cbn beta iota. eapply (wp_on_redis (Release id)); [exact Hr|exact Hok|reflexivity|].
    intros a' r Ha' Hr'. cbn beta iota. wp_steps. rewrite Ha'. by split_and!.
  - simpl update_status. unfold Hybrid.update_status. wp_steps.
    eapply (wp_on_redis (UpdateStatus id s)); [done|done|reflexivity|].
    intros a r Ha Hr'. cbn beta iota. eapply (wp_on_sql (UpdateStatus id s)); [exact Hwf|exact Hs|done|reflexivity|].
    intros a' s' Ha' Hwf' Hs'. cbn beta iota. wp_steps. rewrite Ha'. by split_and!.
  - simpl heartbeat. unfold Hybrid.heartbeat. wp_steps.
    eapply (wp_on_sql (Heartbeat id)); [done|done|done|reflexivity|].
    intros a s Ha Hwf' Hs'. cbn beta iota. eapply (wp_on_redis (Heartbeat id)); [exact Hr|exact Hok|reflexivity|].
    intros a' r Ha' Hr'. cbn beta iota. wp_steps. by split_and!.
  - simpl get. unfold Hybrid.get. wp_steps. eapply (wp_on_sql (GetStatus id)); [done|done|done|reflexivity|].
    intros a s Ha Hwf' Hs'. cbn beta iota. wp_steps. rewrite Ha. by split_and!.
Qed.

Lemma agree_run rqs h m rps :
  agree h m → Forall request_ok rqs → fresh_ids rqs m →
  wp (foldM (λ rps rq, rp ← exec_step rq; mret (rps ++ [rp])) rps rqs) h (λ r h',
    r = Ok (rps ++ (spec_run rqs m).1) ∧ agree h' (spec_run rqs m).2).
Proof using Ht.
  revert h m rps. induction rqs as [|rq rqs IH]; intros h m rps Ha Hok Hf.
  - simpl. wp_steps. rewrite app_nil_r. by split.
  - apply Forall_cons in Hok as [Hrq Hok]. destruct Hf as [Hfresh Hf]. cbn [foldM spec_run]. wp_steps.
    eapply wp_mono; [by apply agree_step|]. intros r h' (-> & Ha'). wp_steps.
    eapply wp_mono; [by apply IH|]. intros r h'' (-> & Ha'').
    destruct (spec_step rq m) as [rp m']; cbn [fst snd] in *.
    destruct (spec_run rqs m') as [rps' m'']; cbn [fst snd] in *. split; [|done]. by rewrite <- app_assoc.
Qed.
End agreement.

(** ** Theorems *)

(** C12: over Redis and SQL together the hybrid backend refines the abstract queue.
    Any sequence of enqueues of fresh identifiers, claims, releases, status
    updates, heartbeats and lookups gets the replies of the map from identifiers
    to statuses, and leaves the copy in Redis and the copy in SQL equal to it. *)
Theorem hybrid_refines_queue_spec {C T} `{RedisLaws C, SqlLaws T} (p : string) (t : Z) (rqs : list request)
    (h : HybridQueueBackend C T) (m : queue_spec) :
  (0 < t)%Z → agree p t h m → Forall request_ok rqs → fresh_ids rqs m →
  wp (exec_run rqs) h (λ r h', r = Ok (spec_run rqs m).1 ∧ agree p t h' (spec_run rqs m).2).
Proof. intros Ht Ha Hok Hf. exact (agree_run p t Ht rqs h m [] Ha Hok Hf). Qed.

(** [enqueue] is not atomic over the two stores. When Redis cannot be reached,
    [enqueue] raises after the job was inserted into SQL: [get] reports a queued
    job that is in no sorted set, and enqueueing it again raises because the
    identifier is taken. *)
Theorem hybrid_enqueue_split {C T} `{RedisClient C, SqlLaws T} (j : Job) (h : HybridQueueBackend C T) :
  (∀ (c : C) k mapping, wp (hset k mapping) c (λ r c', c' = c ∧ ∃ x, r = Err x)) →
  sql_wf (_sql h) → sql_statuses (_sql h) !! job_id j = None →
  wp (enqueue j) h (λ r h', (∃ x, r = Err x) ∧ _redis h' = _redis h ∧ sql_wf (_sql h') ∧
    sql_statuses (_sql h') = <[job_id j := status j]> (sql_statuses (_sql h)) ∧
    wp (enqueue j) h' (λ r' h'', (∃ x, r' = Err x) ∧ _redis h'' = _redis h)).
Proof.
  intros Hdown Hwf Hf. simpl. unfold Hybrid.enqueue. wp_steps. apply wp_zoom.
  eapply wp_mono; [by apply (enqueue_ok (_sql h) j)|]. intros r s (Hwf' & Hnew).
  destruct (Hnew Hf) as [-> Hs]. cbn beta iota. simpl in Hs, Hwf'.
  assert (Hredis : ∀ r0 : RedisQueueBackend C, wp (Redis.enqueue j) r0 (λ r r', r' = r0 ∧ ∃ x, r = Err x)).
  { intros r0. unfold Redis.enqueue. wp_steps. apply wp_lift. destruct (job_to_hash j); [|by split; [|eexists]].
    wp_steps. unfold Redis.call. apply wp_zoom. eapply wp_mono; [apply Hdown|].
    intros r1 c1 (-> & x & ->). split; [by destruct r0|by eexists]. }
  apply wp_zoom. eapply wp_mono; [apply Hredis|]. intros r1 r' (-> & x & ->). simpl.
  split; [by eexists|]. split; [done|]. split; [done|]. split; [done|].
  wp_steps. apply wp_zoom. eapply wp_mono; [apply sql_enqueue_taken; [done|]|].
  - simpl. rewrite Hs. by rewrite lookup_insert_eq.
  - intros r2 s' [y ->]. simpl. split; [by eexists|done].
Qed.

(** ** Witnesses *)

Lemma hybrid_refines_queue_spec_witness :
  let h : HybridQueueBackend redis_map (db_rows PostgreSQL) :=
    mkHybrid (new_redis_backend ∅ "p" 120) (sql_of PostgreSQL []) in
  let rqs := [Enqueue (sample "a" QUEUED); Claim "a" "h" "w"; Claim "a" "h" "v"; Release "a"; GetStatus "a"] in
  wp (exec_run rqs) h (λ r h', r = Ok (spec_run rqs ∅).1 ∧ agree "p" 120 h' (spec_run rqs ∅).2).
Proof.
  refine (hybrid_refines_queue_spec "p" 120 _ (mkHybrid (new_redis_backend ∅ "p" 120) (sql_of PostgreSQL [])) ∅ _ _ _ _);
    [lia| | |done].
  - split; [apply empty_redis_at|]. split; [apply sql_of_wf; constructor|done].
  - constructor; [split; [apply sample_storable|unfold small_priority; simpl; lia]|].
    constructor; [split; by apply python_str_ascii|]. constructor; [split; by apply python_str_ascii|].
    by repeat constructor.
Defined.

(** A server that answers nothing. *)
Definition down {A} : M unit A := raise (UserError "ConnectionError" "").

#[local] Instance down_client : RedisClient unit := {|
  hset _ _ := down; hget _ _ := down; hgetall _ := down; hincrby _ _ _ := down; hdel _ _ := down; exists_key _ := down;
  delete_keys _ := down; zadd _ _ _ := down; zrem _ _ := down; zrevrange _ _ _ := down; set_ex _ _ _ := down;
  expire _ _ := down; ttl _ := down; scan_iter _ := down; redis_ping := down; redis_close := down;
  redis_error _ := true;
|}.

Lemma hybrid_enqueue_split_witness :
  let h : HybridQueueBackend unit (db_rows PostgreSQL) := mkHybrid (new_redis_backend tt "p" 120) (sql_of PostgreSQL []) in
  let j := sample "a" QUEUED in
  wp (enqueue j) h (λ r h', (∃ x, r = Err x) ∧ _redis h' = _redis h ∧ sql_wf (_sql h') ∧
    sql_statuses (_sql h') = <[job_id j := status j]> (sql_statuses (_sql h)) ∧
    wp (enqueue j) h' (λ r' h'', (∃ x, r' = Err x) ∧ _redis h'' = _redis h)).
Proof.
  refine (hybrid_enqueue_split (sample "a" QUEUED) (mkHybrid (new_redis_backend tt "p" 120) (sql_of PostgreSQL [])) _ _ _);
    [|apply sql_of_wf; constructor|done].
  intros c k mapping. unfold hset. simpl. unfold down. wp_steps. split; [done|]. by eexists.
Defined.
