(* ===== verification/FairShare.v ===== *)
(** * Fair share between tenants

    [broker/fairshare.py]: a quota per tenant, the check and the counters that
    enforce it, and the choice of the next tenant. The monotonic clock counts
    microseconds. The scheduler's lock covers one look-up or choice, not a check
    and the record that follows it, so clients are sequences of single calls
    ([run_op]), with a log of what they saw that the theorems speak of. *)

From Stdlib Require Import SpecFloat.
From S2P Require Import Prelude PyValue Json Isotime PyFloat.

(** ** [TenantQuota] *)

Record TenantQuota : Type := mkQuota {
  quota_tenant : string;
  max_concurrent : Z;
  max_per_minute : Z;
  weight : float;
  active_count : Z;
  minute_window_start : Z;
  minute_count : Z;
}.

#[export] Instance TenantQuota_eta : Eta TenantQuota := λ q, mkQuota (quota_tenant q) (max_concurrent q)
  (max_per_minute q) (weight q) (active_count q) (minute_window_start q) (minute_count q).

(** [time.monotonic()] *)
Definition monotonic {S} : M S Z := utcnow.

Module Quota.
Definition can_submit : M TenantQuota bool :=
  q ← get_state;
  if (max_concurrent q <=? active_count q)%Z then mret false
  else
    now ← monotonic;
    (if (60000000 <=? now - minute_window_start q)%Z
     then modify (λ q, q <| minute_window_start := now |> <| minute_count := 0%Z |>)
     else mret tt);;
    gets (λ q, (minute_count q <? max_per_minute q)%Z).

Definition record_submit : M TenantQuota unit :=
  modify (λ q, q <| active_count := (active_count q + 1)%Z |> <| minute_count := (minute_count q + 1)%Z |>).

Definition record_complete : M TenantQuota unit :=
  modify (λ q, q <| active_count := Z.max 0 (active_count q - 1) |>).
End Quota.

(** ** [FairShareScheduler] *)

Record FairShareScheduler : Type := mkFairShare {
  _tenants : dict TenantQuota;
  _default_max_concurrent : Z;
  _default_max_per_minute : Z;
}.

#[export] Instance FairShareScheduler_eta : Eta FairShareScheduler := λ s,
  mkFairShare (_tenants s) (_default_max_concurrent s) (_default_max_per_minute s).

Module FairShare.

Definition register_tenant (quota : TenantQuota) : M FairShareScheduler unit :=
  modify (λ s, s <| _tenants := Dict.set (quota_tenant quota) quota (_tenants s) |>).

Definition get_quota (tenant_id : string) : M FairShareScheduler TenantQuota :=
  s ← get_state;
  match Dict.get tenant_id (_tenants s) with
  | Some q => mret q
  | None =>
    now ← monotonic;
    let q := mkQuota tenant_id (_default_max_concurrent s) (_default_max_per_minute s) (float_of_Z 1) 0 now 0 in
    modify (λ s, s <| _tenants := Dict.set tenant_id q (_tenants s) |>);;
    mret q
  end.

(** A method of the quota object stored under a tenant. *)
Definition on_stored {A} (tenant_id : string) (q : TenantQuota) (m : M TenantQuota A) : M FairShareScheduler A :=
  zoom (λ s, default q (Dict.get tenant_id (_tenants s)))
    (λ q s, s <| _tenants := Dict.set tenant_id q (_tenants s) |>) m.

Definition can_submit (tenant_id : string) : M FairShareScheduler bool :=
  q ← get_quota tenant_id; on_stored tenant_id q Quota.can_submit.

Definition record_submit (tenant_id : string) : M FairShareScheduler unit :=
  q ← get_quota tenant_id; on_stored tenant_id q Quota.record_submit.

Definition record_complete (tenant_id : string) : M FairShareScheduler unit :=
  q ← get_quota tenant_id; on_stored tenant_id q Quota.record_complete.

(** [q.active_count / max(q.weight, 0.01)] *)
Definition ratio (q : TenantQuota) : float :=
  float_div (float_of_Z (active_count q)) (float_max (weight q) (decimal false 1 (-2))).

(** The loop of [next_eligible_tenant]. *)
Fixpoint next_loop (candidates : list string) (best : option string) (best_ratio : float)
    : M FairShareScheduler (option string) :=
  match candidates with
  | [] => mret best
  | tid :: candidates =>
    s ← get_state;
    match Dict.get tid (_tenants s) with
    | None => mret (Some tid)
    | Some q =>
      ok ← on_stored tid q Quota.can_submit;
      if negb ok then next_loop candidates best best_ratio
      else
        let r := ratio q in
        if SFltb r best_ratio then next_loop candidates (Some tid) r
        else next_loop candidates best best_ratio
    end
  end.

Definition next_eligible_tenant (candidates : list string) : M FairShareScheduler (option string) :=
  next_loop candidates None (S754_infinity false).

Definition stats : M FairShareScheduler (dict (Z * Z * float)) :=
  gets (λ s, prod_map id (λ q, (active_count q, max_concurrent q, weight q)) <$> _tenants s).
End FairShare.

(** ** What a scheduler offers *)

(** The counters are within the limits. *)
Definition quota_ok (q : TenantQuota) : Prop :=
  (0 ≤ active_count q ≤ max_concurrent q)%Z ∧ (0 ≤ minute_count q ≤ max_per_minute q)%Z.

Definition fair_ok (s : FairShareScheduler) : Prop :=
  (0 ≤ _default_max_concurrent s)%Z ∧ (0 ≤ _default_max_per_minute s)%Z ∧
  ∀ t q, Dict.get t (_tenants s) = Some q → quota_ok q.

(** Room for one more job, now and in this minute. *)
Definition eligible (q : TenantQuota) : Prop :=
  (active_count q < max_concurrent q ∧ minute_count q < max_per_minute q)%Z.

#[export] Instance eligible_dec q : Decision (eligible q).
Proof. unfold eligible. apply _. Defined.

(** The minute may have started anew. *)
Definition same_quota (q q' : TenantQuota) : Prop :=
  quota_tenant q' = quota_tenant q ∧ max_concurrent q' = max_concurrent q ∧
  max_per_minute q' = max_per_minute q ∧ weight q' = weight q ∧ active_count q' = active_count q ∧
  (minute_count q' = minute_count q ∨ minute_count q' = 0%Z).

Lemma same_quota_refl q : same_quota q q.
Proof. unfold same_quota. tauto. Qed.

Lemma same_quota_trans q q' q'' : same_quota q q' → same_quota q' q'' → same_quota q q''.
Proof. unfold same_quota. intuition congruence. Qed.

Lemma same_quota_ok q q' : same_quota q q' → quota_ok q → quota_ok q'.
Proof. unfold same_quota, quota_ok. intuition lia. Qed.

Lemma same_quota_eligible q q' : same_quota q q' → quota_ok q → eligible q → eligible q'.
Proof. unfold same_quota, quota_ok, eligible. intuition lia. Qed.

Lemma same_quota_ratio q q' : same_quota q q' → FairShare.ratio q' = FairShare.ratio q.
Proof. unfold same_quota, FairShare.ratio. intros (_ & _ & _ & -> & -> & _). done. Qed.

Lemma quota_can_submit q (Q : result bool → TenantQuota → Prop) :
  (∀ b q', same_quota q q' → (b = true ↔ eligible q') → Q (Ok b) q') → wp Quota.can_submit q Q.
Proof.
  intros HQ. unfold Quota.can_submit. wp_steps. destruct (Z.leb_spec (max_concurrent q) (active_count q)).
  - wp_steps. apply HQ; [apply same_quota_refl|]. unfold eligible. split; [done|lia].
  - unfold monotonic. wp_steps. destruct (60000000 <=? _)%Z; wp_steps;
      (apply HQ; [unfold same_quota; simpl; tauto|unfold eligible; simpl; rewrite Z.ltb_lt; lia]).
Qed.

(** One quota was replaced. *)
Definition put (t : string) (q : TenantQuota) (s : FairShareScheduler) : FairShareScheduler :=
  s <| _tenants := Dict.set t q (_tenants s) |>.

Lemma get_put t q s t' :
  Dict.get t' (_tenants (put t q s)) = if decide (t = t') then Some q else Dict.get t' (_tenants s).
Proof. apply Dict.get_set. Qed.

Lemma put_ok t q s : fair_ok s → quota_ok q → fair_ok (put t q s).
Proof.
  intros (H1 & H2 & H3) Hq. split; [done|]. split; [done|]. intros t' q'. rewrite get_put.
  case_decide; [by intros [= <-]|apply H3].
Qed.

Lemma wp_get_known t q s (Q : result TenantQuota → FairShareScheduler → Prop) :
  Dict.get t (_tenants s) = Some q → Q (Ok q) s → wp (FairShare.get_quota t) s Q.
Proof. intros E HQ. unfold FairShare.get_quota. wp_steps. rewrite E. by wp_steps. Qed.

Lemma wp_on_stored {A} t q0 q s (m : M TenantQuota A) Q :
  Dict.get t (_tenants s) = Some q → wp m q (λ r q', Q r (put t q' s)) →
  wp (FairShare.on_stored t q0 m) s Q.
Proof. intros E H. apply wp_zoom. by rewrite E. Qed.

(** *** The choice of the next tenant *)

Definition unknown (s : FairShareScheduler) (t : string) : bool := bool_decide (Dict.get t (_tenants s) = None).

(** [o] is the best of the candidates that have room: no other has a lower share. *)
Definition best_of (l : list string) (s : FairShareScheduler) (o : option string) : Prop :=
  match o with
  | None => ∀ t q, t ∈ l → Dict.get t (_tenants s) = Some q → eligible q →
      SFltb (FairShare.ratio q) (S754_infinity false) = false
  | Some t => t ∈ l ∧ ∃ q, Dict.get t (_tenants s) = Some q ∧ eligible q ∧
      ∀ t' q', t' ∈ l → Dict.get t' (_tenants s) = Some q' → eligible q' →
        SFltb (FairShare.ratio q') (FairShare.ratio q) = false
  end.

(** The loop has seen [dn] and holds [best] and its share. *)
Definition holds_best (dn : list string) (s : FairShareScheduler) (best : option string) (r : float) : Prop :=
  best_of dn s best ∧ match best with
    | None => r = S754_infinity false
    | Some t => ∃ q, Dict.get t (_tenants s) = Some q ∧ r = FairShare.ratio q ∧
                  SFltb r (S754_infinity false) = true
    end.

Definition same_quotas (s s' : FairShareScheduler) : Prop :=
  ∀ t, match Dict.get t (_tenants s), Dict.get t (_tenants s') with
       | Some q, Some q' => same_quota q q'
       | None, None => True
       | _, _ => False
       end.

Lemma same_quotas_refl s : same_quotas s s.
Proof. intros t. destruct (Dict.get t (_tenants s)); [apply same_quota_refl|done]. Qed.

Lemma same_quotas_put s s1 t q q' :
  same_quotas s s1 → Dict.get t (_tenants s1) = Some q → same_quota q q' → same_quotas s (put t q' s1).
Proof.
  intros H E Hq t'. specialize (H t'). rewrite get_put. case_decide as Ht; [subst t'|done].
  rewrite E in H. destruct (Dict.get t (_tenants s)); [|done]. by eapply same_quota_trans.
Qed.

(** A bound on the shares seen so far, after one more candidate was asked. *)
Lemma bound_step dn s t q q' r :
  fair_ok s → Dict.get t (_tenants s) = Some q → same_quota q q' →
  (∀ t' q0, t' ∈ dn → Dict.get t' (_tenants s) = Some q0 → eligible q0 → SFltb (FairShare.ratio q0) r = false) →
  (eligible q' → SFltb (FairShare.ratio q') r = false) →
  ∀ t' q0, t' ∈ dn ++ [t] → Dict.get t' (_tenants (put t q' s)) = Some q0 → eligible q0 →
    SFltb (FairShare.ratio q0) r = false.
Proof.
  intros Hs E Hq Hdn Ht t' q0 Hin. rewrite get_put. case_decide as Heq; [by intros [= <-]|].
  intros E0 He. apply (Hdn t' q0); [|done..]. set_solver.
Qed.

(** What is known of the shares seen so far. *)
Lemma holds_bound dn s best r : holds_best dn s best r →
  ∀ t q, t ∈ dn → Dict.get t (_tenants s) = Some q → eligible q → SFltb (FairShare.ratio q) r = false.
Proof.
  intros [Hb Hr]. destruct best as [b|]; [|by subst].
  destruct Hb as (_ & q0 & E0 & _ & Hb). destruct Hr as (q1 & E1 & -> & _).
  assert (q1 = q0) as -> by congruence. exact Hb.
Qed.

Lemma holds_keep dn s t q q' best r :
  fair_ok s → Dict.get t (_tenants s) = Some q → same_quota q q' → holds_best dn s best r →
  (eligible q' → SFltb (FairShare.ratio q') r = false) → holds_best (dn ++ [t]) (put t q' s) best r.
Proof.
  intros Hs E Hq Hbest Hnew.
  pose proof (bound_step dn s t q q' r Hs E Hq (holds_bound _ _ _ _ Hbest) Hnew) as Hbound.
  destruct Hbest as [Hb Hr]. destruct best as [b|]; [|subst; by split].
  destruct Hb as (Hin & q0 & E0 & He & _). destruct Hr as (q1 & E1 & -> & Hlt).
  assert (q1 = q0) as -> by congruence.
  assert (∃ q2, Dict.get b (_tenants (put t q' s)) = Some q2 ∧ eligible q2 ∧
    FairShare.ratio q2 = FairShare.ratio q0) as (q2 & E2 & He2 & Hr2).
  { rewrite get_put. case_decide as Heq; [|by exists q0]. subst b. assert (q0 = q) as -> by congruence.
    exists q'. split; [done|]. split; [|by apply same_quota_ratio].
    eapply same_quota_eligible; [done|by eapply Hs|done]. }
  split; [|exists q2; by rewrite Hr2]. split; [set_solver|]. exists q2. rewrite Hr2. by split_and!.
Qed.

Lemma holds_better dn s t q q' best r :
  fair_ok s → Dict.get t (_tenants s) = Some q → same_quota q q' → holds_best dn s best r →
  eligible q' → SFltb (FairShare.ratio q') r = true →
  holds_best (dn ++ [t]) (put t q' s) (Some t) (FairShare.ratio q').
Proof.
  intros Hs E Hq Hbest He Hlt.
  assert (Hinf : SFltb (FairShare.ratio q') (S754_infinity false) = true).
  { destruct Hbest as [_ Hr]. destruct best as [b|]; [|by subst].
    destruct Hr as (_ & _ & _ & Hr). by eapply SFltb_trans. }
  assert (Eget : Dict.get t (_tenants (put t q' s)) = Some q') by (rewrite get_put; by rewrite decide_True).
  split; [|by exists q']. split; [set_solver|]. exists q'. split; [done|]. split; [done|].
  eapply bound_step; [done|done|done| |intros _; apply SFltb_irrefl].
  intros t' q0 Hin E0 He0. destruct (SFltb (FairShare.ratio q0) (FairShare.ratio q')) eqn:Hc; [|done].
  pose proof (SFltb_trans _ _ _ Hc Hlt) as Hc'. by rewrite (holds_bound _ _ _ _ Hbest t' q0) in Hc'.
Qed.

Lemma wp_next l s : fair_ok s →
  wp (FairShare.next_eligible_tenant l) s (λ r s', ∃ o, r = Ok o ∧ fair_ok s' ∧ same_quotas s s' ∧
    match find_by (unknown s) l with
    | Some t => o = Some t
    | None => best_of l s' o
    end).
Proof.
  intros Hs0. unfold FairShare.next_eligible_tenant.
  enough (∀ todo dn s1 best r, l = dn ++ todo → fair_ok s1 → same_quotas s s1 →
    find_by (unknown s) l = find_by (unknown s) todo → holds_best dn s1 best r →
    wp (FairShare.next_loop todo best r) s1 (λ r s', ∃ o, r = Ok o ∧ fair_ok s' ∧ same_quotas s s' ∧
      match find_by (unknown s) l with Some t => o = Some t | None => best_of l s' o end)) as Hloop.
  { apply (Hloop l []); [done|done|apply same_quotas_refl|done|]. split; [|done]. by intros t q ?%elem_of_nil. }
  induction todo as [|t todo IH]; intros dn s1 best r El Hs Hsame Hfind Hbest;
    cbn [FairShare.next_loop find_by] in *.
  { wp_steps. exists best. split; [done|]. split; [done|]. split; [done|]. rewrite Hfind.
    rewrite app_nil_r in El. subst. apply Hbest. }
  wp_steps. pose proof (Hsame t) as Ht. unfold unknown in Hfind at 2.
  destruct (Dict.get t (_tenants s1)) as [q|] eqn:E; destruct (Dict.get t (_tenants s)) as [qs|] eqn:Es; try done.
  - cbn in Hfind. wp_steps. eapply wp_on_stored; [exact E|]. apply quota_can_submit. intros b q' Hq Hb. cbn beta iota.
    assert (Hs' : fair_ok (put t q' s1)) by (apply put_ok; [done|]; eapply same_quota_ok; [done|by eapply Hs]).
    assert (Hsame' : same_quotas s (put t q' s1)) by (by eapply same_quotas_put).
    assert (El' : l = (dn ++ [t]) ++ todo) by (by rewrite <- app_assoc).
    pose proof (same_quota_ratio _ _ Hq) as Hr. destruct b; cbn [negb].
    + rewrite <- Hr. destruct (SFltb (FairShare.ratio q') r) eqn:Hlt.
      * eapply IH; [exact El'|done|done|done|]. eapply holds_better; [exact Hs|done|done|done| |done]. by apply Hb.
      * eapply IH; [exact El'|done|done|done|]. by eapply holds_keep.
    + eapply IH; [exact El'|done|done|done|]. eapply holds_keep; [exact Hs|done|done|done|].
      intros He%Hb. done.
  - cbn in Hfind. wp_steps. exists (Some t). split; [done|]. split; [done|]. split; [done|]. by rewrite Hfind.
Qed.

(** ** Clients

    The check and the counters are separate calls: a client asks [can_submit],
    and after a positive answer it submits the job and calls [record_submit]. The
    scheduler is shared, so the calls of the clients interleave. [fr_granted]
    are the tenants with a positive answer that is not used yet, [fr_log] what
    happened: a submission with a reading of the clock after it, a refusal with a
    reading before the check, a completion. *)
Inductive fair_event : Type :=
  | Submitted (tenant_id : string) (now : Z)
  | Refused (tenant_id : string) (now : Z)
  | Completed (tenant_id : string).

Record fair_run : Type := mkRun {
  fr_scheduler : FairShareScheduler;
  fr_granted : gset string;
  fr_log : list fair_event;
}.

#[export] Instance fair_run_eta : Eta fair_run := λ r, mkRun (fr_scheduler r) (fr_granted r) (fr_log r).

Inductive fair_op : Type :=
  | CanSubmit (tenant_id : string)
  | RecordSubmit (tenant_id : string)
  | RecordComplete (tenant_id : string)
  | NextTenant (candidates : list string)
  | Look (tenant_id : string).

Definition on_scheduler {A} : M FairShareScheduler A → M fair_run A :=
  zoom fr_scheduler (λ s r, r <| fr_scheduler := s |>).
Definition note (ev : fair_event) : M fair_run unit := modify (λ r, r <| fr_log := fr_log r ++ [ev] |>).

Definition run_op (op : fair_op) : M fair_run unit :=
  match op with
  | CanSubmit t =>
    before ← monotonic;
    ok ← on_scheduler (FairShare.can_submit t);
    if (ok : bool) then modify (λ r, r <| fr_granted := {[t]} ∪ fr_granted r |>) else note (Refused t before)
  | RecordSubmit t =>
    r ← get_state;
    if decide (t ∈ fr_granted r) then
      on_scheduler (FairShare.record_submit t);;
      modify (λ r, r <| fr_granted := fr_granted r ∖ {[t]} |>);;
      now ← monotonic;
      note (Submitted t now)
    else mret tt
  | RecordComplete t => on_scheduler (FairShare.record_complete t);; note (Completed t)
  | NextTenant l => _ ← on_scheduler (FairShare.next_eligible_tenant l); mret tt
  | Look t => _ ← on_scheduler (FairShare.get_quota t); mret tt
  end.

(** When the jobs of a tenant were submitted, and how many are running: a
    completion that is reported while none runs is ignored. *)
Definition times (t : string) (log : list fair_event) : list Z :=
  omap (λ ev, match ev with Submitted t' now => if decide (t' = t) then Some now else None | _ => None end) log.

Definition running_step (t : string) (n : nat) (ev : fair_event) : nat :=
  match ev with
  | Submitted t' _ => if decide (t' = t) then S n else n
  | Completed t' => if decide (t' = t) then pred n else n
  | Refused _ _ => n
  end.
Definition running (t : string) (log : list fair_event) : nat := foldl (running_step t) 0 log.

(** The limits of a tenant: its own or the defaults. *)
Definition limits_of (s : FairShareScheduler) (t : string) : Z * Z :=
  match Dict.get t (_tenants s) with
  | Some q => (max_concurrent q, max_per_minute q)
  | None => (_default_max_concurrent s, _default_max_per_minute s)
  end.

Definition minute : Z := 60000000.

(** The submissions at [a] keep a limit of [m] a window: any [2 * m + 1] of them
    in a row span a minute. *)
Definition spaced (m : Z) (a : list Z) : Prop :=
  ∀ i x y, a !! i = Some x → a !! (i + 2 * Z.to_nat m) = Some y → (x + minute ≤ y)%Z.

(** A refusal at [now] is due: [c] jobs are running, or the last [m] submissions
    were all made within the last minute. *)
Definition refusal_due (c m now : Z) (a : list Z) (n : nat) : Prop :=
  (c ≤ Z.of_nat n)%Z ∨ (m ≤ 0)%Z ∨
  ∃ x, Z.to_nat m ≤ length a ∧ a !! (length a - Z.to_nat m) = Some x ∧ (now < x + minute)%Z.

(** ** A quota and the history it stands for *)

(** The submissions of the current window, of the one before, and the older ones. *)
Definition windows (q : TenantQuota) (a : list Z) : Prop :=
  ∃ older previous current, a = older ++ previous ++ current ∧
    (Z.of_nat (length previous) ≤ Z.max 0 (max_per_minute q))%Z ∧
    minute_count q = Z.of_nat (length current) ∧
    Forall (λ x, x + minute ≤ minute_window_start q)%Z older ∧
    Forall (λ x, x ≤ minute_window_start q)%Z previous ∧
    Forall (λ x, minute_window_start q ≤ x)%Z current.

(** [q] counts the submissions at [a] of which [n] are running, at [now];
    [granted] says that a positive answer is pending. *)
Record tracks (q : TenantQuota) (granted : bool) (a : list Z) (n : nat) (now : Z) : Prop := {
  tr_active : active_count q = Z.of_nat n;
  tr_room : (active_count q ≤ Z.max 0 (max_concurrent q))%Z;
  tr_minute : (minute_count q ≤ Z.max 0 (max_per_minute q))%Z;
  tr_windows : windows q a;
  tr_now : (minute_window_start q ≤ now)%Z ∧ Forall (λ x, x ≤ now)%Z a;
  tr_spaced : spaced (max_per_minute q) a;
  tr_granted : granted = true → eligible q;
}.

Lemma tracks_later q g a n now now' : (now ≤ now')%Z → tracks q g a n now → tracks q g a n now'.
Proof.
  intros Hle [? ? ? ? [Hw Ha] ? ?]. split; try done. split; [lia|].
  eapply Forall_impl; [exact Ha|]. simpl. lia.
Qed.

Lemma tracks_weaken q g g' a n now : (g' = true → g = true) → tracks q g a n now → tracks q g' a n now.
Proof. intros Hg [? ? ? ? ? ? Hgr]. split; try done. intros H. by apply Hgr, Hg. Qed.

Lemma tracks_new q now :
  active_count q = 0%Z → minute_count q = 0%Z → (minute_window_start q ≤ now)%Z → tracks q false [] 0 now.
Proof.
  intros Ha Hm Hw. split; rewrite ?Ha, ?Hm; try done; try lia.
  exists [], [], []. rewrite Hm. split_and!; try done. simpl. lia.
Qed.

Lemma spaced_snoc q a b :
  spaced (max_per_minute q) a → windows q a → eligible q → (minute_window_start q ≤ b)%Z →
  spaced (max_per_minute q) (a ++ [b]).
Proof.
  intros Hs (older & previous & current & -> & Hprev & Hcur & Hold & _) [_ Hel] Hb i x y Hx Hy.
  apply lookup_app_Some in Hy as [Hy|[Hge Hy]].
  - eapply Hs; [|exact Hy]. rewrite lookup_app_l in Hx; [done|]. apply lookup_lt_Some in Hy. lia.
  - apply list_lookup_singleton_Some in Hy as [Hi <-].
    rewrite !length_app in Hge, Hi. rewrite <- app_assoc, lookup_app_l in Hx by lia.
    rewrite Forall_forall in Hold. specialize (Hold x (list_elem_of_lookup_2 _ _ _ Hx)). simpl in Hold. lia.
Qed.

Definition submitted (q : TenantQuota) : TenantQuota :=
  q <| active_count := (active_count q + 1)%Z |> <| minute_count := (minute_count q + 1)%Z |>.

Lemma tracks_submit q a n now b :
  tracks q true a n now → (now ≤ b)%Z → tracks (submitted q) false (a ++ [b]) (S n) b.
Proof.
  intros [Hact Hroom Hmin Hwin [Hst Hpast] Hsp Hgr] Hb. specialize (Hgr eq_refl). pose proof Hgr as [Hc Hm].
  split; simpl; try lia; try done.
  - destruct Hwin as (older & previous & current & -> & ? & Hcur & ? & ? & Hin).
    exists older, previous, (current ++ [b]). simpl. rewrite length_app. simpl. split_and!; try done.
    + by rewrite !app_assoc.
    + lia.
    + apply Forall_app. split; [done|]. constructor; [lia|done].
  - split; [lia|]. apply Forall_app. split; [|by repeat constructor].
    eapply Forall_impl; [exact Hpast|]. simpl. lia.
  - apply (spaced_snoc q); [done..|lia].
Qed.

Lemma tracks_complete q g a n now :
  tracks q g a n now → tracks (q <| active_count := Z.max 0 (active_count q - 1) |>) g a (pred n) now.
Proof.
  intros [Hact Hroom Hmin Hwin Hnow Hsp Hgr]. split; simpl; try done; try lia.
  intros Hg. destruct (Hgr Hg). unfold eligible. simpl. lia.
Qed.

(** A new window. *)
Lemma tracks_restart q g a n now :
  tracks q g a n now → (minute_window_start q + minute ≤ now)%Z →
  tracks (q <| minute_window_start := now |> <| minute_count := 0%Z |>) g a n now.
Proof.
  intros [Hact Hroom Hmin (older & previous & current & Ha & Hprev & Hcur & Hold & Hpr & Hin) [Hst Hpast] Hsp Hgr] Hnew.
  split; simpl; try done; try lia.
  - exists (older ++ previous), current, []. simpl. rewrite app_nil_r, <- app_assoc. split_and!; try done; [lia|..].
    + apply Forall_app. split; (eapply Forall_impl; [eassumption|]); simpl; unfold minute in *; lia.
    + rewrite Ha, !Forall_app in Hpast. by destruct Hpast as (_ & _ & ?).
  - intros Hg. destruct (Hgr Hg). unfold eligible. simpl. lia.
Qed.

(** The current window is full. *)
Lemma full_due q g a n now :
  tracks q g a n now → (max_per_minute q ≤ minute_count q)%Z → (now < minute_window_start q + minute)%Z →
  refusal_due (max_concurrent q) (max_per_minute q) now a n.
Proof.
  intros [_ _ Hmin (older & previous & current & -> & _ & Hcur & _ & _ & Hin) _ _ _] Hfull Hnow.
  destruct (decide (max_per_minute q ≤ 0)%Z) as [|Hpos]; [by right; left|]. right. right.
  destruct current as [|x current]; simpl in *; [lia|].
  exists x. apply Forall_cons in Hin as [Hx _]. rewrite app_assoc, length_app. simpl.
  split; [lia|]. split; [|lia]. rewrite lookup_app_r by lia.
  replace (length (older ++ previous) + S (length current) - Z.to_nat (max_per_minute q) - length (older ++ previous))
    with 0 by lia. done.
Qed.

Definition same_limits_quota (q q' : TenantQuota) : Prop :=
  max_concurrent q' = max_concurrent q ∧ max_per_minute q' = max_per_minute q.

Lemma runs_can_submit e q g a n :
  forward e → tracks q g a n (now_at e) →
  runs e Quota.can_submit q (λ r q' e', later e e' ∧ same_limits_quota q q' ∧ ∃ ok, r = Ok ok ∧
    tracks q' (g || ok) a n (now_at e') ∧
    (ok = false → refusal_due (max_concurrent q) (max_per_minute q) (now_at e) a n)).
Proof.
  intros Hf Ht. unfold Quota.can_submit. apply runs_get_state.
  destruct (Z.leb_spec (max_concurrent q) (active_count q)) as [Hfull|Hroom].
  { split; [done|]. split; [done|]. exists false. rewrite orb_false_r. split_and!; [done|done|].
    intros _. left. pose proof (tr_active _ _ _ _ _ Ht). lia. }
  apply runs_utcnow. pose proof (later_now _ _ Hf (later_tick e)) as Hle.
  assert (Hans : ∀ q1, same_limits_quota q q1 → active_count q1 = active_count q → tracks q1 g a n (now_at e) →
    (minute_window_start q1 ≤ now_at e < minute_window_start q1 + minute)%Z →
    runs (tick e) (gets (λ q, minute_count q <? max_per_minute q)%Z) q1 (λ r q' e', later e e' ∧
      same_limits_quota q q' ∧ ∃ ok, r = Ok ok ∧ tracks q' (g || ok) a n (now_at e') ∧
      (ok = false → refusal_due (max_concurrent q) (max_per_minute q) (now_at e) a n))).
  { intros q1 Hlim Hact Ht1 [_ Hw]. split; [apply later_tick|]. split; [done|]. eexists. split; [done|].
    destruct Hlim as [Hc Hm]. split.
    - apply tracks_later with (now := now_at e); [done|]. destruct Ht1 as [? ? ? ? ? ? Hgr]. split; try done.
      intros [Hg|Hok%Z.ltb_lt]%orb_true_iff; [by apply Hgr|]. split; [by rewrite Hc, Hact|done].
    - intros Hno%Z.ltb_ge. rewrite <- Hc, <- Hm. by eapply full_due. }
  destruct (Z.leb_spec 60000000 (now_at e - minute_window_start q)) as [Hnew|Hin].
  - apply runs_modify. apply Hans; [done|done|apply tracks_restart; [done|unfold minute; lia]|].
    simpl. unfold minute. lia.
  - apply runs_bind, runs_ret. apply Hans; [done|done|done|].
    split; [by apply (tr_now _ _ _ _ _ Ht)|unfold minute; lia].
Qed.

(** ** All tenants *)

(** The state after the quota of [t] became [q]. *)
Definition updated (t : string) (q : TenantQuota) (s s' : FairShareScheduler) : Prop :=
  (_default_max_concurrent s', _default_max_per_minute s') = (_default_max_concurrent s, _default_max_per_minute s) ∧
  ∀ t', Dict.get t' (_tenants s') = if decide (t = t') then Some q else Dict.get t' (_tenants s).

Lemma updated_put t q s : updated t q s (put t q s).
Proof. split; [done|]. intros t'. apply get_put. Qed.

Lemma updated_twice t q q' s s1 : updated t q s s1 → updated t q' s (put t q' s1).
Proof.
  intros [Hd Hq]. split; [done|]. intros t'. rewrite get_put, Hq. by case_decide.
Qed.

(** The quota a tenant has when it is asked for at [now]. *)
Definition quota_at (s : FairShareScheduler) (t : string) (now : Z) : TenantQuota :=
  match Dict.get t (_tenants s) with
  | Some q => q
  | None => mkQuota t (_default_max_concurrent s) (_default_max_per_minute s) (float_of_Z 1) 0 now 0
  end.

Lemma quota_at_limits s t now : (max_concurrent (quota_at s t now), max_per_minute (quota_at s t now)) = limits_of s t.
Proof. unfold quota_at, limits_of. by destruct (Dict.get t (_tenants s)). Qed.

Lemma runs_get_quota e t s (Q : result TenantQuota → FairShareScheduler → env → Prop) :
  (∀ now e' s', later e e' → forward e → (now ≤ now_at e')%Z → (now_at e ≤ now)%Z →
     updated t (quota_at s t now) s s' → Q (Ok (quota_at s t now)) s' e') →
  forward e → runs e (FairShare.get_quota t) s Q.
Proof.
  intros HQ Hf. unfold FairShare.get_quota. apply runs_get_state. unfold quota_at in HQ.
  destruct (Dict.get t (_tenants s)) as [q|] eqn:E.
  - apply runs_ret. apply (HQ (now_at e)); [done|done|lia|lia|]. split; [done|]. intros t'.
    case_decide; [by subst|done].
  - apply runs_utcnow, runs_modify, runs_ret.
    apply (HQ (now_at e)); [apply later_tick|done|by apply later_now, later_tick|lia|apply updated_put].
Qed.

Lemma runs_on_quota {A} e t (m : M TenantQuota A) s (Q : result A → FairShareScheduler → env → Prop) :
  forward e →
  (∀ now e', later e e' → (now ≤ now_at e')%Z → (now_at e ≤ now)%Z →
     runs e' m (quota_at s t now) (λ r q' e'', ∀ s', updated t q' s s' → Q r s' e'')) →
  runs e (q ← FairShare.get_quota t; FairShare.on_stored t q m) s Q.
Proof.
  intros Hf HQ. apply runs_bind. apply runs_get_quota; [|done].
  intros now e' s' Hl _ H1 H2 Hup. apply runs_zoom. destruct Hup as [Hd Hq]. rewrite Hq, decide_True by done.
  simpl. specialize (HQ now e' Hl H1 H2). unfold runs in *. destruct (m _ e') as [[r q'] e''].
  apply HQ. by eapply updated_twice.
Qed.

Definition log_due (L : string → Z * Z) (log : list fair_event) : Prop :=
  ∀ t pre now post, log = pre ++ Refused t now :: post →
    refusal_due (L t).1 (L t).2 now (times t pre) (running t pre).

(** Every quota tracks what the log says of its tenant. *)
Definition tenant_ok (L : string → Z * Z) (s : FairShareScheduler) (granted : gset string) (log : list fair_event)
    (now : Z) (t : string) : Prop :=
  limits_of s t = L t ∧
  match Dict.get t (_tenants s) with
  | Some q => tracks q (bool_decide (t ∈ granted)) (times t log) (running t log) now
  | None => (t ∉ granted) ∧ times t log = [] ∧ running t log = 0
  end.

Definition run_inv (L : string → Z * Z) (r : fair_run) (now : Z) : Prop :=
  (∀ t, tenant_ok L (fr_scheduler r) (fr_granted r) (fr_log r) now t) ∧ log_due L (fr_log r).

(** A quota that is asked for tracks its tenant, known or not. *)
Lemma quota_tracks L s G log now t now1 :
  tenant_ok L s G log now t → (now ≤ now1)%Z →
  tracks (quota_at s t now1) (bool_decide (t ∈ G)) (times t log) (running t log) now1.
Proof.
  unfold tenant_ok, quota_at. intros [_ Ht] Hle. destruct (Dict.get t (_tenants s)) as [q|].
  - by eapply tracks_later.
  - destruct Ht as (Hg & -> & ->). rewrite bool_decide_eq_false_2 by done. by apply tracks_new.
Qed.

(** One tenant's quota changes, and what the log says of it. *)
Lemma tenant_ok_updated L s G log now t q' s' G' log' now' :
  (∀ t', tenant_ok L s G log now t') → (now ≤ now')%Z → updated t q' s s' →
  (max_concurrent q', max_per_minute q') = limits_of s t →
  tracks q' (bool_decide (t ∈ G')) (times t log') (running t log') now' →
  (∀ t', t' ≠ t → (t' ∈ G' ↔ t' ∈ G) ∧ times t' log' = times t' log ∧ running t' log' = running t' log) →
  ∀ t', tenant_ok L s' G' log' now' t'.
Proof.
  intros Hall Hle [Hd Hup] Hlim Ht Hother t'. pose proof (Hall t') as [HL Htr].
  unfold tenant_ok, limits_of. rewrite Hup. destruct (decide (t = t')) as [Heq|Heq].
  - subst t'. split; [|done]. rewrite Hlim. apply HL.
  - destruct (Hother t' ltac:(congruence)) as (HG & -> & ->). injection Hd as -> ->. split; [exact HL|].
    destruct (Dict.get t' (_tenants s)) as [q|]; [|by rewrite HG].
    rewrite (bool_decide_ext _ _ HG). by eapply tracks_later.
Qed.

Lemma times_snoc t log ev : times t (log ++ [ev]) = times t log ++ times t [ev].
Proof. apply omap_app. Qed.

Lemma running_snoc t log ev : running t (log ++ [ev]) = running_step t (running t log) ev.
Proof. unfold running. by rewrite foldl_snoc. Qed.

(** Only a refusal has to be accounted for. *)
Lemma log_due_snoc L log ev :
  log_due L log →
  (∀ t now, ev = Refused t now → refusal_due (L t).1 (L t).2 now (times t log) (running t log)) →
  log_due L (log ++ [ev]).
Proof.
  intros Hlog Hev t pre now post Heq. induction post as [|x post _] using rev_ind.
  - apply app_inj_tail in Heq as [<- ->]. by apply Hev.
  - rewrite app_comm_cons, app_assoc in Heq. apply app_inj_tail in Heq as [Heq _]. by eapply Hlog.
Qed.

Lemma refusal_due_mono c m now now' a n : (now' ≤ now)%Z → refusal_due c m now a n → refusal_due c m now' a n.
Proof. intros Hle [|[|(x & ? & ? & ?)]]; [by left|by right; left|]. right. right. exists x. split_and!; [done|done|lia]. Qed.

Lemma runs_next e l best ratio s L G log :
  forward e → (∀ t, tenant_ok L s G log (now_at e) t) →
  runs e (FairShare.next_loop l best ratio) s (λ r s' e', later e e' ∧ (∃ o, r = Ok o) ∧
    ∀ t, tenant_ok L s' G log (now_at e') t).
Proof.
  revert e best ratio s. induction l as [|t l IH]; intros e best ratio s Hf Hall; cbn [FairShare.next_loop].
  { apply runs_ret. split; [done|]. split; [by eexists|done]. }
  apply runs_get_state. pose proof (Hall t) as [HL Ht].
  destruct (Dict.get t (_tenants s)) as [q|] eqn:E.
  2: { apply runs_ret. split; [done|]. split; [by eexists|done]. }
  apply runs_bind, runs_zoom. rewrite E. simpl.
  eapply runs_mono; [by apply runs_can_submit|].
  intros r q' e' (Hl & [Hc Hm] & ok & -> & Htr & _).
  assert (Hall' : ∀ t', tenant_ok L (put t q' s) G log (now_at e') t').
  { eapply tenant_ok_updated; [done|by apply later_now|apply updated_put| | |done].
    - unfold limits_of. by rewrite E, Hc, Hm.
    - eapply tracks_weaken; [|exact Htr]. by intros ->. }
  pose proof (later_forward _ _ Hl Hf) as Hf'.
  assert (Hgo : ∀ best ratio, runs e' (FairShare.next_loop l best ratio) (put t q' s) (λ r s' e'', later e e'' ∧
    (∃ o, r = Ok o) ∧ ∀ t, tenant_ok L s' G log (now_at e'') t)).
  { intros b0 r0. eapply runs_mono; [by apply IH|]. intros r1 s1 e1 (Hl1 & ? & ?). split; [by etrans|done]. }
  destruct ok; cbn [negb]; [case_match|]; apply Hgo.
Qed.

Definition inv_after (L : string → Z * Z) (e : env) (res : result unit) (r : fair_run) (e' : env) : Prop :=
  later e e' ∧ res = Ok tt ∧ run_inv L r (now_at e').

Lemma check_inv L t r e :
  forward e → run_inv L r (now_at e) → runs e (run_op (CanSubmit t)) r (inv_after L e).
Proof.
  intros Hf [Hall Hlog]. cbn [run_op]. apply runs_utcnow, runs_bind, runs_zoom.
  pose proof (later_tick e) as Hl0. pose proof (later_forward _ _ Hl0 Hf) as Hf0.
  pose proof (later_now _ _ Hf Hl0) as H0.
  apply runs_on_quota; [done|]. intros now e1 Hl1 Hn1 Hn0. pose proof (later_forward _ _ Hl1 Hf0) as Hf1.
  assert (Htr := quota_tracks L _ _ _ _ t now (Hall t) ltac:(lia)).
  eapply runs_mono; [apply runs_can_submit; [done|]; eapply tracks_later; [exact Hn1|exact Htr]|].
  intros res q' e2 (Hl2 & [Hc Hm] & ok & -> & Htr' & Hdue) s' Hup.
  pose proof (later_now _ _ Hf1 Hl2) as H2.
  pose proof (quota_at_limits (fr_scheduler r) t now) as Hlim.
  assert (Hlim' : (max_concurrent q', max_per_minute q') = limits_of (fr_scheduler r) t) by (by rewrite Hc, Hm).
  assert (Hle : later e e2) by (etrans; [done|]; by etrans).
  destruct ok; (split; [exact Hle|]; split; [done|]; split).
  - eapply tenant_ok_updated; [exact Hall|lia|exact Hup|exact Hlim'| |].
    + rewrite bool_decide_eq_true_2 by (simpl; set_solver). by rewrite orb_true_r in Htr'.
    + intros t' Hne. simpl. split; [set_solver|done].
  - exact Hlog.
  - eapply tenant_ok_updated; [exact Hall|lia|exact Hup|exact Hlim'| |].
    + simpl. rewrite times_snoc, running_snoc. simpl. rewrite app_nil_r. by rewrite orb_false_r in Htr'.
    + intros t' Hne. simpl. rewrite times_snoc, running_snoc. simpl. by rewrite app_nil_r.
  - apply log_due_snoc; [exact Hlog|]. intros t' now' [= <- <-].
    pose proof (proj1 (Hall t)) as HL. rewrite <- HL, <- Hlim. simpl.
    eapply refusal_due_mono; [|by apply Hdue]. lia.
Qed.

Lemma record_inv L t r e :
  forward e → run_inv L r (now_at e) → runs e (run_op (RecordSubmit t)) r (inv_after L e).
Proof.
  intros Hf [Hall Hlog]. cbn [run_op]. apply runs_get_state. case_decide as Hg; [|by apply runs_ret].
  apply runs_bind, runs_zoom, runs_on_quota; [done|]. intros now e1 Hl1 Hn1 Hn0.
  pose proof (later_forward _ _ Hl1 Hf) as Hf1.
  assert (Htr := quota_tracks L _ _ _ _ t now (Hall t) Hn0). rewrite bool_decide_eq_true_2 in Htr by done.
  unfold Quota.record_submit. intros s' Hup. apply runs_modify, runs_utcnow.
  pose proof (later_now _ _ Hf1 (later_tick e1)) as H2.
  split; [etrans; [exact Hl1|apply later_tick]|]. split; [done|]. split.
  - eapply tenant_ok_updated; [exact Hall|lia|exact Hup|apply quota_at_limits| |]; simpl.
    + rewrite bool_decide_eq_false_2 by set_solver. rewrite times_snoc, running_snoc. simpl.
      rewrite !decide_True by done. eapply tracks_later; [exact H2|]. by eapply tracks_submit.
    + intros t' Hne. rewrite times_snoc, running_snoc. simpl. rewrite !decide_False by done.
      rewrite app_nil_r. split; [set_solver|done].
  - by apply log_due_snoc.
Qed.

Lemma complete_inv L t r e :
  forward e → run_inv L r (now_at e) → runs e (run_op (RecordComplete t)) r (inv_after L e).
Proof.
  intros Hf [Hall Hlog]. cbn [run_op]. apply runs_bind, runs_zoom, runs_on_quota; [done|].
  intros now e1 Hl1 Hn1 Hn0. assert (Htr := quota_tracks L _ _ _ _ t now (Hall t) Hn0).
  unfold Quota.record_complete. intros s' Hup. split; [exact Hl1|]. split; [done|]. split.
  - eapply tenant_ok_updated; [exact Hall|lia|exact Hup|apply quota_at_limits| |]; simpl.
    + rewrite times_snoc, running_snoc. simpl. rewrite decide_True, app_nil_r by done.
      eapply tracks_later; [exact Hn1|]. by apply tracks_complete.
    + intros t' Hne. rewrite times_snoc, running_snoc. simpl. by rewrite decide_False, app_nil_r by done.
  - by apply log_due_snoc.
Qed.

Lemma run_op_inv L op r e :
  forward e → run_inv L r (now_at e) → runs e (run_op op) r (inv_after L e).
Proof.
  intros Hf Hinv. destruct op as [t|t|t|l|t];
    [by apply check_inv|by apply record_inv|by apply complete_inv|..]; destruct Hinv as [Hall Hlog]; cbn [run_op].
  - apply runs_bind, runs_zoom. eapply runs_mono; [by apply runs_next|].
    intros res s' e' (Hl & [o ->] & Hall'). apply runs_ret. split; [done|]. by split.
  - apply runs_bind, runs_zoom. apply runs_get_quota; [|done]. intros now e' s' Hl _ Hn1 Hn0 Hup.
    apply runs_ret. split; [done|]. split; [done|]. split; [|done].
    eapply tenant_ok_updated; [exact Hall|lia|exact Hup|apply quota_at_limits| |done].
    eapply tracks_later; [exact Hn1|]. by eapply quota_tracks.
Qed.

Lemma run_ops_inv L ops r e :
  forward e → run_inv L r (now_at e) → runs e (foldM (λ _ op, run_op op) tt ops) r (inv_after L e).
Proof.
  revert r e. induction ops as [|op ops IH]; intros r e Hf Hinv; cbn [foldM].
  { by apply runs_ret. }
  apply runs_bind. eapply runs_mono; [by apply run_op_inv|]. intros res r' e' (Hl & -> & Hinv').
  eapply runs_mono; [apply IH; [by eapply later_forward|done]|].
  intros res r'' e'' (Hl' & ? & ?). split; [by etrans|done].
Qed.

(** Nothing submitted yet. *)
Definition fresh_scheduler (s : FairShareScheduler) (now : Z) : Prop :=
  ∀ t q, Dict.get t (_tenants s) = Some q →
    active_count q = 0%Z ∧ minute_count q = 0%Z ∧ (minute_window_start q ≤ now)%Z.

Lemma fresh_inv s now : fresh_scheduler s now → run_inv (limits_of s) (mkRun s ∅ []) now.
Proof.
  intros Hs. split; [|by intros t [] ? ? ?]. intros t. split; [done|]. simpl.
  destruct (Dict.get t (_tenants s)) as [q|] eqn:E; [|done].
  rewrite bool_decide_eq_false_2 by set_solver. by apply tracks_new; apply (Hs t q).
Qed.

(** C32: tenants are held to their quotas and to nothing less. Start with quotas
    that were not used yet, under a clock that does not run backwards, and let
    clients check, record the submissions that were allowed, report completions,
    choose the next tenant and look at quotas in any order; at most one answer
    per tenant is pending at a time. Then for every tenant, with its own limits
    or the defaults: at most [max_concurrent] of its jobs run; of the times at
    which its jobs were recorded any [2 * max_per_minute + 1] in a row span a
    minute (the minute is a fixed window, so one minute can see two windows'
    worth); and each time it was refused, [max_concurrent] jobs were running or
    its last [max_per_minute] submissions lay within the last minute. *)
Theorem fairshare_within_quota (ops : list fair_op) (s : FairShareScheduler) (e : env) :
  forward e → fresh_scheduler s (now_at e) →
  runs e (foldM (λ _ op, run_op op) tt ops) (mkRun s ∅ []) (λ r run' _, r = Ok tt ∧
    ∀ t, let log := fr_log run' in let '(c, m) := limits_of s t in
      (Z.of_nat (running t log) ≤ Z.max 0 c)%Z ∧ spaced m (times t log) ∧
      ∀ pre now post, log = pre ++ Refused t now :: post →
        refusal_due c m now (times t pre) (running t pre)).
Proof.
  intros Hf Hs. eapply runs_mono; [apply run_ops_inv; [done|by apply fresh_inv]|].
  intros r run' e' (_ & -> & Hall & Hlog). split; [done|]. intros t. specialize (Hlog t).
  destruct (Hall t) as [HL Ht]. rewrite <- HL in Hlog |- *. unfold limits_of in *.
  destruct (Dict.get t (_tenants (fr_scheduler run'))) as [q|]; simpl in *.
  - split_and!; [|apply (tr_spaced _ _ _ _ _ Ht)|exact Hlog].
    rewrite <- (tr_active _ _ _ _ _ Ht). apply (tr_room _ _ _ _ _ Ht).
  - destruct Ht as (_ & -> & ->). split_and!; [lia|by intros ? ? ? ?|exact Hlog].
Qed.

(** The check and the counters are separate calls, and no lock spans them: two
    clients that both check before either records take a tenant with room for one
    job past its limit. *)
Theorem fairshare_race (t : string) (s : FairShareScheduler) q :
  fair_ok s → Dict.get t (_tenants s) = Some q → active_count q = (max_concurrent q - 1)%Z → eligible q →
  wp (ok1 ← FairShare.can_submit t; ok2 ← FairShare.can_submit t;
      FairShare.record_submit t;; FairShare.record_submit t;; mret (ok1, ok2)) s (λ r s', r = Ok (true, true) ∧
    ∃ q', Dict.get t (_tenants s') = Some q' ∧ active_count q' = (max_concurrent q' + 1)%Z).
Proof.
  intros Hs E Hfull Hel. unfold FairShare.can_submit, FairShare.record_submit.
  assert (Hask : ∀ s0 q0 (Q : result bool → FairShareScheduler → Prop), quota_ok q0 → eligible q0 →
    Dict.get t (_tenants s0) = Some q0 →
    (∀ q1, same_quota q0 q1 → Q (Ok true) (put t q1 s0)) →
    wp (q ← FairShare.get_quota t; FairShare.on_stored t q Quota.can_submit) s0 Q).
  { intros s0 q0 Q Hq0 Hel0 E0 HQ. wp_steps. eapply wp_get_known; [exact E0|]. eapply wp_on_stored; [exact E0|].
    apply quota_can_submit. intros b q1 Hsame Hb. assert (b = true) as -> by (by eapply Hb, same_quota_eligible).
    by apply HQ. }
  assert (Hrec : ∀ s0 q0 (Q : result unit → FairShareScheduler → Prop),
    Dict.get t (_tenants s0) = Some q0 → Q (Ok tt) (put t (submitted q0) s0) →
    wp (q ← FairShare.get_quota t; FairShare.on_stored t q Quota.record_submit) s0 Q).
  { intros s0 q0 Q E0 HQ. wp_steps. eapply wp_get_known; [exact E0|]. eapply wp_on_stored; [exact E0|].
    unfold Quota.record_submit. by wp_steps. }
  pose proof (proj2 (proj2 Hs) t q E) as Hok.
  apply wp_bind, (Hask _ q); [done..|]. intros q1 H1. cbn beta iota.
  apply wp_bind, (Hask _ q1); [by eapply same_quota_ok|by eapply same_quota_eligible|by rewrite get_put, decide_True|].
  intros q2 H2. cbn beta iota. apply wp_bind, (Hrec _ q2); [by rewrite get_put, decide_True|]. cbn beta iota.
  apply wp_bind, (Hrec _ (submitted q2)); [by rewrite get_put, decide_True|]. cbn beta iota. wp_steps.
  split; [done|]. exists (submitted (submitted q2)). rewrite get_put, decide_True by done. split; [done|].
  unfold same_quota in *. simpl. intuition lia.
Qed.

(** Registering a tenant again replaces its counters with the new quota's, so the
    jobs that are running are forgotten. *)
Theorem register_tenant_forgets (quota : TenantQuota) (s : FairShareScheduler) :
  active_count quota = 0%Z →
  wp (FairShare.register_tenant quota) s (λ r s', r = Ok tt ∧
    ∃ q', Dict.get (quota_tenant quota) (_tenants s') = Some q' ∧ active_count q' = 0%Z).
Proof.
  intros H0. unfold FairShare.register_tenant. wp_steps. split; [done|]. exists quota.
  split; [exact (Dict.get_set_eq _ _ _)|done].
Qed.

(** The next tenant. A candidate the scheduler has never seen is chosen at
    once, the first of them. Otherwise the choice is a candidate with room for a
    job, now and in the current minute, whose ratio of active jobs to weight no
    other candidate with room undercuts, and nobody when none of them has a
    ratio below infinity. The counters of active jobs do not change. *)
Theorem next_eligible_tenant_exact (candidates : list string) (s : FairShareScheduler) :
  fair_ok s →
  wp (FairShare.next_eligible_tenant candidates) s (λ r s', ∃ o, r = Ok o ∧ fair_ok s' ∧ same_quotas s s' ∧
    match find_by (unknown s) candidates with
    | Some t => o = Some t
    | None => best_of candidates s' o
    end).
Proof. apply wp_next. Qed.

(** ** Witnesses *)

(** Two tenants with one active job each, the second with twice the weight. *)
Definition two_tenants : FairShareScheduler :=
  mkFairShare [("a", mkQuota "a" 2 10 (float_of_Z 1) 1 0 1); ("b", mkQuota "b" 2 10 (float_of_Z 2) 1 0 1)] 10 60.

Lemma two_tenants_ok : fair_ok two_tenants.
Proof.
  split; [done|]. split; [done|]. intros t q. simpl. repeat case_decide; try done; intros [= <-];
    unfold quota_ok; simpl; lia.
Qed.

(** One job at a time, two a minute: refused while a job runs, and again when two
    were submitted within the minute. *)
Definition one_tenant : FairShareScheduler :=
  mkFairShare [("a", mkQuota "a" 1 2 (float_of_Z 1) 0 0 0)] 10 60.

Definition one_tenant_ops : list fair_op :=
  [CanSubmit "a"; RecordSubmit "a"; CanSubmit "a"; RecordSubmit "a"; NextTenant ["a"; "b"]; RecordComplete "a";
   CanSubmit "a"; RecordSubmit "a"; RecordComplete "a"; CanSubmit "a"; Look "c"].

Lemma fairshare_within_quota_witness :
  let m := foldM (λ _ op, run_op op) tt one_tenant_ops in
  forward env0 ∧ fresh_scheduler one_tenant (now_at env0) ∧
  runs env0 m (mkRun one_tenant ∅ []) (λ r run' _, r = Ok tt ∧
    ∀ t, let log := fr_log run' in let '(c, m) := limits_of one_tenant t in
      (Z.of_nat (running t log) ≤ Z.max 0 c)%Z ∧ spaced m (times t log) ∧
      ∀ pre now post, log = pre ++ Refused t now :: post →
        refusal_due c m now (times t pre) (running t pre)) ∧
  fr_log (after m (mkRun one_tenant ∅ [])) =
    [Submitted "a" 2; Refused "a" 3; Completed "a"; Submitted "a" 6; Completed "a"; Refused "a" 7].
Proof.
  intros m.
  assert (Hf : forward env0) by (intros i k Hik; unfold env0, clock_of, in_range; simpl; lia).
  assert (Hs : fresh_scheduler one_tenant (now_at env0))
    by (intros t q; simpl; case_decide; [by intros [= <-]|done]).
  split; [exact Hf|]. split; [exact Hs|]. split; [|vm_compute; reflexivity].
  exact (fairshare_within_quota one_tenant_ops one_tenant env0 Hf Hs).
Defined.

Lemma fairshare_race_witness :
  wp (ok1 ← FairShare.can_submit "a"; ok2 ← FairShare.can_submit "a";
      FairShare.record_submit "a";; FairShare.record_submit "a";; mret (ok1, ok2)) two_tenants (λ r s',
    r = Ok (true, true) ∧
    ∃ q', Dict.get "a" (_tenants s') = Some q' ∧ active_count q' = (max_concurrent q' + 1)%Z).
Proof.
  apply (fairshare_race "a" two_tenants (mkQuota "a" 2 10 (float_of_Z 1) 1 0 1) two_tenants_ok eq_refl eq_refl).
  split; simpl; lia.
Defined.

Lemma next_eligible_tenant_exact_witness :
  wp (FairShare.next_eligible_tenant ["a"; "b"]) two_tenants (λ r s', ∃ o, r = Ok o ∧ fair_ok s' ∧
    same_quotas two_tenants s' ∧
    match find_by (unknown two_tenants) ["a"; "b"] with
    | Some t => o = Some t
    | None => best_of ["a"; "b"] s' o
    end) ∧
  answer (FairShare.next_eligible_tenant ["a"; "b"]) two_tenants = Ok (Some "b").
Proof. split; [exact (next_eligible_tenant_exact _ two_tenants two_tenants_ok)|by vm_compute]. Defined.
