(* ===== verification/Callbacks.v ===== *)
(** * Callbacks

    [callbacks/manager.py]: webhook registrations kept in memory and in the
    [job_callbacks] table, and delivery with bounded retries. The endpoint is the
    stream of answers to the requests sent to it, a status code or an exception;
    requests and sleeps are recorded. The table is the interface [CallbackTable]
    with the laws [CallbackLaws]; [x ** n] on floats is a parameter, the C
    library's [pow]. *)

From Stdlib Require Import SpecFloat.
From S2P Require Import Prelude PyValue Json Isotime Meta PyFloat Security.

(** ** Registrations *)

Record RetryPolicy : Type := mkPolicy {
  max_attempts : Z;
  base_delay_seconds : float;
  max_delay_seconds : float;
  backoff_multiplier : float;
}.

(** [RetryPolicy()] *)
Definition default_policy : RetryPolicy := mkPolicy 3 (decimal false 1 (-1)) (float_of_Z 2) (float_of_Z 2).

Record CallbackRegistration : Type := mkCallback {
  url : string;
  method : string;
  headers : dict string;
  retry_policy : RetryPolicy;
  attempt_count : Z;
  last_error : option string;
}.

#[export] Instance CallbackRegistration_eta : Eta CallbackRegistration := λ c,
  mkCallback (url c) (method c) (headers c) (retry_policy c) (attempt_count c) (last_error c).

(** The argument [retry_policy]: nothing, a policy, or a dictionary. *)
Inductive policy_arg : Type :=
  | NoPolicy
  | Policy (p : RetryPolicy)
  | PolicyDict (d : dict any).

Definition _normalise_retry_policy (a : policy_arg) : result RetryPolicy :=
  match a with
  | NoPolicy => Ok default_policy
  | Policy p => Ok p
  | PolicyDict d =>
    n ← py_int (Dict.get_default "max_attempts" (AVal (PInt 3)) d);
    base ← py_float (Dict.get_default "base_delay_seconds" (AFloat (base_delay_seconds default_policy)) d);
    top ← py_float (Dict.get_default "max_delay_seconds" (AFloat (max_delay_seconds default_policy)) d);
    mult ← py_float (Dict.get_default "backoff_multiplier" (AFloat (backoff_multiplier default_policy)) d);
    Ok (mkPolicy n base top mult)
  end.

(** ** The table *)

(** A JSON column: decoded by the driver, or its text. *)
Inductive json_column (A : Type) : Type :=
  | Decoded (a : A)
  | AsText (s : string).
Arguments Decoded {A} a.
Arguments AsText {A} s.

Record callback_row : Type := mkCallbackRow {
  row_job_id : string;
  row_url : string;
  row_method : string;
  row_headers : json_column (dict pyval);
  row_policy : json_column (dict any);
  row_attempts : Z;
  row_error : option string;
  row_created : Z;
  row_updated : Z;
}.

#[export] Instance callback_row_eta : Eta callback_row := λ r, mkCallbackRow (row_job_id r) (row_url r)
  (row_method r) (row_headers r) (row_policy r) (row_attempts r) (row_error r) (row_created r) (row_updated r).

(** The statements; the rows by their primary key. *)
Class CallbackTable (T : Type) := {
  select_callbacks : M T (list callback_row);
  select_callback : string → M T (option callback_row);
  insert_callback : callback_row → M T unit;
  update_callback : string → (callback_row → callback_row) → M T unit;
  delete_callback : string → M T unit;
}.

(** The two times as the database keeps them. *)
Definition kept_callback (time : Z → Z) (row : callback_row) : callback_row :=
  row <| row_created := time (row_created row) |> <| row_updated := time (row_updated row) |>.

Class CallbackLaws (T : Type) `{CallbackTable T} := {
  callback_rows : T → gmap string callback_row;
  callback_time : Z → Z;
  select_callbacks_ok t :
    wp select_callbacks t (λ r t', t' = t ∧ ∃ l, r = Ok l ∧ l ≡ₚ (map_to_list (callback_rows t)).*2);
  select_callback_ok t id :
    wp (select_callback id) t (λ r t', t' = t ∧ r = Ok (callback_rows t !! id));
  insert_callback_ok t row : callback_rows t !! row_job_id row = None →
    wp (insert_callback row) t (λ r t', r = Ok tt ∧
      callback_rows t' = <[row_job_id row := kept_callback callback_time row]> (callback_rows t));
  update_callback_ok t id f : (∀ row, row_job_id (f row) = row_job_id row) →
    wp (update_callback id f) t (λ r t', r = Ok tt ∧
      callback_rows t' = alter (λ row, kept_callback callback_time (f row)) id (callback_rows t));
  delete_callback_ok t id :
    wp (delete_callback id) t (λ r t', r = Ok tt ∧ callback_rows t' = delete id (callback_rows t));
}.

(** ** [CallbackManager] *)

(** A request sent to an endpoint. *)
Record delivery : Type := mkDelivery {
  sent_method : string;
  sent_url : string;
  sent_json : dict pyval;
  sent_headers : dict string;
}.

Record CallbackManager (T : Type) : Type := mkManager {
  _registry : dict CallbackRegistration;
  _engine : option T;
  outbox : list delivery;
  slept : list float;
}.
Arguments mkManager {T}.
Arguments _registry {T}.
Arguments _engine {T}.
Arguments outbox {T}.
Arguments slept {T}.

Section manager.
Context {T : Type} `{CallbackTable T}.
Context (responses : nat → result Z) (float_pow : float → Z → result float).
Abbreviation self := (CallbackManager T).

Definition set_registry (d : dict CallbackRegistration) (m : self) : self :=
  mkManager d (_engine m) (outbox m) (slept m).

(** The registration object, mutated. *)
Definition on_callback (job_id : string) (f : CallbackRegistration → CallbackRegistration) : M self unit :=
  modify (λ m, set_registry (Dict.update job_id f (_registry m)) m).

(** [if self._engine is None: return], else a transaction. *)
Definition with_engine (m : M T unit) : M self unit :=
  _ ← zoom_opt _engine (λ t m, mkManager (_registry m) (Some t) (outbox m) (slept m)) m; mret tt.

Definition _delay_for_attempt (policy : RetryPolicy) (attempt : Z) : result float :=
  p ← float_pow (backoff_multiplier policy) (Z.max 0 (attempt - 1));
  Ok (float_min (max_delay_seconds policy) (float_mul (base_delay_seconds policy) p)).

(** [dict(row.get(column) or {})], decoded when it is text. *)
Definition column_dict {A} (of_json : pyval → A) (c : json_column (dict A)) : result (dict A) :=
  match c with
  | Decoded d => Ok d
  | AsText s =>
    if truthy_str s then
      v ← json_loads s;
      match v with PDict d => Ok (prod_map id of_json <$> d) | _ => Err type_error end
    else Ok []
  end.

(** [{str(k): str(v) for k, v in dict(headers).items()}] *)
Definition text_headers (d : dict pyval) : dict string :=
  foldl (λ d kv, Dict.set kv.1 (py_str kv.2) d) [] d.

Definition registration_of_row (row : callback_row) : result CallbackRegistration :=
  retry_payload ← column_dict AVal (row_policy row);
  hdrs ← column_dict id (row_headers row);
  policy ← _normalise_retry_policy (PolicyDict retry_payload);
  Ok (mkCallback (row_url row) (row_method row) (text_headers hdrs) policy (row_attempts row) (row_error row)).

Definition _load_persisted : M self unit :=
  rows ← zoom_opt _engine (λ t m, mkManager (_registry m) (Some t) (outbox m) (slept m)) select_callbacks;
  match rows with
  | None => mret tt
  | Some rows =>
    foldM (λ _ row,
      reg ← lift (registration_of_row row);
      modify (λ m, set_registry (Dict.set (row_job_id row) reg (_registry m)) m)) tt rows
  end.

(** The row of a registration. *)
Definition row_of (job_id : string) (reg : CallbackRegistration) (created now : Z) : callback_row :=
  mkCallbackRow job_id (url reg) (method reg) (Decoded (prod_map id PStr <$> headers reg))
    (Decoded [("max_attempts", AVal (PInt (max_attempts (retry_policy reg))));
              ("base_delay_seconds", AFloat (base_delay_seconds (retry_policy reg)));
              ("max_delay_seconds", AFloat (max_delay_seconds (retry_policy reg)));
              ("backoff_multiplier", AFloat (backoff_multiplier (retry_policy reg)))])
    (attempt_count reg) (last_error reg) created now.

Definition _persist (job_id : string) (reg : CallbackRegistration) : M self unit :=
  with_engine (
    now ← utcnow;
    existing ← select_callback job_id;
    match existing with
    | None => insert_callback (row_of job_id reg now now)
    | Some _ => update_callback job_id (λ row, row_of (row_job_id row) reg (row_created row) now)
    end).

(** Called with the registration object, which is the one in the registry. *)
Definition _persist_attempt (job_id : string) : M self unit :=
  m ← get_state;
  match Dict.get job_id (_registry m) with
  | None => mret tt
  | Some cb => with_engine (
      now ← utcnow;
      update_callback job_id (λ row,
        row <| row_attempts := attempt_count cb |> <| row_error := last_error cb |> <| row_updated := now |>))
  end.

Definition store (job_id : string) (reg : CallbackRegistration) : M self unit :=
  modify (λ m, set_registry (Dict.set job_id reg (_registry m)) m);; _persist job_id reg.

Definition register_callback (job_id callback_url : string) (hdrs : option (dict string)) (policy : policy_arg)
    : M self unit :=
  validate_callback_url callback_url;;
  p ← lift (_normalise_retry_policy policy);
  store job_id (mkCallback callback_url "POST" (default [] hdrs) p 0 None).

Definition register (job_id u meth : string) (hdrs : option (dict string)) : M self unit :=
  validate_callback_url u;;
  store job_id (mkCallback u meth (default [] hdrs) default_policy 0 None).

Definition unregister (job_id : string) : M self bool :=
  m ← get_state;
  let removed := bool_decide (is_Some (Dict.get job_id (_registry m))) in
  modify (λ m, set_registry (Dict.pop job_id (_registry m)) m);;
  with_engine (delete_callback job_id);;
  mret removed.

(** [requester(cb.method, cb.url, json=payload, headers=cb.headers, timeout=5.0)]
    and [int(response.status_code)] *)
Definition request (cb : CallbackRegistration) (payload : dict pyval) : M self Z :=
  m ← get_state;
  modify (λ m, mkManager (_registry m) (_engine m)
    (outbox m ++ [mkDelivery (method cb) (url cb) payload (headers cb)]) (slept m));;
  lift (responses (length (outbox m))).

(** [time.sleep(seconds)]: the time must be a number, not negative, and fit the
    64 bits of nanoseconds of the clock. *)
Definition sleep_limit : float := decimal false 9223372036854775807 (-9).

Definition sleep (seconds : float) : M self unit :=
  if negb (SFeqb seconds seconds) then raise (ValueError "Invalid value NaN (not a number)")
  else if SFltb sleep_limit seconds then raise (UserError "OverflowError" "timestamp too large to convert to C PyTime_t")
  else if SFltb seconds (S754_zero false) then raise (ValueError "sleep length must be non-negative")
  else modify (λ m, mkManager (_registry m) (_engine m) (outbox m) (slept m ++ [seconds])).

Definition is_success (status : Z) : bool := (200 <=? status)%Z && (status <? 300)%Z.

(** Lines 225-235: count the attempt, send the request, note the outcome. *)
Definition attempt_once (job_id : string) (payload : dict pyval) : M self bool :=
  on_callback job_id (λ cb, cb <| attempt_count := (attempt_count cb + 1)%Z |>);;
  m ← get_state;
  match Dict.get job_id (_registry m) with
  | None => mret false
  | Some cb =>
    try_except
      (status ← request cb payload;
       if is_success status then
         on_callback job_id (λ cb, cb <| last_error := None |>);;
         _persist_attempt job_id;;
         mret true
       else
         on_callback job_id (λ cb, cb <| last_error := Some ("HTTP " +:+ pretty status) |>);;
         mret false)
      (λ x, on_callback job_id (λ cb, cb <| last_error := Some (exn_str x) |>);; mret false)
  end.

(** The [for] loop of [_deliver], over the attempts that are left. *)
Fixpoint deliver_loop (job_id : string) (payload : dict pyval) (policy : RetryPolicy) (attempts : list Z)
    : M self bool :=
  match attempts with
  | [] => mret false
  | attempt :: attempts =>
    done ← attempt_once job_id payload;
    if (done : bool) then mret true
    else
      _persist_attempt job_id;;
      (if (attempt <? max_attempts policy)%Z
       then delay ← lift (_delay_for_attempt policy attempt); sleep delay
       else mret tt);;
      deliver_loop job_id payload policy attempts
  end.

(** [range(1, n + 1)] *)
Definition attempts_up_to (n : Z) : list Z := (λ k, Z.of_nat k + 1)%Z <$> seq 0 (Z.to_nat n).

Definition _deliver (job_id : string) (payload : dict pyval) (policy : RetryPolicy) : M self bool :=
  deliver_loop job_id payload policy (attempts_up_to (Z.max 1 (max_attempts policy))).

Definition trigger (job_id : string) (payload : dict pyval) (retries : Z) : M self bool :=
  m ← get_state;
  match Dict.get job_id (_registry m) with
  | None => mret false
  | Some cb =>
    let p := retry_policy cb in
    _deliver job_id payload
      (mkPolicy (Z.max 1 (retries + 1)) (base_delay_seconds p) (max_delay_seconds p) (backoff_multiplier p))
  end.

Definition completion_payload (job_id status : string) (result_summary : option (dict pyval)) (duration_ms : Z)
    : dict pyval :=
  [("job_id", PStr job_id); ("status", PStr status);
   ("result_summary", PDict (default [] result_summary)); ("duration_ms", PInt duration_ms)].

Definition trigger_job_completion (job_id status : string) (result_summary : option (dict pyval))
    (duration_ms : Z) : M self bool :=
  m ← get_state;
  match Dict.get job_id (_registry m) with
  | None => mret false
  | Some cb => _deliver job_id (completion_payload job_id status result_summary duration_ms) (retry_policy cb)
  end.
End manager.
