(* ===== verification/CallbackTheorems.v ===== *)
(** * Callback delivery and persistence: theorems

    The table mirrors the registry of [CallbackManager] between requests
    ([mirrors]); the delivery loop sends, sleeps and counts as its policy says;
    a manager started over the table another one left has its registrations. *)

From Stdlib Require Import SpecFloat.
From S2P Require Import Prelude PyValue Json Isotime Meta PyFloat Security Callbacks.

(** ** The registry and its table *)

(** A row reads back as a registration, which reaches the same endpoint under the
    same policy; [exactly] when the counters agree too. *)
Definition row_reads (exactly : bool) (id : string) (cb : CallbackRegistration) (row : callback_row) : Prop :=
  row_job_id row = id ∧ ∃ cb', registration_of_row row = Ok cb' ∧
    url cb' = url cb ∧ method cb' = method cb ∧ headers cb' = headers cb ∧ retry_policy cb' = retry_policy cb ∧
    (exactly = true → cb' = cb).

(** The table, when there is one, mirrors the registry; the counters of [except]
    may be ahead of it. *)
Definition mirrors {T} `{CallbackLaws T} (except : option string) (m : CallbackManager T) : Prop :=
  match _engine m with
  | None => True
  | Some t => ∀ id,
    match Dict.get id (_registry m), callback_rows t !! id with
    | Some cb, Some row => row_reads (bool_decide (except ≠ Some id)) id cb row
    | None, None => True
    | _, _ => False
    end
  end.

(** Header names are unique, as in any dictionary. *)
Definition registry_ok {T} (m : CallbackManager T) : Prop :=
  Dict.wf (_registry m) ∧ ∀ id cb, Dict.get id (_registry m) = Some cb → Dict.wf (headers cb).

Lemma text_headers_map (h : dict string) : Dict.wf h → text_headers (prod_map id PStr <$> h) = h.
Proof.
  intros Hwf. unfold text_headers.
  assert (Hgo : ∀ acc, foldl (λ d kv, Dict.set kv.1 (py_str kv.2) d) acc (prod_map id PStr <$> h) =
                       foldl (λ d kv, Dict.set kv.1 kv.2 d) acc h).
  { clear. induction h as [|[k v] h IH]; intros acc; [done|]. apply IH. }
  rewrite Hgo. by apply dict_of_items.
Qed.

Lemma registration_of_row_of id reg created now :
  Dict.wf (headers reg) → registration_of_row (row_of id reg created now) = Ok reg.
Proof.
  intros Hwf. unfold registration_of_row, row_of. cbn [row_policy row_headers column_dict mbind result_bind].
  cbn. rewrite text_headers_map by done. by destruct reg as [? ? ? [] ? ?].
Qed.

Lemma row_reads_of id reg created now exactly :
  Dict.wf (headers reg) → row_reads exactly id reg (row_of id reg created now).
Proof. intros Hwf. split; [done|]. exists reg. rewrite registration_of_row_of by done. tauto. Qed.

Lemma row_reads_attempt jid cb row now :
  row_reads false jid cb row →
  row_reads true jid cb (row <| row_attempts := attempt_count cb |> <| row_error := last_error cb |> <| row_updated := now |>).
Proof.
  destruct row as [rid ru rm rh rp ra re rc rn]. intros (Hid & cb' & Hr & Hu & Hm & Hh & Hp & _).
  split; [exact Hid|]. exists cb. split; [|by split_and!].
  unfold registration_of_row in *. cbn [row_policy row_headers row_url row_method row_attempts row_error set_field] in *.
  destruct (column_dict AVal rp); [|done]. cbn [mbind result_bind] in *.
  destruct (column_dict id rh); [|done]. cbn [mbind result_bind] in *.
  destruct (_normalise_retry_policy _); [|done]. cbn [mbind result_bind] in *.
  injection Hr as <-. destruct cb. simpl in *. by subst.
Qed.

(** The times of a row are not read. *)
Lemma row_reads_kept exactly id cb row time :
  row_reads exactly id cb row → row_reads exactly id cb (kept_callback time row).
Proof. intros H. exact H. Qed.

Section mirror.
Context {T : Type} `{CallbackLaws T}.
Implicit Types (m : CallbackManager T).

(** What a method leaves alone. *)
Definition same_wire m m' : Prop := outbox m' = outbox m ∧ slept m' = slept m.

(** One statement that sets the row of one registration. *)
Lemma mirrors_set ex jid reg m t (t' : T) row d' :
  _engine m = Some t → mirrors ex m → ex = None ∨ ex = Some jid →
  callback_rows t' = <[jid := row]> (callback_rows t) → row_reads true jid reg row →
  (∀ k, Dict.get k d' = if decide (jid = k) then Some reg else Dict.get k (_registry m)) →
  mirrors None (mkManager d' (Some t') (outbox m) (slept m)).
Proof.
  intros Ht Hm Hex Ht' Hrow Hd k. simpl. rewrite Hd, Ht', lookup_insert. unfold mirrors in Hm. rewrite Ht in Hm.
  destruct (decide (jid = k)) as [->|Hne]; cbn beta iota; [done|].
  specialize (Hm k). destruct (Dict.get k (_registry m)), (callback_rows t !! k); try done.
  rewrite bool_decide_eq_true_2 in Hm; [done|].
  destruct Hex as [->| ->]; congruence.
Qed.

(** A registration stored in the registry and in the table. *)
Lemma wp_store jid reg m (Q : result unit → CallbackManager T → Prop) :
  mirrors None m → Dict.wf (headers reg) →
  (∀ m', _registry m' = Dict.set jid reg (_registry m) → same_wire m m' → mirrors None m' → Q (Ok tt) m') →
  wp (store jid reg) m Q.
Proof.
  intros Hm Hh HQ. unfold store, _persist, with_engine. wp_steps. apply wp_zoom_opt. cbn [set_registry _engine].
  destruct (_engine m) as [t|] eqn:E; [|wp_steps; apply HQ; [done|done|]; by unfold mirrors; simpl; rewrite E].
  wp_steps. eapply wp_mono; [apply select_callback_ok|]. intros r t' (-> & ->).
  assert (Hdone : ∀ t1 row, callback_rows t1 = <[jid := row]> (callback_rows t) → row_reads true jid reg row →
    Q (Ok tt) (mkManager (Dict.set jid reg (_registry m)) (Some t1) (outbox m) (slept m))).
  { intros t1 row Ht1 Hrow. apply HQ; [done|done|]. eapply mirrors_set; [exact E|exact Hm|by left|exact Ht1|exact Hrow|].
    intros k. apply Dict.get_set. }
  destruct (callback_rows t !! jid) as [row|] eqn:Er; cbn beta iota.
  - eapply wp_mono; [by apply update_callback_ok|]. intros r t1 (-> & Ht1). wp_steps.
    unfold mirrors in Hm. rewrite E in Hm. specialize (Hm jid). rewrite Er in Hm.
    destruct (Dict.get jid (_registry m)); [|done]. destruct Hm as [Hid _].
    apply (Hdone t1 (kept_callback callback_time (row_of jid reg (row_created row) t0)));
      [|by apply row_reads_kept, row_reads_of].
    rewrite Ht1. apply map_eq. intros k. rewrite lookup_alter, lookup_insert. case_decide as Hk; [|done].
    subst k. rewrite Er. simpl. by rewrite Hid.
  - eapply wp_mono; [by apply insert_callback_ok|]. intros r t1 (-> & Ht1). wp_steps.
    eapply Hdone; [exact Ht1|by apply row_reads_kept, row_reads_of].
Qed.

(** The counters of a registration, written to its row. *)
Lemma wp_persist_attempt jid cb m (Q : result unit → CallbackManager T → Prop) :
  mirrors (Some jid) m → Dict.get jid (_registry m) = Some cb →
  (∀ m', _registry m' = _registry m → same_wire m m' → mirrors None m' → Q (Ok tt) m') →
  wp (_persist_attempt jid) m Q.
Proof.
  intros Hm Hcb HQ. unfold _persist_attempt, with_engine. wp_steps. rewrite Hcb. wp_steps. apply wp_zoom_opt.
  destruct (_engine m) as [t|] eqn:E; [|wp_steps; apply HQ; [done|done|]; by unfold mirrors; rewrite E].
  wp_steps. eapply wp_mono; [by apply update_callback_ok|]. intros r t1 (-> & Ht1). wp_steps.
  apply HQ; [done|done|]. pose proof Hm as Hm'. unfold mirrors in Hm'. rewrite E in Hm'. specialize (Hm' jid).
  rewrite Hcb in Hm'. destruct (callback_rows t !! jid) as [row|] eqn:Er; [|done].
  rewrite bool_decide_eq_false_2 in Hm' by (intros Hn; by apply Hn).
  pose proof (row_reads_kept _ _ _ _ callback_time (row_reads_attempt jid cb row t0 Hm')) as Hread.
  eapply (mirrors_set _ jid cb m t t1 _ _ E Hm); [by right| |exact Hread|].
  - rewrite Ht1. apply map_eq. intros k. rewrite lookup_alter, lookup_insert. case_decide as Hk; [|done].
    subst k. by rewrite Er.
  - intros k. by case_decide; subst.
Qed.

(** Changing the counters in memory only. *)
Lemma mirrors_change ex jid cb f m :
  mirrors ex m → ex = None ∨ ex = Some jid → Dict.get jid (_registry m) = Some cb →
  url (f cb) = url cb → method (f cb) = method cb → headers (f cb) = headers cb →
  retry_policy (f cb) = retry_policy cb →
  mirrors (Some jid) (set_registry (Dict.update jid f (_registry m)) m).
Proof.
  intros Hm Hex Hcb Hu Hme Hh Hp. unfold mirrors in *. simpl. destruct (_engine m) as [t|]; [|done].
  intros k. specialize (Hm k). rewrite Dict.get_update. destruct (decide (jid = k)) as [->|Hne].
  - rewrite Hcb in *. simpl. destruct (callback_rows t !! k) as [row|]; [|done].
    rewrite bool_decide_eq_false_2 by (intros Hn; by apply Hn). destruct Hm as (Hid & cb' & Hr & H1 & H2 & H3 & H4 & _).
    split; [done|]. exists cb'. split_and!; congruence.
  - destruct (Dict.get k (_registry m)), (callback_rows t !! k); try done.
    rewrite bool_decide_eq_true_2 by congruence. rewrite bool_decide_eq_true_2 in Hm; [done|].
    destruct Hex as [->| ->]; congruence.
Qed.
End mirror.

(** ** Delivery *)

(** A status of success. *)
Definition accepted (r : result Z) : Prop := ∃ c, r = Ok c ∧ (200 ≤ c < 300)%Z.

#[export] Instance accepted_dec r : Decision (accepted r).
Proof.
  destruct r as [c|x]; [|right; by intros (? & ? & _)].
  destruct (decide (200 ≤ c < 300)%Z); [left; by exists c|right]. by intros (? & [= <-] & ?).
Defined.

(** The policy's delays can be computed and slept for: [pow] does not overflow and
    the delay is a number, not negative, that the clock can count. *)
Definition sleepable (d : float) : Prop :=
  SFltb d (S754_zero false) = false ∧ SFeqb d d = true ∧ SFltb sleep_limit d = false.

Definition sane_policy (float_pow : float → Z → result float) (p : RetryPolicy) : Prop :=
  ∀ a, (1 ≤ a < max_attempts p)%Z → ∃ d, _delay_for_attempt float_pow p a = Ok d ∧ sleepable d.

(** What a request to the endpoint of a registration is. *)
Definition delivery_of (cb : CallbackRegistration) (payload : dict pyval) : delivery :=
  mkDelivery (method cb) (url cb) payload (headers cb).

Section delivery.
Context {T : Type} `{CallbackLaws T}.
Context (responses : nat → result Z) (float_pow : float → Z → result float).
Context (jid : string) (payload : dict pyval) (policy : RetryPolicy).
Context (Hsane : sane_policy float_pow policy).
Implicit Types (m : CallbackManager T).

Lemma delay_bounded a d : _delay_for_attempt float_pow policy a = Ok d →
  SFltb (max_delay_seconds policy) d = false.
Proof using Type.
  unfold _delay_for_attempt. destruct (float_pow _ _); [|done]. intros [= <-]. apply float_min_le.
Qed.

(** After [k] requests: what was sent and slept, and the registration. *)
Record delivered (m : CallbackManager T) (cb : CallbackRegistration) (k : nat) (ok : bool)
    (m' : CallbackManager T) : Prop := {
  dl_sent : outbox m' = outbox m ++ replicate k (delivery_of cb payload);
  dl_slept : ∃ ds, slept m' = slept m ++ ds ∧ length ds = pred k ∧
    Forall (λ d, SFltb (max_delay_seconds policy) d = false) ds;
  dl_callback : ∃ cb', Dict.get jid (_registry m') = Some cb' ∧
    attempt_count cb' = (attempt_count cb + Z.of_nat k)%Z ∧
    delivery_of cb' payload = delivery_of cb payload ∧ retry_policy cb' = retry_policy cb ∧
    (k = 0 → cb' = cb) ∧ (0 < k → (last_error cb' = None ↔ ok = true));
  dl_others id : id ≠ jid → Dict.get id (_registry m') = Dict.get id (_registry m);
  dl_mirrors : mirrors None m';
}.

(** The end of the loop. *)
Lemma delivered_none m cb : Dict.get jid (_registry m) = Some cb → mirrors None m →
  delivered m cb 0 false m.
Proof using Type.
  intros Hcb Hm. split; [by rewrite app_nil_r|exists []; by rewrite app_nil_r| |done|done].
  exists cb. split; [done|]. split; [lia|]. split_and!; [done..|lia].
Qed.

(** The first attempt failed, the rest went on. *)
Lemma delivered_more m cb m1 cb1 k ok m' ds :
  outbox m1 = outbox m ++ [delivery_of cb payload] → slept m1 = slept m ++ ds →
  length ds = (if decide (k = 0) then 0 else 1) →
  Forall (λ d, SFltb (max_delay_seconds policy) d = false) ds →
  Dict.get jid (_registry m1) = Some cb1 → attempt_count cb1 = (attempt_count cb + 1)%Z →
  delivery_of cb1 payload = delivery_of cb payload → retry_policy cb1 = retry_policy cb →
  last_error cb1 ≠ None → (k = 0 → ok = false) →
  (∀ id, id ≠ jid → Dict.get id (_registry m1) = Dict.get id (_registry m)) →
  delivered m1 cb1 k ok m' → delivered m cb (S k) ok m'.
Proof using Type.
  intros Ho Hs Hd Hall Hcb1 Hc Hdl Hp Herr Hk0 Hoth [Hsent Hslept Hcallback Hoth' Hm'].
  destruct Hslept as (ds' & Hs' & Hlen & Hall'), Hcallback as (cb' & Hcb' & Hc' & Hdl' & Hp' & Hz' & He').
  split.
  - rewrite Hsent, Ho, <- app_assoc. do 2 f_equal. simpl. by rewrite Hdl.
  - exists (ds ++ ds'). rewrite Hs', Hs, app_assoc. split; [done|]. split; [|by apply Forall_app].
    rewrite length_app, Hd, Hlen. destruct k; [by rewrite decide_True|]. rewrite decide_False by done. simpl. lia.
  - exists cb'. split; [done|]. split; [lia|]. split; [congruence|]. split; [congruence|]. split; [done|]. intros _.
    destruct k as [|k]; [|apply He'; lia]. rewrite Hk0, Hz' by done. by split.
  - intros id Hid. rewrite Hoth', Hoth by done. done.
  - done.
Qed.

Lemma mirrors_wire ex m m' : mirrors ex m → _registry m' = _registry m → _engine m' = _engine m → mirrors ex m'.
Proof using Type. unfold mirrors. by intros Hm -> ->. Qed.

Lemma is_success_spec c : is_success c = bool_decide (accepted (Ok c)).
Proof using Type.
  unfold is_success. destruct (bool_decide_reflect (accepted (Ok c))) as [(c' & [= <-] & ?)|Hn].
  - apply andb_true_iff. rewrite Z.leb_le, Z.ltb_lt. lia.
  - apply andb_false_iff. rewrite Z.leb_gt, Z.ltb_ge. destruct (decide (200 ≤ c < 300)%Z); [|lia].
    destruct Hn. by exists c.
Qed.

(** What an attempt leaves: the request was sent, the registration counts it. *)
Record attempted (m : CallbackManager T) (cb : CallbackRegistration) (ok : bool) (ex : option string)
    (m' : CallbackManager T) : Prop := {
  at_sent : outbox m' = outbox m ++ [delivery_of cb payload];
  at_slept : slept m' = slept m;
  at_callback : ∃ cb', Dict.get jid (_registry m') = Some cb' ∧ attempt_count cb' = (attempt_count cb + 1)%Z ∧
    delivery_of cb' payload = delivery_of cb payload ∧ retry_policy cb' = retry_policy cb ∧
    (last_error cb' = None ↔ ok = true);
  at_others id : id ≠ jid → Dict.get id (_registry m') = Dict.get id (_registry m);
  at_mirrors : mirrors ex m';
}.

(** The outcome noted in the registration, on top of the counter. *)
Lemma attempted_noted m cb ok e m' :
  Dict.get jid (_registry m) = Some cb → mirrors None m →
  outbox m' = outbox m ++ [delivery_of cb payload] → slept m' = slept m → _engine m' = _engine m →
  _registry m' = Dict.update jid (λ cb, cb <| last_error := e |>)
    (Dict.update jid (λ cb, cb <| attempt_count := (attempt_count cb + 1)%Z |>) (_registry m)) →
  (e = None ↔ ok = true) → attempted m cb ok (Some jid) m'.
Proof using Type.
  intros Hcb Hm Ho Hs He Hr Hok. split; [done|done| | |].
  - rewrite Hr, !Dict.get_update, !decide_True, Hcb by done. eexists. split; [done|]. simpl. by split_and!.
  - intros id Hid. rewrite Hr, !Dict.get_update, !decide_False by done. done.
  - eapply (mirrors_wire _ (set_registry (_registry m') m)); [|done|done]. rewrite Hr.
    set (d := Dict.update jid _ (_registry m)).
    eapply (mirrors_change (Some jid) jid _ _ (set_registry d m)); [|by right| |done..].
    + unfold d. eapply mirrors_change; [exact Hm|by left|exact Hcb|done..].
    + unfold d. cbn [set_registry _registry]. by rewrite Dict.get_update, decide_True, Hcb by done.
Qed.

Lemma attempted_persisted m cb ok m' m'' :
  attempted m cb ok (Some jid) m' → _registry m'' = _registry m' → same_wire m' m'' → mirrors None m'' →
  attempted m cb ok None m''.
Proof using Type.
  intros [Ho Hs Hcb' Hoth _] Hr [Ho' Hs'] Hm. split; [congruence|congruence|by rewrite Hr|by rewrite Hr|done].
Qed.

Lemma wp_attempt m cb (Q : result bool → CallbackManager T → Prop) :
  Dict.get jid (_registry m) = Some cb → mirrors None m →
  (∀ m' ok, ok = bool_decide (accepted (responses (length (outbox m)))) →
     attempted m cb ok (if ok then None else Some jid) m' → Q (Ok ok) m') →
  wp (attempt_once responses jid payload) m Q.
Proof using Type.
  intros Hcb Hm HQ. unfold attempt_once, on_callback, request. wp_steps. cbn [set_registry _registry].
  rewrite Dict.get_update, decide_True, Hcb by done. cbn [fmap option_fmap option_map]. wp_steps.
  apply wp_lift. cbn [set_registry outbox _registry _engine slept].
  destruct (responses (length (outbox m))) as [c|x] eqn:E.
  - rewrite is_success_spec. destruct (bool_decide_reflect (accepted (Ok c))) as [Hc|Hc]; wp_steps.
    + match goal with |- wp _ ?m1 _ =>
        assert (Hat : attempted m cb true (Some jid) m1) by (by eapply attempted_noted) end.
      destruct (at_callback _ _ _ _ _ Hat) as (cb' & Hcb' & _).
      eapply wp_persist_attempt; [apply Hat|exact Hcb'|]. intros m' Hr Hw Hm'. wp_steps.
      apply HQ; [done|]. by eapply attempted_persisted.
    + apply HQ; [done|]. by eapply attempted_noted.
  - wp_steps. apply HQ; [done|].
    by eapply attempted_noted.
Qed.

(** What the rest of the loop saw, after a first request that failed. *)
Lemma responses_shift n k ok :
  ¬ accepted (responses n) → (ok = true → 0 < k) →
  (∀ i, i < k → accepted (responses (n + 1 + i)) ↔ ok = true ∧ S i = k) →
  ∀ i, i < S k → accepted (responses (n + i)) ↔ ok = true ∧ S i = S k.
Proof using Type.
  intros Hno Ht Hresp [|i] Hi.
  - rewrite Nat.add_0_r. split; [done|]. intros [E Ek]. specialize (Ht E). lia.
  - replace (n + S i) with (n + 1 + i) by lia. rewrite Hresp by lia. split; intros [? ?]; (split; [done|lia]).
Qed.

(** The loop: it stops at the first success. *)
Lemma wp_deliver_loop s c m cb (Q : result bool → CallbackManager T → Prop) :
  Dict.get jid (_registry m) = Some cb → mirrors None m → Z.of_nat (s + c) = Z.max 1 (max_attempts policy) →
  (∀ m' k ok, delivered m cb k ok m' → k ≤ c →
     (∀ i, i < k → accepted (responses (length (outbox m) + i)) ↔ ok = true ∧ S i = k) →
     (ok = false → k = c) → (ok = true → 0 < k) → Q (Ok ok) m') →
  wp (deliver_loop responses float_pow jid payload policy ((λ k, Z.of_nat k + 1)%Z <$> seq s c)) m Q.
Proof using Hsane.
  revert s m cb Q. induction c as [|c IH]; intros s m cb Q Hcb Hm Hmax HQ; cbn [seq fmap list_fmap deliver_loop].
  { wp_steps. apply (HQ m 0 false); [by apply delivered_none|done|lia|done|done]. }
  wp_steps. eapply wp_attempt; [done|done|]. intros m1 ok Hok Hat. cbn beta iota.
  destruct (at_callback _ _ _ _ _ Hat) as (cb1 & Hcb1 & Hn1 & Hd1 & Hp1 & He1). destruct ok.
  - wp_steps. apply (HQ m1 1 true); [|lia| |done|lia].
    + split; [apply Hat|exists []; by rewrite app_nil_r, (at_slept _ _ _ _ _ Hat)| |apply Hat|apply Hat].
      exists cb1. by split_and!.
    + intros i Hi. assert (i = 0) as -> by lia. rewrite Nat.add_0_r. symmetry in Hok.
      apply bool_decide_eq_true in Hok. tauto.
  - wp_steps. eapply wp_persist_attempt; [apply Hat|exact Hcb1|]. intros m2 Hr2 [Ho2 Hs2] Hm2. cbn beta iota.
    assert (Hrest : ∀ m3 ds, _registry m3 = _registry m2 → _engine m3 = _engine m2 → outbox m3 = outbox m2 →
      slept m3 = slept m2 ++ ds → length ds = (if decide (c = 0) then 0 else 1) →
      Forall (λ d, SFltb (max_delay_seconds policy) d = false) ds →
      wp (deliver_loop responses float_pow jid payload policy ((λ k, Z.of_nat k + 1)%Z <$> seq (S s) c)) m3 Q).
    { intros m3 ds Hr3 He3 Ho3 Hs3 Hlen Hall.
      eapply (IH (S s) m3 cb1); [by rewrite Hr3, Hr2|by eapply mirrors_wire|lia|].
      intros m' k ok Hdel Hk Hresp Hf Ht. assert (Hlo : outbox m3 = outbox m ++ [delivery_of cb payload])
        by (by rewrite Ho3, Ho2, (at_sent _ _ _ _ _ Hat)).
      assert (Hkc : k = 0 ↔ c = 0) by (destruct ok; [specialize (Ht eq_refl)|specialize (Hf eq_refl)]; lia).
      apply (HQ m' (S k) ok); [|lia| |intros E; specialize (Hf E); lia|lia].
      - eapply delivered_more; [exact Hlo|by rewrite Hs3, Hs2, (at_slept _ _ _ _ _ Hat)| |exact Hall| | | | | | | |exact Hdel].
        + rewrite Hlen. by repeat case_decide; try lia.
        + by rewrite Hr3, Hr2.
        + done.
        + done.
        + done.
        + by rewrite He1.
        + intros ->. destruct ok; [|done]. specialize (Ht eq_refl). lia.
        + intros id Hid. rewrite Hr3, Hr2. by apply (at_others _ _ _ _ _ Hat).
      - rewrite Hlo, length_app in Hresp. symmetry in Hok. apply bool_decide_eq_false in Hok.
        by apply responses_shift. }
    destruct (Z.ltb_spec (Z.of_nat s + 1) (max_attempts policy)) as [Hlt|Hlt]; wp_steps.
    + destruct (Hsane (Z.of_nat s + 1)%Z) as (d & Hd & Hd0 & Hdd & Hdl); [lia|].
      apply wp_lift. rewrite Hd. unfold sleep. rewrite Hd0, Hdd, Hdl. cbn [negb]. wp_steps.
      apply (Hrest _ [d]); try done.
      * rewrite decide_False by lia. done.
      * constructor; [|done]. by eapply delay_bounded.
    + destruct (decide (c = 0)) as [->|Hc].
      * apply (Hrest _ []); try done. by rewrite app_nil_r.
      * exfalso. lia.
Qed.
End delivery.

(** ** A new manager over the same table *)

Section restart.
Context {T : Type} `{CallbackLaws T}.
Context (responses : nat → result Z) (float_pow : float → Z → result float).
Implicit Types (m : CallbackManager T).

(** What a client asks of a manager. *)
Inductive callback_request : Type :=
  | RegisterCallback (job_id u : string) (hdrs : dict string) (policy : policy_arg)
  | RegisterPlain (job_id u meth : string) (hdrs : dict string)
  | Unregister (job_id : string)
  | Trigger (job_id : string) (payload : dict pyval) (retries : Z)
  | Completion (job_id status : string) (summary : option (dict pyval)) (duration_ms : Z).

Definition request_ok (q : callback_request) : Prop :=
  match q with
  | RegisterCallback _ _ hdrs _ | RegisterPlain _ _ _ hdrs => Dict.wf hdrs
  | _ => True
  end.

Definition serve (q : callback_request) : M (CallbackManager T) unit :=
  match q with
  | RegisterCallback id u hdrs p => register_callback id u (Some hdrs) p
  | RegisterPlain id u meth hdrs => register id u meth (Some hdrs)
  | Unregister id => unregister id;; mret tt
  | Trigger id payload retries => trigger responses float_pow id payload retries;; mret tt
  | Completion id status summary ms => trigger_job_completion responses float_pow id status summary ms;; mret tt
  end.

(** Requests served one after another; one that raises ends in its exception and
    the next is served. *)
Fixpoint serve_all (qs : list callback_request) : M (CallbackManager T) unit :=
  match qs with
  | [] => mret tt
  | q :: qs => try_except (serve q) (λ _, mret tt);; serve_all qs
  end.

(** The registry stays a dictionary and the table is kept. *)
Definition wf_kept : relation (CallbackManager T) := λ m m',
  (Dict.wf (_registry m) → Dict.wf (_registry m')) ∧ (is_Some (_engine m) → is_Some (_engine m')).
#[local] Instance wf_kept_preorder : PreOrder wf_kept.
Proof. split; unfold wf_kept; red; naive_solver. Qed.

Lemma keeps_with_engine (a : M T unit) : keeps wf_kept (with_engine a).
Proof using Type.
  intros m. unfold with_engine. wp_steps. apply wp_zoom_opt. destruct (_engine m) as [t|]; [|by wp_steps].
  intros e. destruct (a t e) as [[[u|x] t1] e1]; wp_steps; by repeat split.
Qed.

Lemma keeps_registry (f : dict CallbackRegistration → dict CallbackRegistration) :
  (∀ d, Dict.wf d → Dict.wf (f d)) → keeps wf_kept (modify (λ m, set_registry (f (_registry m)) m)).
Proof using Type. intros Hf m. wp_steps. split; [apply Hf|done]. Qed.

Lemma keeps_lift {A} (r : result A) : keeps wf_kept (lift r).
Proof using Type. intros m. apply wp_lift. by destruct r. Qed.

Lemma keeps_get_state : keeps wf_kept get_state.
Proof using Type. intros m. by wp_steps. Qed.

#[local] Hint Resolve keeps_with_engine keeps_registry keeps_lift keeps_get_state Dict.wf_set Dict.wf_pop Dict.wf_update : py.

(** Follow the syntax of a method, down to the parts that are known. *)
Ltac keeps_steps :=
  repeat match goal with
  | |- keeps _ (if ?b then _ else _) => destruct b
  | |- keeps _ (match ?o with Some _ => _ | None => _ end) => destruct o
  | |- keeps _ _ => solve [auto with py typeclass_instances]
  | |- keeps _ (_ ≫= _) => apply keeps_bind; [apply _| |intros ?]
  | |- keeps _ (try_except _ _) => apply keeps_try; [apply _| |intros ?]
  end.

Lemma keeps_on_callback jid f : keeps wf_kept (on_callback jid f).
Proof using Type. apply (keeps_registry (Dict.update jid f)). auto with py. Qed.

Lemma keeps_persist_attempt jid : keeps wf_kept (_persist_attempt jid).
Proof using Type. unfold _persist_attempt. keeps_steps. Qed.

Lemma keeps_request cb payload : keeps wf_kept (request responses cb payload).
Proof using Type. unfold request. keeps_steps. Qed.

Lemma keeps_sleep d : keeps wf_kept (sleep d).
Proof using Type. unfold sleep. keeps_steps. Qed.

Lemma keeps_store id reg : keeps wf_kept (store id reg).
Proof using Type. unfold store, _persist. keeps_steps. Qed.

Lemma keeps_validate u : keeps wf_kept (validate_callback_url u).
Proof using Type. unfold validate_callback_url. keeps_steps. Qed.
#[local] Hint Resolve keeps_on_callback keeps_persist_attempt keeps_request keeps_sleep keeps_store keeps_validate : py.

Lemma keeps_deliver jid payload policy l : keeps wf_kept (deliver_loop responses float_pow jid payload policy l).
Proof using Type. induction l as [|a l IH]; cbn [deliver_loop]; unfold attempt_once; keeps_steps. Qed.
#[local] Hint Resolve keeps_deliver : py.

Lemma keeps_serve q : keeps wf_kept (serve q).
Proof using Type.
  destruct q as [id u hdrs p|id u meth hdrs|id|id payload n|id st res ms]; cbn [serve];
    unfold register_callback, register, unregister, trigger, trigger_job_completion, _deliver; keeps_steps.
Qed.

(** Whatever the policy, each request leaves the counters written down. *)
Lemma wp_deliver_mirrors jid payload policy l m cb (Q : result bool → CallbackManager T → Prop) :
  Dict.get jid (_registry m) = Some cb → mirrors None m →
  (∀ r m', mirrors None m' → Q r m') →
  wp (deliver_loop responses float_pow jid payload policy l) m Q.
Proof using Type.
  revert m cb Q. induction l as [|a l IH]; intros m cb Q Hcb Hm HQ; cbn [deliver_loop].
  { wp_steps. by apply HQ. }
  wp_steps. eapply wp_attempt; [done|done|]. intros m1 ok Hok Hat. cbn beta iota.
  destruct (at_callback _ _ _ _ _ _ _ Hat) as (cb1 & Hcb1 & _). destruct ok.
  { wp_steps. apply HQ, Hat. }
  wp_steps. eapply wp_persist_attempt; [apply Hat|exact Hcb1|]. intros m2 Hr2 _ Hm2. cbn beta iota.
  assert (Hrest : ∀ m3, _registry m3 = _registry m2 → _engine m3 = _engine m2 →
    wp (deliver_loop responses float_pow jid payload policy l) m3 Q).
  { intros m3 Hr3 He3. eapply (IH m3 cb1); [by rewrite Hr3, Hr2|by eapply mirrors_wire|done]. }
  destruct (a <? max_attempts policy)%Z; wp_steps; [|by apply Hrest].
  apply wp_lift. destruct (_delay_for_attempt float_pow policy a) as [d|x]; [|by wp_steps; apply HQ].
  unfold sleep. repeat (case_match; [by wp_steps; apply HQ|]). wp_steps. by apply Hrest.
Qed.

Lemma wp_unregister id m (Q : result bool → CallbackManager T → Prop) :
  Dict.wf (_registry m) → mirrors None m →
  (∀ m', _registry m' = Dict.pop id (_registry m) → same_wire m m' → mirrors None m' →
     Q (Ok (bool_decide (is_Some (Dict.get id (_registry m))))) m') →
  wp (unregister id) m Q.
Proof using Type.
  intros Hwf Hm HQ. unfold unregister, with_engine. wp_steps. apply wp_zoom_opt. cbn [set_registry _engine].
  destruct (_engine m) as [t|] eqn:E; [|wp_steps; apply HQ; [done..|]; by unfold mirrors; simpl; rewrite E].
  eapply wp_mono; [apply delete_callback_ok|]. intros r t' (-> & Ht'). wp_steps. apply HQ; [done..|].
  intros k. simpl. unfold mirrors in Hm. rewrite E in Hm. specialize (Hm k).
  rewrite Ht', Dict.get_pop, lookup_delete by done. simpl in Hm. by case_decide.
Qed.

Lemma wp_serve q m (Q : result unit → CallbackManager T → Prop) :
  request_ok q → Dict.wf (_registry m) → mirrors None m →
  (∀ r m', mirrors None m' → Q r m') → wp (serve q) m Q.
Proof using Type.
  intros Hq Hwf Hm HQ. destruct q as [id u hdrs p|id u meth hdrs|id|id payload n|id st res ms]; cbn [serve].
  - unfold register_callback. unfold validate_callback_url. wp_steps. destruct (negb _); wp_steps; [by apply HQ|]. apply wp_lift.
    destruct (_normalise_retry_policy p); [|by wp_steps; apply HQ].
    apply wp_store; [done|done|]. intros; by apply HQ.
  - unfold register, validate_callback_url. wp_steps. destruct (negb _); wp_steps; [by apply HQ|].
    apply wp_store; [done|done|]. intros; by apply HQ.
  - wp_steps. apply wp_unregister; [done|done|]. intros. wp_steps. by apply HQ.
  - unfold trigger. wp_steps. destruct (Dict.get id (_registry m)) eqn:E; [|by wp_steps; apply HQ].
    eapply wp_deliver_mirrors; [done|done|]. intros [b|x] m' Hm'; wp_steps; by apply HQ.
  - unfold trigger_job_completion. wp_steps. destruct (Dict.get id (_registry m)) eqn:E; [|by wp_steps; apply HQ].
    eapply wp_deliver_mirrors; [done|done|]. intros [b|x] m' Hm'; wp_steps; by apply HQ.
Qed.

Lemma wp_serve_all qs m (Q : result unit → CallbackManager T → Prop) :
  Forall request_ok qs → Dict.wf (_registry m) → mirrors None m →
  is_Some (_engine m) → (∀ m', is_Some (_engine m') → mirrors None m' → Q (Ok tt) m') → wp (serve_all qs) m Q.
Proof using Type.
  intros Hqs. revert m. induction Hqs as [|q qs Hq _ IH]; intros m Hwf Hm He HQ; cbn [serve_all]; wp_steps; [by apply HQ|].
  eapply wp_mono; [apply wp_conj; [by apply (wp_serve q m (λ _, mirrors None))|apply keeps_serve]|].
  intros [[]|x] m' [Hm' [Hwf' He']]; wp_steps; apply IH; auto.
Qed.

Lemma wp_load_persisted m t (Q : result unit → CallbackManager T → Prop) :
  _engine m = Some t → mirrors None m →
  (∀ d, (∀ id, Dict.get id d = Dict.get id (_registry m)) → Q (Ok tt) (mkManager d (Some t) [] [])) →
  wp _load_persisted (mkManager [] (Some t) [] []) Q.
Proof using Type.
  intros E Hm HQ. unfold _load_persisted. wp_steps. apply wp_zoom_opt. cbn [_engine].
  eapply wp_mono; [apply select_callbacks_ok|]. intros r t' (-> & l & -> & Hl). wp_steps.
  unfold mirrors in Hm. rewrite E in Hm.
  assert (Hrow : ∀ row, row ∈ l ↔ ∃ id, callback_rows t !! id = Some row).
  { intros row. rewrite Hl, list_elem_of_fmap. split.
    - intros ([k r] & -> & Hk%elem_of_map_to_list). by exists k.
    - intros [k Hk]. exists (k, row). split; [done|]. by apply elem_of_map_to_list. }
  eapply wp_foldM with (I := λ done _ s, _engine s = Some t ∧ same_wire (mkManager [] (Some t) [] []) s ∧
    ∀ id, Dict.get id (_registry s) = if decide (id ∈ row_job_id <$> done) then Dict.get id (_registry m) else None).
  - split_and!; [done..|]. intros id. rewrite decide_False by (by intros ?%elem_of_nil). done.
  - intros done row todo [] s Hsplit (He & Hw & Hd). wp_steps. apply wp_lift.
    destruct (proj1 (Hrow row)) as [k Hk]; [rewrite Hsplit; set_solver|].
    specialize (Hm k). rewrite Hk in Hm. destruct (Dict.get k (_registry m)) as [cb|] eqn:Ecb; [|done].
    destruct Hm as (<- & cb' & Hr & _ & _ & _ & _ & Hex). rewrite Hr, Hex by (by apply bool_decide_eq_true_2).
    wp_steps. split_and!; [done|exact Hw|]. intros id. cbn [set_registry _registry].
    rewrite Dict.get_set, Hd, fmap_app. cbn [fmap list_fmap]. repeat case_decide; set_solver.
  - intros [] s (He & [Ho Hs] & Hd). wp_steps. destruct s as [d e o sl]. simpl in *. subst. apply HQ.
    intros id. rewrite Hd. case_decide as Hin; [done|]. specialize (Hm id).
    destruct (Dict.get id (_registry m)) as [cb|]; [|done].
    destruct (callback_rows t !! id) as [row|] eqn:Erow; [|done]. destruct Hm as [Hid _].
    destruct Hin. apply list_elem_of_fmap. exists row. split; [done|]. apply Hrow. by exists id.
Qed.
End restart.

(** ** What callers rely on *)

(** C17: webhook delivery. A completion is sent at least once and at most
    [max(1, max_attempts)] times, each request to the registered endpoint with its
    headers; sending stops at the first 2xx answer, and [True] is returned exactly
    when the last request got one. The registration counts every request, has no
    error left exactly after a success, and the table, when there is one, agrees
    with it again; between two requests there is one sleep, never above
    [max_delay_seconds]; nothing else changes. *)
Theorem callback_delivery_exact {T} `{CallbackLaws T} responses float_pow (m : CallbackManager T)
    jid cb status summary duration_ms :
  Dict.get jid (_registry m) = Some cb → mirrors None m → sane_policy float_pow (retry_policy cb) →
  wp (trigger_job_completion responses float_pow jid status summary duration_ms) m (λ r m',
    ∃ k ok, r = Ok ok ∧
      delivered jid (completion_payload jid status summary duration_ms) (retry_policy cb) m cb k ok m' ∧
      (1 ≤ Z.of_nat k ≤ Z.max 1 (max_attempts (retry_policy cb)))%Z ∧
      (ok = false → Z.of_nat k = Z.max 1 (max_attempts (retry_policy cb))) ∧
      ∀ i, i < k → accepted (responses (length (outbox m) + i)) ↔ ok = true ∧ S i = k).
Proof.
  intros Hcb Hm Hsane. unfold trigger_job_completion. wp_steps. rewrite Hcb. unfold _deliver, attempts_up_to.
  eapply wp_deliver_loop; [done|done|done|lia|].
  intros m' k ok Hdel Hk Hresp Hf Ht. exists k, ok. split; [done|]. split; [done|].
  assert (1 ≤ k) by (destruct ok; [specialize (Ht eq_refl)|specialize (Hf eq_refl)]; lia).
  split; [lia|]. split; [|done]. intros E. specialize (Hf E). lia.
Qed.

(** C18: registrations survive a restart. After any requests to a manager over an
    empty table, failed ones included, a new manager over the table the old one
    left holds the same registrations: endpoint, headers, policy, attempts made
    and last error. *)
Theorem callbacks_survive_restart {T} `{CallbackLaws T} responses float_pow (t : T) qs :
  callback_rows t = ∅ → Forall request_ok qs →
  wp (serve_all responses float_pow qs) (mkManager [] (Some t) [] []) (λ _ m,
    ∃ t', _engine m = Some t' ∧
      wp _load_persisted (mkManager [] (Some t') [] []) (λ r m', r = Ok tt ∧
        ∀ id, Dict.get id (_registry m') = Dict.get id (_registry m))).
Proof.
  intros Ht Hqs. apply wp_serve_all; [done|apply Dict.wf_nil| |by eexists|].
  - intros id. cbn [_registry]. by rewrite Ht, lookup_empty.
  - intros m [t' Ht'] Hm. exists t'. split; [done|]. by eapply wp_load_persisted.
Qed.

(** *** A table in memory, which counts seconds *)

Definition whole_seconds (t : Z) : Z := t / 1000000 * 1000000.

Abbreviation table_map := (gmap string callback_row).

#[local] Instance map_table : CallbackTable table_map := {|
  select_callbacks := gets (λ t, (map_to_list t).*2);
  select_callback id := gets (λ t, t !! id);
  insert_callback row := t ← get_state;
    if decide (t !! row_job_id row = None) then modify (λ t, <[row_job_id row := kept_callback whole_seconds row]> t)
    else raise (UserError "IntegrityError" "UNIQUE constraint failed");
  update_callback id f := modify (λ t, alter (λ row, kept_callback whole_seconds (f row)) id t);
  delete_callback id := modify (λ t, delete id t);
|}.

#[local] Program Instance map_table_laws : CallbackLaws table_map :=
  {| callback_rows t := t; callback_time := whole_seconds |}.
Next Obligation. intros t. simpl. wp_steps. split; [done|]. by eexists. Qed.
Next Obligation. intros t id. simpl. by wp_steps. Qed.
Next Obligation. intros t row Hrow. simpl. wp_steps. rewrite decide_True by done. by wp_steps. Qed.
Next Obligation. intros t id f _. simpl. by wp_steps. Qed.
Next Obligation. intros t id. simpl. by wp_steps. Qed.

(** [x ** n] by repeated multiplication, which is exact on the powers of two below. *)
Fixpoint repeated_mul (x : float) (n : nat) : float :=
  match n with O => float_of_Z 1 | S n => float_mul x (repeated_mul x n) end.
Definition mul_pow (x : float) (n : Z) : result float := Ok (repeated_mul x (Z.to_nat n)).

(** An endpoint that is down twice. *)
Definition flaky (i : nat) : result Z := match i with 0 => Err (ValueError "refused") | 1 => Ok 503%Z | _ => Ok 204%Z end.

Definition demo_callback : CallbackRegistration :=
  mkCallback "https://example.org/hook" "POST" [("X-Key", "k")] default_policy 0 None.
Definition demo_manager : CallbackManager table_map :=
  mkManager [("j1", demo_callback)] (Some {["j1" := row_of "j1" demo_callback 0 0]}) [] [].

Lemma demo_mirrors : mirrors None demo_manager.
Proof.
  intros id. unfold demo_manager. cbn [_registry _engine callback_rows map_table_laws Dict.get].
  destruct (decide (id = "j1")) as [->|Hne].
  - rewrite lookup_singleton_eq. apply row_reads_of. repeat constructor; set_solver.
  - by rewrite lookup_singleton_ne by done.
Qed.

Lemma demo_sane : sane_policy mul_pow default_policy.
Proof.
  intros a Ha. cbn [max_attempts default_policy] in Ha. assert (a = 1 ∨ a = 2)%Z as [->| ->] by lia.
  - eexists. split; [reflexivity|]. split_and!; vm_compute; reflexivity.
  - eexists. split; [reflexivity|]. split_and!; vm_compute; reflexivity.
Qed.

Lemma callback_delivery_exact_witness :
  wp (trigger_job_completion flaky mul_pow "j1" "succeeded" None 12) demo_manager (λ r m',
    ∃ k ok, r = Ok ok ∧
      delivered "j1" (completion_payload "j1" "succeeded" None 12) (retry_policy demo_callback)
        demo_manager demo_callback k ok m' ∧
      (1 ≤ Z.of_nat k ≤ Z.max 1 (max_attempts (retry_policy demo_callback)))%Z ∧
      (ok = false → Z.of_nat k = Z.max 1 (max_attempts (retry_policy demo_callback))) ∧
      ∀ i, i < k → accepted (flaky (length (outbox demo_manager) + i)) ↔ ok = true ∧ S i = k).
Proof.
  exact (callback_delivery_exact flaky mul_pow demo_manager "j1" demo_callback "succeeded" None 12
    eq_refl demo_mirrors demo_sane).
Defined.

(** Registered, delivered on the third attempt after sleeping 0.1 and 0.2 seconds,
    registered again elsewhere, removed. *)
Definition demo_requests : list callback_request :=
  [RegisterCallback "j1" "https://example.org/hook" [] (PolicyDict [("max_attempts", AVal (PStr "3"))]);
   RegisterPlain "j2" "ftp://example.org" "PUT" [];
   Completion "j1" "succeeded" None 12;
   RegisterPlain "j3" "http://example.org" "PUT" [("X-Key", "k")];
   Unregister "j3"].

Example demo_requests_ex :
  let m := after (serve_all flaky mul_pow demo_requests) (mkManager [] (Some (∅ : table_map)) [] []) in
  length (outbox m) = 3 ∧ slept m = [decimal false 1 (-1); decimal false 2 (-1)] ∧
  (λ kv, (kv.1, attempt_count kv.2, last_error kv.2)) <$> _registry m = [("j1", 3%Z, None)].
Proof. repeat split; vm_compute; reflexivity. Qed.

Lemma callbacks_survive_restart_witness :
  wp (serve_all flaky mul_pow demo_requests) (mkManager [] (Some (∅ : table_map)) [] []) (λ _ m,
    ∃ t', _engine m = Some t' ∧
      wp _load_persisted (mkManager [] (Some t') [] []) (λ r m', r = Ok tt ∧
        ∀ id, Dict.get id (_registry m') = Dict.get id (_registry m))).
Proof.
  refine (callbacks_survive_restart flaky mul_pow (∅ : table_map) demo_requests eq_refl _).
  repeat constructor; set_solver.
Defined.
