(* ===== verification/Mcp.v ===== *)
(** * MCP tools

    [mcp/job_tools.py] and [async_jobs/mcp_adapter.py]: the four job tools, whose
    handlers turn a dictionary of arguments into a call of the queue and its
    result or exception into a dictionary, and the adapter that submits and
    polls. [job_manager] is a [JobQueue]. *)

From S2P Require Import Prelude PyValue Json Isotime Meta PyFloat Domain Backend MemoryBackend Security Idempotency.
From S2P Require Import Observability Graph Dependency Queue.

(** ** The tools *)

Definition _mcp_error (message code : string) : pyval :=
  PDict [("error", PDict [("code", PStr code); ("message", PStr message)])].

Record Tool (B : Type) : Type := mkTool {
  tool_name : string;
  description : string;
  inputSchema : pyval;
  handler : dict pyval → M (JobQueue B) pyval;
}.
Arguments mkTool {B}.
Arguments tool_name {B}.
Arguments description {B}.
Arguments inputSchema {B}.
Arguments handler {B}.

Module Mcp.
Section tools.
Context {B : Type} `{QueueBackend B}.
(** [job_manager.list] with a [job_type] that is neither a text nor [None]: what
    comparing it with a text column gives is up to the backend. *)
Context (list_other : Z → pyval → M (JobQueue B) (list Job)).

(** Lines 35-40. *)
Definition create_request (arguments : dict pyval) : result JobRequest :=
  jt ← argument "job_type" arguments;
  d ← dict_of (argument_or "payload" (PDict []) arguments);
  p ← py_int (AVal (argument_or "priority" (PInt 0) arguments));
  Ok (new_request (py_str jt)
    <| req_payload := d |>
    <| req_queue_name := py_str (argument_or "queue_name" (PStr "default") arguments) |>
    <| req_priority := p |>).

Definition create_handler (arguments : dict pyval) : M (JobQueue B) pyval :=
  try_except
    (r ← lift (create_request arguments);
     id ← Queue.submit r;
     mret (PDict [("job_id", PStr id)]))
    (λ x, mret (_mcp_error (exn_str x) "invalid_request")).

Definition status_handler (arguments : dict pyval) : M (JobQueue B) pyval :=
  try_except
    (id ← lift (argument "job_id" arguments);
     job ← Queue.get (py_str id);
     match job with
     | None => mret (_mcp_error "job not found" "not_found")
     | Some j => mret (PDict [("job_id", PStr (job_id j)); ("status", PStr (value (status j)));
                              ("job_type", PStr (job_type j)); ("queue_name", PStr (queue_name j))])
     end)
    (λ x, mret (_mcp_error (exn_str x) "internal_error")).

Definition cancel_handler (arguments : dict pyval) : M (JobQueue B) pyval :=
  try_except
    (v ← lift (argument "job_id" arguments);
     let id := py_str v in
     ok ← Queue.cancel id;
     mret (PDict [("job_id", PStr id); ("cancelled", PBool ok)]))
    (λ x, mret (_mcp_error (exn_str x) "internal_error")).

Definition list_item (j : Job) : pyval :=
  PDict [("job_id", PStr (job_id j)); ("job_type", PStr (job_type j)); ("status", PStr (value (status j)));
         ("queue_name", PStr (queue_name j)); ("priority", PInt (priority j))].

Definition list_handler (arguments : dict pyval) : M (JobQueue B) pyval :=
  try_except
    (limit ← lift (py_int (AVal (argument_or "limit" (PInt 50) arguments)));
     jobs ← match Dict.get_default "job_type" PNone arguments with
            | PNone => Queue.list limit None
            | PStr s => Queue.list limit (Some s)
            | v => list_other limit v
            end;
     mret (PDict [("items", PList (list_item <$> jobs))]))
    (λ x, mret (_mcp_error (exn_str x) "internal_error")).

Definition typed (t : string) : pyval := PDict [("type", PStr t)].
Definition schema (properties : dict pyval) (required : list string) : pyval :=
  PDict [("type", PStr "object"); ("properties", PDict properties); ("required", PList (PStr <$> required))].

Definition create_job_tools : list (Tool B) :=
  [mkTool "jobs.create" "Create a new background job."
     (schema [("job_type", typed "string"); ("payload", typed "object");
              ("queue_name", typed "string"); ("priority", typed "integer")] ["job_type"])
     create_handler;
   mkTool "jobs.status" "Get status for a job by identifier."
     (schema [("job_id", typed "string")] ["job_id"])
     status_handler;
   mkTool "jobs.cancel" "Cancel an existing job."
     (schema [("job_id", typed "string")] ["job_id"])
     cancel_handler;
   mkTool "jobs.list" "List jobs in queue order."
     (schema [("limit", PDict [("type", PStr "integer"); ("minimum", PInt 1); ("maximum", PInt 200)]);
              ("job_type", typed "string")] [])
     list_handler].
End tools.

(** *** [MCPAsyncJobAdapter] *)
Section adapter.
Context {B : Type} `{QueueBackend B}.

Definition submit_async (tool_name : string) (arguments : dict pyval) : M (JobQueue B) string :=
  Queue.submit (new_request tool_name <| req_payload := arguments |>).

Definition get_result (job_id : string) : M (JobQueue B) pyval :=
  job ← Queue.get job_id;
  match job with
  | None => mret (PDict [("status", PStr "not_found")])
  | Some j => mret (PDict [("status", PStr (value (status j))); ("job_id", PStr (Domain.job_id j));
                           ("payload", PDict (payload j))])
  end.
End adapter.
End Mcp.

(** ** Theorems *)

(** A reply is a dictionary: either a single error with its code and message, or
    a result. *)
Definition error_reply (v : pyval) : Prop :=
  ∃ code message, v = PDict [("error", PDict [("code", PStr code); ("message", PStr message)])].
Definition result_reply (v : pyval) : Prop := ∃ d, v = PDict d ∧ Dict.get "error" d = None.

(** No tool raises. Whatever the arguments, the queue and its backend, whatever
    the backend raises, the handler of each of the four tools returns a reply,
    either an error or a result. *)
Theorem mcp_tools_never_raise {B} `{QueueBackend B} list_other t arguments (q : JobQueue B) :
  t ∈ Mcp.create_job_tools list_other →
  wp (handler t arguments) q (λ r _, ∃ v, r = Ok v ∧ (error_reply v ∨ result_reply v)).
Proof.
  assert (Htry : ∀ (m : M (JobQueue B) pyval) code,
    (∀ q, wp m q (λ r _, ∀ v, r = Ok v → error_reply v ∨ result_reply v)) →
    wp (try_except m (λ x, mret (_mcp_error (exn_str x) code))) q
      (λ r _, ∃ v, r = Ok v ∧ (error_reply v ∨ result_reply v))).
  { intros m code Hm. wp_steps. eapply wp_mono; [apply Hm|]. intros [v|x] q' Hv; [naive_solver|]. wp_steps.
    eexists. split; [done|]. left. by do 2 eexists. }
  assert (Hany : ∀ A (m : M (JobQueue B) A) (f : A → M (JobQueue B) pyval) q,
    (∀ a q, wp (f a) q (λ r _, ∀ v, r = Ok v → error_reply v ∨ result_reply v)) →
    wp (m ≫= f) q (λ r _, ∀ v, r = Ok v → error_reply v ∨ result_reply v)).
  { intros A m f q0 Hf. apply wp_bind. intros e. destruct (m q0 e) as [[[a|x] q1] e1]; [apply Hf|done]. }
  assert (Hret : ∀ q0 d, Dict.get "error" d = None → wp (mret (PDict d) : M (JobQueue B) pyval) q0
    (λ r _, ∀ v, r = Ok v → error_reply v ∨ result_reply v)).
  { intros q0 d Hd. wp_steps. intros v [= <-]. right. by eexists. }
  intros Ht. unfold Mcp.create_job_tools in Ht.
  repeat (apply elem_of_cons in Ht as [->|Ht]; [cbn [handler]; apply Htry; intros q0; repeat (apply Hany; intros ? ?)|]);
    [by apply Hret| |by apply Hret|by apply Hret|by apply elem_of_nil in Ht].
  case_match; [by apply Hret|]. wp_steps. intros v [= <-]. left. by do 2 eexists.
Qed.

(** The reply tells the status [s] of the job [id]. *)
Definition tells (id : string) (s : JobStatus) (r : result pyval) : Prop :=
  ∃ d, r = Ok (PDict d) ∧ Dict.get "job_id" d = Some (PStr id) ∧ Dict.get "status" d = Some (PStr (value s)).

Definition id_argument (id : string) : dict pyval := [("job_id", PStr id)].

Section session.
Context {B : Type} `{BackendContract B}.

Lemma status_handler_ok (q : JobQueue B) id :
  backend_wf (q_backend q) →
  wp (Mcp.status_handler (id_argument id)) q (λ r q', q' = q ∧
    match statuses (q_backend q) !! id with
    | Some s => tells id s r
    | None => r = Ok (_mcp_error "job not found" "not_found")
    end).
Proof.
  intros Hwf. unfold Mcp.status_handler, Queue.get. wp_steps. apply wp_lift.
  change (argument "job_id" (id_argument id)) with (Ok (PStr id)). cbn beta iota. cbn [py_str].
  wp_steps. apply wp_zoom. eapply wp_mono; [by apply get_status_ok|].
  intros r b' (-> & oj & -> & Hst & Hid). cbn beta iota.
  destruct q as [b mx i a t]. cbn in *. destruct oj as [j|]; wp_steps; (split; [done|]); rewrite <- Hst; [|done].
  simpl. eexists. split; [done|]. simpl. by rewrite (Hid j eq_refl).
Qed.

Lemma cancel_handler_ok (q : JobQueue B) id :
  backend_wf (q_backend q) →
  wp (Mcp.cancel_handler (id_argument id)) q (λ r q', backend_wf (q_backend q') ∧
    r = Ok (PDict [("job_id", PStr id); ("cancelled", PBool (bool_decide (is_Some (statuses (q_backend q) !! id))))]) ∧
    statuses (q_backend q') = alter (λ _, CANCELLED) id (statuses (q_backend q))).
Proof.
  intros Hwf. unfold Mcp.cancel_handler, Queue.cancel, Queue.audit. wp_steps. apply wp_lift.
  change (argument "job_id" (id_argument id)) with (Ok (PStr id)). cbn beta iota zeta. cbn [py_str].
  wp_steps. apply wp_zoom. eapply wp_mono; [by apply update_status_ok|].
  intros r b' (Hwf' & -> & Hst). wp_steps. apply wp_emit. intros ev _ Hev. wp_steps. by split_and!.
Qed.
End session.

(** C37: a session over the tools. When [jobs.create] is given arguments that make
    an acceptable request, it replies with the identifier of a new queued job
    and changes no other; [jobs.status] with that identifier then tells
    [queued], and after [jobs.cancel], which replies [True], it tells
    [cancelled]. Over any backend that meets the contract. *)
Theorem mcp_session {B} `{BackendContract B} (q : JobQueue B) arguments r e :
  backend_wf (q_backend q) → Mcp.create_request arguments = Ok r → acceptable q r →
  statuses (q_backend q) !! job_id (submitted e r) = None →
  let id := job_id (submitted e r) in
  let '(reply, q1, _) := Mcp.create_handler arguments q e in
  reply = Ok (PDict [("job_id", PStr id)]) ∧
  statuses (q_backend q1) = <[id := QUEUED]> (statuses (q_backend q)) ∧
  wp (Mcp.status_handler (id_argument id)) q1 (λ reply q2, q2 = q1 ∧ tells id QUEUED reply) ∧
  wp (Mcp.cancel_handler (id_argument id)) q1 (λ reply q2,
    reply = Ok (PDict [("job_id", PStr id); ("cancelled", PBool true)]) ∧
    wp (Mcp.status_handler (id_argument id)) q2 (λ reply q3, q3 = q2 ∧ tells id CANCELLED reply)).
Proof.
  intros Hwf Hr Hacc Hfresh id. assert (Hkey : req_idempotency_key r = None ∧ req_depends_on r = []).
  { unfold Mcp.create_request in Hr. destruct (argument _ _); [|done]. cbn [mbind result_bind] in Hr.
    destruct (dict_of _); [|done]. cbn [mbind result_bind] in Hr. destruct (py_int _); [|done]. by injection Hr as <-. }
  destruct Hkey as [Hkey Hdeps]. pose proof (submit_plain q r e Hwf Hacc Hkey Hdeps Hfresh) as Hsub. fold id in Hsub.
  unfold Mcp.create_handler. rewrite Hr. unfold try_except, lift, mbind at 1, M_bind at 1. unfold mbind, M_bind.
  destruct (Queue.submit r q e) as [[res q1] e1]. destruct Hsub as (-> & Hwf1 & Hst1). cbn.
  split; [done|]. split; [done|]. split.
  - eapply wp_mono; [by apply status_handler_ok|]. intros reply q2 [-> Ht]. split; [done|].
    by rewrite Hst1, lookup_insert_eq in Ht.
  - eapply wp_mono; [by apply cancel_handler_ok|]. intros reply q2 (Hwf2 & -> & Hst2).
    split; [by rewrite bool_decide_eq_true_2 by (by rewrite Hst1, lookup_insert_eq; eexists)|].
    eapply wp_mono; [by apply status_handler_ok|]. intros reply q3 [-> Ht]. split; [done|].
    by rewrite Hst2, lookup_alter_eq, Hst1, lookup_insert_eq in Ht.
Qed.

Definition demo_arguments : dict pyval :=
  [("job_type", PStr "echo"); ("payload", PDict [("text", PStr "hi")]); ("priority", PStr "7")].

Example create_handler_ex :
  answer (Mcp.create_handler (("priority", PStr "x") :: demo_arguments)) (Queue.new (mkMemory [])) =
    Ok (_mcp_error "could not convert" "invalid_request") ∧
  answer (Mcp.create_handler []) (Queue.new (mkMemory [])) = Ok (_mcp_error "'job_type'" "invalid_request").
Proof. split; vm_compute; reflexivity. Qed.

Lemma mcp_tools_never_raise_witness :
  let q := Queue.new (mkMemory []) in
  let t := mkTool "jobs.cancel" "Cancel an existing job."
    (Mcp.schema [("job_id", Mcp.typed "string")] ["job_id"]) Mcp.cancel_handler in
  wp (handler t [("id", PInt 3)]) q (λ r _, ∃ v, r = Ok v ∧ (error_reply v ∨ result_reply v)).
Proof.
  intros q t. refine (mcp_tools_never_raise (λ _ _, mret []) t [("id", PInt 3)] q _).
  unfold Mcp.create_job_tools. do 2 right. left.
Defined.

Lemma mcp_session_witness :
  let q := Queue.new (mkMemory []) in
  let r := new_request "echo" <| req_payload := [("text", PStr "hi")] |> <| req_priority := 7%Z |> in
  let id := job_id (submitted env0 r) in
  let '(reply, q1, _) := Mcp.create_handler demo_arguments q env0 in
  reply = Ok (PDict [("job_id", PStr id)]) ∧
  statuses (q_backend q1) = <[id := QUEUED]> (statuses (q_backend q)) ∧
  wp (Mcp.status_handler (id_argument id)) q1 (λ reply q2, q2 = q1 ∧ tells id QUEUED reply) ∧
  wp (Mcp.cancel_handler (id_argument id)) q1 (λ reply q2,
    reply = Ok (PDict [("job_id", PStr id); ("cancelled", PBool true)]) ∧
    wp (Mcp.status_handler (id_argument id)) q2 (λ reply q3, q3 = q2 ∧ tells id CANCELLED reply)).
Proof.
  intros q r. refine (mcp_session q demo_arguments r env0 memory_empty_wf _ _ _).
  - vm_compute. reflexivity.
  - split; [vm_compute; discriminate|]. rewrite <- payload_secret_iff. vm_compute. discriminate.
  - reflexivity.
Defined.
