(* ===== verification/Http.v ===== *)
(** * HTTP interface

    [api/fastapi/middleware.py] and [api/fastapi/router.py]: the permission check
    in front of the application, and the routes over the admin service. Routing
    itself is the web framework's: whether a path matches a route, and with which
    parameters, is an argument of the model. *)

From S2P Require Import Prelude PyValue Json Isotime Domain Backend MemoryBackend Observability Admin.

Record Request : Type := mkHttp {
  http_method : string;
  path : string;
  query_limit : Z;
}.

(** A response: status code and JSON body. *)
Definition response : Type := Z * pyval.

Definition detail (s : string) : pyval := PDict [("detail", PStr s)].

(** ** [JobsRBACMiddleware] *)

Definition _required_permission (request : Request) : option string :=
  if negb (starts_with "/jobs" (path request)) then None
  else if bool_decide (http_method request = "GET") then Some "jobs.read"
  else if bool_decide (http_method request = "POST") then Some "jobs.write"
  else if bool_decide (http_method request = "DELETE") then Some "jobs.delete"
  else Some "jobs.write".

Definition dispatch {S} (_permission_checker : Request → string → bool) (call_next : Request → M S response)
    (request : Request) : M S response :=
  match _required_permission request with
  | Some required =>
    if negb (_permission_checker request required) then mret (403%Z, detail "Forbidden")
    else call_next request
  | None => call_next request
  end.

(** ** The routes *)

Record Route (S : Type) : Type := mkRoute {
  route_method : string;
  pattern : string;
  endpoint : Request → dict string → M S response;
}.
Arguments mkRoute {S}.
Arguments route_method {S}.
Arguments pattern {S}.
Arguments endpoint {S}.

Module Http.
Section router.
Context {B : Type} `{QueueBackend B} (checker : option (string → bool)).

Definition job_view (j : Job) : pyval :=
  PDict [("job_id", PStr (job_id j)); ("job_type", PStr (job_type j));
         ("status", PStr (value (status j))); ("priority", PInt (priority j))].

Definition ok (v : pyval) : response := (200%Z, v).
(** [raise HTTPException(status_code=404, detail="Job not found")] *)
Definition job_not_found : response := (404%Z, detail "Job not found").

Definition queue_status (_ : Request) (_ : dict string) : M (AdminService B) response :=
  counts ← Admin.queue_status;
  mret (ok (PDict (prod_map id PInt <$> counts))).

Definition list_jobs (rq : Request) (_ : dict string) : M (AdminService B) response :=
  jobs ← Admin.list_jobs (query_limit rq);
  mret (ok (PList (job_view <$> jobs))).

Definition get_job (_ : Request) (params : dict string) : M (AdminService B) response :=
  job ← Admin.get_job (Dict.get_default "job_id" "" params);
  match job with
  | None => mret job_not_found
  | Some j => mret (ok (job_view j))
  end.

Definition delete_job (_ : Request) (params : dict string) : M (AdminService B) response :=
  deleted ← Admin.delete_job checker (Dict.get_default "job_id" "" params);
  mret (ok (PDict [("deleted", PBool deleted)])).

Definition resubmit_job (_ : Request) (params : dict string) : M (AdminService B) response :=
  new_job_id ← Admin.resubmit_job checker (Dict.get_default "job_id" "" params);
  match new_job_id with
  | None => mret job_not_found
  | Some id => mret (ok (PDict [("job_id", PStr id)]))
  end.

Definition stop_job (_ : Request) (params : dict string) : M (AdminService B) response :=
  cancelled ← Admin.cancel_job checker (Dict.get_default "job_id" "" params);
  mret (ok (PDict [("cancelled", PBool cancelled)])).

(** In the order they are declared, which is the order they are tried. *)
Definition build_router : list (Route (AdminService B)) :=
  [mkRoute "GET" "/jobs/queue/status" queue_status;
   mkRoute "GET" "/jobs" list_jobs;
   mkRoute "GET" "/jobs/{job_id}" get_job;
   mkRoute "DELETE" "/jobs/{job_id}" delete_job;
   mkRoute "POST" "/jobs/{job_id}/resubmit" resubmit_job;
   mkRoute "POST" "/jobs/{job_id}/stop" stop_job].
End router.

(** *** The application *)
Section application.
Context {B : Type} `{QueueBackend B}.
(** [match_path pattern path]: the parameters when the path matches. [unmatched]
    is the framework's answer when no route does. *)
Context (match_path : string → string → option (dict string)) (unmatched : Request → response).

Fixpoint route_request {S} (routes : list (Route S)) (rq : Request) : M S response :=
  match routes with
  | [] => mret (unmatched rq)
  | r :: routes =>
    if bool_decide (route_method r = http_method rq) then
      match match_path (pattern r) (path rq) with
      | Some params => endpoint r rq params
      | None => route_request routes rq
      end
    else route_request routes rq
  end.

Definition serve (permission_checker : Request → string → bool) (checker : option (string → bool)) (rq : Request)
    : M (AdminService B) response :=
  dispatch permission_checker (route_request (build_router checker)) rq.
End application.
End Http.

(** ** Theorems *)

(** The text of a pattern before its first parameter. *)
Fixpoint literal_part (p : string) : string :=
  match p with
  | EmptyString => EmptyString
  | String c p => if bool_decide (c = "{"%char) then EmptyString else String c (literal_part p)
  end.

(** A path matches a pattern only if it begins with its literal part. *)
Definition literal_prefix (match_path : string → string → option (dict string)) : Prop :=
  ∀ p path params, match_path p path = Some params → starts_with (literal_part p) path = true.

Lemma starts_with_trans a b s :
  starts_with a b = true → starts_with b s = true → starts_with a s = true.
Proof.
  rewrite !starts_with_spec. intros [t ->] [u ->]. exists (t +:+ u). by rewrite app_assoc_str.
Qed.

Section guarded.
Context {B : Type} `{BackendContract B}.
Context (Hcounts : ∀ b, wp get_queue_status b (λ _ b', b' = b)).

(** The routes of the read method leave everything as it was. *)
Lemma reads_keep checker rq params (a : AdminService B) r :
  backend_wf (adm_backend a) → (0 ≤ query_limit rq)%Z → r ∈ Http.build_router checker → route_method r = "GET" →
  wp (endpoint r rq params) a (λ _ a', a' = a).
Proof using Hcounts.
  intros Hwf Hlim Hr Hget. destruct a as [b au]. cbn [adm_backend] in Hwf. unfold Http.build_router in Hr.
  repeat (apply elem_of_cons in Hr as [->|Hr]; [cbn [route_method endpoint] in *; try done|]); [| | |by apply elem_of_nil in Hr].
  - unfold Http.queue_status, Admin.queue_status, Admin.on_backend. wp_steps.
    eapply wp_mono; [apply Hcounts|]. intros [c|x] b' ->; by wp_steps.
  - unfold Http.list_jobs, Admin.list_jobs, Admin.on_backend. wp_steps.
    eapply wp_mono; [by apply dequeue_status_ok|]. intros [c|x] b' [-> _]; by wp_steps.
  - unfold Http.get_job, Admin.get_job, Admin.on_backend. wp_steps.
    eapply wp_mono; [by apply get_status_ok|]. intros [[j|]|x] b' [-> _]; by wp_steps.
Qed.

(** What a request can do, whatever the routes it is tried against. *)
Lemma wp_route match_path unmatched checker rq (a : AdminService B) routes :
  literal_prefix match_path → backend_wf (adm_backend a) → (0 ≤ query_limit rq)%Z →
  (∀ r, r ∈ routes → r ∈ Http.build_router checker) →
  wp (Http.route_request match_path unmatched routes rq) a (λ _ a', a' ≠ a →
    starts_with "/jobs" (path rq) = true ∧ http_method rq ∈ ["POST"; "DELETE"]).
Proof using Hcounts.
  intros Hlit Hwf Hlim. induction routes as [|r routes IH]; intros Hin; cbn [Http.route_request]; [by wp_steps|].
  assert (Hr : r ∈ Http.build_router checker) by (apply Hin; left).
  assert (Hrest := IH (λ r' Hr', Hin r' (list_elem_of_further _ _ _ Hr'))).
  case_bool_decide as Hm; [|exact Hrest]. destruct (match_path (pattern r) (path rq)) as [params|] eqn:E; [|exact Hrest].
  apply Hlit in E. assert (Hpre : starts_with "/jobs" (path rq) = true).
  { eapply starts_with_trans; [|exact E]. clear E Hm. unfold Http.build_router in Hr.
    repeat (apply elem_of_cons in Hr as [->|Hr]; [vm_compute; reflexivity|]). by apply elem_of_nil in Hr. }
  destruct (decide (route_method r = "GET")) as [Hg|Hg].
  - eapply wp_mono; [by eapply reads_keep|]. by intros res a' -> [].
  - intros e. destruct (endpoint r rq params a e) as [[res a'] e']. intros _. split; [done|]. rewrite <- Hm.
    clear E Hm Hpre. unfold Http.build_router in Hr.
    repeat (apply elem_of_cons in Hr as [->|Hr]; [cbn in *; (by destruct Hg) || by repeat constructor|]). by apply elem_of_nil in Hr.
Qed.
End guarded.

(** C36: the permission check guards the routes. A request whose permission is
    refused gets 403 and changes nothing; and no request changes the jobs or the
    audit trail unless it is a POST with [jobs.write] or a DELETE with
    [jobs.delete]. For any backend that meets the contract and whose
    [get_queue_status] only reads, and any routing that respects literal
    prefixes. *)
Theorem http_guarded {B} `{BackendContract B} match_path unmatched permission_checker checker rq (a : AdminService B) :
  (∀ b, wp get_queue_status b (λ _ b', b' = b)) → literal_prefix match_path →
  backend_wf (adm_backend a) → (0 ≤ query_limit rq)%Z →
  wp (Http.serve match_path unmatched permission_checker checker rq) a (λ r a',
    (∀ perm, _required_permission rq = Some perm → permission_checker rq perm = false →
       r = Ok (403%Z, detail "Forbidden") ∧ a' = a) ∧
    (a' ≠ a → (http_method rq = "POST" ∧ permission_checker rq "jobs.write" = true) ∨
              (http_method rq = "DELETE" ∧ permission_checker rq "jobs.delete" = true))).
Proof.
  intros Hcounts Hlit Hwf Hlim. unfold Http.serve, dispatch.
  assert (Hroute := wp_route Hcounts match_path unmatched checker rq a _ Hlit Hwf Hlim (λ r, id)).
  unfold _required_permission. destruct (starts_with "/jobs" (path rq)); cbn [negb].
  - assert (Hgo : ∀ p, (http_method rq ∈ ["POST"; "DELETE"] →
        (http_method rq = "POST" ∧ p = "jobs.write") ∨ (http_method rq = "DELETE" ∧ p = "jobs.delete")) →
      wp (if negb (permission_checker rq p) then mret (403%Z, detail "Forbidden")
          else Http.route_request match_path unmatched (Http.build_router checker) rq) a (λ r a',
        (∀ perm, Some p = Some perm → permission_checker rq perm = false → r = Ok (403%Z, detail "Forbidden") ∧ a' = a) ∧
        (a' ≠ a → (http_method rq = "POST" ∧ permission_checker rq "jobs.write" = true) ∨
                  (http_method rq = "DELETE" ∧ permission_checker rq "jobs.delete" = true)))).
    { intros p Hp. destruct (permission_checker rq p) eqn:E; cbn [negb].
      - eapply wp_mono; [exact Hroute|]. intros r a' Hr. split; [intros perm [= <-]; congruence|].
        intros Hne. destruct (Hr Hne) as [_ Hm]. destruct (Hp Hm) as [[? ->]|[? ->]]; auto.
      - by wp_steps. }
    repeat case_bool_decide; apply Hgo; intros Hm; apply elem_of_cons in Hm as [Hm|Hm%list_elem_of_singleton];
      first [by left|by right|congruence].
  - eapply wp_mono; [exact Hroute|]. intros r a' Hr. split; [done|]. intros Hne. by destruct (Hr Hne).
Qed.

(** *** A request *)

(** Paths that match a pattern literally, or fill its one parameter with the last
    segment. *)
Definition segment_match (p path : string) : option (dict string) :=
  if bool_decide (p = path) then Some []
  else if bool_decide (p = "/jobs/{job_id}") && starts_with "/jobs/" path then
    Some [("job_id", String.substring 6 (String.length path) path)]
  else None.

Lemma literal_part_self (p : string) : starts_with (literal_part p) p = true.
Proof.
  induction p as [|c p IH]; [done|]. cbn [literal_part]. case_bool_decide; [done|].
  cbn [starts_with]. by rewrite bool_decide_eq_true_2, IH by done.
Qed.

Lemma segment_match_ok : literal_prefix segment_match.
Proof.
  intros p path params. unfold segment_match. case_bool_decide as E.
  - intros _. subst. apply literal_part_self.
  - case_bool_decide as E'; [|done]. subst. cbn [andb]. destruct (starts_with "/jobs/" path) eqn:Hs; [|done].
    intros _. exact Hs.
Qed.

Definition delete_a : Request := mkHttp "DELETE" "/jobs/a" 100.
Definition readers_only (_ : Request) (perm : string) : bool := bool_decide (perm = "jobs.read").
Definition demo_admin : AdminService Memory := mkAdmin (memory_of [sample_job "a" 0 1]) (mkAudit []).

Example serve_ex :
  let serve := Http.serve segment_match (λ _, (404%Z, detail "Not Found")) in
  answer (serve (λ _ _, true) None delete_a) demo_admin = Ok (200%Z, PDict [("deleted", PBool true)]) ∧
  (fst <$> match answer (serve readers_only None (mkHttp "GET" "/jobs/a" 100)) demo_admin with
           | Ok r => Some r | _ => None end) = Some 200%Z ∧
  answer (serve readers_only None (mkHttp "GET" "/jobs/b" 100)) demo_admin = Ok (404%Z, detail "Job not found").
Proof. repeat split; vm_compute; reflexivity. Qed.

Lemma http_guarded_witness :
  wp (Http.serve segment_match (λ _, (404%Z, detail "Not Found")) readers_only None delete_a) demo_admin (λ r a',
    (∀ perm, _required_permission delete_a = Some perm → readers_only delete_a perm = false →
       r = Ok (403%Z, detail "Forbidden") ∧ a' = demo_admin) ∧
    (a' ≠ demo_admin → (http_method delete_a = "POST" ∧ readers_only delete_a "jobs.write" = true) ∨
              (http_method delete_a = "DELETE" ∧ readers_only delete_a "jobs.delete" = true))).
Proof.
  refine (http_guarded segment_match _ readers_only None delete_a demo_admin _ segment_match_ok (memory_of_wf _) _).
  - intros b. by cbn; wp_steps.
  - discriminate.
Defined.
