(* ===== verification/Policies.v ===== *)
(** * Backoff policies

    [scheduler/policies.py]: exponential and fixed backoff over binary64 floats.
    [2 ** n] is an exact integer that is converted to a float before it is
    multiplied, and an integer too large for a float raises [OverflowError].
    [random.uniform] is a parameter. *)

From Stdlib Require Import SpecFloat.
From S2P Require Import Prelude PyValue Json Isotime Meta PyFloat.

Definition float_add : float → float → float := SFadd 53 1024.

Module Policies.
Section policies.
Context (uniform : float → float → float).

Definition exponential_backoff_seconds (attempt : Z) (base maximum : float) (jitter : bool) : result float :=
  p ← float_of_int (2 ^ Z.max attempt 0);
  let backoff := float_min (float_mul base p) maximum in
  Ok (if jitter then float_add backoff (uniform (S754_zero false) (float_mul backoff (decimal false 1 (-1))))
      else backoff).

Definition fixed_backoff_seconds (value : float) : float := float_max (S754_zero false) value.
End policies.
End Policies.

(** ** Powers of two as floats *)

Definition pow2 (n : nat) : positive := Nat.iter n xO xH.

Lemma pow2_Z n : Z.pos (pow2 n) = (2 ^ Z.of_nat n)%Z.
Proof.
  induction n as [|n IH]; [done|]. rewrite Nat2Z.inj_succ, Z.pow_succ_r by lia. rewrite <- IH. done.
Qed.

Lemma digits_pow2 n : Z.pos (digits2_pos (pow2 n)) = (Z.of_nat n + 1)%Z.
Proof. induction n as [|n IH]; [done|]. change (digits2_pos (pow2 (S n))) with (Pos.succ (digits2_pos (pow2 n))). lia. Qed.

Lemma iter_pos_nat {A} (f : A → A) p x : SpecFloat.iter_pos f p x = Nat.iter (Pos.to_nat p) f x.
Proof.
  revert x. induction p as [p IH|p IH|]; intros x; cbn [SpecFloat.iter_pos]; [..|done].
  - rewrite !IH, <- Nat.iter_add, Pos2Nat.inj_xI, Nat.iter_succ_r. f_equal. lia.
  - rewrite !IH, <- Nat.iter_add, Pos2Nat.inj_xO. f_equal. lia.
Qed.

(** Shifting a power of two loses nothing. *)
Lemma shr_pow2 k n :
  Nat.iter k shr_1 (Build_shr_record (Z.pos (pow2 (k + n))) false false) =
  Build_shr_record (Z.pos (pow2 n)) false false.
Proof. induction k as [|k IH]; [done|]. rewrite Nat.iter_succ_r. exact IH. Qed.

Lemma shr_fexp_pow2 n e : (52 ≤ n)%nat → (0 ≤ e)%Z →
  shr_fexp 53 1024 (Z.pos (pow2 n)) e loc_Exact =
    (Build_shr_record (Z.pos (pow2 52)) false false, (e + (Z.of_nat n - 52))%Z).
Proof.
  intros Hn He. unfold shr_fexp. cbn [Zdigits2 shr_record_of_loc]. rewrite digits_pow2. unfold fexp.
  replace (Z.max (Z.of_nat n + 1 + e - 53) (emin 53 1024) - e)%Z with (Z.of_nat n - 52)%Z
    by (unfold emin; lia).
  destruct (Z.of_nat n - 52)%Z as [|p|p] eqn:E; [|..|lia]; cbn [shr].
  - assert (n = 52) as -> by lia. f_equal. lia.
  - rewrite iter_pos_nat. replace n with (Pos.to_nat p + 52) by lia. by rewrite shr_pow2.
Qed.

(** A power of two above the range of the mantissa is a float or an infinity. *)
Lemma float_of_pow2 n : 53 ≤ n →
  float_of_Z (2 ^ Z.of_nat n) =
    if decide (n ≤ 1023) then S754_finite false (pow2 52) (Z.of_nat n - 52) else S754_infinity false.
Proof.
  intros Hn. unfold float_of_Z. rewrite <- pow2_Z. cbn [binary_normalize]. unfold binary_round.
  rewrite digits_pow2. unfold fexp, shl_align.
  replace (Z.max (Z.of_nat n + 1 + 0 - 53) (emin 53 1024) - 0)%Z with (Z.of_nat n - 52)%Z by (unfold emin; lia).
  destruct (Z.of_nat n - 52)%Z as [|p|p] eqn:E; [lia| |lia]. unfold binary_round_aux.
  rewrite shr_fexp_pow2 by lia. cbn [shr_m loc_of_shr_record round_nearest_even].
  rewrite shr_fexp_pow2 by lia. cbn [shr_m]. rewrite E.
  destruct (decide (n ≤ 1023)).
  - rewrite (proj2 (Z.leb_le _ _)) by lia. by f_equal.
  - by rewrite (proj2 (Z.leb_gt _ _)) by lia.
Qed.

Lemma float_of_small_pow2 n : n < 53 → float_of_Z (2 ^ Z.of_nat n) ≠ S754_infinity false ∧
  float_of_Z (2 ^ Z.of_nat n) ≠ S754_infinity true.
Proof. intros Hn. do 53 (destruct n as [|n]; [vm_compute; by split|]). lia. Qed.

Lemma float_of_int_pow2 n :
  float_of_int (2 ^ Z.of_nat n) =
    if decide (n ≤ 1023) then Ok (float_of_Z (2 ^ Z.of_nat n))
    else Err (UserError "OverflowError" "int too large to convert to float").
Proof.
  unfold float_of_int. destruct (decide (n < 53)) as [Hn|Hn].
  - rewrite decide_True by lia. destruct (float_of_small_pow2 n Hn) as [H1 H2].
    by destruct (float_of_Z (2 ^ Z.of_nat n)) as [|[]| |].
  - rewrite float_of_pow2 by lia. by case_decide.
Qed.

(** [min(x, y)] is not above [y]. *)
Lemma float_min_le_r x y : SFltb y (float_min x y) = false.
Proof. unfold float_min. destruct (SFltb y x) eqn:E; [apply SFltb_irrefl|done]. Qed.

(** ** Theorems *)

(** Exponential backoff. Up to attempt 1023 the backoff is computed, and
    without jitter it is above neither the maximum nor [base * 2 ** attempt], negative attempts
    counting as zero; from attempt 1024 on the function raises [OverflowError],
    whatever the maximum. *)
Theorem exponential_backoff_bounded uniform attempt base maximum jitter :
  match Policies.exponential_backoff_seconds uniform attempt base maximum jitter with
  | Ok d => (attempt ≤ 1023)%Z ∧ (jitter = false → SFltb maximum d = false ∧
      SFltb (float_mul base (float_of_Z (2 ^ Z.max attempt 0))) d = false)
  | Err x => (1024 ≤ attempt)%Z ∧ x = UserError "OverflowError" "int too large to convert to float"
  end.
Proof.
  unfold Policies.exponential_backoff_seconds.
  replace (Z.max attempt 0) with (Z.of_nat (Z.to_nat attempt)) by lia.
  rewrite float_of_int_pow2. case_decide; cbn [mbind result_bind]; [|split; [lia|done]].
  split; [lia|]. intros ->. split; [apply float_min_le_r|apply float_min_le].
Qed.

(** The documented default, [base=2.0, maximum=300.0], without jitter. *)
Example exponential_backoff_ex :
  let f a := Policies.exponential_backoff_seconds (λ _ _, S754_zero false) a (float_of_Z 2) (float_of_Z 300) false in
  f (-1)%Z = Ok (float_of_Z 2) ∧ f 3%Z = Ok (float_of_Z 16) ∧ f 20%Z = Ok (float_of_Z 300).
Proof. repeat split; vm_compute; reflexivity. Qed.

(** With jitter the maximum is exceeded: a draw of the whole tenth. *)
Example jitter_exceeds_maximum :
  Policies.exponential_backoff_seconds (λ _ b, b) 20 (float_of_Z 2) (float_of_Z 300) true = Ok (float_of_Z 330).
Proof. vm_compute. reflexivity. Qed.
