(* ===== verification/Config.v ===== *)
(** * Configuration and backend selection

    [config/models.py]: the settings and their construction from a dictionary, as
    read from JSON or YAML; [backends/registry.py]: which backend is used. *)

From Stdlib Require Import SpecFloat.
From S2P Require Import Prelude PyValue Json Isotime Meta PyFloat.

(** ** Settings *)

Record BackendSettings : Type := mkBackendSettings {
  preferred : string;
  sql_url : option string;
  redis_url : option string;
}.

Record RetrySettings : Type := mkRetrySettings {
  max_attempts : Z;
  initial_delay_seconds : float;
  max_delay_seconds : float;
}.

Record MaintenanceSettings : Type := mkMaintenanceSettings {
  claim_timeout_seconds : Z;
  max_age_seconds : Z;
}.

Record ConcurrencySettings : Type := mkConcurrencySettings {
  global_max : Z;
  per_type_max : Z;
  per_tenant_max : Z;
  per_user_max : Z;
}.

Record ResourcePoolSettings : Type := mkResourcePoolSettings { limits : option (dict Z) }.

Record JobsConfig : Type := mkJobsConfig {
  backend : BackendSettings;
  retry : RetrySettings;
  maintenance : MaintenanceSettings;
  payload_max_bytes : Z;
  concurrency : ConcurrencySettings;
  resource_pool : ResourcePoolSettings;
}.

(** [JobsConfig()] *)
Definition default_config : JobsConfig := mkJobsConfig
  (mkBackendSettings "memory" None None) (mkRetrySettings 3 (float_of_Z 1) (float_of_Z 30))
  (mkMaintenanceSettings 60 86400) 16384 (mkConcurrencySettings 10 5 3 2) (mkResourcePoolSettings None).

(** ** [jobs_config_from_dict] *)

(** [raw.get(key) if isinstance(raw.get(key), dict) else {}] *)
Definition subsection (raw : dict pyval) (key : string) : dict pyval :=
  match Dict.get key raw with Some (PDict d) => d | _ => [] end.

(** [int(raw.get(key, n))] *)
Definition int_setting (raw : dict pyval) (key : string) (n : Z) : result Z :=
  py_int (AVal (Dict.get_default key (PInt n) raw)).

(** [float(raw.get(key, x))] *)
Definition float_setting (raw : dict pyval) (key : string) (x : float) : result float :=
  match Dict.get key raw with Some v => py_float (AVal v) | None => Ok x end.

(** [str(raw[key]) if raw.get(key) else None] *)
Definition opt_str_setting (raw : dict pyval) (key : string) : option string :=
  match Dict.get key raw with
  | Some v => if truthy v then Some (py_str v) else None
  | None => None
  end.

(** [{str(k): int(v) for k, v in limits.items()}], or [None] when it is not a
    dictionary. *)
Definition limits_setting (raw : dict pyval) : result (option (dict Z)) :=
  match Dict.get "limits" raw with
  | Some (PDict d) =>
    l ← foldl (λ acc kv, l ← acc; n ← py_int (AVal kv.2); Ok (Dict.set kv.1 n l)) (Ok []) d;
    Ok (Some l)
  | _ => Ok None
  end.

Definition jobs_config_from_dict (raw : dict pyval) : result JobsConfig :=
  let backend_raw := subsection raw "backend" in
  let retry_raw := subsection raw "retry" in
  let maint_raw := subsection raw "maintenance" in
  let conc_raw := subsection raw "concurrency" in
  let rpool_raw := subsection raw "resource_pool" in
  rpool_limits ← limits_setting rpool_raw;
  attempts ← int_setting retry_raw "max_attempts" 3;
  initial ← float_setting retry_raw "initial_delay_seconds" (float_of_Z 1);
  top ← float_setting retry_raw "max_delay_seconds" (float_of_Z 30);
  claim ← int_setting maint_raw "claim_timeout_seconds" 60;
  age ← int_setting maint_raw "max_age_seconds" 86400;
  bytes ← int_setting raw "payload_max_bytes" 16384;
  gmax ← int_setting conc_raw "global_max" 10;
  tmax ← int_setting conc_raw "per_type_max" 5;
  nmax ← int_setting conc_raw "per_tenant_max" 3;
  umax ← int_setting conc_raw "per_user_max" 2;
  Ok (mkJobsConfig
    (mkBackendSettings (py_str (Dict.get_default "preferred" (PStr "memory") backend_raw))
       (opt_str_setting backend_raw "sql_url") (opt_str_setting backend_raw "redis_url"))
    (mkRetrySettings attempts initial top) (mkMaintenanceSettings claim age) bytes
    (mkConcurrencySettings gmax tmax nmax umax) (mkResourcePoolSettings rpool_limits)).

(** ** [select_backend] *)

Inductive Selected : Type :=
  | RedisBackendAt (url : string)
  | SqlBackendAt (url : string)
  | MemoryBackend.

(** [healthy url]: the answer of [health_check] on the Redis backend at [url]. *)
Definition select_backend (healthy : string → bool) (preferred : string) (sql_url redis_url : option string)
    : Selected :=
  match redis_url with
  | Some r =>
    if bool_decide (preferred = "redis") && truthy_str r then
      if healthy r then RedisBackendAt r
      else match sql_url with
           | Some s => if truthy_str s then SqlBackendAt s else MemoryBackend
           | None => MemoryBackend
           end
    else match sql_url with
         | Some s => if bool_decide (preferred = "sql") && truthy_str s then SqlBackendAt s else MemoryBackend
         | None => MemoryBackend
         end
  | None =>
    match sql_url with
    | Some s => if bool_decide (preferred = "sql") && truthy_str s then SqlBackendAt s else MemoryBackend
    | None => MemoryBackend
    end
  end.

(** ** Theorems *)

(** A configuration written as a dictionary, the way [dataclasses.asdict] does;
    [repr] writes a float. *)
Definition opt_text (o : option string) : pyval := match o with Some s => PStr s | None => PNone end.

Definition asdict (repr : float → string) (c : JobsConfig) : dict pyval :=
  [("backend", PDict [("preferred", PStr (preferred (backend c))); ("sql_url", opt_text (sql_url (backend c)));
                      ("redis_url", opt_text (redis_url (backend c)))]);
   ("retry", PDict [("max_attempts", PInt (max_attempts (retry c)));
                    ("initial_delay_seconds", PFloat (repr (initial_delay_seconds (retry c))));
                    ("max_delay_seconds", PFloat (repr (max_delay_seconds (retry c))))]);
   ("maintenance", PDict [("claim_timeout_seconds", PInt (claim_timeout_seconds (maintenance c)));
                          ("max_age_seconds", PInt (max_age_seconds (maintenance c)))]);
   ("payload_max_bytes", PInt (payload_max_bytes c));
   ("concurrency", PDict [("global_max", PInt (global_max (concurrency c)));
                          ("per_type_max", PInt (per_type_max (concurrency c)));
                          ("per_tenant_max", PInt (per_tenant_max (concurrency c)));
                          ("per_user_max", PInt (per_user_max (concurrency c)))]);
   ("resource_pool", PDict [("limits",
      match limits (resource_pool c) with Some l => PDict (prod_map id PInt <$> l) | None => PNone end)])].

Lemma int_limits (l : dict Z) : Dict.wf l →
  foldl (λ acc kv, l ← acc; n ← py_int (AVal kv.2); Ok (Dict.set kv.1 n l)) (Ok []) (prod_map id PInt <$> l) = Ok l.
Proof.
  intros Hwf. assert (Hgo : ∀ acc, foldl (λ acc kv, l ← acc; n ← py_int (AVal kv.2); Ok (Dict.set kv.1 n l)) (Ok acc)
    (prod_map id PInt <$> l) = Ok (foldl (λ d kv, Dict.set kv.1 kv.2 d) acc l)).
  { clear. induction l as [|[k v] l IH]; intros acc; [done|]. apply IH. }
  rewrite Hgo. by rewrite dict_of_items.
Qed.

Lemma opt_str_text (o : option string) (raw : dict pyval) key :
  Dict.get key raw = Some (opt_text o) → o ≠ Some "" → opt_str_setting raw key = o.
Proof.
  unfold opt_str_setting. intros -> Ho. destruct o as [s|]; [|done]. cbn. by rewrite bool_decide_eq_false_2 by congruence.
Qed.

Lemma float_text (raw : dict pyval) key x r f :
  Dict.get key raw = Some (PFloat r) → float_of_repr r = Some f → float_setting raw key x = Ok f.
Proof. unfold float_setting. intros -> Hr. cbn [py_float]. by rewrite Hr. Qed.

(** Configurations survive a round trip. A configuration written as a
    dictionary, its floats in decimal, is read back by [jobs_config_from_dict];
    an empty URL counts as none. *)
Theorem config_roundtrip repr (c : JobsConfig) :
  float_of_repr (repr (initial_delay_seconds (retry c))) = Some (initial_delay_seconds (retry c)) →
  float_of_repr (repr (max_delay_seconds (retry c))) = Some (max_delay_seconds (retry c)) →
  sql_url (backend c) ≠ Some "" → redis_url (backend c) ≠ Some "" →
  (∀ l, limits (resource_pool c) = Some l → Dict.wf l) →
  jobs_config_from_dict (asdict repr c) = Ok c.
Proof.
  destruct c as [[pref sql redis] [att ini top] [clm age] bytes [g t n u] [lim]].
  cbn [retry backend resource_pool initial_delay_seconds max_delay_seconds sql_url redis_url limits].
  intros Hini Htop Hsql Hredis Hlim.
  assert (Hl : limits_setting [("limits", match lim with Some l => PDict (prod_map id PInt <$> l) | None => PNone end)] = Ok lim).
  { destruct lim as [l|]; [|done]. unfold limits_setting. cbn [Dict.get]. rewrite decide_True by done.
    by rewrite int_limits by auto. }
  unfold jobs_config_from_dict.
  change (subsection (asdict repr _) "resource_pool") with
    [("limits", match lim with Some l => PDict (prod_map id PInt <$> l) | None => PNone end)].
  rewrite Hl. clear Hl Hlim.
  erewrite (float_text _ "initial_delay_seconds"); [|reflexivity|exact Hini].
  erewrite (float_text _ "max_delay_seconds"); [|reflexivity|exact Htop].
  rewrite (opt_str_text sql _ "sql_url"), (opt_str_text redis _ "redis_url") by done.
  reflexivity.
Qed.

(** Backend selection. Redis is chosen exactly when it is preferred, has a URL
    and is healthy; SQL exactly when it has a URL and is either preferred or
    stands in for a preferred Redis that has a URL and is not healthy; memory in
    every other case. *)
Theorem select_backend_exact healthy pref sql redis :
  match select_backend healthy pref sql redis with
  | RedisBackendAt r => pref = "redis" ∧ redis = Some r ∧ r ≠ "" ∧ healthy r = true
  | SqlBackendAt s => sql = Some s ∧ s ≠ "" ∧
      (pref = "sql" ∨ (pref = "redis" ∧ ∃ r, redis = Some r ∧ r ≠ "" ∧ healthy r = false))
  | MemoryBackend =>
      ¬ (pref = "redis" ∧ ∃ r, redis = Some r ∧ r ≠ "" ∧ healthy r = true) ∧
      ¬ (∃ s, sql = Some s ∧ s ≠ "" ∧
         (pref = "sql" ∨ (pref = "redis" ∧ ∃ r, redis = Some r ∧ r ≠ "" ∧ healthy r = false)))
  end.
Proof.
  unfold select_backend, truthy_str. destruct redis as [r|], sql as [s|];
    repeat (case_bool_decide; cbn [negb andb]); try destruct (healthy r) eqn:E; naive_solver congruence.
Qed.

(** A preferred Redis without a URL is replaced by memory, even when there is a
    database. *)
Example select_backend_ex : select_backend (λ _, true) "redis" (Some "sqlite://") None = MemoryBackend.
Proof. reflexivity. Qed.

(** One and thirty, the two floats of the defaults. *)
Definition demo_repr (f : float) : string := if SFeqb f (float_of_Z 1) then "1.0" else "30.0".
Definition demo_config : JobsConfig := mkJobsConfig
  (mkBackendSettings "sql" (Some "sqlite://") None) (retry default_config) (maintenance default_config) 1024
  (concurrency default_config) (mkResourcePoolSettings (Some [("gpu", 2%Z)])).

Lemma config_roundtrip_witness : jobs_config_from_dict (asdict demo_repr demo_config) = Ok demo_config.
Proof.
  refine (config_roundtrip demo_repr demo_config _ _ _ _ _); [vm_compute; reflexivity..|discriminate|discriminate|].
  intros l [= <-]. repeat constructor; set_solver.
Defined.

Example config_defaults_ex : jobs_config_from_dict [("retry", PStr "ignored")] = Ok default_config.
Proof. vm_compute. reflexivity. Qed.
