(* ===== verification/Conformance.v ===== *)
(** * Backend conformance

    [testing/conformance.py]: the basic suite a backend implementation is run
    through, as a program over a queue and its backend, which the suite calls
    directly too. *)

From S2P Require Import Prelude PyValue Domain Backend MemoryBackend Security Idempotency.
From S2P Require Import Observability Graph Dependency Queue.

Module Conformance.
Section suite.
Context {B : Type} `{QueueBackend B}.

(** [assert b] *)
Definition check (b : bool) : M (JobQueue B) unit :=
  if b then mret tt else raise (UserError "AssertionError" "").

Definition ping : JobRequest :=
  new_request "conformance.ping" <| req_payload := [("ok", PBool true)] |> <| req_priority := 1%Z |>.

(** Lines 36-48. *)
Definition check_lifecycle (job_id : string) : M (JobQueue B) unit :=
  listed ← Queue.list 10 None;
  check (existsb (λ j, bool_decide (Domain.job_id j = job_id)) listed);;
  claimed ← Queue.on_backend (claim job_id "conf-host" "conf-worker");
  check claimed;;
  job ← Queue.get job_id;
  check match job with Some j => bool_decide (status j ∈ [RUNNING; QUEUED]) | None => false end;;
  updated ← Queue.on_backend (update_status job_id (value SUCCEEDED));
  check updated;;
  final ← Queue.get job_id;
  check match final with Some j => bool_decide (status j = SUCCEEDED) | None => false end.

(** On [JobQueue(backend)]. *)
Definition run_basic_backend_conformance : M (JobQueue B) unit :=
  job_id ← Queue.submit ping;
  check (truthy_str job_id);;
  check_lifecycle job_id.
End suite.
End Conformance.

(** The only job of a backend is offered. *)
Definition offers_job (B : Type) `{BackendContract B} : Prop :=
  ∀ (b : B) id, backend_wf b → statuses b = {[id := QUEUED]} →
    wp (dequeue 10 None None) b (λ r b', ∃ l, r = Ok l ∧ id ∈ job_id <$> l).

Section suite_passes.
Context {B : Type} `{BackendContract B} (Hoffers : offers_job B).

(** After the submission: the calls on the backend, one after the other. *)
Lemma check_lifecycle_ok (q : JobQueue B) id :
  backend_wf (q_backend q) → statuses (q_backend q) = {[id := QUEUED]} →
  wp (Conformance.check_lifecycle id) q (λ r q', r = Ok tt ∧ statuses (q_backend q') = {[id := SUCCEEDED]}).
Proof using Hoffers.
  destruct q as [b mx i au tr]. cbn [q_backend]. intros Hwf Hst.
  unfold Conformance.check_lifecycle, Queue.list, Queue.get, Queue.on_backend, Conformance.check. wp_steps.
  eapply wp_mono; [apply wp_conj; [by apply Hoffers|apply (dequeue_status_ok b 10 None None); done]|].
  intros r b' [(l & -> & Hin) [-> _]]. cbn beta iota.
  assert (existsb (λ j, bool_decide (job_id j = id)) l = true) as ->.
  { apply existsb_exists. apply list_elem_of_fmap in Hin as (j & -> & Hj). exists j.
    split; [by apply list_elem_of_In|]. by apply bool_decide_eq_true. }
  wp_steps. eapply wp_mono; [by apply claim_ok|]. intros r b1 (Hwf1 & -> & Hst1). cbn beta iota.
  cbn [q_backend set_field] in *. rewrite Hst, lookup_singleton_eq in Hst1 |- *.
  rewrite bool_decide_eq_true_2 by done. rewrite decide_True, insert_singleton_eq in Hst1 by done. wp_steps.
  eapply wp_mono; [by apply get_status_ok|]. intros r b2 (-> & oj & -> & Hoj & _). cbn beta iota.
  cbn [q_backend set_field] in *.
  rewrite Hst1, lookup_singleton_eq in Hoj. destruct oj as [j|]; [|done]. injection Hoj as Hoj.
  rewrite Hoj. rewrite bool_decide_eq_true_2 by left. wp_steps.
  eapply wp_mono; [by apply update_status_ok|]. intros r b3 (Hwf3 & -> & Hst3). cbn beta iota.
  cbn [q_backend set_field] in *. rewrite Hst1 in Hst3 |- *. rewrite lookup_singleton_eq, bool_decide_eq_true_2 by done. wp_steps.
  rewrite alter_singleton_eq in Hst3.
  eapply wp_mono; [by apply get_status_ok|]. intros r b4 (-> & oj & -> & Hoj' & _). cbn beta iota.
  cbn [q_backend set_field] in *. rewrite Hst3, lookup_singleton_eq in Hoj'. destruct oj as [j'|]; [|done]. injection Hoj' as ->.
  rewrite bool_decide_eq_true_2 by done. by wp_steps.
Qed.
End suite_passes.

(** The conformance suite accepts every backend that meets the contract. On an
    empty backend that meets it and offers its only job, all assertions of the
    basic suite hold, and the suite leaves one job, succeeded. *)
Theorem conformance_accepts_contract {B} `{BackendContract B} (b : B) e :
  offers_job B → backend_wf b → statuses b = ∅ → env_uuid e (env_ids e) ≠ "" →
  let '(r, q', _) := Conformance.run_basic_backend_conformance (Queue.new b) e in
  r = Ok tt ∧ statuses (q_backend q') = {[env_uuid e (env_ids e) := SUCCEEDED]}.
Proof.
  intros Hoffers Hwf Hempty Hid. set (id := env_uuid e (env_ids e)) in *.
  assert (Hacc : acceptable (Queue.new b) Conformance.ping).
  { split; [by vm_compute|]. rewrite <- payload_secret_iff. by vm_compute. }
  assert (Hsub : let '(res, q1, _) := Queue.submit Conformance.ping (Queue.new b) e in
    res = Ok id ∧ backend_wf (q_backend q1) ∧ statuses (q_backend q1) = {[id := QUEUED]}).
  { pose proof (submit_plain (Queue.new b) Conformance.ping e Hwf Hacc eq_refl eq_refl) as Hplain. cbn in Hplain.
    rewrite Hempty in Hplain. specialize (Hplain (lookup_empty _)).
    destruct (Queue.submit _ _ e) as [[res q1] e1]. by rewrite insert_empty in Hplain. }
  unfold Conformance.run_basic_backend_conformance. unfold mbind at 1, M_bind at 1.
  destruct (Queue.submit Conformance.ping (Queue.new b) e) as [[res q1] e1]. destruct Hsub as (-> & Hwf1 & Hst1).
  assert (truthy_str id = true) as -> by (unfold truthy_str; by rewrite bool_decide_eq_false_2).
  by apply check_lifecycle_ok.
Qed.

Lemma memory_offers_job : offers_job Memory.
Proof.
  intros b id Hwf Hst. apply memory_dequeue_run. eexists. split; [done|].
  assert (Hd : ∀ i, status <$> Dict.get i (_jobs b) = ({[id := QUEUED]} : queue_spec) !! i).
  { intros i. rewrite <- Hst. symmetry. by apply memory_lookup. }
  pose proof (Hd id) as Hg. rewrite lookup_singleton_eq in Hg. destruct (Dict.get id (_jobs b)) as [j|] eqn:Ej; [|done].
  injection Hg as Hj. pose proof (proj2 Hwf _ _ Ej) as Hjid.
  assert (Hin : j ∈ dispatch_order None None b) by (apply dispatch_order_elem; [done|]; by rewrite Hjid).
  assert (Hall : ∀ x, x ∈ dispatch_order None None b → job_id x = id).
  { intros x (Hx & _)%dispatch_order_elem; [|done]. pose proof (Hd (job_id x)) as Hx'. rewrite Hx in Hx'.
    symmetry in Hx'. by apply lookup_singleton_Some in Hx' as [? _]. }
  rewrite slice_to_nonneg by done. destruct (dispatch_order None None b) as [|x l]; [by apply elem_of_nil in Hin|].
  change (take (Z.to_nat 10) (x :: l)) with (x :: take 9 l). rewrite fmap_cons, (Hall x) by left. left.
Qed.

Lemma conformance_accepts_contract_witness :
  let '(r, q', _) := Conformance.run_basic_backend_conformance (Queue.new (mkMemory [])) env0 in
  r = Ok tt ∧ statuses (q_backend q') = {[env_uuid env0 (env_ids env0) := SUCCEEDED]}.
Proof.
  refine (conformance_accepts_contract (mkMemory []) env0 memory_offers_job memory_empty_wf eq_refl _).
  vm_compute. discriminate.
Defined.
