(* ===== verification/Registry.v ===== *)
(** * Service registry

    [broker/registry.py]: services register, send heartbeats and are looked up,
    in the process and, when there is a Redis client, in one Redis hash of JSON
    documents that all processes share. Times are floats: [seconds] is
    [time.time()] for a reading of the clock and [repr] writes a float, both
    parameters. Other tasks may run at each [await], so a heartbeat is also
    given as its two halves. Only this class writes the hash. *)

From Stdlib Require Import SpecFloat.
From S2P Require Import Prelude PyValue Json Isotime Meta PyFloat RedisClient.

(** ** [ServiceRecord] *)

Record ServiceRecord : Type := mkService {
  service_id : string;
  service_type : string;
  service_endpoint : string;
  capabilities : list string;
  service_max_concurrent : Z;
  registered_at : float;
  last_heartbeat : float;
  service_metadata : dict pyval;
}.

#[export] Instance ServiceRecord_eta : Eta ServiceRecord := λ r, mkService (service_id r) (service_type r)
  (service_endpoint r) (capabilities r) (service_max_concurrent r) (registered_at r) (last_heartbeat r) (service_metadata r).

(** ** [ServiceRegistry] *)

Definition REDIS_KEY : string := "cdjobs:broker:services".

Record ServiceRegistry (C : Type) : Type := mkRegistry {
  _local : dict ServiceRecord;
  _redis : option C;
  _heartbeat_timeout : float;
}.
Arguments mkRegistry {C}.
Arguments _local {C}.
Arguments _redis {C}.
Arguments _heartbeat_timeout {C}.

(** ** Documents *)

(** Fields of a document; one of another type is an error here. *)
Definition text_field (key : string) (d : dict pyval) : result string :=
  match Dict.get key d with Some (PStr s) => Ok s | _ => Err type_error end.

Definition texts_field (key : string) (d : dict pyval) : result (list string) :=
  match Dict.get key d with
  | None => Ok []
  | Some (PList l) => foldr (λ v acc, l ← acc; match v with PStr s => Ok (s :: l) | _ => Err type_error end) (Ok []) l
  | Some _ => Err type_error
  end.

Definition int_field (key : string) (n : Z) (d : dict pyval) : result Z :=
  match Dict.get key d with None => Ok n | Some (PInt z) => Ok z | Some _ => Err type_error end.

Definition dict_field (key : string) (d : dict pyval) : result (dict pyval) :=
  match Dict.get key d with None => Ok [] | Some (PDict x) => Ok x | Some _ => Err type_error end.

Section time.
Context (seconds : Z → float) (repr : float → string).

(** [time.time()] *)
Definition time {S} : M S float := t ← utcnow; mret (seconds t).

Definition is_alive {S} (timeout_seconds : float) (r : ServiceRecord) : M S bool :=
  now ← time;
  mret (SFltb (SFsub 53 1024 now (last_heartbeat r)) timeout_seconds).

(** [asdict(self)] *)
Definition to_dict (r : ServiceRecord) : dict pyval :=
  [("service_id", PStr (service_id r)); ("service_type", PStr (service_type r));
   ("endpoint", PStr (service_endpoint r)); ("capabilities", PList (PStr <$> capabilities r));
   ("max_concurrent", PInt (service_max_concurrent r)); ("registered_at", PFloat (repr (registered_at r)));
   ("last_heartbeat", PFloat (repr (last_heartbeat r))); ("metadata", PDict (service_metadata r))].

(** A time that is missing is read from the clock. *)
Definition time_field {S} (key : string) (d : dict pyval) : M S float :=
  match Dict.get key d with
  | None => time
  | Some (PFloat r) => lift (py_float (AVal (PFloat r)))
  | Some (PInt z) => lift (py_float (AVal (PInt z)))
  | Some _ => raise type_error
  end.

(** Unknown keys are dropped. *)
Definition from_dict {S} (d : dict pyval) : M S ServiceRecord :=
  id ← lift (text_field "service_id" d);
  ty ← lift (text_field "service_type" d);
  ep ← lift (text_field "endpoint" d);
  caps ← lift (texts_field "capabilities" d);
  n ← lift (int_field "max_concurrent" 10 d);
  reg ← time_field "registered_at" d;
  hb ← time_field "last_heartbeat" d;
  meta ← lift (dict_field "metadata" d);
  mret (mkService id ty ep caps n reg hb meta).

(** [ServiceRecord.from_dict(json.loads(raw))] *)
Definition from_json {S} (raw : string) : M S ServiceRecord :=
  v ← lift (json_loads raw);
  match v with PDict d => from_dict d | _ => raise type_error end.

(** ** Requests *)

Section registry.
Context {C : Type} `{RedisClient C}.
Abbreviation self := (ServiceRegistry C).

(** [if self._redis: ...] *)
Definition with_redis {A} (m : M C A) : M self (option A) :=
  zoom_opt _redis (λ c s, mkRegistry (_local s) (Some c) (_heartbeat_timeout s)) m.

Definition on_local (f : dict ServiceRecord → dict ServiceRecord) : M self unit :=
  modify (λ s, mkRegistry (f (_local s)) (_redis s) (_heartbeat_timeout s)).

Definition register (record : ServiceRecord) : M self unit :=
  on_local (Dict.set (service_id record) record);;
  _ ← with_redis (hset REDIS_KEY [(service_id record, dumps (PDict (to_dict record)))]);
  mret tt.

Definition deregister (id : string) : M self unit :=
  on_local (Dict.pop id);;
  _ ← with_redis (hdel REDIS_KEY id);
  mret tt.

(** Lines 76-81: up to the answer of [hget]. *)
Definition heartbeat_read (id : string) : M self (bool * option (option string)) :=
  record ← gets (λ s : self, Dict.get id (_local s));
  match record with
  | Some _ => now ← time; on_local (Dict.update id (λ r, r <| last_heartbeat := now |>))
  | None => mret tt
  end;;
  raw ← with_redis (hget REDIS_KEY id);
  mret (bool_decide (is_Some record), raw).

(** Lines 82-87. *)
Definition heartbeat_write (id : string) (read : bool * option (option string)) : M self bool :=
  match read.2 with
  | Some (Some raw) =>
    if truthy_str raw then
      v ← lift (json_loads raw);
      match v with
      | PDict data =>
        now ← time;
        _ ← with_redis (hset REDIS_KEY [(id, dumps (PDict (Dict.set "last_heartbeat" (PFloat (repr now)) data)))]);
        mret true
      | _ => raise type_error
      end
    else mret read.1
  | _ => mret read.1
  end.

Definition heartbeat (id : string) : M self bool :=
  read ← heartbeat_read id; heartbeat_write id read.

(** The comprehensions of [list_services]. *)
Definition keep_alive (timeout : float) (records : list ServiceRecord) : M self (list ServiceRecord) :=
  foldM (λ out r, alive ← is_alive timeout r; mret (if (alive : bool) then out ++ [r] else out)) [] records.

Definition list_services (service_type' : option string) (alive_only : bool) : M self (list ServiceRecord) :=
  raw_all ← with_redis (hgetall REDIS_KEY);
  records ← match raw_all with
            | Some h => foldM (λ out (kv : string * string), r ← from_json kv.2; mret (out ++ [r])) [] (map_to_list h)
            | None => gets (λ s : self, Dict.values (_local s))
            end;
  timeout ← gets (_heartbeat_timeout : self → float);
  records ← (if alive_only then keep_alive timeout records else mret records);
  mret (if truthy_opt_str service_type'
        then filter (λ r, service_type r = default "" service_type') records else records).

Definition get (id : string) : M self (option ServiceRecord) :=
  answer ← with_redis (hget REDIS_KEY id);
  match answer with
  | Some (Some raw) => if truthy_str raw then r ← from_json raw; mret (Some r) else mret None
  | Some None => mret None
  | None => gets (λ s : self, Dict.get id (_local s))
  end.
End registry.
End time.

(** ** The shared hash *)

Definition hash_of (m : redis_map) : option hash :=
  match m !! REDIS_KEY with
  | None => Some ∅
  | Some (RHash h) => Some h
  | Some _ => None
  end.

Lemma aged_hash m m' h : aged m m' → hash_of m = Some h → hash_of m' = Some h.
Proof.
  intros Ha Hh. unfold hash_of in *. destruct (Ha REDIS_KEY) as [->|[-> (s & Hs)]]; [done|]. by rewrite Hs in Hh.
Qed.

Section hash.
Context {C : Type} `{RedisLaws C}.
Implicit Types (c : C).

Lemma wp_hset_service c h id raw (Q : result unit → C → Prop) :
  hash_of (db c) = Some h → (∀ c', hash_of (db c') = Some (<[id := raw]> h) → Q (Ok tt) c') →
  wp (hset REDIS_KEY [(id, raw)]) c Q.
Proof.
  intros Hh HQ. eapply wp_mono; [by apply hset_ok|]. intros r c' (m & Ha & E). apply (aged_hash _ _ _ Ha) in Hh.
  unfold do_hset, hash_of in *. destruct (m !! REDIS_KEY) as [[h'| |]|]; [|done|done|].
  - injection Hh as ->. injection E as -> Edb. apply HQ. unfold hash_of. by rewrite Edb, lookup_insert_eq.
  - injection Hh as <-. injection E as -> Edb. apply HQ. unfold hash_of. by rewrite Edb, lookup_insert_eq.
Qed.

Lemma wp_hget_service c h id (Q : result (option string) → C → Prop) :
  hash_of (db c) = Some h → (∀ c', hash_of (db c') = Some h → Q (Ok (h !! id)) c') →
  wp (hget REDIS_KEY id) c Q.
Proof.
  intros Hh HQ. eapply wp_mono; [by apply hget_ok|]. intros r c' (Ha & ->). apply (aged_hash _ _ _ Ha) in Hh.
  assert (do_hget REDIS_KEY id (db c') = Ok (h !! id)) as ->; [|by apply HQ].
  unfold do_hget, hash_of in *. destruct (db c' !! REDIS_KEY) as [[h'| |]|]; [|done|done|]; by injection Hh as <-.
Qed.

Lemma wp_hdel_service c h id (Q : result unit → C → Prop) :
  hash_of (db c) = Some h → (∀ c', hash_of (db c') = Some (delete id h) → Q (Ok tt) c') →
  wp (hdel REDIS_KEY id) c Q.
Proof.
  intros Hh HQ. eapply wp_mono; [by apply hdel_ok|]. intros r c' (m & Ha & E). apply (aged_hash _ _ _ Ha) in Hh.
  unfold do_hdel, hash_of in *. destruct (m !! REDIS_KEY) as [[h'| |]|] eqn:Em; [|done|done|].
  - injection Hh as ->. injection E as -> Edb. apply HQ. unfold hash_of. rewrite Edb.
    case_decide as Hd; [by rewrite lookup_delete_eq, Hd|by rewrite lookup_insert_eq].
  - injection Hh as <-. injection E as -> Edb. apply HQ. unfold hash_of. by rewrite Edb, Em, delete_empty.
Qed.
End hash.

(** ** Documents read back *)

Section documents.
Context (seconds : Z → float) (repr : float → string).

(** A float that reads back from its text. *)
Definition written (f : float) : Prop := float_of_repr (repr f) = Some f.

Definition writable (r : ServiceRecord) : Prop :=
  json_ok (PDict (to_dict repr r)) ∧ written (registered_at r) ∧ written (last_heartbeat r).

Lemma wp_lift_ok {S A} (r : result A) a (s : S) (Q : result A → S → Prop) :
  r = Ok a → Q (Ok a) s → wp (lift r) s Q.
Proof. intros -> HQ. by apply wp_lift. Qed.

Lemma texts_field_map key (l : list string) (d : dict pyval) :
  Dict.get key d = Some (PList (PStr <$> l)) → texts_field key d = Ok l.
Proof.
  unfold texts_field. intros ->. induction l as [|s l IH]; [done|]. cbn [fmap list_fmap foldr]. by rewrite IH.
Qed.

Lemma wp_from_dict {S} r (s : S) (Q : result ServiceRecord → S → Prop) :
  written (registered_at r) → written (last_heartbeat r) → Q (Ok r) s → wp (from_dict seconds (to_dict repr r)) s Q.
Proof.
  unfold written. intros Hreg Hhb HQ. destruct r as [id ty ep caps n reg hb meta].
  cbn [registered_at last_heartbeat] in *.
  assert (Htime : ∀ key f (Q : result float → S → Prop),
    Dict.get key (to_dict repr (mkService id ty ep caps n reg hb meta)) = Some (PFloat (repr f)) →
    float_of_repr (repr f) = Some f → Q (Ok f) s →
    wp (time_field seconds key (to_dict repr (mkService id ty ep caps n reg hb meta))) s Q).
  { intros key f Q' Hg Hf HQ'. unfold time_field. rewrite Hg. apply wp_lift. cbn [py_float]. by rewrite Hf. }
  unfold from_dict. do 3 (wp_steps; eapply wp_lift_ok; [reflexivity|]).
  wp_steps. eapply wp_lift_ok; [by apply texts_field_map|]. wp_steps. eapply wp_lift_ok; [reflexivity|].
  wp_steps. apply (Htime "registered_at" reg); [done|done|]. wp_steps. apply (Htime "last_heartbeat" hb); [done|done|].
  wp_steps. eapply wp_lift_ok; [reflexivity|]. by wp_steps.
Qed.

Lemma wp_from_json {S} r (s : S) (Q : result ServiceRecord → S → Prop) :
  writable r → Q (Ok r) s → wp (from_json seconds (dumps (PDict (to_dict repr r)))) s Q.
Proof.
  intros (Hok & Hreg & Hhb) HQ. unfold from_json. wp_steps. apply wp_lift. unfold json_loads.
  rewrite loads_dumps by done. cbn beta iota. by apply wp_from_dict.
Qed.

Lemma dumps_dict_truthy d : truthy_str (dumps (PDict d)) = true.
Proof. done. Qed.

(** The heartbeat of a record, in its document. *)
Lemma to_dict_heartbeat r now :
  Dict.set "last_heartbeat" (PFloat (repr now)) (to_dict repr r) = to_dict repr (r <| last_heartbeat := now |>).
Proof. by destruct r. Qed.

(** Times read from the clock are written as JSON numbers. *)
Definition clock_written : Prop := ∀ t, datetime_ok t →
  written (seconds t) ∧ json_ok (PFloat (repr (seconds t))).

Lemma writable_heartbeat r t : clock_written → datetime_ok t → writable r → writable (r <| last_heartbeat := seconds t |>).
Proof.
  intros Hclock Ht (Hok & Hreg & _). destruct (Hclock t Ht) as [Hw Hj]. split_and!; [|by destruct r|by destruct r].
  rewrite <- to_dict_heartbeat. apply json_ok_set; [done|by apply python_str_ascii|done].
Qed.
End documents.

(** ** Requests over Redis *)

Section requests.
Context {C : Type} `{RedisLaws C} (seconds : Z → float) (repr : float → string).
Implicit Types (s : ServiceRegistry C) (c : C).

(** What a process with client [c] finds under [id]. *)
Definition finds (c : C) (id : string) (o : option ServiceRecord) : Prop :=
  ∀ l timeout, wp (get seconds id) (mkRegistry l (Some c) timeout) (λ r _, r = Ok o).

(** The hash holds the document of [o] under [id]. *)
Definition holds (c : C) (h : hash) (id : string) (o : option ServiceRecord) : Prop :=
  hash_of (db c) = Some h ∧ h !! id = (λ r, dumps (PDict (to_dict repr r))) <$> o ∧
  ∀ r, o = Some r → writable repr r.

Lemma holds_finds c h id o : holds c h id o → finds c id o.
Proof using Type.
  intros (Hh & Hid & Hok) l timeout. unfold get, with_redis. wp_steps. apply wp_zoom_opt. cbn [_redis].
  apply (wp_hget_service c h id); [done|]. intros c' _. cbn beta iota. rewrite Hid. destruct o as [r|]; cbn [fmap option_fmap option_map].
  - rewrite dumps_dict_truthy. wp_steps. apply wp_from_json; [by apply Hok|]. by wp_steps.
  - by wp_steps.
Qed.

Lemma wp_register r s c h (Q : result unit → ServiceRegistry C → Prop) :
  _redis s = Some c → hash_of (db c) = Some h → writable repr r →
  (∀ s' c', _redis s' = Some c' →
     holds c' (<[service_id r := dumps (PDict (to_dict repr r))]> h) (service_id r) (Some r) → Q (Ok tt) s') →
  wp (register repr r) s Q.
Proof using Type.
  intros Hc Hh Hr HQ. unfold register, on_local, with_redis. wp_steps. apply wp_zoom_opt. cbn [_redis]. rewrite Hc.
  apply (wp_hset_service c h); [done|]. intros c' Hh'. wp_steps. eapply HQ; [done|]. split; [done|].
  split; [by rewrite lookup_insert_eq|]. by intros r' [= <-].
Qed.

Lemma wp_deregister id s c h (Q : result unit → ServiceRegistry C → Prop) :
  _redis s = Some c → hash_of (db c) = Some h →
  (∀ s' c', _redis s' = Some c' → holds c' (delete id h) id None → Q (Ok tt) s') →
  wp (deregister id) s Q.
Proof using Type.
  intros Hc Hh HQ. unfold deregister, on_local, with_redis. wp_steps. apply wp_zoom_opt. cbn [_redis]. rewrite Hc.
  apply (wp_hdel_service c h); [done|]. intros c' Hh'. wp_steps. eapply HQ; [done|]. split; [done|].
  split; [by rewrite lookup_delete_eq|done].
Qed.

Lemma wp_heartbeat_read id s c h (Q : result (bool * option (option string)) → ServiceRegistry C → Prop) :
  _redis s = Some c → hash_of (db c) = Some h →
  (∀ b s' c', _redis s' = Some c' → hash_of (db c') = Some h → Q (Ok (b, Some (h !! id))) s') →
  wp (heartbeat_read seconds id) s Q.
Proof using Type.
  intros Hc Hh HQ. unfold heartbeat_read, time, on_local, with_redis. wp_steps.
  set (b := bool_decide _).
  assert (Hget : ∀ s', _redis s' = Some c →
    wp (zoom_opt _redis (λ c s, mkRegistry (_local s) (Some c) (_heartbeat_timeout s)) (hget REDIS_KEY id)) s'
    (λ r s'', match r with Ok raw => wp (mret (b, raw)) s'' Q | Err x => Q (Err x) s'' end)).
  { intros s' Hs'. apply wp_zoom_opt. rewrite Hs'. apply (wp_hget_service c h); [done|]. intros c' Hh'. wp_steps. by eapply HQ. }
  destruct (Dict.get id (_local s)); wp_steps; by apply Hget.
Qed.

Lemma wp_heartbeat_write id r b s c h (Q : result bool → ServiceRegistry C → Prop) :
  clock_written seconds repr → writable repr r → _redis s = Some c → hash_of (db c) = Some h →
  (∀ t s' c' h', _redis s' = Some c' → holds c' h' id (Some (r <| last_heartbeat := seconds t |>)) → Q (Ok true) s') →
  wp (heartbeat_write seconds repr id (b, Some (Some (dumps (PDict (to_dict repr r)))))) s Q.
Proof using Type.
  intros Hclock Hr Hc Hh HQ. unfold heartbeat_write. cbn [snd]. rewrite dumps_dict_truthy. wp_steps. apply wp_lift.
  unfold json_loads. rewrite loads_dumps by apply Hr. cbn beta iota. unfold time.
  do 2 apply wp_bind. apply wp_utcnow. intros t Ht. wp_steps. unfold with_redis. apply wp_zoom_opt. rewrite Hc.
  rewrite to_dict_heartbeat. apply (wp_hset_service c h); [done|]. intros c' Hh'. wp_steps.
  eapply (HQ t); [done|]. split; [done|]. split; [by rewrite lookup_insert_eq|].
  intros r' [= <-]. by apply writable_heartbeat.
Qed.

End requests.

(** C38: services are visible to every process. Over Redis, once [register] has
    returned, any process with the same Redis finds the registered record under
    its identifier; a heartbeat from any process answers [True] and replaces
    the time of the last heartbeat by a reading of the clock, which every process
    then finds; and after [deregister] no process finds the service. *)
Theorem service_visible_everywhere {C} `{RedisLaws C} seconds repr (s : ServiceRegistry C) c h r :
  clock_written seconds repr → writable repr r → _redis s = Some c → hash_of (db c) = Some h →
  wp (register repr r) s (λ res s1, res = Ok tt ∧ ∃ c1, _redis s1 = Some c1 ∧
    finds seconds c1 (service_id r) (Some r) ∧
    ∀ l timeout, wp (heartbeat seconds repr (service_id r)) (mkRegistry l (Some c1) timeout) (λ res s2,
      res = Ok true ∧ ∃ c2 t, _redis s2 = Some c2 ∧
      finds seconds c2 (service_id r) (Some (r <| last_heartbeat := seconds t |>)) ∧
      wp (deregister (service_id r)) s2 (λ res s3, res = Ok tt ∧ ∃ c3, _redis s3 = Some c3 ∧
        finds seconds c3 (service_id r) None))).
Proof.
  intros Hclock Hr Hc Hh. eapply wp_register; [done..|]. intros s1 c1 Hc1 Hh1. split; [done|].
  exists c1. split; [done|]. split; [by eapply holds_finds|]. intros l timeout. destruct Hh1 as (Hh1 & Hid1 & _).
  unfold heartbeat. wp_steps. eapply wp_heartbeat_read; [done|exact Hh1|]. intros b s2 c2 Hc2 Hh2. rewrite Hid1. cbn [fmap option_fmap option_map].
  eapply wp_heartbeat_write; [done|done|done|exact Hh2|]. intros t s3 c3 h3 Hc3 Hh3. split; [done|].
  exists c3, t. split; [done|]. split; [by eapply holds_finds|].
  eapply (wp_deregister repr); [done|apply Hh3|]. intros s4 c4 Hc4 Hh4. split; [done|]. exists c4.
  split; [done|]. by eapply holds_finds.
Qed.

(** A heartbeat can bring a removed service back. A heartbeat reads the document
    and writes it again; when another process deregisters the service in
    between, and returns, the heartbeat still answers [True] and every process
    finds the service again. *)
Theorem heartbeat_resurrects {C} `{RedisLaws C} seconds repr (s : ServiceRegistry C) c h r id :
  clock_written seconds repr → _redis s = Some c → holds repr c h id (Some r) →
  wp (heartbeat_read seconds id) s (λ res s1, ∃ read c1, res = Ok read ∧ _redis s1 = Some c1 ∧
    ∀ l timeout, wp (deregister id) (mkRegistry l (Some c1) timeout) (λ res2 s2,
      res2 = Ok tt ∧ ∃ c2, _redis s2 = Some c2 ∧ finds seconds c2 id None ∧
      wp (heartbeat_write seconds repr id read) (mkRegistry (_local s1) (Some c2) (_heartbeat_timeout s1)) (λ res3 s3,
        res3 = Ok true ∧ ∃ c3 t, _redis s3 = Some c3 ∧
        finds seconds c3 id (Some (r <| last_heartbeat := seconds t |>))))).
Proof.
  intros Hclock Hc (Hh & Hid & Hr). eapply wp_heartbeat_read; [done..|]. intros b s1 c1 Hc1 Hh1.
  eexists _, c1. split; [done|]. split; [done|]. intros l timeout.
  eapply (wp_deregister repr); [done|done|]. intros s2 c2 Hc2 Hh2. split; [done|]. exists c2. split; [done|].
  split; [by eapply holds_finds|]. rewrite Hid. cbn [fmap option_fmap option_map].
  eapply wp_heartbeat_write; [done|by apply Hr|done|apply Hh2|]. intros t s3 c3 h3 Hc3 Hh3. split; [done|].
  exists c3, t. split; [done|]. by eapply holds_finds.
Qed.

(** *** Two processes *)

(** Whole seconds, written with a zero decimal, for a clock that is written so. *)
Definition demo_repr (f : float) : string :=
  if SFeqb f (float_of_Z 1) then "1.0" else "0.0".
Definition demo_seconds (t : Z) : float := if (t =? 1000000)%Z then float_of_Z 1 else S754_zero false.

Lemma demo_clock : clock_written demo_seconds demo_repr.
Proof.
  intros t _. unfold demo_seconds. destruct (t =? 1000000)%Z; (split; [vm_compute; reflexivity|apply ok_float; vm_compute; reflexivity]).
Qed.

Definition demo_service : ServiceRecord :=
  mkService "s1" "llm" "http://llm" ["chat"] 4 (float_of_Z 1) (float_of_Z 1) [("zone", PStr "eu")].

Lemma demo_writable : writable demo_repr demo_service.
Proof.
  split; [|split; vm_compute; reflexivity].
  constructor; [vm_compute; repeat constructor; set_solver|repeat apply Forall_cons_2; try apply Forall_nil_2; by apply python_str_ascii|].
  repeat apply Forall_cons_2; try apply Forall_nil_2; cbn [snd].
  1-3: by apply ok_str, python_str_ascii.
  - apply ok_list. apply Forall_singleton. by apply ok_str, python_str_ascii.
  - apply ok_int.
  - apply ok_float. vm_compute. reflexivity.
  - apply ok_float. vm_compute. reflexivity.
  - apply (json_ok_set []); [|by apply python_str_ascii|by apply ok_str, python_str_ascii].
    constructor; [apply Dict.wf_nil|apply Forall_nil_2..].
Qed.

Definition process (m : redis_map) : ServiceRegistry redis_map := mkRegistry [] (Some m) (float_of_Z 120).

Lemma service_visible_everywhere_witness :
  let s := process ∅ in
  wp (register demo_repr demo_service) s (λ res s1, res = Ok tt ∧ ∃ c1, _redis s1 = Some c1 ∧
    finds demo_seconds c1 "s1" (Some demo_service) ∧
    ∀ l timeout, wp (heartbeat demo_seconds demo_repr "s1") (mkRegistry l (Some c1) timeout) (λ res s2,
      res = Ok true ∧ ∃ c2 t, _redis s2 = Some c2 ∧
      finds demo_seconds c2 "s1" (Some (demo_service <| last_heartbeat := demo_seconds t |>)) ∧
      wp (deregister "s1") s2 (λ res s3, res = Ok tt ∧ ∃ c3, _redis s3 = Some c3 ∧
        finds demo_seconds c3 "s1" None))).
Proof.
  intros s. exact (service_visible_everywhere demo_seconds demo_repr s ∅ ∅ demo_service
    demo_clock demo_writable eq_refl eq_refl).
Defined.

Lemma heartbeat_resurrects_witness :
  let h : hash := {["s1" := dumps (PDict (to_dict demo_repr demo_service))]} in
  let s := process {[REDIS_KEY := RHash h]} in
  wp (heartbeat_read demo_seconds "s1") s (λ res s1, ∃ read c1, res = Ok read ∧ _redis s1 = Some c1 ∧
    ∀ l timeout, wp (deregister "s1") (mkRegistry l (Some c1) timeout) (λ res2 s2,
      res2 = Ok tt ∧ ∃ c2, _redis s2 = Some c2 ∧ finds demo_seconds c2 "s1" None ∧
      wp (heartbeat_write demo_seconds demo_repr "s1" read) (mkRegistry (_local s1) (Some c2) (_heartbeat_timeout s1)) (λ res3 s3,
        res3 = Ok true ∧ ∃ c3 t, _redis s3 = Some c3 ∧
        finds demo_seconds c3 "s1" (Some (demo_service <| last_heartbeat := demo_seconds t |>))))).
Proof.
  intros h s. refine (heartbeat_resurrects demo_seconds demo_repr s _ h demo_service "s1" demo_clock eq_refl _).
  split; [reflexivity|]. split; [reflexivity|]. intros r [= <-]. exact demo_writable.
Defined.

(** A process that registered a service answers [True] to its heartbeat after
    another process has removed it, though nobody finds the service. *)
Example stale_local_heartbeat :
  let s := mkRegistry [("s1", demo_service)] (Some (∅ : redis_map)) (float_of_Z 120) in
  answer (heartbeat demo_seconds demo_repr "s1") s = Ok true ∧ answer (get demo_seconds "s1") s = Ok None.
Proof. split; vm_compute; reflexivity. Qed.
