(* ===== verification/Exclusion.v ===== *)
(** * A worker among others

    Several workers, and other clients, share one in-memory backend. Its lock
    makes each method a step, so between two steps of one worker the others may
    run any sequence of methods. [Fleet] is the backend as that worker sees it,
    and the theorem is that no job is run twice. *)

From S2P Require Import Prelude PyValue Domain Backend MemoryBackend Observability.
From S2P Require Import Graph Dependency Concurrency ResourcePool Dispatcher Fallback Worker.

(** ** What the worker preserves

    Whatever every operation of the backend the worker uses preserves, the worker
    preserves. *)
Class WorkerOps {B} `{QueueBackend B} (Q : relation B) : Prop := {
  ops_preorder :: PreOrder Q;
  ops_dequeue limit jt qn : keeps Q (dequeue limit jt qn);
  ops_get id : keeps Q (get id);
  ops_heartbeat id : keeps Q (heartbeat id);
  ops_update_status id s : s ≠ QUEUED → keeps Q (update_status id (value s));
}.

(** [Q] between the backends of two systems, of two workers. *)
Definition on_sys {B} (Q : relation B) (s s' : System B) : Prop := Q (sys_backend s) (sys_backend s').
Definition on_wrk {B} (Q : relation B) (w w' : Worker B) : Prop :=
  on_sys Q (w_system w) (w_system w') ∧ _handlers w' = _handlers w.

#[export] Instance on_sys_preorder {B} (Q : relation B) : PreOrder Q → PreOrder (on_sys Q).
Proof. intros HQ. split; [intros s; unfold on_sys; reflexivity|]. intros s1 s2 s3. unfold on_sys. apply HQ. Qed.

#[export] Instance on_wrk_preorder {B} (Q : relation B) : PreOrder Q → PreOrder (on_wrk Q).
Proof.
  intros HQ. split; [intros w; split; [unfold on_sys; reflexivity|done]|].
  intros w1 w2 w3 [H12 E12] [H23 E23]. split; [by etrans|congruence].
Qed.

Lemma keeps_sys {B A} (Q : relation B) (m : M B A) : keeps Q m → keeps (on_sys Q) (on_backend m).
Proof. intros Hm s. apply wp_zoom. eapply wp_mono; [apply Hm|]. by intros r b'. Qed.

Lemma keeps_wrk {B A} (Q : relation B) (m : M (System B) A) :
  keeps (on_sys Q) m → keeps (on_wrk Q) (Worker.on_system m).
Proof. intros Hm w. apply wp_zoom. eapply wp_mono; [apply Hm|]. by intros r s'. Qed.

Section preserved.
Context {B : Type} `{WorkerOps B Q}.

Lemma keeps_concurrency {A} (m : M ConcurrencyManager A) : keeps (on_sys Q) (on_concurrency m).
Proof using Type*.
  intros s. apply wp_zoom_opt. destruct (sys_concurrency s); unfold on_sys; [|reflexivity].
  intros e. destruct (m _ e) as [[a cc] ee]. cbn. reflexivity.
Qed.

Lemma keeps_pool {A} (m : M ResourcePool A) : keeps (on_sys Q) (on_pool m).
Proof using Type*.
  intros s. apply wp_zoom_opt. destruct (sys_pool s); unfold on_sys; [|reflexivity].
  intros e. destruct (m _ e) as [[a cc] ee]. cbn. reflexivity.
Qed.

Lemma keeps_status id : keeps (on_sys Q) (Dispatcher._get_job_status id).
Proof using Type*.
  apply keeps_bind; [apply _|apply keeps_sys, ops_get|intros j; apply keeps_ret; apply _].
Qed.

Lemma keeps_runnable j : keeps (on_sys Q) (Dispatcher.runnable j).
Proof using Type*.
  apply keeps_bind; [apply _|apply keeps_gets; apply _|intros [t|]]; [|apply keeps_ret; apply _].
  unfold Tracker.is_runnable. repeat case_match; try (apply keeps_ret; apply _).
  generalize (Tracker.deps_of t (job_id j)). intros deps.
  induction deps as [|d deps IH]; [apply keeps_ret; apply _|].
  apply keeps_bind; [apply _|apply keeps_status|intros st]. case_match; [apply keeps_ret; apply _|exact IH].
Qed.

Lemma keeps_consider sel j : keeps (on_sys Q) (Dispatcher.consider sel j).
Proof using Type*.
  apply keeps_bind; [apply _|apply keeps_runnable|intros ok].
  case_match; [apply keeps_ret; apply _|].
  apply keeps_bind; [apply _|apply keeps_concurrency|intros slot]. case_match; [apply keeps_ret; apply _|].
  apply keeps_bind; [apply _|case_match; [apply keeps_ret; apply _|apply keeps_pool]|intros room].
  case_match; [|apply keeps_ret; apply _].
  apply keeps_bind; [apply _|apply keeps_concurrency|intros _; apply keeps_ret; apply _].
Qed.

Lemma keeps_release j : keeps (on_wrk Q) (Worker.release_slots j).
Proof using Type*.
  apply keeps_bind; [apply _|apply keeps_gets; apply _|intros []]; [|apply keeps_ret; apply _].
  apply keeps_wrk, keeps_bind; [apply _|apply keeps_concurrency|intros _].
  apply keeps_bind; [apply _|apply keeps_pool|intros _; apply keeps_ret; apply _].
Qed.

Lemma keeps_audited action out : keeps (on_wrk Q) (Worker.audit action out).
Proof using Type*.
  intros w. unfold Worker.audit. wp_steps. apply wp_emit. intros e _ _. wp_steps.
  split; [unfold on_sys; cbn; reflexivity|done].
Qed.

Lemma keeps_counted key : keeps (on_wrk Q) (Worker.inc key).
Proof using Type*.
  intros w. unfold Worker.inc, Metrics.inc. wp_steps. split; [unfold on_sys; cbn; reflexivity|done].
Qed.

Lemma keeps_marked id s : s ≠ QUEUED →
  keeps (on_wrk Q) (Worker.on_system (on_backend (update_status id (value s)))).
Proof using Type*. intros Hs. by apply keeps_wrk, keeps_sys, ops_update_status. Qed.

Lemma keeps_overrun t j : keeps (on_wrk Q) (Worker.timed_out t j).
Proof using Type*.
  apply keeps_bind; [apply _|by apply keeps_marked|intros _].
  apply keeps_bind; [apply _|apply keeps_audited|intros _].
  apply keeps_bind; [apply _|apply keeps_counted|intros _; apply keeps_raise; apply _].
Qed.

Lemma keeps_fallback f j x :
  (∀ m url body, keeps Q (_notifier f m url body)) → pol_action (Fallback.policy_for f (job_type j)) ≠ DEAD_LETTER →
  keeps Q (Fallback.apply f j x).
Proof using Type*.
  intros Hn Hdl. unfold Fallback.apply. case_match; [|done|..];
    (apply keeps_bind; [apply _|by apply ops_update_status|intros _]); try (apply keeps_ret; apply _).
  apply keeps_bind; [apply _|case_match; [apply Hn|apply keeps_ret; apply _]|intros _; apply keeps_ret; apply _].
Qed.

Context (cfg : WorkerConfig B).

Lemma keeps_select : keeps (on_wrk Q) (Worker.select cfg).
Proof using Type*.
  apply keeps_bind; [apply _|apply keeps_gets; apply _|intros []]; apply keeps_wrk.
  - apply keeps_bind; [apply _|apply keeps_sys, ops_dequeue|intros jobs].
    apply keeps_foldM; [apply _|]. intros sel j. apply keeps_consider.
  - apply keeps_sys, ops_dequeue.
Qed.

(** The notifier of the fallback manager preserves [Q] too, and no policy
    enqueues jobs. *)
Definition quiet_fallback : Prop :=
  match _fallback_policies cfg with
  | Some f => (∀ m url body, keeps Q (_notifier f m url body)) ∧
      ∀ jt, pol_action (Fallback.policy_for f jt) ≠ DEAD_LETTER
  | None => True
  end.

Lemma keeps_failure j x : quiet_fallback → keeps (on_wrk Q) (Worker.on_failure cfg j x).
Proof using Type*.
  unfold quiet_fallback, Worker.on_failure. destruct (_fallback_policies cfg) as [f|]; intros Hf.
  - destruct Hf as [Hn Hdl]. apply keeps_bind; [apply _|by apply keeps_wrk, keeps_sys, keeps_fallback|intros d].
    apply keeps_bind; [apply _|apply keeps_audited|intros _].
    apply keeps_bind; [apply _|repeat case_match; try apply keeps_counted; apply keeps_ret; apply _|intros _].
    case_match; [apply keeps_raise; apply _|apply keeps_ret; apply _].
  - apply keeps_bind; [apply _|by apply keeps_marked|intros _].
    apply keeps_bind; [apply _|apply keeps_audited|intros _].
    apply keeps_bind; [apply _|apply keeps_counted|intros _; apply keeps_raise; apply _].
Qed.
End preserved.

(** ** The shared backend

    [others n] are the requests the other clients make before this worker's
    [n]-th method call. The counters are for the statement: the claims of job
    [target] that this worker and the others won, and the times this worker ran
    its handler. *)
Record Fleet : Type := mkFleet {
  target : string;
  mem : Memory;
  others : nat → list request;
  turn : nat;
  own_wins : nat;
  other_wins : nat;
  runs : nat;
}.

#[export] Instance Fleet_eta : Eta Fleet := λ b,
  mkFleet (target b) (mem b) (others b) (turn b) (own_wins b) (other_wins b) (runs b).

Module Fleet.

Definition on_mem {A} : M Memory A → M Fleet A := zoom mem (λ m b, b <| mem := m |>).

(** The others run. *)
Definition meanwhile : M Fleet unit :=
  rqs ← gets (λ b, others b (turn b));
  rps ← on_mem (exec_run rqs);
  modify (λ b, b <| turn := S (turn b) |>
                 <| other_wins := other_wins b + claims_won (target b) rqs rps |>).

(** A method call of this worker. *)
Definition call {A} (m : M Memory A) : M Fleet A := meanwhile;; on_mem m.

Definition claim (id host worker : string) : M Fleet bool :=
  ok ← call (Memory.claim id host worker);
  modify (λ b, if ok && bool_decide (id = target b) then b <| own_wins := S (own_wins b) |> else b);;
  mret ok.

(** The handler of job [j] starts. *)
Definition started (j : Job) : M Fleet unit :=
  modify (λ b, if bool_decide (job_id j = target b) then b <| runs := S (runs b) |> else b).
End Fleet.

#[export] Instance fleet_backend : QueueBackend Fleet := {|
  enqueue j := Fleet.call (Memory.enqueue j);
  dequeue limit jt qn := Fleet.call (Memory.dequeue limit jt qn);
  claim := Fleet.claim;
  release id := Fleet.call (Memory.release id);
  heartbeat id := Fleet.call (Memory.heartbeat id);
  get id := Fleet.call (Memory.get id);
  update_status id s := Fleet.call (Memory.update_status id s);
  get_queue_status := Fleet.call Memory.get_queue_status;
  health_check := Fleet.call Memory.health_check;
  all_jobs := Fleet.call Memory.all_jobs;
  record_attempt id x := Fleet.call (Memory.record_attempt id x);
  update_progress id p := Fleet.call (Memory.update_progress id p);
  store_result id r := Fleet.call (Memory.store_result id r);
  deref j := Fleet.call (Memory.deref j);
  assign j f := Fleet.call (Memory.assign j f);
|}.

(** ** Invariant *)

(** Nobody puts the job back into the queue. *)
Definition sane (b : Fleet) : Prop :=
  memory_wf (mem b) ∧ ∀ n, Forall (λ rq, ¬ revives (target b) rq) (others b n).

(** The claims of the job that were won or can still be won. *)
Definition claims (b : Fleet) : nat :=
  own_wins b + other_wins b + claimable (memory_statuses (mem b)) (target b).

(** There never are more of them. *)
Definition safer (b b' : Fleet) : Prop := sane b → sane b' ∧ claims b' ≤ claims b.

#[export] Instance safer_preorder : PreOrder safer.
Proof.
  split; [by split|]. intros b1 b2 b3 H12 H23 H1. destruct (H12 H1) as [H2 ?], (H23 H2) as [H3 ?].
  split; [done|lia].
Qed.

(** A step that neither wins nor runs. *)
Definition calm (b b' : Fleet) : Prop :=
  safer b b' ∧ target b' = target b ∧ own_wins b' = own_wins b ∧ runs b' = runs b.

#[export] Instance calm_preorder : PreOrder calm.
Proof.
  split; [by split|]. intros b1 b2 b3 (H12 & T12 & O12 & R12) (H23 & T23 & O23 & R23).
  split; [by etrans|split_and!; congruence].
Qed.

(** A method of the backend that puts nothing back into the queue. *)
Definition no_revival (m m' : Memory) : Prop :=
  memory_wf m → memory_wf m' ∧ ∀ id, claimable (memory_statuses m') id ≤ claimable (memory_statuses m) id.

Lemma wp_imp {S A} (P : Prop) (m : M S A) s (R : result A → S → Prop) :
  (P → wp m s R) → wp m s (λ r s', P → R r s').
Proof. intros Hm e. specialize (λ p, Hm p e). destruct (m s e) as [[r s'] e']. exact Hm. Qed.

(** The others are calm: what they win, they use up. *)
Lemma exec_step_memory rq m st :
  memory_wf m ∧ memory_statuses m = st →
  wp (exec_step rq) m (λ r m', r = Ok (spec_step rq st).1 ∧
    memory_wf m' ∧ memory_statuses m' = (spec_step rq st).2).
Proof.
  intros [Hwf <-]. destruct rq as [j| | | | |].
  { unfold exec_step. wp_steps. eapply wp_mono; [by apply memory_enqueue_ok|].
    intros r b' (? & -> & ?). by wp_steps. }
  all: eapply wp_mono; [by apply exec_step_refines|]; by intros r b' (? & -> & ?).
Qed.

Lemma exec_run_memory rqs m :
  memory_wf m → wp (exec_run rqs) m (λ r m', r = Ok (spec_run rqs (memory_statuses m)).1 ∧
    memory_wf m' ∧ memory_statuses m' = (spec_run rqs (memory_statuses m)).2).
Proof.
  intros Hwf. eapply wp_mono.
  - apply (wp_simulates exec_step (λ rq, rq) (λ m st, memory_wf m ∧ memory_statuses m = st) (λ _, True)) with (rps0 := []).
    + intros rq m' st HR _. by apply exec_step_memory.
    + by split.
    + by apply Forall_true.
  - intros r m'. by rewrite list_fmap_id.
Qed.

Lemma meanwhile_calm : keeps calm Fleet.meanwhile.
Proof.
  intros b. apply wp_conj.
  - apply wp_imp. intros (Hwf & Hrev). unfold Fleet.meanwhile, Fleet.on_mem. wp_steps.
    eapply wp_mono; [by apply exec_run_memory|]. intros r m' (-> & Hwf' & Hst'). wp_steps.
    split; [by split|]. unfold claims. cbn. rewrite Hst'.
    pose proof (claims_conserved (target b) (others b (turn b)) (memory_statuses (mem b)) (Hrev _)). lia.
  - unfold Fleet.meanwhile, Fleet.on_mem. wp_steps. intros e. by destruct (exec_run _ _ e) as [[[rps|x] m'] e'].
Qed.

Lemma call_calm {A} (m : M Memory A) : keeps no_revival m → keeps calm (Fleet.call m).
Proof.
  intros Hm. apply keeps_bind; [apply _|apply meanwhile_calm|intros _ b]. unfold Fleet.on_mem. wp_steps.
  eapply wp_mono; [apply Hm|]. intros r m' Hn. split; [|done]. intros (Hwf & Hrev).
  destruct (Hn Hwf) as [Hwf' Hq]. split; [by split|]. unfold claims. cbn. specialize (Hq (target b)). lia.
Qed.

(** Methods that change no status, or set one that is not [queued]. *)
Lemma no_revival_same {A} (m : M Memory A) :
  (∀ b, memory_wf b → wp m b (λ _ b', memory_wf b' ∧ memory_statuses b' = memory_statuses b)) →
  keeps no_revival m.
Proof.
  intros Hm b. apply wp_imp. intros Hwf. eapply wp_mono; [by apply Hm|]. intros r b' [? ->]. by split.
Qed.

Lemma no_revival_status id s : s ≠ QUEUED → keeps no_revival (Memory.update_status id (value s)).
Proof.
  intros Hs b. apply wp_imp. intros Hwf. eapply wp_mono; [by apply memory_update_status_ok|].
  intros r b' (? & _ & ->). split; [done|]. intros k. unfold claimable. rewrite lookup_alter.
  destruct (decide (id = k)) as [->|]; [|done]. rewrite decide_False; [lia|].
  by destruct (memory_statuses b !! k); intros [= ?].
Qed.

#[export] Instance fleet_ops : WorkerOps calm.
Proof.
  split; [apply _|intros limit jt qn|intros id|intros id|intros id s Hs]; apply call_calm.
  - apply no_revival_same. intros b Hwf. by apply memory_dequeue_run.
  - apply no_revival_same. intros b Hwf. eapply wp_mono; [by apply memory_get_ok|]. by intros r b' (-> & _).
  - apply no_revival_same. intros b Hwf. eapply wp_mono; [by apply memory_heartbeat_ok|]. by intros r b' (? & -> & _).
  - by apply no_revival_status.
Qed.

(** ** Claims and handlers *)

(** A claim that is answered [True] is this worker's to use. *)
Definition claimed (id : string) (r : result bool) (b b' : Fleet) : Prop :=
  safer b b' ∧ target b' = target b ∧ runs b' = runs b ∧
  own_wins b' = own_wins b + if decide (r = Ok true ∧ id = target b) then 1 else 0.

(** The counter after a claim answered [r]. *)
Definition won (id : string) (r : result bool) (b : Fleet) : Fleet :=
  if decide (r = Ok true ∧ id = target b) then b <| own_wins := S (own_wins b) |> else b.

Lemma won_false id r b : r ≠ Ok true → won id r b = b.
Proof. intros Hr. unfold won. by rewrite decide_False by (by intros []). Qed.

Lemma won_true id b : won id (Ok true) b =
  if bool_decide (id = target b) then b <| own_wins := S (own_wins b) |> else b.
Proof. unfold won. repeat case_decide || case_bool_decide; naive_solver. Qed.

Lemma claim_memory id host worker b :
  wp (Fleet.on_mem (Memory.claim id host worker)) b (λ r b', safer b (won id r b') ∧
    target b' = target b ∧ own_wins b' = own_wins b ∧ runs b' = runs b).
Proof.
  apply wp_conj.
  - apply wp_imp. intros (Hwf & Hrev). unfold Fleet.on_mem. wp_steps.
    eapply wp_mono; [by apply memory_claim_ok|]. intros r m' (Hwf' & -> & Hst'). unfold claims, claimable.
    destruct (decide (memory_statuses (mem b) !! id = Some QUEUED)) as [Hq|Hq].
    + rewrite bool_decide_eq_true_2, won_true by done. cbn [target set_field]. case_bool_decide as Hid.
      * subst id. split; [by split|]. cbn. rewrite (decide_True _ _ Hq).
        rewrite Hst', lookup_insert_eq, decide_False by done. lia.
      * split; [by split|]. cbn. by rewrite Hst', lookup_insert_ne.
    + rewrite bool_decide_eq_false_2, won_false by done. split; [by split|]. cbn. by rewrite Hst'.
  - unfold Fleet.on_mem. wp_steps. intros e. by destruct (Memory.claim _ _ _ _ e) as [[r m'] e'].
Qed.

Lemma claim_once id host worker (b : Fleet) : wp (Fleet.claim id host worker) b (λ r b', claimed id r b b').
Proof.
  unfold Fleet.claim, Fleet.call. apply wp_bind, wp_bind. eapply wp_mono; [apply meanwhile_calm|].
  intros [[]|x] b1 (Hb & Ht & Ho & Hr).
  2:{ split_and!; try done. rewrite decide_False by (by intros []). lia. }
  eapply wp_mono; [apply claim_memory|]. intros r b2 (Hb2 & Ht2 & Ho2 & Hr2).
  assert (Hwon : claimed id r b (won id r b2)).
  { split; [by etrans|]. rewrite <- Ht, <- Ht2. unfold won. case_decide; cbn; split_and!; congruence || lia. }
  destruct r as [ok|x]; [|by rewrite won_false in Hwon]. wp_steps.
  destruct ok; [by rewrite won_true in Hwon|by rewrite won_false in Hwon].
Qed.

(** A handler whose starts are counted, and that puts nothing back itself. *)
Definition counted (hd : JobHandler Fleet) : JobHandler Fleet := λ ctx,
  on_backend (Fleet.started (ctx_job ctx));; hd ctx.

Definition calm_handler (hd : JobHandler Fleet) : Prop :=
  ∀ ctx s, wp (hd ctx) s (λ r s', on_sys calm s s' ∧
    ∀ rest, r = Ok (Running rest) → keeps (on_sys calm) rest).

(** Steps during which the handler of [j] starts at most once. *)
Definition may_run (j : Job) (b b' : Fleet) : Prop :=
  safer b b' ∧ target b' = target b ∧ own_wins b' = own_wins b ∧
  runs b' ≤ runs b + if decide (job_id j = target b) then 1 else 0.

Lemma calm_may_run j b b' : calm b b' → may_run j b b'.
Proof. intros (? & ? & ? & ?). split_and!; [done..|lia]. Qed.

Lemma calm_then_run j b1 b2 b3 : calm b1 b2 → may_run j b2 b3 → may_run j b1 b3.
Proof. intros (? & Ht & ? & ?) (? & ? & ? & Hr). rewrite Ht in Hr. split; [by etrans|]. split_and!; [congruence..|lia]. Qed.

Lemma run_then_calm j b1 b2 b3 : may_run j b1 b2 → calm b2 b3 → may_run j b1 b3.
Proof. intros (? & Ht & ? & Hr) (? & ? & ? & ?). split; [by etrans|]. split_and!; [congruence..|lia]. Qed.

(** The same between workers. *)
Abbreviation quiet := (on_wrk calm).
Abbreviation running j := (on_wrk (may_run j)).

Lemma quiet_running j w w' : quiet w w' → running j w w'.
Proof. intros [? ?]. split; [by apply calm_may_run|done]. Qed.

Lemma quiet_then_running j w1 w2 w3 : quiet w1 w2 → running j w2 w3 → running j w1 w3.
Proof. intros [? ?] [? ?]. split; [by eapply calm_then_run|congruence]. Qed.

Lemma running_then_quiet j w1 w2 w3 : running j w1 w2 → quiet w2 w3 → running j w1 w3.
Proof. intros [? ?] [? ?]. split; [by eapply run_then_calm|congruence]. Qed.

Lemma quiet_first {A T} j (m : M (Worker Fleet) A) (f : A → M (Worker Fleet) T) :
  keeps quiet m → (∀ a, keeps (running j) (f a)) → keeps (running j) (m ≫= f).
Proof.
  intros Hm Hf w. wp_steps. eapply wp_mono; [apply Hm|]. intros [a|x] w1 H1; [|by apply quiet_running].
  eapply wp_mono; [apply Hf|]. intros r w2 H2. by eapply quiet_then_running.
Qed.

Lemma quiet_after {A T} j (m : M (Worker Fleet) A) (f : A → M (Worker Fleet) T) w :
  wp m w (λ _ w', running j w w') → (∀ a, keeps quiet (f a)) → wp (m ≫= f) w (λ _ w', running j w w').
Proof.
  intros Hm Hf. wp_steps. eapply wp_mono; [exact Hm|]. intros [a|x] w1 H1; [|done].
  eapply wp_mono; [apply Hf|]. intros r w2 H2. by eapply running_then_quiet.
Qed.

Section exclusion.
Context (cfg : WorkerConfig Fleet).

Lemma counted_runs hd j w : calm_handler hd →
  wp (Worker.on_system (counted hd (Context.new j))) w (λ r w', running j w w' ∧
    ∀ rest, r = Ok (Running rest) → keeps (on_sys calm) rest).
Proof using Type.
  intros Hhd. apply wp_zoom. unfold counted, Fleet.started. wp_steps. apply wp_zoom. wp_steps. cbn [ctx_job Context.new].
  eapply wp_mono; [apply Hhd|]. intros r s' [Hs Hrest]. split; [|exact Hrest]. split; [|done].
  eapply run_then_calm; [|exact Hs]. cbn [sys_backend w_system set_field].
  case_bool_decide; (split; [done|]); (split; [done|]); (split; [done|]); case_decide; simpl; try done; lia.
Qed.

Lemma execute_runs hd j w : calm_handler hd →
  wp (Worker.execute cfg (counted hd) j) w (λ _ w', running j w w').
Proof using Type*.
  intros Hhd. unfold Worker.execute. pose proof (counted_runs hd j w Hhd) as Hrun.
  destruct (_run_timeout_seconds cfg) as [t|]; wp_steps; (eapply wp_mono; [exact Hrun|]);
    intros [[|rest]|x] w1 [H1 Hrest]; cbn beta iota; try (by wp_steps); try done.
  - eapply wp_mono; [|intros r w2 H2; eapply running_then_quiet; [exact H1|exact H2]].
    refine (keeps_finally quiet _ _ _ _ w1); [apply keeps_overrun|].
    apply keeps_try; [apply _|by apply keeps_wrk, Hrest|intros x; apply keeps_ret; apply _].
  - case_match; wp_steps; [|done]. eapply wp_mono; [apply keeps_overrun|].
    intros [[]|y] w2 H2; wp_steps; by eapply running_then_quiet.
  - eapply wp_mono; [by apply keeps_wrk, Hrest|]. intros r w2 H2. by eapply running_then_quiet.
Qed.

Lemma body_runs hd j w : calm_handler hd → quiet_fallback (Q := calm) cfg →
  wp (try_except (Worker.run_body cfg (counted hd) j) (Worker.on_failure cfg j)) w (λ _ w', running j w w').
Proof using Type*.
  intros Hhd Hf. wp_steps. eapply (wp_mono _ _ (λ _ w', running j w w')).
  - unfold Worker.run_body. apply quiet_first; [apply keeps_wrk, keeps_sys, (ops_heartbeat (Q := calm))|].
    intros _ w1. apply quiet_after; [by apply execute_runs|]. intros _.
    apply keeps_bind; [apply _|by apply keeps_marked|intros _].
    apply keeps_bind; [apply _|apply keeps_audited|intros _].
    apply keeps_bind; [apply _|apply keeps_counted|intros _; apply keeps_ret; apply _].
  - intros [a|x] w1 H1; [done|]. eapply wp_mono; [by apply keeps_failure|].
    intros r w2 H2. by eapply running_then_quiet.
Qed.

(** Every handler is counted. *)
Definition all_counted (hs : dict (JobHandler Fleet)) : Prop :=
  ∀ jt hd, Dict.get jt hs = Some hd → ∃ hd0, hd = counted hd0 ∧ calm_handler hd0.

(** No handler started without a claim. *)
Definition covered (b : Fleet) : Prop := runs b ≤ own_wins b.

Definition covers (w w' : Worker Fleet) : Prop :=
  safer (sys_backend (w_system w)) (sys_backend (w_system w')) ∧
  (covered (sys_backend (w_system w)) → covered (sys_backend (w_system w'))) ∧ _handlers w' = _handlers w.

Lemma quiet_covers w w' : quiet w w' → covers w w'.
Proof using Type. intros [(Ho & _ & Hw & Hr) Hh]. split; [done|]. split; [|done]. unfold covered. by rewrite Hw, Hr. Qed.

Lemma covers_trans w1 w2 w3 : covers w1 w2 → covers w2 w3 → covers w1 w3.
Proof using Type. intros (S12 & H12 & E12) (S23 & H23 & E23). split; [by etrans|]. split; [auto|congruence]. Qed.

(** A claim and what is done under it. *)
Definition claimed_by (j : Job) (r : result bool) (w w' : Worker Fleet) : Prop :=
  claimed (job_id j) r (sys_backend (w_system w)) (sys_backend (w_system w')) ∧ _handlers w' = _handlers w.

Lemma claimed_covers j r w w' : claimed_by j r w w' → covers w w'.
Proof using Type. intros [(Ho & _ & Hr & Hw) Hh]. split; [done|]. split; [|done]. unfold covered. rewrite Hr, Hw. lia. Qed.

Lemma claimed_running_covers j w w1 w2 : claimed_by j (Ok true) w w1 → running j w1 w2 → covers w w2.
Proof using Type.
  intros [(Ho & Ht & Hr & Hw) Hh] [(Ho1 & Ht1 & Hw1 & Hr1) Hh1]. split; [by etrans|]. split; [|congruence].
  unfold covered. rewrite Ht in Hr1. rewrite Hw1, Hw. intros Hc. etrans; [exact Hr1|]. rewrite Hr.
  repeat case_decide; naive_solver lia.
Qed.

Lemma run_selected_covers j w : all_counted (_handlers w) → quiet_fallback (Q := calm) cfg →
  wp (Worker.run_selected cfg j) w (λ _ w', covers w w').
Proof using Type*.
  intros Hall Hf. unfold Worker.run_selected. apply wp_bind.
  apply (wp_mono _ _ (λ r w1, claimed_by j r w w1)).
  { do 2 apply wp_zoom. eapply wp_mono; [apply claim_once|]. by intros r b Hb. }
  intros [[|]|x] w1 H1; cbn [negb]; [| |by eapply claimed_covers].
  2:{ apply wp_bind. eapply wp_mono; [apply keeps_release|]. intros r w2 H2.
      assert (covers w w2) by (eapply covers_trans; [by eapply claimed_covers|by apply quiet_covers]).
      by destruct r; wp_steps. }
  apply (wp_mono _ _ (λ _ w', running j w1 w')); [|intros r w2; by apply claimed_running_covers].
  apply wp_bind. eapply wp_mono; [apply keeps_audited|]. intros [[]|x] w2 H2; [|by apply quiet_running].
  apply (wp_mono _ _ (λ _ w', running j w2 w')); [|intros r w3; by apply quiet_then_running].
  unfold HandlerRegistry.get. wp_steps.
  destruct H1 as [_ E1], H2 as [_ E2]. rewrite E2, E1.
  destruct (Dict.get (job_type j) (_handlers w)) as [hd|] eqn:Ehd; [|wp_steps; by apply quiet_running].
  destruct (Hall _ _ Ehd) as (hd0 & -> & Hcalm). wp_step. apply wp_finally.
  eapply wp_mono; [by apply body_runs|]. intros r w3 H3. eapply wp_mono; [apply (keeps_release (Q := calm))|].
  intros rf w4 H4. pose proof (running_then_quiet _ _ _ _ H3 H4). by destruct rf.
Qed.

Lemma run_once_covers w : all_counted (_handlers w) → quiet_fallback (Q := calm) cfg →
  wp (Worker.run_once cfg) w (λ _ w', covers w w').
Proof using Type*.
  intros Hall Hf. unfold Worker.run_once. apply wp_bind. eapply (wp_mono _ _ (λ _ w', w' = w)).
  { unfold Worker.authorise. repeat case_match; by wp_steps. }
  intros [[]|x] w1 ->; [|by apply quiet_covers]. apply wp_bind.
  eapply wp_mono; [apply (keeps_select (Q := calm))|]. intros [jobs|x] w1 H1; [|by apply quiet_covers].
  destruct jobs as [|j jobs]; [wp_steps; by apply quiet_covers|].
  eapply wp_mono; [apply run_selected_covers; [by destruct H1 as [_ ->]|done]|].
  intros r w2 H2. eapply covers_trans; [by apply quiet_covers|done].
Qed.

Lemma loop_covers stops max fuel k w : all_counted (_handlers w) → quiet_fallback (Q := calm) cfg →
  wp (Worker.loop cfg stops max fuel k) w (λ _ w', covers w w').
Proof using Type*.
  revert k w. induction fuel as [|fuel IH]; intros k w Hall Hf; cbn [Worker.loop].
  { wp_steps. by split. }
  case_match; [by wp_steps|]. apply wp_bind. eapply wp_mono; [by apply run_once_covers|].
  intros [v|x] w1 H1; [|done]. cbn zeta. case_match; [by wp_steps|].
  eapply wp_mono; [apply IH; [by destruct H1 as (_ & _ & ->)|done]|]. intros r w2 H2. by eapply covers_trans.
Qed.
End exclusion.

(** ** Theorem *)

(** C4: no job runs twice. A worker with any limits shares an in-memory backend
    with other clients, which between any two of its method calls may run any
    sequence of enqueues, claims, releases, status updates, heartbeats and
    look-ups. As long as nobody, its own handlers included, puts the job [id]
    back into the queue, however many loops the worker runs and however they end,
    the times it started the job's handler and the times another client won the
    job add up to at most one, and to none when the job was not queued. *)
Theorem job_runs_once (cfg : WorkerConfig Fleet) w id m sched stops max_loops :
  sys_backend (w_system w) = mkFleet id m sched 0 0 0 0 →
  memory_wf m → (∀ n, Forall (λ rq, ¬ revives id rq) (sched n)) →
  all_counted (_handlers w) → quiet_fallback (Q := calm) cfg →
  wp (Worker.run_forever cfg stops max_loops) w (λ _ w',
    let b := sys_backend (w_system w') in
    runs b + other_wins b ≤ if decide (memory_statuses m !! id = Some QUEUED) then 1 else 0).
Proof.
  intros Eb Hwf Hrev Hall Hf. unfold Worker.run_forever. eapply wp_mono; [by apply loop_covers|].
  intros r w' (Hsafe & Hcov & _). rewrite Eb in *. cbn zeta.
  destruct Hsafe as [_ Hclaims]; [by split|]. specialize (Hcov (le_n 0)). unfold covered, claims, claimable in *.
  cbn in Hclaims. lia.
Qed.

(** ** Concrete runs *)

Definition reporting : JobHandler Fleet := λ ctx,
  _ ← on_backend (update_progress (job_id (ctx_job ctx)) [("percentage", PInt 50)]); mret Finished.

Lemma reporting_calm : calm_handler reporting.
Proof.
  intros ctx s. unfold reporting. wp_steps. apply wp_zoom. eapply wp_mono.
  { apply call_calm, no_revival_same. intros b Hwf. eapply wp_mono; [by apply (change_spec _ _ _ (λ s, s))|].
    intros r b' (? & _ & ->). split; [done|]. by apply alter_id. }
  intros [v|x] b Hb; wp_steps; split; try done; by intros rest [=].
Qed.

(** Another worker that tries to claim the same job all the time, or one that
    only looks on. *)
Definition rival (n : nat) : list request := [Claim "a" "host-2" "worker-2"; Heartbeat "a"].
Definition onlooker (n : nat) : list request := [GetStatus "a"].

Definition contended (sched : nat → list request) : Worker Fleet :=
  mkWorker (mkSystem (mkFleet "a" (memory_of [sample_job "a" 0 1]) sched 0 0 0 0)
              (Some (Concurrency.new default_limits)) None None)
    [("t", counted reporting)] (mkAudit []) (mkMetrics ∅).
Definition fleet_config : WorkerConfig Fleet := mkConfig "host-1" "worker-1" None (Some "1.0") None None.

Example rival_wins :
  let b := sys_backend (w_system (after (Worker.run_forever fleet_config (λ _, false) 3) (contended rival))) in
  (runs b, own_wins b, other_wins b) = (0, 0, 1).
Proof. vm_compute. reflexivity. Qed.

Example onlooker_loses :
  let b := sys_backend (w_system (after (Worker.run_forever fleet_config (λ _, false) 3) (contended onlooker))) in
  (runs b, own_wins b, other_wins b) = (1, 1, 0).
Proof. vm_compute. reflexivity. Qed.

Lemma job_runs_once_witness :
  wp (Worker.run_forever fleet_config (λ _, false) 3) (contended rival) (λ _ w',
    let b := sys_backend (w_system w') in runs b + other_wins b ≤ 1).
Proof.
  apply (job_runs_once fleet_config (contended rival) "a" (memory_of [sample_job "a" 0 1]) rival (λ _, false) 3).
  - reflexivity.
  - apply memory_of_wf.
  - intros n. repeat constructor; simpl; tauto.
  - intros jt hd Hhd. simpl in Hhd. case_decide; [|done]. injection Hhd as <-.
    exists reporting. split; [reflexivity|apply reporting_calm].
  - exact I.
Defined.
