(* ===== verification/Drain.v ===== *)
(** * A lone worker drains its queue

    The worker of [worker/worker.py] with all its components on the in-memory
    backend: when the jobs it may run are ordered so that each one's dependencies
    succeed before it, each fits the limits alone and has a handler, the worker
    runs them all, in dispatch order, each once. *)

From S2P Require Import Prelude PyValue Domain Backend MemoryBackend Observability.
From S2P Require Import Graph Dependency Concurrency ResourcePool Dispatcher Worker.

(** ** Cards

    What the dispatch of a job depends on, beside its status: the fields that no
    step of the worker changes. *)
Definition card (j : Job) : Job :=
  new_job (job_id j) (job_type j) (queue_name j) [] QUEUED (priority j) (created_at j) 0
    <| depends_on := depends_on j |> <| resources := resources j |>.

Definition cards (b : Memory) : list Job := card <$> Dict.values (_jobs b).

Definition same_cards (b b' : Memory) : Prop := cards b' = cards b.

#[export] Instance same_cards_preorder : PreOrder same_cards.
Proof. split; [done|]. intros b1 b2 b3 H12 H23. unfold same_cards in *. congruence. Qed.

Lemma set_values {V A} (g : V → A) k v v' (d : dict V) :
  Dict.get k d = Some v → g v' = g v → g <$> Dict.values (Dict.set k v' d) = g <$> Dict.values d.
Proof.
  intros Hk Hg. induction d as [|[k0 v0] d IH]; [done|]. simpl in *. case_decide.
  - injection Hk as ->. unfold Dict.values. rewrite !fmap_cons. cbn [snd]. by rewrite Hg.
  - unfold Dict.values in *. rewrite !fmap_cons. cbn [snd]. by rewrite IH.
Qed.

Lemma cards_mutate id f : (∀ j, card (f j) = card j) → keeps same_cards (Memory.mutate id f).
Proof.
  intros Hf. apply keeps_modify; [apply _|]. intros b. unfold same_cards, cards, Dict.update. cbn.
  destruct (Dict.get id (_jobs b)) as [j|] eqn:E; [by eapply set_values|done].
Qed.

Lemma cards_now {A} (f : Z → M Memory A) : (∀ t, keeps same_cards (f t)) → keeps same_cards (now ← utcnow; f now).
Proof. intros Hf. apply keeps_bind; [apply _|by apply keeps_pure; [apply _|]; intros b; wp_steps|done]. Qed.

(** The shape of the methods that look a job up. *)
Lemma cards_looked_up id (f : Job → M Memory bool) :
  (∀ j, keeps same_cards (f j)) →
  keeps same_cards (job ← gets (λ b, Dict.get id (_jobs b));
    match job with None => mret false | Some job => f job end).
Proof.
  intros Hf. apply keeps_bind; [apply _|apply keeps_gets; apply _|].
  intros [j|]; [apply Hf|apply keeps_ret; apply _].
Qed.

Lemma cards_change id f : (∀ t j, card (f t j) = card j) → keeps same_cards (Memory.change id f).
Proof.
  intros Hf. apply cards_looked_up. intros j. apply cards_now. intros t.
  apply keeps_bind; [apply _|by apply cards_mutate|intros _; apply keeps_ret; apply _].
Qed.

Lemma cards_claim id host worker : keeps same_cards (Memory.claim id host worker).
Proof.
  apply cards_looked_up. intros j. case_match; [apply keeps_ret; apply _|]. apply cards_now. intros t.
  apply keeps_bind; [apply _|by apply cards_mutate|intros _; apply keeps_ret; apply _].
Qed.

Lemma cards_update_status id s : keeps same_cards (Memory.update_status id s).
Proof.
  apply cards_looked_up. intros j. apply keeps_bind; [apply _|apply keeps_pure; [apply _|]; intros b|intros st].
  { unfold parse_status. destruct (JobStatus_of s); by wp_steps. }
  apply cards_now. intros t.
  apply keeps_bind; [apply _|by apply cards_mutate|intros _; apply keeps_ret; apply _].
Qed.

(** ** The order of dispatch, on cards *)

Section order.
Context (qn : option string).

Definition due (m : queue_spec) (c : Job) : Prop := m !! job_id c = Some QUEUED ∧ matches qn (queue_name c).

Definition order (m : queue_spec) (all : list Job) : list Job :=
  stable_sort Memory.before (filter (due m) all).

Lemma dispatch_cards b : memory_wf b →
  card <$> dispatch_order None qn b = order (memory_statuses b) (cards b).
Proof.
  intros Hwf. unfold dispatch_order, order, cards. rewrite (fmap_stable_sort _ Memory.before) by done.
  f_equal. apply fmap_filter. intros j Hj%memory_values; [|done].
  rewrite Is_true_true, eligible_spec. unfold due. cbn. rewrite memory_lookup, Hj by done. cbn.
  split; [by intros (-> & _ & ?)|by intros [[= ->] ?]].
Qed.

(** Once its head has succeeded, the rest of the order is what remains. *)
Lemma order_served m all c cs :
  NoDup (job_id <$> all) → order m all = c :: cs → order (<[job_id c := SUCCEEDED]> m) all = cs.
Proof.
  intros Hnd Ho.
  assert (Hd : order (<[job_id c := SUCCEEDED]> m) all = filter (λ j, job_id j ≠ job_id c) (c :: cs)).
  { rewrite <- Ho. unfold order. rewrite (filter_stable_sort _ before_total before_trans). f_equal.
    rewrite list_filter_filter. apply list_filter_iff. intros j. unfold due.
    destruct (decide (job_id j = job_id c)) as [->|]; [rewrite lookup_insert_eq|rewrite lookup_insert_ne by done];
      naive_solver. }
  rewrite Hd, filter_cons_False by naive_solver.
  assert (Hnd' : NoDup (job_id <$> c :: cs)).
  { rewrite <- Ho. unfold order. rewrite stable_sort_perm.
    eapply sublist_NoDup; [exact Hnd|]. apply fmap_sublist, sublist_filter. }
  apply NoDup_cons in Hnd' as [Hc _]. apply filter_all, Forall_forall. intros j Hj Heq. apply Hc. rewrite <- Heq.
  by apply list_elem_of_fmap_2.
Qed.

(** The jobs of [cs] run in this order: each one's dependencies have succeeded
    by the time it comes to the head. *)
Fixpoint runnable_in_order (t : option DependencyTracker) (m : queue_spec) (cs : list Job) : Prop :=
  match cs with
  | [] => True
  | c :: cs => deps_met m t c ∧ runnable_in_order t (<[job_id c := SUCCEEDED]> m) cs
  end.

(** ... which holds when each dependency has succeeded or comes before. *)
Lemma ordered_runnable t m cs :
  NoDup (job_id <$> cs) →
  (∀ c d, c ∈ cs → depends_on c ≠ [] → from_option (λ t, d ∈ Tracker.deps_of t (job_id c)) False t →
     m !! d = Some SUCCEEDED ∨ ∃ c', [c'; c] `sublist_of` cs ∧ job_id c' = d) →
  runnable_in_order t m cs.
Proof.
  revert m. induction cs as [|c cs IH]; intros m Hnd Hdeps; [done|]. cbn in Hnd.
  apply NoDup_cons in Hnd as [Hc Hnd]. assert (Hout : c ∉ cs) by (intros Hin; by apply Hc, list_elem_of_fmap_2).
  split.
  - unfold deps_met. destruct t as [t|]; [|done]. intros Hne d Hd.
    destruct (Hdeps c d ltac:(left) Hne Hd) as [?|(c' & Hsub & _)]; [done|]. exfalso. apply Hout.
    inversion Hsub as [|? ? ? Hsub'|? ? ? Hsub']; subst; eapply elem_of_submseteq;
      [|by apply sublist_submseteq| |by apply sublist_submseteq]; [left|right; left].
  - apply IH; [done|]. intros j d Hj Hne Hd.
    destruct (decide (d = job_id c)) as [->|Hdc]; [left; by rewrite lookup_insert_eq|].
    rewrite lookup_insert_ne by done. destruct (Hdeps j d ltac:(by right) Hne Hd) as [?|(c' & Hsub & Hc')]; [by left|].
    right. exists c'. split; [|done]. inversion Hsub; subst; done.
Qed.

(** The statuses after they ran. *)
Definition all_succeed (m : queue_spec) (cs : list Job) : queue_spec :=
  foldl (λ m c, <[job_id c := SUCCEEDED]> m) m cs.

Lemma all_succeed_lookup m cs id :
  all_succeed m cs !! id = if decide (id ∈ job_id <$> cs) then Some SUCCEEDED else m !! id.
Proof.
  revert m. induction cs as [|c cs IH]; intros m; [done|]. cbn. rewrite IH, lookup_insert.
  repeat case_decide; set_solver.
Qed.
End order.

(** ** One job *)

(** A handler that returns and leaves the queue and the components alone; it may
    store progress and results. *)
Definition serves (hd : JobHandler Memory) : Prop :=
  ∀ ctx s, memory_wf (sys_backend s) → wp (hd ctx) s (λ r s', r = Ok Finished ∧
    settled_step s s' ∧ same_cards (sys_backend s) (sys_backend s')).

Section drain.
Context (cfg : WorkerConfig Memory) (hs : dict (JobHandler Memory)) (all : list Job).

(** [at_work s m n w]: a worker with the components of [s], over a backend with
    the cards [all] and the statuses [m], that has counted [n] successes. *)
Definition at_work (s : System Memory) (m : queue_spec) (n : Z) (w : Worker Memory) : Prop :=
  at_status s m w ∧ cards (sys_backend (w_system w)) = all ∧ _handlers w = hs ∧
  Metrics.get (w_metrics w) "jobs.succeeded" = n.

Lemma on_backend_work {A} (f : M Memory A) s m n w (P : result A → queue_spec → Prop) :
  at_work s m n w → keeps same_cards f →
  (∀ b, memory_wf b → memory_statuses b = m → wp f b (λ r b', memory_wf b' ∧ P r (memory_statuses b'))) →
  wp (Worker.on_system (on_backend f)) w (λ r w', ∃ m', P r m' ∧ at_work s m' n w').
Proof.
  intros ((Hwf & Hst & Hc & Hp & Ht) & Hall & Hhs & Hn) Hk Hf. do 2 apply wp_zoom.
  eapply wp_mono; [apply wp_conj; [by apply Hf|apply Hk]|]. intros r b' [[Hwf' HP] Hsame].
  exists (memory_statuses b'). split; [exact HP|]. split; [by split_and!|]. split; [|done].
  cbn. by rewrite Hsame.
Qed.

Lemma audit_work action out s m n w :
  at_work s m n w → wp (Worker.audit action out) w (λ r w', r = Ok tt ∧ at_work s m n w').
Proof. intros Hat. unfold Worker.audit. wp_steps. apply wp_emit. intros e _ _. by wp_steps. Qed.

Lemma inc_work s m n w :
  at_work s m n w →
  wp (Worker.inc "jobs.succeeded") w (λ r w', r = Ok tt ∧ at_work s m (n + 1) w').
Proof.
  intros (Hat & Hall & Hhs & Hn). unfold Worker.inc, Metrics.inc. wp_steps. split; [done|].
  split; [done|]. split; [done|]. split; [done|].
  unfold Metrics.get, count in *. cbn. rewrite lookup_insert_eq. cbn. by rewrite Hn.
Qed.

Lemma call_work hd ctx s m n w :
  at_work s m n w → serves hd →
  wp (Worker.on_system (hd ctx)) w (λ r w', r = Ok Finished ∧ at_work s m n w').
Proof.
  intros ((Hwf & Hst & Hc & Hp & Ht) & Hall & Hhs & Hn) Hserves. apply wp_zoom.
  eapply wp_mono; [by apply Hserves|]. intros r s' (-> & [Hk Hst'] & Hsame).
  destruct (Hk Hwf) as (Hwf' & Ec & Ep & Et). cbn. split; [done|].
  split; [split_and!; [done|by etrans; [apply Hst'|]|cbn; congruence..]|]. split; [cbn; by rewrite Hsame|done].
Qed.

Lemma execute_work hd j s m n w :
  at_work s m n w → serves hd →
  wp (Worker.execute cfg hd j) w (λ r w', r = Ok tt ∧ at_work s m n w').
Proof using Type*.
  intros Hat Hserves. unfold Worker.execute. destruct (_run_timeout_seconds cfg); wp_steps;
    (eapply wp_mono; [exact (call_work _ _ _ _ _ _ Hat Hserves)|]); intros r w' [-> Hat']; by wp_steps.
Qed.

(** The body, for a job that has been claimed. *)
Lemma body_work hd j s m n w :
  at_work s m n w → m !! job_id j = Some RUNNING → serves hd →
  wp (Worker.run_body cfg hd j) w (λ r w', r = Ok true ∧
    at_work s (<[job_id j := SUCCEEDED]> m) (n + 1) w').
Proof using Type*.
  intros Hat Hrun Hserves. unfold Worker.run_body. wp_steps. eapply wp_mono.
  { eapply (on_backend_work _ s m n w (λ r m', (∃ v, r = Ok v) ∧ m' = m)); [done|by apply cards_change|].
    intros b Hwf <-. eapply wp_mono; [by apply memory_heartbeat_ok|]. by intros r b' (? & -> & ?). }
  intros r w1 (m1 & [[v ->] ->] & Hat1). wp_steps.
  eapply wp_mono; [by apply execute_work|]. intros r w2 [-> Hat2]. wp_steps. eapply wp_mono.
  { eapply (on_backend_work _ s m n w2 (λ r m', (∃ v, r = Ok v) ∧ m' = <[job_id j := SUCCEEDED]> m));
      [done|by apply cards_update_status|]. intros b Hwf Hb. eapply wp_mono; [by apply memory_update_status_ok|].
    intros r b' (? & -> & ->). split; [done|]. split; [by eexists|]. rewrite Hb. apply alter_const_insert. by eexists. }
  intros r w3 (m3 & [[v3 ->] ->] & Hat3). wp_steps.
  eapply wp_mono; [by apply audit_work|]. intros r w4 [-> Hat4]. wp_steps.
  eapply wp_mono; [by apply inc_work|]. intros r w5 [-> Hat5]. by wp_steps.
Qed.

Context (t : option DependencyTracker) (cl : option ConcurrencyLimits) (pl : option (dict Z)).

(** Between two passes nothing is held. *)
Definition at_rest (m : queue_spec) (n : Z) (w : Worker Memory) : Prop :=
  at_work (w_system w) m n w ∧ accounts (w_system w) [] ∅ ∧ sys_tracker (w_system w) = t ∧
  _limits <$> sys_concurrency (w_system w) = cl ∧ limits <$> sys_pool (w_system w) = pl.

(** [j] fits the limits when nothing else runs. *)
Definition fits_alone (j : Job) : Prop := request_wf (resources j) ∧ slot_free cl [] j ∧ room_for pl ∅ j.

(** A queued job that was selected, whose type has a serving handler, succeeds. *)
Lemma serve_one j hd m n w :
  at_work (w_system w) m n w → holding (w_system w) j [] ∅ → sys_tracker (w_system w) = t →
  _limits <$> sys_concurrency (w_system w) = cl → limits <$> sys_pool (w_system w) = pl →
  m !! job_id j = Some QUEUED → Dict.get (job_type j) hs = Some hd → serves hd →
  wp (Worker.run_selected cfg j) w (λ r w', r = Ok true ∧ at_rest (<[job_id j := SUCCEEDED]> m) (n + 1) w').
Proof using Type*.
  intros Hat Hold Ht Hcl Hpl Hq Hhd Hserves. set (s := w_system w) in *.
  unfold Worker.run_selected. wp_steps. eapply wp_mono.
  { eapply (on_backend_work _ s m n w (λ r m', r = Ok true ∧ m' = <[job_id j := RUNNING]> m));
      [done|apply cards_claim|]. intros b Hwf <-. eapply wp_mono; [by apply memory_claim_ok|].
    intros r b' (? & -> & ->). by rewrite bool_decide_eq_true_2, decide_True. }
  intros r w1 (m1 & [-> ->] & Hat1). cbn beta iota. cbn [negb]. wp_steps.
  eapply wp_mono; [by apply audit_work|]. intros r w2 [-> Hat2]. unfold HandlerRegistry.get. wp_steps.
  assert (_handlers w2 = hs) as -> by apply Hat2. rewrite Hhd. wp_steps.
  eapply wp_mono; [apply (body_work hd j s _ n w2 Hat2); [by rewrite lookup_insert_eq|done]|].
  intros r w3 [-> Hat3]. wp_steps. rewrite insert_insert_eq in Hat3.
  pose proof Hat3 as ((Hwf3 & Hst3 & Ec & Ep & Et) & Hall & Hhs & Hn).
  eapply wp_mono; [apply (release_slots_ok w3 j [] ∅); by apply (holding_kept s)|].
  intros r w4 (-> & Hacc & Eb & _ & (_ & Et4 & Ec4 & Ep4) & Eh & Em). split; [done|].
  split; [|split_and!; [done|congruence|by rewrite Ec4, Ec|by rewrite Ep4, Ep]].
  split; [split_and!; try done; by rewrite Eb|]. by rewrite Eb, Eh, Em.
Qed.

(** ** One pass *)

(** The head of the order is what the backend offers. *)
Lemma offered_head s m n w :
  at_work s m n w →
  wp (dequeue 1 None (_queue_name cfg)) (sys_backend (w_system w)) (λ r b', b' = sys_backend (w_system w) ∧
    match order (_queue_name cfg) m all with
    | [] => r = Ok []
    | c :: _ => ∃ j, r = Ok [j] ∧ card j = c
    end).
Proof using Type.
  intros ((Hwf & Hst & _) & Hall & _). apply memory_dequeue_run. split; [done|].
  pose proof (dispatch_cards (_queue_name cfg) _ Hwf) as Hd. rewrite Hall in Hd.
  change (memory_statuses (sys_backend (w_system w)) = m) in Hst. rewrite Hst in Hd. rewrite <- Hd, slice_to_nonneg by done.
  destruct (dispatch_order _ _ _) as [|j l]; [done|]. by exists j.
Qed.

(** With the components of [at_rest], the first job of the order is selected. *)
Lemma select_head m n w c cs :
  at_rest m n w → order (_queue_name cfg) m all = c :: cs → deps_met m t c → fits_alone c →
  wp (Worker.select cfg) w (λ r w', ∃ j, r = Ok [j] ∧ card j = c ∧ at_work (w_system w') m n w' ∧
    holding (w_system w') j [] ∅ ∧ same_limits (w_system w) (w_system w')).
Proof using Type.
  intros (Hat & Hacc & Ht & Hcl & Hpl) Ho Hd (Hreq & Hslot & Hroom). pose proof (offered_head _ _ _ _ Hat) as Hoff.
  rewrite Ho in Hoff. pose proof Hat as ((Hwf & Hst & _) & Hall & Hhs & Hn).
  unfold Worker.select. wp_steps. destruct (Worker.has_dispatcher (w_system w)) eqn:E.
  - apply wp_zoom. unfold Dispatcher.select_eligible. wp_steps.
    eapply (wp_on_backend_read _ _ (λ l, ∃ j, l = [j] ∧ card j = c)).
    { eapply wp_mono; [exact Hoff|]. intros r b' (-> & j & -> & Hj). by eauto 10. }
    intros l (j & -> & <-). cbn [foldM]. wp_steps.
    eapply wp_mono; [by apply (consider_ok _ [] ∅)|]. intros r s' (Hs & Hcase). cbn zeta in Hcase.
    destruct Hcase as [(_ & -> & Hacc')|(Hno & _)].
    2:{ destruct Hno. by rewrite Hst, Ht, Hcl, Hpl. }
    wp_steps. exists j. destruct Hs as (Eb & Et & Ec & Ep). split_and!; try done.
    + unfold at_work, at_status. cbn [w_system _handlers w_metrics set_field]. rewrite Eb. by split_and!.
    + unfold holding. cbn [w_system set_field]. by rewrite Ec, Ep.
  - destruct (accounts_absent _ _ _ E Hacc) as (Ec & Ep & Et).
    apply wp_zoom, (wp_on_backend_read _ _ (λ l, ∃ j, l = [j] ∧ card j = c)).
    { eapply wp_mono; [exact Hoff|]. intros r b' (-> & j & -> & Hj). by eauto 10. }
    intros l (j & -> & <-). exists j. split_and!; try done.
    unfold holding. cbn [w_system set_field]. rewrite Ec, Ep. by split; [apply Hacc|].
Qed.

(** A pass over an empty order does nothing. *)
Lemma idle_pass m n w :
  _identity_authoriser cfg = None → at_rest m n w → order (_queue_name cfg) m all = [] →
  wp (Worker.run_once cfg) w (λ r w', r = Ok false ∧ at_rest m n w').
Proof using Type.
  intros Hauth Hrest Ho. pose proof Hrest as (Hat & _). pose proof (offered_head _ _ _ _ Hat) as Hoff. rewrite Ho in Hoff.
  unfold Worker.run_once, Worker.authorise, Worker.select. rewrite Hauth. wp_steps.
  assert (Hsame : w <| w_system := w_system w |> = w) by by destruct w.
  destruct (Worker.has_dispatcher (w_system w)).
  all: unfold Dispatcher.select_eligible; apply wp_zoom; wp_steps.
  all: apply (wp_on_backend_read _ _ (λ l, l = [])).
  1, 3: eapply wp_mono; [exact Hoff|]; intros r b' (-> & ->); by eauto.
  all: intros l ->; cbn [foldM]; wp_steps; by rewrite Hsame.
Qed.

Definition has_server (job_type : string) : Prop := ∃ hd, Dict.get job_type hs = Some hd ∧ serves hd.

(** A pass over a runnable head serves it. *)
Lemma serving_pass m n w c cs :
  _identity_authoriser cfg = None → at_rest m n w → order (_queue_name cfg) m all = c :: cs →
  deps_met m t c → fits_alone c → has_server (job_type c) →
  wp (Worker.run_once cfg) w (λ r w', r = Ok true ∧ at_rest (<[job_id c := SUCCEEDED]> m) (n + 1) w').
Proof using Type*.
  intros Hauth Hrest Ho Hd Hfit (hd & Hhd & Hserves). unfold Worker.run_once, Worker.authorise. rewrite Hauth. wp_steps.
  assert (Hq : m !! job_id c = Some QUEUED).
  { assert (Hin : c ∈ order (_queue_name cfg) m all) by (rewrite Ho; left).
    unfold order in Hin. rewrite stable_sort_perm in Hin. by apply list_elem_of_filter in Hin as [[? _] _]. }
  eapply wp_mono; [by eapply select_head|]. intros r w1 (j & -> & <- & Hat1 & Hold & (_ & Et & Ec & Ep)). wp_steps.
  destruct Hrest as (_ & _ & Ht & Hcl & Hpl).
  eapply wp_mono; [apply (serve_one j hd m n w1); try done; congruence|]. by intros r w' [-> ?].
Qed.

(** ** The loop *)

Context (Hauth : _identity_authoriser cfg = None) (Hnodup : NoDup (job_id <$> all)).

Lemma drain max fuel k m n w cs :
  at_rest m n w → order (_queue_name cfg) m all = cs → runnable_in_order t m cs →
  Forall (λ c, fits_alone c ∧ has_server (job_type c)) cs →
  length cs ≤ fuel → 0 < fuel → Z.of_nat (fuel + k) = max →
  wp (Worker.loop cfg (λ _, false) (Some max) fuel k) w (λ r w', r = Ok (fuel + k) ∧
    at_rest (all_succeed m cs) (n + Z.of_nat (length cs)) w').
Proof using Type*.
  revert k m n w cs. induction fuel as [|fuel IH]; intros k m n w cs Hrest Ho Hrun Hcs Hlen Hpos Hmax; [lia|].
  cbn [Worker.loop]. wp_steps.
  assert (Hpass : wp (Worker.run_once cfg) w (λ r w', ∃ m' cs', (∃ v, r = Ok v) ∧
    at_rest m' (n + Z.of_nat (length cs) - Z.of_nat (length cs')) w' ∧ order (_queue_name cfg) m' all = cs' ∧
    runnable_in_order t m' cs' ∧ Forall (λ c, fits_alone c ∧ has_server (job_type c)) cs' ∧
    length cs' ≤ fuel ∧ all_succeed m cs = all_succeed m' cs')).
  { destruct cs as [|c cs].
    - eapply wp_mono; [by apply idle_pass|]. intros r w1 [-> Hrest1]. exists m, [].
      split_and!; try done; [eauto|by rewrite Z.add_0_r, Z.sub_0_r|cbn; lia].
    - apply Forall_cons in Hcs as [[Hfit Hserver] Hcs]. destruct Hrun as [Hd Hrun].
      eapply wp_mono; [by eapply serving_pass|]. intros r w1 [-> Hrest1].
      exists (<[job_id c := SUCCEEDED]> m), cs. cbn [length] in *.
      split_and!; try done; [eauto| |by apply order_served|lia].
      replace (n + Z.of_nat (S (length cs)) - Z.of_nat (length cs))%Z with (n + 1)%Z by lia. done. }
  eapply wp_mono; [exact Hpass|].
  intros r w1 (m' & cs' & (v & ->) & Hrest1 & Ho' & Hrun' & Hcs' & Hlen' & ->). cbn beta iota zeta.
  destruct (Z.leb_spec max (Z.of_nat (S k))).
  - assert (fuel = 0) as -> by lia. wp_steps. split; [done|]. destruct cs'; [|cbn in Hlen'; lia]. cbn.
    by rewrite Z.sub_0_r in Hrest1.
  - eapply wp_mono; [apply (IH (S k) m' _ w1 cs' Hrest1); [done..|lia|lia]|]. intros r w' [-> ?].
    split; [f_equal; lia|]. by rewrite Z.sub_add in *.
Qed.
End drain.

Lemma runnable_cards t m (l : list Job) : runnable_in_order t m (card <$> l) ↔ runnable_in_order t m l.
Proof. revert m. induction l as [|j l IH]; intros m; [done|]. cbn. by rewrite IH. Qed.

Lemma card_ids (l : list Job) : job_id <$> (card <$> l) = job_id <$> l.
Proof. rewrite <- list_fmap_compose. by apply list_fmap_ext. Qed.

(** The components of a worker have room for [j] when nothing is held. *)
Definition room_alone (s : System Memory) (j : Job) : Prop :=
  fits_alone (_limits <$> sys_concurrency s) (limits <$> sys_pool s) j.

Section drains.
Context (cfg : WorkerConfig Memory) (w : Worker Memory).

(** The queued jobs of the worker's queue, in dispatch order. *)
Definition todo : list Job := dispatch_order None (_queue_name cfg) (sys_backend (w_system w)).

Lemma drains n :
  _identity_authoriser cfg = None → memory_wf (sys_backend (w_system w)) → accounts (w_system w) [] ∅ →
  runnable_in_order (sys_tracker (w_system w)) (statuses (sys_backend (w_system w))) todo →
  (∀ j, j ∈ todo → room_alone (w_system w) j ∧ has_server (_handlers w) (job_type j)) →
  length todo ≤ n → 0 < n →
  wp (Worker.run_forever cfg (λ _, false) (Z.of_nat n)) w (λ r w', r = Ok n ∧
    accounts (w_system w') [] ∅ ∧
    (∀ id, statuses (sys_backend (w_system w')) !! id =
       if decide (id ∈ job_id <$> todo) then Some SUCCEEDED else statuses (sys_backend (w_system w)) !! id) ∧
    Metrics.get (w_metrics w') "jobs.succeeded" =
      (Metrics.get (w_metrics w) "jobs.succeeded" + Z.of_nat (length todo))%Z).
Proof using Type*.
  intros Hauth Hwf Hacc Hrun Hfit Hlen Hn. unfold Worker.run_forever. rewrite Z.max_r, Nat2Z.id by lia.
  set (b := sys_backend (w_system w)) in *.
  pose proof (dispatch_cards (_queue_name cfg) b Hwf) as Ho. fold todo in Ho. change (dispatch_order _ _ b) with todo in Ho.
  eapply wp_mono.
  { apply (drain cfg (_handlers w) (cards b) (sys_tracker (w_system w)) (_limits <$> sys_concurrency (w_system w))
      (limits <$> sys_pool (w_system w)) Hauth) with (m := memory_statuses b) (cs := card <$> todo)
      (n := Metrics.get (w_metrics w) "jobs.succeeded").
    - unfold cards. rewrite card_ids, memory_ids by done. apply Hwf.
    - by split_and!.
    - done.
    - by apply runnable_cards.
    - apply Forall_fmap, Forall_forall. exact Hfit.
    - by rewrite length_fmap.
    - done.
    - lia. }
  intros r w' [-> (((_ & Hst & _) & _ & _ & Hm) & Hacc' & _)]. rewrite length_fmap in Hm.
  split_and!; [f_equal; lia|done| |done]. intros id. rewrite Hst, all_succeed_lookup, card_ids. done.
Qed.
End drains.

(** ** Theorem *)

(** C5: a lone worker drains its queue. With whatever dispatcher components,
    from a state in which nothing is held: if each dependency of a waiting job has
    succeeded or waits itself and comes earlier in the order of dispatch, and each
    waiting job fits the limits alone and has a handler that returns, then
    [run_forever] for at least as many loops as jobs wait ends without an
    exception and holds nothing, the jobs that waited have succeeded, no other
    status changed, and each success was counted once. *)
Theorem lone_worker_drains (cfg : WorkerConfig Memory) (w : Worker Memory) n :
  let b := sys_backend (w_system w) in
  _identity_authoriser cfg = None → memory_wf b → accounts (w_system w) [] ∅ →
  (∀ j t d, j ∈ todo cfg w → depends_on j ≠ [] → sys_tracker (w_system w) = Some t →
     d ∈ Tracker.deps_of t (job_id j) →
     statuses b !! d = Some SUCCEEDED ∨ ∃ j', [j'; j] `sublist_of` todo cfg w ∧ job_id j' = d) →
  (∀ j, j ∈ todo cfg w → room_alone (w_system w) j ∧ has_server (_handlers w) (job_type j)) →
  length (todo cfg w) ≤ n → 0 < n →
  wp (Worker.run_forever cfg (λ _, false) (Z.of_nat n)) w (λ r w', r = Ok n ∧
    accounts (w_system w') [] ∅ ∧
    (∀ id, statuses (sys_backend (w_system w')) !! id =
       if decide (id ∈ job_id <$> todo cfg w) then Some SUCCEEDED else statuses b !! id) ∧
    Metrics.get (w_metrics w') "jobs.succeeded" =
      (Metrics.get (w_metrics w) "jobs.succeeded" + Z.of_nat (length (todo cfg w)))%Z).
Proof.
  intros b Hauth Hwf Hacc Hdeps Hfit Hlen Hn. apply drains; try done.
  apply ordered_runnable; [by apply dispatch_order_nodup|]. intros c d Hc Hne Hd.
  destruct (sys_tracker (w_system w)) as [t|] eqn:Et; [|done]. by apply (Hdeps c t d).
Qed.

(** A handler that reports progress. *)
Definition progress_handler : JobHandler Memory := λ ctx,
  _ ← on_backend (update_progress (job_id (ctx_job ctx)) [("percentage", PInt 100)]); mret Finished.

Lemma progress_serves : serves progress_handler.
Proof.
  intros ctx s Hwf. unfold progress_handler. wp_steps. apply wp_zoom.
  eapply wp_mono; [apply wp_conj; [by apply (change_spec _ _ _ (λ s, s))|by apply cards_change]|].
  intros r b' [(Hwf' & -> & Hst) Hsame]. wp_steps. split; [done|]. split; [|exact Hsame].
  split; [intros _; by split_and!|]. intros _. etrans; [exact Hst|]. by apply alter_id.
Qed.

(** Two jobs that need the one [gpu] slot; "b" depends on "a". *)
Definition gpu_worker : Worker Memory :=
  mkWorker (sample_system [gpu_job "b" 1 <| depends_on := ["a"] |>; gpu_job "a" 2]
              <| sys_tracker := Some (with_edges (mkTracker []) "b" ["a"]) |>)
    [("t", progress_handler)] (mkAudit []) (mkMetrics ∅).

Lemma gpu_room id prio : room_alone (w_system gpu_worker) (gpu_job id prio).
Proof.
  split; [by apply request_wf_small; vm_compute|]. split; [by vm_compute|].
  intros _ pool n l. cbn. repeat case_decide; [|done..]. intros [= <-] [= <-]. subst. by vm_compute.
Qed.

Lemma lone_worker_drains_witness :
  let w := gpu_worker in let cfg := sample_config (Some "1.0") in
  job_id <$> todo cfg w = ["a"; "b"] ∧
  wp (Worker.run_forever cfg (λ _, false) 2) w (λ r w', r = Ok 2 ∧
    accounts (w_system w') [] ∅ ∧
    (∀ id, statuses (sys_backend (w_system w')) !! id =
       if decide (id ∈ job_id <$> todo cfg w) then Some SUCCEEDED else statuses (sys_backend (w_system w)) !! id) ∧
    Metrics.get (w_metrics w') "jobs.succeeded" =
      (Metrics.get (w_metrics w) "jobs.succeeded" + Z.of_nat (length (todo cfg w)))%Z).
Proof.
  intros w cfg. split; [reflexivity|].
  assert (Htodo : todo cfg w = [gpu_job "a" 2; gpu_job "b" 1 <| depends_on := ["a"] |>]) by reflexivity.
  apply (lone_worker_drains cfg w 2).
  - reflexivity.
  - apply memory_of_wf.
  - apply sample_system_accounts.
  - rewrite Htodo. intros j t d [->| ->%list_elem_of_singleton]%elem_of_cons Hne [= <-] Hd; [by destruct Hne|].
    apply list_elem_of_singleton in Hd as ->. right. by exists (gpu_job "a" 2).
  - rewrite Htodo. intros j [->| ->%list_elem_of_singleton]%elem_of_cons; (split;
      [exact (gpu_room _ _)|exists progress_handler; split; [reflexivity|apply progress_serves]]).
  - rewrite Htodo. cbn. lia.
  - lia.
Defined.
