(* ===== verification/Pipeline.v ===== *)
(** * From submission to success

    The facade, the in-memory backend and the worker together:
    [JobQueue.submit] puts jobs that depend on each other into the backend and
    the dependency tracker, and a worker that shares both runs them all, unless
    priorities get in the way. *)

From S2P Require Import Prelude PyValue Domain Backend MemoryBackend Security Idempotency.
From S2P Require Import Observability Graph Dependency Queue Concurrency ResourcePool Dispatcher Worker Drain.

(** ** A client

    A plan is a list of requests, each with the positions of the earlier requests
    it depends on; the client submits them in this order, filling in the
    identifiers it was given. *)
Abbreviation plan := (list (JobRequest * list nat)).

Definition wired (ids : list string) (p : JobRequest * list nat) : JobRequest :=
  p.1 <| req_depends_on := omap (λ d, ids !! d) p.2 |>.

Definition submit_next (ids : list string) (p : JobRequest * list nat) : M (JobQueue Memory) (list string) :=
  id ← Queue.submit (wired ids p);
  mret (ids ++ [id]).

Definition submit_plan (ps : plan) : M (JobQueue Memory) (list string) := foldM submit_next [] ps.

(** No request depends on one of lower priority or of another queue. *)
Definition plan_ok (ps : plan) : Prop := ∀ i p d, ps !! i = Some p → d ∈ p.2 →
  ∃ p', d < i ∧ ps !! d = Some p' ∧ (req_priority p.1 ≤ req_priority p'.1)%Z ∧
    req_queue_name p'.1 = req_queue_name p.1.

(** A request without key that passes the payload checks. *)
Definition plain (q : JobQueue Memory) (r : JobRequest) : Prop :=
  acceptable q r ∧ truthy_opt_str (req_idempotency_key r) = false.

(** ** One submission *)

Lemma bind_run {S A T} (m : M S A) (f : A → M S T) s e a s' e' :
  m s e = (Ok a, s', e') → (m ≫= f) s e = f a s' e'.
Proof. unfold mbind, M_bind. by intros ->. Qed.

Lemma submit_stores (q : JobQueue Memory) r e t :
  plain q r → q_tracker q = Some t → Tracker.detect_cycle t (job_id (submitted e r)) (req_depends_on r) = false →
  ∃ q' e', Queue.submit r q e = (Ok (job_id (submitted e r)), q', e') ∧
    q_backend q' = mkMemory (Dict.set (job_id (submitted e r)) (submitted e r) (_jobs (q_backend q))) ∧
    q_tracker q' = Some (track (submitted e r) t) ∧ _payload_max_bytes q' = _payload_max_bytes q ∧
    env_uuid e' = env_uuid e ∧ env_clock e' = env_clock e ∧
    env_ids e' = S (env_ids e) ∧ env_ticks e < env_ticks e'.
Proof.
  intros [Hacc Hkey] Ht Hcycle. rewrite submit_acceptable by done. unfold Queue.submit_job. rewrite Hkey.
  unfold Queue.submit_new, track. change (depends_on (submitted e r)) with (req_depends_on r) in *.
  case_bool_decide as Hd; [by repeat eexists; first [exact Ht|cbn; lia]|].
  assert (Hreg : ∀ e1, Queue.on_tracker (Tracker.validate_and_register (job_id (submitted e r)) (req_depends_on r)) q e1
    = (Ok (Some tt), q <| q_tracker := Some (with_edges t (job_id (submitted e r)) (req_depends_on r)) |>, e1)).
  { intros e1. unfold Queue.on_tracker, zoom_opt, Tracker.validate_and_register.
    rewrite Ht, bool_decide_eq_false_2 by done. erewrite bind_run by done. by rewrite Hcycle. }
  erewrite bind_run by (by erewrite bind_run by apply Hreg).
  destruct q. repeat eexists; cbn; lia.
Qed.

(** ** The state after some submissions

    [js] are the stored jobs, in order of submission. *)
Record submitted_so_far (max : Z) (c : clock) (u : nat → string) (ps : plan) (js : list Job)
    (q : JobQueue Memory) (e : env) : Prop := {
  so_max : _payload_max_bytes q = max;
  so_clock : env_clock e = c;
  so_uuid : env_uuid e = u;
  so_jobs : _jobs (q_backend q) = (λ j, (job_id j, j)) <$> js;
  so_from : Forall2 (λ p j, ∃ now, j = job_of_request now (job_id j) (wired (job_id <$> js) p)) ps js;
  so_ids : Forall (λ j, ∃ i, i < env_ids e ∧ job_id j = u i) js;
  so_nodup : NoDup (job_id <$> js);
  so_past : Forall (λ j, ∃ i, i < env_ticks e ∧ created_at j = c i) js;
  so_sorted : ∀ x y, [x; y] `sublist_of` js → (created_at x ≤ created_at y)%Z;
  so_tracker : ∃ t, q_tracker q = Some t ∧ tracker_wf t ∧
    (∀ j, j ∈ js → Tracker.deps_of t (job_id j) = depends_on j) ∧
    (∀ id, id ∉ job_id <$> js → Tracker.deps_of t id = []);
}.

Lemma wired_app ids id p : (∀ d, d ∈ p.2 → d < length ids) → wired (ids ++ [id]) p = wired ids p.
Proof.
  intros Hp. unfold wired. f_equal. induction p.2 as [|d ds IH]; [done|]. cbn.
  rewrite lookup_app_l by (apply Hp; left). rewrite IH; [done|]. intros d' ?. apply Hp. by right.
Qed.

Lemma wired_deps now id ids p d :
  d ∈ depends_on (job_of_request now id (wired ids p)) → ∃ k, k ∈ p.2 ∧ ids !! k = Some d.
Proof.
  change (d ∈ omap (λ d, ids !! d) p.2 → ∃ k, k ∈ p.2 ∧ ids !! k = Some d).
  rewrite list_elem_of_omap. naive_solver.
Qed.

Section submitting.
Context (max : Z) (c : clock) (u : nat → string).
Context (Hu : Inj (=) (=) u) (Hc : ∀ i k, i ≤ k → (c i ≤ c k)%Z).

(** A path in the graph stays among the submitted jobs. *)
Lemma path_stays t (js : list Job) x y :
  (∀ j, j ∈ js → ∀ d, d ∈ Tracker.deps_of t (job_id j) → d ∈ job_id <$> js) →
  x ∈ job_id <$> js → rtc (depends t) x y → y ∈ job_id <$> js.
Proof using Type.
  intros Hstay Hx Hpath. revert Hx. induction Hpath as [|x z y Hxz _ IH]; intros Hx; [done|]. apply IH.
  apply list_elem_of_fmap in Hx as (j & -> & Hj). by apply (Hstay j).
Qed.

Lemma submit_step ps js q e p :
  submitted_so_far max c u ps js q e → plain q p.1 →
  (∀ d, d ∈ p.2 → d < length ps) → (∀ i p' d, ps !! i = Some p' → d ∈ p'.2 → d < length ps) →
  ∃ q' e' j, Queue.submit (wired (job_id <$> js) p) q e = (Ok (job_id j), q', e') ∧
    submitted_so_far max c u (ps ++ [p]) (js ++ [j]) q' e' .
Proof using Type*.
  intros [Hmax Hcl Hud Hjobs Hfrom Hids Hnd Hpast Hsorted (t & Ht & Htwf & Hdeps & Hno)] Hplain Hp Hps.
  set (r := wired (job_id <$> js) p). set (j := submitted e r).
  assert (Hlen : length js = length ps) by by rewrite (Forall2_length _ _ _ Hfrom).
  assert (Hnew : job_id j ∉ job_id <$> js).
  { intros (j' & Hj' & Hin)%list_elem_of_fmap. rewrite Forall_forall in Hids. destruct (Hids _ Hin) as (i & Hi & Heq).
    rewrite Heq, <- Hud in Hj'. change (job_id j) with (env_uuid e (env_ids e)) in Hj'. rewrite Hud in Hj'.
    apply Hu in Hj'. lia. }
  assert (Hin : ∀ now id p' d, d ∈ depends_on (job_of_request now id (wired (job_id <$> js) p')) → d ∈ job_id <$> js).
  { intros now id p' d (k & _ & Hk)%wired_deps. by eapply list_elem_of_lookup_2. }
  assert (Hcycle : Tracker.detect_cycle t (job_id j) (req_depends_on r) = false).
  { apply not_true_iff_false. rewrite detect_cycle_spec by done. intros (d & Hd & Hpath). apply Hnew.
    eapply path_stays; [|exact (Hin 0%Z "" p d Hd)|exact Hpath].
    intros j' Hj' d' Hd'. rewrite Hdeps in Hd' by done.
    apply list_elem_of_lookup in Hj' as [i Hi]. destruct (Forall2_lookup_r _ _ _ _ _ Hfrom Hi) as (p' & Hp' & now & Heq).
    rewrite Heq in Hd'. eapply Hin, Hd'. }
  destruct (submit_stores q r e t Hplain Ht Hcycle) as (q' & e' & Hrun & Hb & Ht' & Hmax' & Hu' & Hc' & Hi' & Hk').
  exists q', e', j. split; [exact Hrun|]. fold j in Hb, Ht'.
  assert (Hfresh : Dict.get (job_id j) (_jobs (q_backend q)) = None).
  { apply Dict.get_None. rewrite Hjobs. unfold Dict.keys. by rewrite <- list_fmap_compose. }
  split; try congruence.
  - rewrite Hb. cbn [_jobs]. by rewrite set_fresh, Hjobs, fmap_app.
  - rewrite fmap_app. apply Forall2_app.
    + apply Forall2_same_length_lookup_2; [done|]. intros i p' j' Hp' Hj'.
      destruct (Forall2_lookup_lr _ _ _ _ _ _ Hfrom Hp' Hj') as [now Heq]. exists now.
      change (job_id <$> [j]) with [job_id j]. rewrite wired_app; [exact Heq|]. rewrite length_fmap, Hlen. intros d. by apply Hps with (i := i).
    + constructor; [|done]. eexists. change (job_id <$> [j]) with [job_id j]. rewrite wired_app; [reflexivity|]. by rewrite length_fmap, Hlen.
  - apply Forall_app. split.
    + eapply Forall_impl; [exact Hids|]. intros j' (i & ? & ?). exists i. split; [lia|done].
    + constructor; [|done]. exists (env_ids e). split; [lia|]. by rewrite <- Hud.
  - rewrite fmap_app. apply NoDup_app. split; [done|]. split; [|by apply NoDup_singleton].
    intros id Hid ->%list_elem_of_singleton. done.
  - apply Forall_app. split.
    + eapply Forall_impl; [exact Hpast|]. intros j' (i & ? & ?). exists i. split; [lia|done].
    + constructor; [|done]. exists (env_ticks e). split; [lia|]. by rewrite <- Hcl.
  - intros x y (l1 & l2 & Hl & H1 & H2)%sublist_app_r. inversion H2 as [|? ? ? H2'|? ? ? H2']; subst.
    + inversion H2'; subst. destruct l1 as [|x' [|? [|]]]; simplify_list_eq. apply singleton_sublist_l in H1.
      rewrite Forall_forall in Hpast. destruct (Hpast _ H1) as (i & Hi & ->).
      change (env_clock e i ≤ env_clock e (env_ticks e))%Z. apply Hc. lia.
    + inversion H2'; subst. rewrite app_nil_r in Hl. subst. by apply Hsorted.
  - exists (track j t). split; [done|]. unfold track. rewrite fmap_app. case_bool_decide as Hd.
    + split; [done|]. split.
      * intros j' [Hj'| ->%list_elem_of_singleton]%elem_of_app; [by apply Hdeps|]. by rewrite Hd, Hno.
      * intros id Hid. apply Hno. intros Hid'. apply Hid, elem_of_app. by left.
    + unfold with_edges. split; [by apply Dict.wf_set|]. destruct t as [edges]. split.
      * intros j' [Hj'| ->%list_elem_of_singleton]%elem_of_app; rewrite deps_of_set.
        -- rewrite decide_False; [by apply Hdeps|]. intros Heq. apply Hnew. rewrite Heq. by apply list_elem_of_fmap_2.
        -- by rewrite decide_True.
      * intros id Hid. rewrite deps_of_set, decide_False.
        -- apply Hno. intros Hid'. apply Hid, elem_of_app. by left.
        -- intros <-. apply Hid, elem_of_app. right. left.
Qed.

Lemma submit_all_steps ps1 ps2 js q e :
  submitted_so_far max c u ps1 js q e → plan_ok (ps1 ++ ps2) → Forall (λ p, plain q p.1) ps2 →
  ∃ js' q' e', foldM submit_next (job_id <$> js) ps2 q e = (Ok (job_id <$> js'), q', e') ∧
    submitted_so_far max c u (ps1 ++ ps2) js' q' e'.
Proof using Type*.
  revert ps1 js q e. induction ps2 as [|p ps2 IH]; intros ps1 js q e Hso Hok Hplain.
  { rewrite app_nil_r. by exists js, q, e. }
  apply Forall_cons in Hplain as [Hp Hplain].
  destruct (submit_step ps1 js q e p Hso Hp) as (q1 & e1 & j & Hrun & Hso1).
  { intros d Hd. destruct (Hok (length ps1) p d) as (p' & Hlt & _); [|done|done]. by apply list_lookup_middle. }
  { intros i p' d Hi Hd. destruct (Hok i p' d) as (p'' & Hlt & _); [by apply lookup_app_l_Some|done|].
    apply lookup_lt_Some in Hi. lia. }
  destruct (IH (ps1 ++ [p]) (js ++ [j]) q1 e1 Hso1) as (js' & q' & e' & Hrest & Hso').
  { by rewrite <- app_assoc. }
  { eapply Forall_impl; [exact Hplain|]. intros p' [[? ?] ?]. split; [|done]. split; [|done].
    by rewrite (so_max _ _ _ _ _ _ _ Hso1), <- (so_max _ _ _ _ _ _ _ Hso). }
  exists js', q', e'. rewrite <- app_assoc in Hso'. split; [|exact Hso']. cbn [foldM]. rewrite fmap_app in Hrest.
  erewrite bind_run; [exact Hrest|]. unfold submit_next. by erewrite bind_run.
Qed.
End submitting.

(** ** What the worker finds *)

Section found.
Context {max : Z} {c : clock} {u : nat → string} {ps : plan} {js : list Job} {q : JobQueue Memory} {e : env}.
Context (Hso : submitted_so_far max c u ps js q e).
Abbreviation b := (q_backend q).

Lemma stored_wf : memory_wf b.
Proof using Hso.
  assert (Hwf : Dict.wf (_jobs b)).
  { rewrite (so_jobs _ _ _ _ _ _ _ Hso). unfold Dict.wf, Dict.keys. rewrite <- list_fmap_compose. apply Hso. }
  split; [done|]. intros k j Hk. apply Dict.elem_of_get in Hk; [|done].
  rewrite (so_jobs _ _ _ _ _ _ _ Hso) in Hk. by apply list_elem_of_fmap in Hk as (j' & [= -> ->] & _).
Qed.

Lemma stored_values : Dict.values (_jobs b) = js.
Proof using Hso.
  rewrite (so_jobs _ _ _ _ _ _ _ Hso). unfold Dict.values. rewrite <- list_fmap_compose. apply list_fmap_id.
Qed.

Lemma stored_job j : j ∈ js ↔ Dict.get (job_id j) (_jobs b) = Some j.
Proof using Hso. rewrite <- memory_values by apply stored_wf. by rewrite stored_values. Qed.

Lemma from_request_fields j now id r : j = job_of_request now id r →
  priority j = req_priority r ∧ queue_name j = req_queue_name r ∧ status j = QUEUED.
Proof using Type. intros ->. split; [reflexivity|]. split; reflexivity. Qed.

(** The [i]-th stored job comes from the [i]-th request. *)
Lemma stored_from i j : js !! i = Some j → ∃ p now, ps !! i = Some p ∧
  j = job_of_request now (job_id j) (wired (job_id <$> js) p).
Proof using Hso.
  intros Hj. destruct (Forall2_lookup_r _ _ _ _ _ (so_from _ _ _ _ _ _ _ Hso) Hj) as (p & Hp & now & Heq). eauto.
Qed.

(** Without priority inversion, dependencies come first in the order of dispatch. *)
Lemma stored_order qn i k x y :
  plan_ok ps → js !! i = Some x → js !! k = Some y → job_id y ∈ depends_on x → matches qn (queue_name x) →
  [y; x] `sublist_of` dispatch_order None qn b.
Proof using Hso.
  intros Hok Hx Hy Hdep Hqn.
  destruct (stored_from i x Hx) as (p & now & Hp & Ex). rewrite Ex in Hdep.
  apply wired_deps in Hdep as (k' & Hk' & Hid).
  assert (k' = k) as ->.
  { eapply (NoDup_lookup (job_id <$> js)); [apply Hso|exact Hid|]. by rewrite list_lookup_fmap, Hy. }
  destruct (Hok i p k Hp Hk') as (p' & Hlt & Hp' & Hprio & Hqueue).
  destruct (stored_from k y Hy) as (p'' & now' & Hp'' & Ey). rewrite Hp' in Hp''. injection Hp'' as <-.
  destruct (from_request_fields _ _ _ _ Ex) as (Px & Qx & Sx), (from_request_fields _ _ _ _ Ey) as (Py & Qy & Sy).
  change (req_priority (wired ?ids ?p)) with (req_priority p.1) in *.
  change (req_queue_name (wired ?ids ?p)) with (req_queue_name p.1) in *.
  assert (Hsub : [y; x] `sublist_of` js) by by eapply sublist_pair.
  pose proof (so_sorted _ _ _ _ _ _ _ Hso _ _ Hsub) as Hcreated.
  unfold dispatch_order. rewrite stored_values. apply stable_sort_before.
  - apply filter_sublist_pair; [done| |]; apply Is_true_true, eligible_spec; split_and!; try done.
    by rewrite Qy, Hqueue, <- Qx.
  - unfold Memory.before. rewrite Px, Py. lia.
Qed.

Lemma stored_runnable qn :
  plan_ok ps → runnable_in_order (q_tracker q) (memory_statuses b) (dispatch_order None qn b).
Proof using Hso.
  intros Hok. apply ordered_runnable; [apply dispatch_order_nodup, stored_wf|].
  intros x d Hx _ Hd. right.
  destruct (so_tracker _ _ _ _ _ _ _ Hso) as (t & Ht & _ & Hdeps & _). rewrite Ht in Hd. cbn in Hd.
  apply dispatch_order_elem in Hx as (Hg & _ & _ & Hqn); [|apply stored_wf].
  apply stored_job in Hg. rewrite Hdeps in Hd by done.
  apply list_elem_of_lookup in Hg as [i Hi]. destruct (stored_from i x Hi) as (p & now & Hp & Ex).
  assert (Hd' := Hd). rewrite Ex in Hd'. apply wired_deps in Hd' as (k & _ & Hid).
  rewrite list_lookup_fmap in Hid. destruct (js !! k) as [y|] eqn:Hy; [|done]. injection Hid as <-.
  exists y. split; [|done]. by eapply stored_order.
Qed.

Lemma stored_count qn :
  length (dispatch_order None qn b) = length (filter (λ p, matches qn (req_queue_name p.1)) ps).
Proof using Hso.
  unfold dispatch_order. rewrite stable_sort_perm, stored_values.
  assert (Hfrom : Forall2 (λ p j, Memory.eligible None qn j = true ↔ matches qn (req_queue_name p.1)) ps js).
  { eapply Forall2_impl; [apply Hso|]. intros p j (now & Heq).
    destruct (from_request_fields _ _ _ _ Heq) as (_ & Hq & Hs). rewrite eligible_spec, Hs, Hq.
    split; [intros (_ & _ & Hm); exact Hm|intros Hm; split; [reflexivity|split; [exact I|exact Hm]]]. }
  clear Hso. induction Hfrom as [|p j ps' js' Hj _ IH]; [done|]. rewrite !filter_cons.
  rewrite <- Is_true_true in Hj. repeat case_decide; cbn [length]; first [by rewrite IH|tauto].
Qed.

(** The status a stored job ends with when all that wait in [qn] succeed. *)
Lemma stored_final qn i p j : ps !! i = Some p → js !! i = Some j →
  (if decide (job_id j ∈ job_id <$> dispatch_order None qn b) then Some SUCCEEDED
   else memory_statuses b !! job_id j) =
  Some (if decide (matches qn (req_queue_name p.1)) then SUCCEEDED else QUEUED).
Proof using Hso.
  intros Hp Hj. destruct (stored_from i j Hj) as (p' & now & Hp' & Ej). rewrite Hp in Hp'. injection Hp' as <-.
  destruct (from_request_fields _ _ _ _ Ej) as (_ & Hq & Hs).
  assert (Hg : Dict.get (job_id j) (_jobs b) = Some j) by (apply stored_job; by eapply list_elem_of_lookup_2).
  assert (Hin : job_id j ∈ job_id <$> dispatch_order None qn b ↔ matches qn (req_queue_name p.1)).
  { change (req_queue_name p.1) with (req_queue_name (wired (job_id <$> js) p)). rewrite <- Hq. split.
    - intros (j' & Heq & (Hg' & _ & _ & Hm')%dispatch_order_elem)%list_elem_of_fmap; [|apply stored_wf].
      rewrite <- Heq, Hg in Hg'. by injection Hg' as ->.
    - intros Hm'. apply list_elem_of_fmap_2, dispatch_order_elem; [apply stored_wf|]. by repeat split. }
  rewrite memory_lookup, Hg by apply stored_wf. cbn. rewrite Hs. repeat case_decide; first [done|tauto].
Qed.
End found.

(** ** Theorem *)

(** C1: every submitted job runs. A client submits requests, each of which may
    depend on earlier ones of the same queue and of no lower priority, to an empty
    in-memory backend, under a clock that does not run backwards; every
    submission is accepted, under an identifier of its own. A worker that shares
    backend and dependency tracker, whatever its limits, then runs: if each job
    fits the limits when it runs alone and has a handler that returns, the worker
    ends without an exception, holds nothing, each job of its queue has
    succeeded, the jobs of other queues are still queued, and it counted each
    success once. *)
Theorem submitted_plan_runs (cfg : WorkerConfig Memory) (q : JobQueue Memory) ps e :
  q_backend q = mkMemory [] → q_tracker q = Some (mkTracker []) →
  Forall (λ p, plain q p.1) ps → plan_ok ps →
  Inj (=) (=) (env_uuid e) → (∀ i k, i ≤ k → (env_clock e i ≤ env_clock e k)%Z) →
  _identity_authoriser cfg = None →
  let '(res, q', _) := submit_plan ps q e in
  ∃ ids, res = Ok ids ∧ length ids = length ps ∧ NoDup ids ∧
    ∀ w n, sys_backend (w_system w) = q_backend q' → sys_tracker (w_system w) = q_tracker q' →
      accounts (w_system w) [] ∅ →
      (∀ p, p ∈ ps → room_alone (w_system w) (job_of_request 0 "" p.1) ∧
         has_server (_handlers w) (req_job_type p.1)) →
      length ps ≤ n → 0 < n →
      wp (Worker.run_forever cfg (λ _, false) (Z.of_nat n)) w (λ r w', r = Ok n ∧
        accounts (w_system w') [] ∅ ∧
        (∀ i p id, ps !! i = Some p → ids !! i = Some id →
           statuses (sys_backend (w_system w')) !! id =
           Some (if decide (matches (_queue_name cfg) (req_queue_name p.1)) then SUCCEEDED else QUEUED)) ∧
        Metrics.get (w_metrics w') "jobs.succeeded" =
          (Metrics.get (w_metrics w) "jobs.succeeded" +
           Z.of_nat (length (filter (λ p, matches (_queue_name cfg) (req_queue_name p.1)) ps)))%Z).
Proof.
  intros Hb Ht Hplain Hok Hu Hc Hauth. unfold submit_plan.
  assert (Hso0 : submitted_so_far (_payload_max_bytes q) (env_clock e) (env_uuid e) [] [] q e).
  { split; try done; [by rewrite Hb|constructor|by intros x y ?%sublist_nil_r|].
    exists (mkTracker []). split; [done|]. split; [constructor|]. split; [by intros j ?%elem_of_nil|done]. }
  destruct (submit_all_steps _ _ _ Hu Hc [] ps [] q e Hso0 Hok Hplain) as (js & q' & e' & Hrun & Hso).
  cbn [app] in Hso. change (job_id <$> []) with (@nil string) in Hrun. rewrite Hrun.
  exists (job_id <$> js). split; [done|].
  split; [by rewrite length_fmap, (Forall2_length _ _ _ (so_from _ _ _ _ _ _ _ Hso))|]. split; [apply Hso|].
  intros w n Eb Et Hacc Hfit Hlen Hn.
  assert (Htodo : todo cfg w = dispatch_order None (_queue_name cfg) (q_backend q')) by (unfold todo; by rewrite Eb).
  pose proof (stored_count Hso (_queue_name cfg)) as Hcount.
  eapply wp_mono; [apply (drains cfg w n Hauth); rewrite ?Eb, ?Et, ?Htodo; try done|].
  - by apply (stored_wf Hso).
  - by apply (stored_runnable Hso).
  - intros j (Hg & _)%dispatch_order_elem; [|by apply (stored_wf Hso)]. apply (stored_job Hso) in Hg.
    apply list_elem_of_lookup in Hg as [i Hi]. destruct (stored_from Hso i j Hi) as (p & now & Hp & Ej).
    destruct (Hfit p) as [Hroom Hserver]; [by eapply list_elem_of_lookup_2|]. rewrite Ej. by split.
  - rewrite Hcount. etrans; [apply length_filter|done].
  - rewrite Htodo, Eb. intros r w' (-> & Hacc' & Hst & Hm). split; [done|]. split; [done|].
    split; [|by rewrite Hm, Hcount]. intros i p id Hp Hid. rewrite Hst.
    rewrite list_lookup_fmap in Hid. destruct (js !! i) as [j|] eqn:Hj; [|done]. injection Hid as <-.
    by apply (stored_final Hso _ i).
Qed.

(** A build, a test that depends on it, and a job of another queue. *)
Definition sample_plan : plan :=
  [(new_request "t" <| req_priority := 1%Z |>, []); (new_request "t", [0]);
   (new_request "t" <| req_queue_name := "other" |>, [])].
Definition tracked_queue : JobQueue Memory := Queue.new (mkMemory []) <| q_tracker := Some (mkTracker []) |>.

Lemma submitted_plan_runs_witness :
  let cfg := mkConfig "localhost" "worker-1" (Some "default") (Some "1.0") None None in
  let '(res, q', _) := submit_plan sample_plan tracked_queue env0 in
  ∃ ids, res = Ok ids ∧ length ids = 3 ∧ NoDup ids ∧
    ∀ w n, sys_backend (w_system w) = q_backend q' → sys_tracker (w_system w) = q_tracker q' →
      accounts (w_system w) [] ∅ →
      (∀ p, p ∈ sample_plan → room_alone (w_system w) (job_of_request 0 "" p.1) ∧
         has_server (_handlers w) (req_job_type p.1)) →
      3 ≤ n → 0 < n →
      wp (Worker.run_forever cfg (λ _, false) (Z.of_nat n)) w (λ r w', r = Ok n ∧
        accounts (w_system w') [] ∅ ∧
        (∀ i p id, sample_plan !! i = Some p → ids !! i = Some id →
           statuses (sys_backend (w_system w')) !! id =
           Some (if decide (matches (Some "default") (req_queue_name p.1)) then SUCCEEDED else QUEUED)) ∧
        Metrics.get (w_metrics w') "jobs.succeeded" = (Metrics.get (w_metrics w) "jobs.succeeded" + 2)%Z).
Proof.
  intros cfg.
  assert (Hplain : ∀ r, req_payload r = [] → req_idempotency_key r = None → plain tracked_queue r).
  { intros r Hp Hk. split; [split|]; [by rewrite Hp|by rewrite Hp, <- payload_secret_iff|by rewrite Hk]. }
  apply (submitted_plan_runs cfg tracked_queue sample_plan env0).
  - reflexivity.
  - reflexivity.
  - repeat constructor; by apply Hplain.
  - intros [|[|[|]]] p d [= <-] Hd; cbn in Hd.
    + by apply elem_of_nil in Hd.
    + apply list_elem_of_singleton in Hd as ->. eexists. split; [lia|]. split; [reflexivity|]. split; [done|reflexivity].
    + by apply elem_of_nil in Hd.
  - exact pretty_nat_inj.
  - intros i k Hik. cbn. unfold in_range. lia.
  - reflexivity.
Defined.

(** ** What keeps a queue from draining

    The worker asks the backend for one job and only then looks at the
    dependencies, so a blocked job at the head hides the rest of the queue, the
    jobs it waits for included. *)

(** The worker is offered [j]. *)
Definition head_is {B} `{QueueBackend B} (cfg : WorkerConfig B) (b : B) (j : Job) : Prop :=
  wp (dequeue 1 None (_queue_name cfg)) b (λ r b', b' = b ∧ r = Ok [j]).

Lemma run_once_blocked {B} `{BackendContract B} (cfg : WorkerConfig B) w j :
  _identity_authoriser cfg = None → backend_wf (sys_backend (w_system w)) →
  head_is cfg (sys_backend (w_system w)) j →
  ¬ deps_met (statuses (sys_backend (w_system w))) (sys_tracker (w_system w)) j →
  wp (Worker.run_once cfg) w (λ r w', w' = w ∧ r = Ok false).
Proof.
  intros Hauth Hwf Hhead Hno. unfold Worker.run_once, Worker.authorise, Worker.select. rewrite Hauth. wp_steps.
  assert (Worker.has_dispatcher (w_system w) = true) as ->.
  { unfold Worker.has_dispatcher. destruct (sys_tracker (w_system w)) as [t|]; [apply orb_true_r|by destruct Hno]. }
  apply wp_zoom. unfold Dispatcher.select_eligible. wp_steps.
  eapply (wp_on_backend_read _ _ (λ l, l = [j])).
  { eapply wp_mono; [exact Hhead|]. intros r b' [-> ->]. by eauto. }
  intros l ->. cbn [foldM]. wp_steps. eapply wp_mono; [by apply consider_blocked|].
  intros r s' [-> ->]. wp_steps. split; [by destruct w|done].
Qed.

(** C16: a blocked head starves the queue. Over any backend that meets the contract,
    as long as the first job the backend offers has a dependency that has not
    succeeded, [run_forever] changes nothing at all, for any number of loops:
    also when that dependency is itself queued and could run at once. *)
Theorem blocked_head_starves {B} `{BackendContract B} (cfg : WorkerConfig B) w j stops max_loops :
  _identity_authoriser cfg = None → backend_wf (sys_backend (w_system w)) →
  head_is cfg (sys_backend (w_system w)) j →
  ¬ deps_met (statuses (sys_backend (w_system w))) (sys_tracker (w_system w)) j →
  wp (Worker.run_forever cfg stops max_loops) w (λ r w', w' = w ∧
    r = Ok (loops_run stops (Z.to_nat (Z.max 1 max_loops)) 0)).
Proof.
  intros Hauth Hwf Hhead Hno. apply (loop_ok cfg stops max_loops (λ w', w' = w)); [|done|lia|lia].
  intros w' ->. eapply wp_mono; [by eapply run_once_blocked|]. intros r w' [-> ->]. by eauto.
Qed.

(** "b", of higher priority, depends on "a"; both are queued. *)
Definition blocked_jobs : list Job :=
  [sample_job "a" 0 1; sample_job "b" 5 2 <| depends_on := ["a"] |>].
Definition blocked_worker : Worker Memory :=
  mkWorker (mkSystem (memory_of blocked_jobs) None None
    (Some (with_edges (mkTracker []) "b" ["a"]))) [("t", progress_handler)] (mkAudit []) (mkMetrics ∅).

Lemma blocked_head_starves_witness :
  let w := blocked_worker in
  statuses (sys_backend (w_system w)) !! "a" = Some QUEUED ∧
  wp (Worker.run_forever (sample_config None) (λ _, false) 1000) w (λ r w', w' = w ∧ r = Ok 1000).
Proof.
  intros w. split; [reflexivity|].
  apply (blocked_head_starves (sample_config None) w (sample_job "b" 5 2 <| depends_on := ["a"] |>) (λ _, false) 1000).
  - reflexivity.
  - apply memory_of_wf.
  - apply memory_dequeue_run. split; reflexivity.
  - intros Hd. specialize (Hd ltac:(discriminate) "a" ltac:(vm_compute; by left)). vm_compute in Hd. discriminate Hd.
Defined.
