(* ===== verification/MockBackend.v ===== *)
(** * The mock backend

    [testing/mock_backends.py]: [MockQueueBackend], a second in-memory
    implementation of the backend interface for unit tests. It lacks three of the
    abstract methods, so only a subclass that adds them can be instantiated;
    what such a subclass adds is the class [MockCompletion]. Whatever it is, the
    mock meets the backend contract, and the basic conformance suite accepts it. *)

From S2P Require Import Prelude PyValue Domain Backend MemoryBackend Security Idempotency.
From S2P Require Import Observability Graph Dependency Queue Conformance.

(** The dictionary of jobs, as the in-memory backend has it. *)
Record Mock : Type := mkMock { mock_store : Memory }.

Class MockCompletion := {
  added_record_attempt : string → option string → M Mock bool;
  added_update_progress : string → dict pyval → M Mock bool;
  added_store_result : string → pyval → M Mock bool;
}.

Module Mock.

(** A method with the text of the in-memory backend's, less the lock. *)
Definition same {A} : M Memory A → M Mock A := zoom mock_store (λ m _, mkMock m).

Definition enqueue (j : Job) : M Mock string := same (Memory.enqueue j).
Definition claim (id host_id worker_id : string) : M Mock bool := same (Memory.claim id host_id worker_id).
Definition heartbeat (id : string) : M Mock bool := same (Memory.heartbeat id).
Definition get (id : string) : M Mock (option Job) := same (Memory.get id).
Definition get_queue_status : M Mock (dict Z) := same Memory.get_queue_status.
Definition health_check : M Mock bool := mret true.
Definition all_jobs : M Mock (list Job) := same Memory.all_jobs.

(** [if f: jobs = [j for j in jobs if ... == f]]: an empty filter is no filter. *)
Definition narrow (field : Job → string) (f : option string) (jobs : list Job) : list Job :=
  if truthy_opt_str f then filter (λ j, bool_decide (Some (field j) = f)) jobs else jobs.

Definition dequeue (limit : Z) (jt qn : option string) : M Mock (list Job) :=
  jobs ← gets (λ b, Dict.values (_jobs (mock_store b)));
  let jobs := filter (λ j, bool_decide (status j = QUEUED)) jobs in
  let jobs := narrow job_type jt jobs in
  let jobs := narrow queue_name qn jobs in
  mret (slice_to limit (stable_sort Memory.before jobs)).

(** Unlike the in-memory backend, it forgets the claimer of a job that stops running. *)
Definition update_status (id status' : string) : M Mock bool :=
  job ← gets (λ b, Dict.get id (_jobs (mock_store b)));
  match job with
  | None => mret false
  | Some _ =>
    s ← parse_status status';
    now ← utcnow;
    same (Memory.mutate id (λ j,
      let j := j <| status := s |> <| updated_at := now |> in
      if bool_decide (status j ≠ RUNNING) then j <| claimed_by := None |> else j));;
    mret true
  end.

Definition release (id : string) : M Mock bool := update_status id (value QUEUED).

End Mock.

Section completed.
Context `{MockCompletion}.

#[export] Instance mock_backend : QueueBackend Mock := {|
  enqueue := Mock.enqueue;
  dequeue := Mock.dequeue;
  claim := Mock.claim;
  release := Mock.release;
  heartbeat := Mock.heartbeat;
  get := Mock.get;
  update_status := Mock.update_status;
  get_queue_status := Mock.get_queue_status;
  health_check := Mock.health_check;
  all_jobs := Mock.all_jobs;
  record_attempt := added_record_attempt;
  update_progress := added_update_progress;
  store_result := added_store_result;
  deref j := Mock.same (Memory.deref j);
  assign j f := Mock.same (Memory.assign j f);
|}.
End completed.

(** ** Against the in-memory backend *)

Lemma wp_same {A} (m : M Memory A) b Q :
  wp m (mock_store b) (λ r s, Q r (mkMock s)) → wp (Mock.same m) b Q.
Proof. apply (wp_zoom mock_store (λ m _, mkMock m)). Qed.

(** What leaves the store alone. *)
Lemma wp_same_read {A} (m : M Memory A) b (P : result A → Prop) :
  wp m (mock_store b) (λ r s, s = mock_store b ∧ P r) → wp (Mock.same m) b (λ r b', b' = b ∧ P r).
Proof. intros Hm. apply wp_same. eapply wp_mono; [exact Hm|]. destruct b. by intros r s [-> ?]. Qed.

Lemma narrow_matches field f jobs :
  f ≠ Some "" → Mock.narrow field f jobs = filter (λ j, bool_decide (matches f (field j))) jobs.
Proof.
  intros Hf. unfold Mock.narrow. destruct f as [s|].
  - assert (truthy_opt_str (Some s) = true) as ->.
    { unfold truthy_opt_str, truthy_str. rewrite bool_decide_eq_false_2; [done|]. congruence. }
    apply list_filter_iff. intros j. rewrite !Is_true_true, !bool_decide_eq_true. cbn. naive_solver.
  - cbn. induction jobs as [|j jobs IH]; [done|]. by rewrite filter_cons_True, <- IH.
Qed.

(** Without an empty filter, [dequeue] answers what the in-memory backend would. *)
Lemma mock_dequeue_run b limit jt qn Q :
  jt ≠ Some "" → qn ≠ Some "" →
  Q (Ok (slice_to limit (dispatch_order jt qn (mock_store b)))) b → wp (Mock.dequeue limit jt qn) b Q.
Proof.
  intros Hjt Hqn HQ. unfold Mock.dequeue. wp_steps.
  rewrite !narrow_matches, !list_filter_filter by done. unfold dispatch_order in HQ.
  erewrite list_filter_iff; [exact HQ|]. intros j. cbn beta.
  rewrite !Is_true_true, eligible_spec, !bool_decide_eq_true. naive_solver.
Qed.

Lemma mock_update_status_ok b id s :
  memory_wf (mock_store b) →
  wp (Mock.update_status id (value s)) b (λ r b', memory_wf (mock_store b') ∧
    r = Ok (bool_decide (is_Some (memory_statuses (mock_store b) !! id))) ∧
    memory_statuses (mock_store b') = alter (λ _, s) id (memory_statuses (mock_store b))).
Proof.
  intros Hwf. unfold Mock.update_status. wp_steps. rewrite memory_lookup by done.
  destruct (Dict.get id (_jobs (mock_store b))) as [j|] eqn:E; wp_steps.
  - apply wp_parse_status. wp_steps. apply wp_same. unfold Memory.mutate. wp_steps.
    rewrite bool_decide_eq_true_2 by eauto. split_and!; [|done|].
    + apply memory_wf_update; [|done]. intros j'. by case_bool_decide.
    + apply memory_statuses_update; [| |done]; intros j'; by case_bool_decide.
  - split; [done|]. rewrite bool_decide_eq_false_2 by (by intros []). split; [done|].
    symmetry. apply alter_id. intros x. by rewrite memory_lookup, E.
Qed.

#[export, refine] Instance mock_contract `{MockCompletion} : BackendContract Mock := {|
  backend_wf b := memory_wf (mock_store b);
  statuses b := memory_statuses (mock_store b);
  contents b := memory_contents (mock_store b);
|}.
Proof.
  - intros b Hwf. by apply memory_contents_statuses.
  - intros b id j Hwf. by apply memory_contents_ids.
  - intros b j Hwf. by apply wp_same, memory_enqueue_fresh.
  - intros b limit jt qn Hwf Hl Hjt Hqn. apply mock_dequeue_run; [done..|]. split; [done|].
    eexists. split; [done|]. by apply memory_dequeued_stored.
  - intros b id host worker Hwf. by apply wp_same, memory_claim_ok.
  - intros b id Hwf. by apply mock_update_status_ok.
  - intros b id Hwf. by apply wp_same, memory_heartbeat_ok.
  - intros b id Hwf. by apply wp_same_read, memory_get_ok.
  - intros b id s Hwf. by apply mock_update_status_ok.
  - intros b Hwf. by apply wp_same_read, memory_all_jobs_run.
  - intros b j Hwf. by apply wp_same_read, memory_deref_ok.
Defined.

(** The basic conformance suite accepts the mock. *)
Lemma mock_offers_job `{MockCompletion} : offers_job Mock.
Proof.
  intros b id Hwf Hst. apply mock_dequeue_run; [done..|].
  pose proof (memory_offers_job (mock_store b) id Hwf Hst env0) as (l & [= <-] & Hl). eauto.
Qed.

(** The one difference a client can see: the claimer of a job that succeeded. *)
Lemma mock_forgets_claimer `{MockCompletion} :
  let j := sample_job "a" 0 1 in
  let run B `{QueueBackend B} : M B (option (option string)) :=
    _ ← claim "a" "h" "w"; _ ← update_status "a" (value SUCCEEDED);
    j ← get "a"; mret (claimed_by <$> j) in
  answer (run Memory) (memory_of [j]) = Ok (Some (Some "h:w")) ∧
  answer (run Mock) (mkMock (memory_of [j])) = Ok (Some None).
Proof. split; reflexivity. Qed.
