(* ===== verification/Suites.v ===== *)
(** * The conformance suites that run a worker

    [testing/conformance.py], [testing/fixtures.py]: the resource-pool suite and
    the dependency suite as programs over a backend, a queue and a worker that
    share it, and the sample requests for tests. The handlers of the suites
    append to a list of the test; it is kept next to the backend. *)

From S2P Require Import Prelude PyValue Domain Backend MemoryBackend Security Idempotency.
From S2P Require Import Observability Graph Dependency Queue Concurrency ResourcePool Dispatcher Worker.
From S2P Require Import Conformance MockBackend.

Module Fixtures.

Definition sample_job_request (job_type queue_name : string) (priority : Z) : JobRequest :=
  new_request job_type <| req_queue_name := queue_name |> <| req_payload := [("value", PStr "ok")] |>
    <| req_priority := priority |>.

Definition sample_job {S} (job_type queue_name : string) (priority : Z) : M S Job :=
  from_request (sample_job_request job_type queue_name priority).

Definition utc_now {S} : M S Z := utcnow.

End Fixtures.

(** ** A backend and the list [results] of the test *)

Record Recording (B : Type) : Type := mkRecording {
  rec_backend : B;
  results : list string;
}.
Arguments mkRecording {B}.
Arguments rec_backend {B}.
Arguments results {B}.

Definition recorded {B A} : M B A → M (Recording B) A :=
  zoom rec_backend (λ b r, mkRecording b (results r)).

#[export] Instance recording_backend {B} `{QueueBackend B} : QueueBackend (Recording B) := {|
  enqueue j := recorded (enqueue j);
  dequeue limit jt qn := recorded (dequeue limit jt qn);
  claim id host worker := recorded (claim id host worker);
  release id := recorded (release id);
  heartbeat id := recorded (heartbeat id);
  get id := recorded (get id);
  update_status id s := recorded (update_status id s);
  get_queue_status := recorded get_queue_status;
  health_check := recorded health_check;
  all_jobs := recorded all_jobs;
  record_attempt id error := recorded (record_attempt id error);
  update_progress id p := recorded (update_progress id p);
  store_result id r := recorded (store_result id r);
  deref j := recorded (deref j);
  assign j f := recorded (assign j f);
|}.

(** [results.append(s)] *)
Definition append {B} (s : string) : M (System (Recording B)) unit :=
  on_backend (modify (λ r, mkRecording (rec_backend r) (results r ++ [s]))).

(** The worker and the queue of a suite. The backend and the tracker are shared:
    the worker's system holds them, and the queue works on those. *)
Record Bench (B : Type) : Type := mkBench {
  bench_worker : Worker (Recording B);
  bench_queue : JobQueue (Recording B);
}.
Arguments mkBench {B}.
Arguments bench_worker {B}.
Arguments bench_queue {B}.

#[export] Instance Bench_eta B : Eta (Bench B) := λ s, mkBench (bench_worker s) (bench_queue s).

Module Suites.
Section suites.
Context {B : Type} `{QueueBackend B}.
Abbreviation Store := (Recording B).

Definition check (b : bool) : M (Bench B) unit :=
  if b then mret tt else raise (UserError "AssertionError" "").

Definition on_worker {A} : M (Worker Store) A → M (Bench B) A :=
  zoom bench_worker (λ w s, s <| bench_worker := w |>).

Definition shared (s : Bench B) : JobQueue Store :=
  bench_queue s <| q_backend := sys_backend (w_system (bench_worker s)) |>
                <| q_tracker := sys_tracker (w_system (bench_worker s)) |>.
Definition on_queue {A} : M (JobQueue Store) A → M (Bench B) A :=
  zoom shared (λ q s, mkBench (bench_worker s <| w_system :=
    w_system (bench_worker s) <| sys_backend := q_backend q |> <| sys_tracker := q_tracker q |> |>) q).

(** [Worker(backend, ...)] with the defaults of the other settings. *)
Definition cfg : WorkerConfig Store := mkConfig "localhost" "worker-1" None None None None.
Definition bench (b : B) (c : option ConcurrencyManager) (p : option ResourcePool)
    (t : option DependencyTracker) : Bench B :=
  mkBench (mkWorker (mkSystem (mkRecording b []) c p t) [] (mkAudit []) (mkMetrics ∅))
          (Queue.new (mkRecording b [])).

Definition run_once : M (Bench B) bool := on_worker (Worker.run_once cfg).
Definition register_handler (job_type : string) (h : JobHandler Store) : M (Bench B) unit :=
  on_worker (HandlerRegistry.register job_type h).
Definition recorded_results : M (Bench B) (list string) :=
  gets (λ s, results (sys_backend (w_system (bench_worker s)))).

(** ** The resource pool *)

Definition handler_success : JobHandler Store := λ ctx,
  append ("success:" +:+ job_id (ctx_job ctx));; mret Finished.
Definition handler_fail : JobHandler Store := λ ctx,
  append ("fail:" +:+ job_id (ctx_job ctx));; raise (RuntimeError "deliberate failure").

Definition one_slot : dict Z := [("llm-pool", 1%Z)].
Definition resource_bench (b : B) : Bench B :=
  bench b (Some (Concurrency.new (mkLimits 10 5 3 2))) (Some (Pool.new one_slot)) None.

(** [assert pool.can_acquire(...)] *)
Definition check_pool (msg : string) : M (Bench B) unit :=
  p ← gets (λ s, sys_pool (w_system (bench_worker s)));
  if match p with Some p => Pool.can_acquire p one_slot | None => false end then mret tt
  else raise (UserError "AssertionError" msg).

(** [assert len(results) == n] *)
Definition check_count (n : nat) : M (Bench B) unit :=
  l ← recorded_results; check (bool_decide (length l = n)).

(** On [resource_bench backend]. *)
Definition run_resource_pool_conformance : M (Bench B) unit :=
  register_handler "resource_test" handler_success;;
  register_handler "resource_fail_test" handler_fail;;
  _ ← on_queue (Queue.submit (new_request "resource_test" <| req_resources := one_slot |>));
  ran ← run_once;
  check ran;;
  check_count 1;;
  check_pool "Resource not released after success";;
  _ ← on_queue (Queue.submit (new_request "resource_fail_test" <| req_resources := one_slot |>));
  try_except (_ ← run_once; mret tt)
    (λ x, match x with RuntimeError _ => mret tt | _ => raise x end);;
  check_pool "Resource not released after failure";;
  check_count 2.

(** ** Dependencies *)

Definition handler : JobHandler Store := λ ctx, append (job_id (ctx_job ctx));; mret Finished.

Definition dependency_bench (b : B) : Bench B := bench b None None (Some (mkTracker [])).

(** [assert results[i] == id] *)
Definition check_result (i : nat) (id : string) : M (Bench B) unit :=
  l ← recorded_results; check (bool_decide (l !! i = Some id)).

(** On [dependency_bench backend]. *)
Definition run_dependency_scheduler_conformance : M (Bench B) unit :=
  register_handler "dep_test" handler;;
  a_id ← on_queue (Queue.submit (new_request "dep_test"));
  b_id ← on_queue (Queue.submit (new_request "dep_test" <| req_depends_on := [a_id] |>));
  ran ← run_once;
  check ran;;
  check_count 1;;
  check_result 0 a_id;;
  ran ← run_once;
  check ran;;
  check_count 2;;
  check_result 1 b_id;;
  c_id ← on_queue (Queue.submit (new_request "dep_test"));
  try_except (_ ← on_queue (Queue.submit (new_request "dep_test" <| req_depends_on := [c_id] |>)); mret tt)
    (λ x, match x with
          | DependencyCycleError _ =>
            raise (UserError "AssertionError" "False cycle detected for valid dependency")
          | _ => raise x
          end).
End suites.
End Suites.

(** ** Runs *)

Lemma memory_resource_suite :
  let '(r, s, _) := Suites.run_resource_pool_conformance (Suites.resource_bench (mkMemory [])) env0 in
  r = Ok tt ∧ results (sys_backend (w_system (bench_worker s))) = ["success:0"; "fail:1"].
Proof. by vm_compute. Qed.

Lemma memory_dependency_suite :
  let '(r, s, _) := Suites.run_dependency_scheduler_conformance (Suites.dependency_bench (mkMemory [])) env0 in
  r = Ok tt ∧ results (sys_backend (w_system (bench_worker s))) = ["0"; "1"].
Proof. by vm_compute. Qed.
