(* ===== verification/Schema.v ===== *)
(** * The database schema

    [storage/sqlalchemy/models.py] and the constructors of
    [SQLAlchemyJobRepository] and [CallbackManager]: the four tables and the index
    the package declares, their creation in a database that may hold older tables,
    and what the column types say of the rows the code writes. The database's
    catalog is the interface [Engine] with the laws [EngineLaws], what SQLAlchemy
    documents of [create_all] and [Index.create]. *)

From S2P Require Import Prelude PyValue Meta Json Domain Backend MemoryBackend SqlBackend Callbacks.

(** ** Declarations *)

Inductive column_type : Type :=
  | TString (width : Z)
  | TInteger
  | TJson
  | TDateTime.

Record column : Type := mkColumn {
  c_name : string;
  c_type : column_type;
  c_nullable : bool;
  c_primary_key : bool;
}.

(** [Column(name, type, nullable=False)] and its two variants. *)
Definition required (name : string) (ty : column_type) : column := mkColumn name ty false false.
Definition nullable (name : string) (ty : column_type) : column := mkColumn name ty true false.
Definition primary_key (name : string) (ty : column_type) : column := mkColumn name ty false true.

(** The columns of an index, with [True] for [desc()]. *)
Record index : Type := mkIndex {
  i_name : string;
  i_columns : list (string * bool);
}.

Record table : Type := mkTable {
  t_name : string;
  t_columns : list column;
  t_indexes : list index;
}.

Definition claim_index : index :=
  mkIndex "ix_jobs_claim_queue" [("queue_name", false); ("status", false); ("priority", true); ("created_at", false)].

Definition build_jobs_table : table := mkTable "jobs"
  [primary_key "job_id" (TString 64); required "job_type" (TString 128);
   required "queue_name" (TString 128); required "payload" TJson; required "meta" TJson;
   required "status" (TString 32); required "priority" TInteger;
   nullable "claimed_by" (TString 256); required "created_at" TDateTime;
   required "updated_at" TDateTime]
  [claim_index].

Definition build_job_call_logs_table : table := mkTable "job_call_logs"
  [required "job_id" (TString 64); required "provider" (TString 64);
   required "request_id" (TString 128); required "payload" TJson; required "created_at" TDateTime] [].

Definition build_job_deliveries_table : table := mkTable "job_deliveries"
  [required "job_id" (TString 64); required "target" (TString 512); required "status" (TString 32);
   required "response" TJson; required "created_at" TDateTime] [].

Definition build_job_callbacks_table : table := mkTable "job_callbacks"
  [primary_key "job_id" (TString 64); required "callback_url" (TString 512);
   required "method" (TString 16); required "headers" TJson; required "retry_policy" TJson;
   required "attempt_count" TInteger; nullable "last_error" (TString 512);
   required "created_at" TDateTime; required "updated_at" TDateTime] [].

(** The tables of the repository's [MetaData]. *)
Definition repository_tables : list table :=
  [build_jobs_table; build_job_call_logs_table; build_job_deliveries_table; build_job_callbacks_table].

(** ** The catalog of a database *)

Record stored_table : Type := mkStored {
  st_columns : list column;
  st_indexes : list index;
}.
Abbreviation catalog := (gmap string stored_table).

Definition stored (t : table) : stored_table := mkStored (t_columns t) (t_indexes t).
Definition declared (ts : list table) : catalog := list_to_map ((λ t, (t_name t, stored t)) <$> ts).

Definition has_index (name : string) (s : stored_table) : bool :=
  existsb (λ i, bool_decide (i_name i = name)) (st_indexes s).
Definition covers (s : stored_table) (i : index) : Prop :=
  ∀ c, c ∈ (i_columns i).*1 → c ∈ c_name <$> st_columns s.
Definition add_index (i : index) (s : stored_table) : stored_table :=
  if has_index (i_name i) s then s else mkStored (st_columns s) (st_indexes s ++ [i]).

(** [metadata.create_all(engine)] and [index.create(engine, checkfirst=True)]. *)
Class Engine (D : Type) := {
  create_all : list table → M D unit;
  create_index : string → index → M D unit;
}.

(** Tables that exist are left as they are, and so are indexes that exist; an
    index needs its columns. *)
Class EngineLaws (D : Type) `{Engine D} := {
  catalog_of : D → catalog;
  create_all_ok d ts : NoDup (t_name <$> ts) →
    wp (create_all ts) d (λ r d', r = Ok tt ∧ catalog_of d' = catalog_of d ∪ declared ts);
  create_index_ok d t i s : catalog_of d !! t = Some s → covers s i →
    wp (create_index t i) d (λ r d', r = Ok tt ∧ catalog_of d' = <[t := add_index i s]> (catalog_of d));
}.

(** Lines 41-50 of the repository's constructor. *)
Definition create_schema {D} `{Engine D} : M D unit :=
  create_all repository_tables;;
  foldM (λ _ i, create_index (t_name build_jobs_table) i) tt (t_indexes build_jobs_table).

(** Lines 73-75 of the callback manager's. *)
Definition create_callback_schema {D} `{Engine D} : M D unit := create_all [build_job_callbacks_table].

(** ** Values and column types *)

(** What a row holds in a column. The values of JSON columns are JSON by their
    types, so they carry nothing here. *)
Inductive cell : Type :=
  | CNull
  | CStr (s : string)
  | CInt (n : Z)
  | CJson
  | CTime (t : Z).

Definition width_ok (w : Z) (s : string) : Prop := (Z.of_nat (String.length s) ≤ w)%Z.
(** The 32 bits of an SQL [INTEGER]. *)
Definition int32_ok (n : Z) : Prop := (-2147483648 ≤ n < 2147483648)%Z.

Definition has_type (v : cell) (c : column) : Prop :=
  match v, c_type c with
  | CNull, _ => c_nullable c = true
  | CStr s, TString w => width_ok w s
  | CInt n, TInteger => int32_ok n
  | CJson, TJson => True
  | CTime t, TDateTime => datetime_ok t
  | _, _ => False
  end.

Definition opt_cell (s : option string) : cell := from_option CStr CNull s.

Definition job_cells (r : job_row) : list cell :=
  [CStr (col_job_id r); CStr (col_job_type r); CStr (col_queue_name r); CJson; CJson;
   CStr (col_status r); CInt (col_priority r); opt_cell (col_claimed_by r);
   CTime (col_created_at r); CTime (col_updated_at r)].

Definition callback_cells (r : callback_row) : list cell :=
  [CStr (row_job_id r); CStr (row_url r); CStr (row_method r); CJson; CJson; CInt (row_attempts r);
   opt_cell (row_error r); CTime (row_created r); CTime (row_updated r)].

Definition row_typed (r : job_row) : Prop := Forall2 has_type (job_cells r) (t_columns build_jobs_table).
Definition callback_typed (r : callback_row) : Prop :=
  Forall2 has_type (callback_cells r) (t_columns build_job_callbacks_table).

(** The widths a caller has to respect: nothing in the code checks them. *)
Definition job_fits (j : Job) : Prop :=
  width_ok 64 (job_id j) ∧ width_ok 128 (job_type j) ∧ width_ok 128 (queue_name j) ∧
  int32_ok (priority j) ∧ from_option (width_ok 256) True (claimed_by j) ∧
  datetime_ok (created_at j) ∧ datetime_ok (updated_at j).

(** ** Calls on a backend *)

Inductive storage_call : Type :=
  | CallEnqueue (j : Job)
  | CallDequeue (limit : Z) (jt qn : option string)
  | CallClaim (id host worker : string)
  | CallRelease (id : string)
  | CallHeartbeat (id : string)
  | CallGet (id : string)
  | CallUpdateStatus (id : string) (s : JobStatus)
  | CallQueueStatus
  | CallHealth
  | CallAllJobs
  | CallAttempt (id : string) (error : option string)
  | CallProgress (id : string) (p : dict pyval)
  | CallResult (id : string) (res : pyval).

(** The answer is dropped and an exception is the caller's. *)
Definition exec_call {B} `{QueueBackend B} (c : storage_call) : M B unit :=
  let ignore {A} (m : M B A) : M B unit := try_except (_ ← m; mret tt) (λ _, mret tt) in
  match c with
  | CallEnqueue j => ignore (enqueue j)
  | CallDequeue limit jt qn => ignore (dequeue limit jt qn)
  | CallClaim id host worker => ignore (claim id host worker)
  | CallRelease id => ignore (release id)
  | CallHeartbeat id => ignore (heartbeat id)
  | CallGet id => ignore (get id)
  | CallUpdateStatus id s => ignore (update_status id (value s))
  | CallQueueStatus => ignore get_queue_status
  | CallHealth => ignore health_check
  | CallAllJobs => ignore all_jobs
  | CallAttempt id error => ignore (record_attempt id error)
  | CallProgress id p => ignore (update_progress id p)
  | CallResult id res => ignore (store_result id res)
  end.

Definition exec_calls {B} `{QueueBackend B} (cs : list storage_call) : M B unit :=
  foldM (λ _ c, exec_call c) tt cs.

Definition call_fits (c : storage_call) : Prop :=
  match c with
  | CallEnqueue j => job_fits j
  | CallClaim _ host worker => width_ok 255 (host +:+ worker)
  | CallDequeue limit _ _ => (0 ≤ limit)%Z
  | _ => True
  end.

(** ** The typing of a row *)

#[export] Instance width_ok_dec w s : Decision (width_ok w s).
Proof. unfold width_ok. apply _. Defined.
#[export] Instance int32_ok_dec n : Decision (int32_ok n).
Proof. unfold int32_ok. apply _. Defined.
#[export] Instance has_type_dec v c : Decision (has_type v c).
Proof. unfold has_type, datetime_ok. destruct v, (c_type c); apply _. Defined.

Lemma opt_cell_typed w s name :
  has_type (opt_cell s) (nullable name (TString w)) ↔ from_option (width_ok w) True s.
Proof. by destruct s. Qed.

Lemma row_typed_spec r :
  row_typed r ↔
  width_ok 64 (col_job_id r) ∧ width_ok 128 (col_job_type r) ∧ width_ok 128 (col_queue_name r) ∧
  width_ok 32 (col_status r) ∧ int32_ok (col_priority r) ∧
  from_option (width_ok 256) True (col_claimed_by r) ∧
  datetime_ok (col_created_at r) ∧ datetime_ok (col_updated_at r).
Proof.
  unfold row_typed, job_cells, build_jobs_table. cbn [t_columns].
  rewrite !Forall2_cons, Forall2_nil, opt_cell_typed. unfold has_type. cbn. naive_solver.
Qed.

Lemma length_append (s t : string) : String.length (s +:+ t) = String.length s + String.length t.
Proof. induction s as [|c s IH]; [done|]. simpl. by f_equal. Qed.

Lemma status_width s : width_ok 32 (value s).
Proof. by destruct s. Qed.

Lemma job_row_typed j : job_fits j → row_typed (job_to_row j).
Proof.
  intros (? & ? & ? & ? & ? & ? & ?). apply row_typed_spec. pose proof (status_width (status j)). by split_and!.
Qed.

Lemma claimer_width host worker :
  width_ok 255 (host +:+ worker) → width_ok 256 (host +:+ ":" +:+ worker).
Proof. unfold width_ok. rewrite !length_append. cbn. lia. Qed.

(** ** Statements keep rows typed *)

Section typed.
Context {T : Type} `{SqlLaws T}.

Definition table_typed (t : T) : Prop := Forall row_typed (rows t).

Definition kept_typed (t t' : T) : Prop := table_typed t → table_typed t'.
#[local] Instance kept_typed_preorder : PreOrder kept_typed.
Proof. split; [by intros t ?|]. intros t1 t2 t3 H12 H23 Ht. by apply H23, H12. Qed.

Lemma lift_typed {A} (r : result A) : keeps kept_typed (lift r).
Proof. intros t. apply wp_lift. reflexivity. Qed.

(** The clock's readings are dates. *)
Lemma keeps_utcnow {A} (f : Z → M T A) :
  (∀ now, datetime_ok now → keeps kept_typed (f now)) → keeps kept_typed (utcnow ≫= f).
Proof. intros Hf t. apply wp_bind, wp_utcnow. intros now Hnow. by apply Hf. Qed.

Lemma stored_typed r : row_typed r → row_typed (as_stored keeps_zone db_time r).
Proof.
  rewrite !row_typed_spec. intros (? & ? & ? & ? & ? & ? & ? & ?). cbn.
  split_and!; try done; by apply db_time_ok.
Qed.

Lemma keeps_insert r : row_typed r → keeps kept_typed (insert_row r).
Proof.
  intros Hr t. eapply wp_mono; [apply insert_ok|]. intros res t'.
  case_decide as Hin; [by intros [-> _]|]. intros [_ Hp] Ht. unfold table_typed. rewrite Hp. constructor; [by apply stored_typed|done].
Qed.

Lemma select_typed w leb limit :
  (∀ x y, leb x y = true ∨ leb y x = true) →
  (∀ x y z, leb x y = true → leb y z = true → leb x z = true) →
  from_option (λ n, 0 ≤ n)%Z True limit → keeps kept_typed (select_rows w leb limit).
Proof. intros ? ? ? t. eapply wp_mono; [by apply select_ok|]. intros res t' [-> _]. reflexivity. Qed.

Lemma keeps_rows w : keeps kept_typed (select_rows w Repo.unordered None).
Proof. apply select_typed; [by left|done|done]. Qed.

Lemma keeps_one_or_none id : keeps kept_typed (Repo.one_or_none id).
Proof.
  apply keeps_bind; [apply _|apply keeps_rows|]. intros [|r [|]]; auto with py typeclass_instances.
Qed.

Lemma keeps_update w f :
  (∀ r, col_job_id (f r) = col_job_id r) → (∀ r, row_typed r → row_typed (f r)) →
  keeps kept_typed (update_rows w f).
Proof.
  intros Hid Hf t. eapply wp_mono; [by apply update_ok|]. intros res t' [_ Hp] Ht.
  unfold table_typed in *. rewrite Hp. apply Forall_fmap. eapply Forall_impl; [exact Ht|].
  intros r Hr. cbn. case_match; [by apply stored_typed, Hf|done].
Qed.

(** The updates that leave everything but the status, the claimer, the metadata
    and the date of change. *)
Lemma keeps_touch w (f : job_row → job_row) now :
  datetime_ok now →
  (∀ r, col_job_id (f r) = col_job_id r ∧ col_job_type (f r) = col_job_type r ∧
     col_queue_name (f r) = col_queue_name r ∧ col_priority (f r) = col_priority r ∧
     col_created_at (f r) = col_created_at r ∧ col_updated_at (f r) = now) →
  (∀ r, col_status (f r) = col_status r ∨ ∃ s, col_status (f r) = value s) →
  (∀ r, col_claimed_by (f r) = col_claimed_by r ∨ from_option (width_ok 256) True (col_claimed_by (f r))) →
  keeps kept_typed (update_rows w f).
Proof.
  intros Hnow Hf Hst Hcl. apply keeps_update; [apply Hf|]. intros r. rewrite !row_typed_spec.
  destruct (Hf r) as (-> & -> & -> & -> & -> & ->). intros (? & ? & ? & ? & ? & ? & ? & _). split_and!; try done.
  - destruct (Hst r) as [->|[s ->]]; [done|apply status_width].
  - by destruct (Hcl r) as [->|?].
Qed.

Lemma keeps_ping : keeps kept_typed ping.
Proof. intros t. eapply wp_mono; [apply ping_ok|]. intros r t' ->. reflexivity. Qed.

Hint Resolve lift_typed keeps_rows keeps_one_or_none keeps_ping : py.

(** *** The repository's methods *)

Definition backend_typed (b : SQLQueueBackend T) : Prop := table_typed (sql_table b).
Definition kept_backend (b b' : SQLQueueBackend T) : Prop := backend_typed b → backend_typed b'.
#[local] Instance kept_backend_preorder : PreOrder kept_backend.
Proof. split; [by intros b ?|]. intros b1 b2 b3 H12 H23 Hb. by apply H23, H12. Qed.

Lemma keeps_transaction {A} (m : M T A) : keeps kept_typed m → keeps kept_backend (Repo.transaction m).
Proof. intros Hm. eapply keeps_zoom; [apply _|exact Hm|]. by intros s t Hst. Qed.

Lemma keeps_backend_lift {A} (r : result A) : keeps kept_backend (lift r).
Proof. intros b. apply wp_lift. reflexivity. Qed.

Hint Resolve keeps_transaction keeps_backend_lift : py.

Lemma set_claimed_typed id host worker :
  width_ok 255 (host +:+ worker) → keeps kept_backend (Repo.set_claimed id host worker).
Proof.
  intros Hw%claimer_width. apply keeps_transaction. apply keeps_bind; [apply _|apply keeps_one_or_none|].
  intros [row|]; [|auto with py typeclass_instances]. apply keeps_bind; [apply _|apply lift_typed|]. intros meta.
  apply keeps_utcnow. intros now Hnow. apply keeps_bind; [apply _| |auto with py typeclass_instances].
  apply (keeps_touch _ _ now Hnow); [done|intros r; right; by exists RUNNING|by right].
Qed.

Lemma set_status_typed id s clear : keeps kept_backend (Repo.set_status id (value s) clear).
Proof.
  intros b. apply wp_bind, wp_utcnow. intros now Hnow. apply wp_bind.
  eapply wp_mono; [apply keeps_transaction, (keeps_touch _ _ now Hnow)|].
  - intros r. by destruct clear.
  - intros r. right. exists s. by destruct clear.
  - intros r. destruct clear; [by right|by left].
  - intros [a|x] b' Hb; [by wp_steps|done].
Qed.

Lemma heartbeat_typed id : keeps kept_backend (Repo.heartbeat id).
Proof.
  apply keeps_bind; [apply _| |auto with py typeclass_instances]. apply keeps_transaction, keeps_utcnow.
  intros now Hnow. apply (keeps_touch _ _ now Hnow); naive_solver.
Qed.

Lemma edit_meta_typed id edit : keeps kept_backend (Repo.edit_meta id edit).
Proof.
  apply keeps_transaction, keeps_bind; [apply _|apply keeps_one_or_none|].
  intros [row|]; [|auto with py typeclass_instances].
  do 2 (apply keeps_bind; [apply _|apply lift_typed|]; intros ?). apply keeps_utcnow. intros now Hnow.
  apply keeps_bind; [apply _| |auto with py typeclass_instances].
  apply (keeps_touch _ _ now Hnow); naive_solver.
Qed.

Lemma exec_call_typed c : call_fits c → keeps kept_backend (exec_call c).
Proof.
  intros Hc. unfold exec_call.
  assert (Hignore : ∀ A (m : M (SQLQueueBackend T) A), keeps kept_backend m →
    keeps kept_backend (try_except (_ ← m; mret tt) (λ _, mret tt))) by (intros A m Hm; auto with py typeclass_instances).
  destruct c as [j|limit jt qn|id host worker|id|id|id|id s| | | |id error|id p|id res]; apply Hignore; cbn.
  - apply keeps_bind; [apply _| |auto with py typeclass_instances].
    apply keeps_transaction, keeps_insert. by apply job_row_typed.
  - apply keeps_bind; [apply _| |auto with py typeclass_instances].
    apply keeps_transaction, select_typed; [apply dispatch_before_total|apply dispatch_before_trans|done].
  - by apply set_claimed_typed.
  - apply set_status_typed.
  - apply heartbeat_typed.
  - unfold Repo.get. apply keeps_bind; [apply _|auto with py|]. intros [row|]; auto with py typeclass_instances.
  - apply set_status_typed.
  - unfold Repo.queue_status. auto with py typeclass_instances.
  - unfold Repo.health_check. auto with py typeclass_instances.
  - unfold Repo.all_jobs. auto with py typeclass_instances.
  - apply edit_meta_typed.
  - apply edit_meta_typed.
  - apply edit_meta_typed.
Qed.

Lemma exec_calls_typed cs : Forall call_fits cs → keeps kept_backend (exec_calls cs).
Proof.
  unfold exec_calls. induction 1 as [|c cs Hc _ IH]; [apply keeps_ret, _|].
  simpl. apply keeps_bind; [apply _|by apply exec_call_typed|]. by intros [].
Qed.
End typed.

(** ** Column widths that are not checked *)

(** The text of a delivery error goes to [job_callbacks.last_error] as it is. *)
Lemma persisted_error_untyped {T} `{CallbackLaws T} (m : CallbackManager T) t jid cb row err :
  _engine m = Some t → Dict.get jid (Callbacks._registry m) = Some cb → callback_rows t !! jid = Some row →
  Callbacks.last_error cb = Some err → ¬ width_ok 512 err →
  wp (_persist_attempt jid) m (λ r m', r = Ok tt ∧ ∃ t' row', _engine m' = Some t' ∧
    callback_rows t' !! jid = Some row' ∧ ¬ callback_typed row').
Proof.
  intros Ht Hcb Hrow Herr Hlong. unfold _persist_attempt, with_engine. wp_steps. rewrite Hcb. wp_steps.
  apply wp_zoom_opt. rewrite Ht. wp_steps. eapply wp_mono; [by apply update_callback_ok|].
  intros r t' (-> & Ht'). wp_steps. split; [done|]. eexists t', _. split; [done|].
  rewrite Ht', lookup_alter_eq, Hrow. split; [done|]. unfold callback_typed, callback_cells, build_job_callbacks_table.
  cbn [t_columns]. rewrite !Forall2_cons. cbn [kept_callback set_field row_error]. cbn. rewrite Herr. cbn. naive_solver.
Qed.

(** ** A catalog in memory *)

#[export] Instance catalog_engine : Engine catalog := {|
  create_all ts := modify (λ c, c ∪ declared ts);
  create_index t i := c ← get_state;
    match c !! t with
    | Some s => if forallb (λ n, bool_decide (n ∈ c_name <$> st_columns s)) (i_columns i).*1
                then modify (<[t := add_index i s]>)
                else raise (UserError "OperationalError" "no such column")
    | None => raise (UserError "OperationalError" "no such table")
    end;
|}.

Lemma catalog_create_index_ok (c : catalog) t i s : c !! t = Some s → covers s i →
  wp (create_index t i) c (λ r c', r = Ok tt ∧ c' = <[t := add_index i s]> c).
Proof.
  intros Hs Hi. simpl. wp_steps. rewrite Hs.
  assert (forallb (λ n, bool_decide (n ∈ c_name <$> st_columns s)) (i_columns i).*1 = true) as ->.
  { apply forallb_forall. intros n Hn. apply bool_decide_eq_true, Hi. by apply list_elem_of_In. }
  by wp_steps.
Qed.

#[export] Instance catalog_engine_laws : EngineLaws catalog := {|
  catalog_of c := c;
  create_all_ok c ts _ := wp_modify (λ c, c ∪ declared ts) c
    (λ r c', r = Ok tt ∧ c' = c ∪ declared ts) (conj eq_refl eq_refl);
  create_index_ok := catalog_create_index_ok;
|}.

(** ** Creating and upgrading the schema *)

(** What the constructor makes of a catalog. *)
Definition upgraded (c : catalog) (name : string) : option stored_table :=
  if decide (name = "jobs") then Some (add_index claim_index (default (stored build_jobs_table) (c !! name)))
  else (c ∪ declared repository_tables) !! name.

Lemma add_index_twice i s : add_index i (add_index i s) = add_index i s.
Proof.
  unfold add_index. destruct (has_index (i_name i) s) eqn:E; [by rewrite E|].
  assert (has_index (i_name i) (mkStored (st_columns s) (st_indexes s ++ [i])) = true) as ->; [|done].
  unfold has_index. cbn [st_indexes]. rewrite existsb_app. apply orb_true_iff. right. cbn.
  by rewrite bool_decide_eq_true_2.
Qed.

Lemma add_index_columns i s : st_columns (add_index i s) = st_columns s.
Proof. unfold add_index. by case_match. Qed.

Lemma jobs_table_covered : covers (stored build_jobs_table) claim_index.
Proof.
  unfold covers. rewrite <- Forall_forall. by apply (bool_decide_unpack _); vm_compute.
Qed.

Lemma repository_tables_nodup : NoDup (t_name <$> repository_tables).
Proof. by apply (bool_decide_unpack _); vm_compute. Qed.

Section engine.
Context {D : Type} `{EngineLaws D}.

(** The index can be created: an old [jobs] table has its columns. *)
Definition upgradable (d : D) : Prop := ∀ s, catalog_of d !! "jobs" = Some s → covers s claim_index.

Lemma create_schema_spec d : upgradable d →
  wp create_schema d (λ r d', r = Ok tt ∧ ∀ name, catalog_of d' !! name = upgraded (catalog_of d) name).
Proof.
  intros Hup. unfold create_schema. wp_steps.
  eapply wp_mono; [apply create_all_ok, repository_tables_nodup|]. intros r d1 [-> H1]. simpl.
  set (s := default (stored build_jobs_table) (catalog_of d !! "jobs")).
  assert (Hs : catalog_of d1 !! "jobs" = Some s).
  { rewrite H1, lookup_union. subst s. by destruct (catalog_of d !! "jobs"). }
  wp_steps. eapply wp_mono; [apply (create_index_ok _ _ _ _ Hs)|].
  { subst s. destruct (catalog_of d !! "jobs") as [s|] eqn:E; [by apply Hup|].
    apply jobs_table_covered. }
  intros r d2 [-> H2]. wp_steps. split; [done|]. intros name. rewrite H2, lookup_insert. unfold upgraded.
  repeat case_decide; subst; try done. by rewrite H1.
Qed.

Lemma upgraded_upgradable d d' : upgradable d →
  (∀ name, catalog_of d' !! name = upgraded (catalog_of d) name) → upgradable d'.
Proof.
  intros Hup Hd s. rewrite Hd. unfold upgraded. rewrite decide_True by done. intros [= <-] c Hc.
  rewrite add_index_columns. destruct (catalog_of d !! "jobs") as [s|] eqn:E; [by apply (Hup s)|].
  by apply jobs_table_covered.
Qed.

Lemma upgraded_twice (c c' : catalog) : (∀ name, c' !! name = upgraded c name) →
  ∀ name, upgraded c' name = c' !! name.
Proof.
  intros Hc name. unfold upgraded at 1. case_decide as Hn.
  - subst. rewrite Hc. unfold upgraded. rewrite decide_True by done. f_equal. apply add_index_twice.
  - rewrite lookup_union, Hc. unfold upgraded. rewrite decide_False by done. rewrite lookup_union.
    by destruct (c !! name), (declared repository_tables !! name).
Qed.

Lemma upgraded_tables d d' : (∀ name, catalog_of d' !! name = upgraded (catalog_of d) name) →
  ∀ t, t ∈ repository_tables → is_Some (catalog_of d' !! t_name t).
Proof.
  intros Hd t Ht. rewrite Hd. unfold upgraded. case_decide as Hn; [by eexists|].
  rewrite lookup_union_is_Some. right. unfold repository_tables in Ht. rewrite !elem_of_cons in Ht.
  destruct Ht as [->|[->|[->|[->|[]%elem_of_nil]]]]; by eexists.
Qed.

Lemma upgraded_keeps (c : catalog) name s : c !! name = Some s →
  ∃ s', upgraded c name = Some s' ∧ st_columns s' = st_columns s.
Proof.
  intros Hs. unfold upgraded. case_decide as Hn; [|exists s; by rewrite (lookup_union_Some_l _ _ _ _ Hs)].
  rewrite Hs. eexists. split; [done|]. apply add_index_columns.
Qed.
End engine.

(** ** Theorems *)


(** The constructor of the repository upgrades the schema and is idempotent.
    On a database whose [jobs] table, if it has one, holds the indexed columns,
    it raises nothing; afterwards every declared table exists, [jobs] has the
    claim index, tables that were there keep their columns, and nothing else
    changed. Running it again, or the constructor of the callback manager,
    changes nothing. *)
Theorem schema_upgrade {D} `{EngineLaws D} (d : D) : upgradable d →
  wp create_schema d (λ r d', r = Ok tt ∧
    (∀ name, catalog_of d' !! name =
       if decide (name = "jobs") then Some (add_index claim_index (default (stored build_jobs_table) (catalog_of d !! name)))
       else (catalog_of d ∪ declared repository_tables) !! name) ∧
    (∀ t, t ∈ repository_tables → is_Some (catalog_of d' !! t_name t)) ∧
    (∀ name s, catalog_of d !! name = Some s →
       ∃ s', catalog_of d' !! name = Some s' ∧ st_columns s' = st_columns s) ∧
    wp create_schema d' (λ r d'', r = Ok tt ∧ catalog_of d'' = catalog_of d') ∧
    wp create_callback_schema d' (λ r d'', r = Ok tt ∧ catalog_of d'' = catalog_of d')).
Proof.
  intros Hup. eapply wp_mono; [by apply create_schema_spec|]. intros r d' [-> Hd'].
  pose proof (upgraded_tables _ _ Hd') as Htables.
  split_and!; [done|exact Hd'|exact Htables| | |].
  - intros name s Hs. rewrite Hd'. by apply upgraded_keeps.
  - eapply wp_mono; [by eapply create_schema_spec, upgraded_upgradable|]. intros r d'' [-> Hd''].
    split; [done|]. apply map_eq. intros name. rewrite Hd''. by eapply upgraded_twice.
  - eapply wp_mono; [apply create_all_ok; by apply (bool_decide_unpack _)|]. intros r d'' [-> ->].
    split; [done|]. apply map_eq. intros name. rewrite lookup_union.
    destruct (catalog_of d' !! name) eqn:E; [by destruct (declared _ !! name)|]. rewrite (left_id None _).
    apply not_elem_of_list_to_map. cbn. intros ->%list_elem_of_singleton.
    destruct (Htables build_job_callbacks_table) as [s Hs]; [|by rewrite (E : _ !! t_name build_job_callbacks_table = None) in Hs].
    by repeat (left || right).
Qed.

(** ** Concrete runs *)

(** A queue of a job that is claimed, fails and is released, and a job whose
    identifier is taken. *)
Definition sample_calls : list storage_call :=
  [CallEnqueue (sample_job "a" 3 1); CallEnqueue (sample_job "a" 0 2); CallClaim "a" "host" "worker-1";
   CallAttempt "a" (Some "boom"); CallUpdateStatus "a" RETRY_WAIT; CallRelease "a"; CallDequeue 5 None None].


(** A job type of 129 characters is stored as well. *)
Definition long_type : string := String.concat "" (replicate 129 "x").

Lemma long_type_untyped :
  let b := after (enqueue (sample_job "a" 0 1 <| job_type := long_type |>)) (mkSql (mkRows [] : db_rows PostgreSQL)) in
  length (rows (sql_table b)) = 1 ∧ ¬ Forall row_typed (rows (sql_table b)).
Proof. split; [by vm_compute|]. apply (bool_decide_unpack _). by vm_compute. Qed.

(** A database with an old [jobs] table without the index, and a foreign table. *)
Definition old_catalog : catalog :=
  <["jobs" := mkStored (t_columns build_jobs_table) []]> {["users" := mkStored [] []]}.

Lemma schema_upgrade_witness :
  let d := old_catalog in
  upgradable d ∧
  wp create_schema d (λ r d', r = Ok tt ∧
    (∀ name, catalog_of d' !! name =
       if decide (name = "jobs") then Some (add_index claim_index (default (stored build_jobs_table) (catalog_of d !! name)))
       else (catalog_of d ∪ declared repository_tables) !! name) ∧
    (∀ t, t ∈ repository_tables → is_Some (catalog_of d' !! t_name t)) ∧
    (∀ name s, catalog_of d !! name = Some s →
       ∃ s', catalog_of d' !! name = Some s' ∧ st_columns s' = st_columns s) ∧
    wp create_schema d' (λ r d'', r = Ok tt ∧ catalog_of d'' = catalog_of d') ∧
    wp create_callback_schema d' (λ r d'', r = Ok tt ∧ catalog_of d'' = catalog_of d')).
Proof.
  intros d. assert (Hd : upgradable d) by (intros s [= <-]; exact jobs_table_covered).
  split; [exact Hd|]. exact (schema_upgrade d Hd).
Defined.
