(* ===== verification/SqlDispatch.v ===== *)
(** * The dispatcher over SQL

    [scheduler/dispatcher.py] over [backends/sql_backend.py]: the [jobs] table
    keeps neither the dependencies nor the resources of a job, so the two checks
    the dispatcher makes of them never apply to a job that was read back. *)

From S2P Require Import Prelude PyValue Meta Domain Backend MemoryBackend SqlBackend Graph Dependency.
From S2P Require Import Concurrency ResourcePool Dispatcher.

(** A job the tracker and the pool have no say in. *)
Definition unconstrained (j : Job) : Prop := depends_on j = [] ∧ resources j = [].

(** The system [s] with tracker [t] and pool [p]. *)
Definition equipped {B} (t : option DependencyTracker) (p : option ResourcePool) (s : System B) : System B :=
  s <| sys_tracker := t |> <| sys_pool := p |>.

Definition equip {B A} (t : option DependencyTracker) (p : option ResourcePool)
    (o : result A * System B * env) : result A * System B * env :=
  let '(r, s, e) := o in (r, equipped t p s, e).

(** ** Jobs read from rows *)

Lemma context_fields_constraints m j j' :
  context_fields m j = Ok j' → depends_on j' = depends_on j ∧ resources j' = resources j.
Proof. unfold context_fields. read_meta. by intros [= <-]. Qed.

Lemma run_fields_constraints m j j' :
  run_fields m j = Ok j' → depends_on j' = depends_on j ∧ resources j' = resources j.
Proof. unfold run_fields. read_meta. by intros [= <-]. Qed.

Lemma row_to_job_unconstrained row j : row_to_job row = Ok j → unconstrained j.
Proof.
  unfold row_to_job. destruct (row_payload _), (row_meta _), (row_status _); try done.
  cbn [mbind result_bind]. intros (k & Hk & Hj)%meta_fields_Ok.
  apply context_fields_constraints in Hk as [Hkd Hkr]. apply run_fields_constraints in Hj as [Hjd Hjr].
  split; [by rewrite Hjd, Hkd|by rewrite Hjr, Hkr].
Qed.

Lemma jobs_of_unconstrained rows l : Repo.jobs_of rows = Ok l → Forall unconstrained l.
Proof.
  unfold Repo.jobs_of. revert l. induction rows as [|row rows IH]; intros l; [by intros [= <-]|]. simpl.
  destruct (row_to_job row) as [j|] eqn:Ej; [|done]. simpl. destruct (mapM row_to_job rows) as [l'|]; [|done].
  intros [= <-]. constructor; [by eapply row_to_job_unconstrained|by apply IH].
Qed.

Section sql.
Context {T : Type} `{SqlTable T}.

Lemma queued_unconstrained limit jt qn b e :
  let '(r, _, _) := Repo.queued (T := T) limit jt qn b e in ∀ l, r = Ok l → Forall unconstrained l.
Proof.
  unfold Repo.queued, mbind, M_bind. destruct (Repo.transaction _ b e) as [[[rows|x] b'] e']; [|done].
  intros l. apply jobs_of_unconstrained.
Qed.
End sql.

(** ** Considering them *)

Section dispatch.
Context {B : Type} `{QueueBackend B}.

(** What is left of the body of the loop. *)
Definition consider_slot (selected : list Job) (j : Job) : M (System B) (list Job) :=
  slot ← on_concurrency (Concurrency.acquire (job_type j) "default" "default");
  if bool_decide (slot = Some false) then mret selected else mret (selected ++ [j]).

Lemma consider_unconstrained sel j s e :
  unconstrained j → Dispatcher.consider sel j s e = consider_slot sel j s e.
Proof.
  intros [Hd Hr]. unfold Dispatcher.consider, Dispatcher.runnable, consider_slot. rewrite Hd, Hr.
  rewrite !bool_decide_eq_true_2 by done. unfold mbind, M_bind, gets.
  destruct (sys_tracker s); cbn; destruct (on_concurrency _ s e) as [[[slot|x] s'] e']; try done; by case_bool_decide.
Qed.

Lemma fold_unconstrained sel l s e :
  Forall unconstrained l → foldM Dispatcher.consider sel l s e = foldM consider_slot sel l s e.
Proof.
  intros Hl. revert sel s e. induction Hl as [|j l Hj _ IH]; intros sel s e; [done|].
  simpl. unfold mbind, M_bind. rewrite consider_unconstrained by done.
  destruct (consider_slot sel j s e) as [[[sel'|x] s'] e']; [apply IH|done].
Qed.

Lemma consider_slot_equipped t p sel j s e :
  consider_slot sel j (equipped t p s) e = equip t p (consider_slot sel j s e).
Proof.
  unfold consider_slot, on_concurrency, zoom_opt, mbind, M_bind. simpl.
  destruct (sys_concurrency s) as [c|]; [|done].
  destruct (Concurrency.acquire _ _ _ c e) as [[[b|x] c'] e']; [|done]. by case_bool_decide.
Qed.

Lemma fold_equipped t p sel l s e :
  foldM consider_slot sel l (equipped t p s) e = equip t p (foldM consider_slot sel l s e).
Proof.
  revert sel s e. induction l as [|j l IH]; intros sel s e; [done|]. simpl. unfold mbind, M_bind.
  rewrite consider_slot_equipped. destruct (consider_slot sel j s e) as [[[sel'|x] s'] e']; [apply IH|done].
Qed.

(** Without a concurrency manager every job is taken. *)
Lemma fold_slots_free sel l s e :
  sys_concurrency s = None → foldM consider_slot sel l s e = (Ok (sel ++ l), s, e).
Proof.
  intros Hc. revert sel. induction l as [|j l IH]; intros sel; [by rewrite app_nil_r|].
  simpl. unfold mbind, M_bind at 1.
  assert (consider_slot sel j s e = (Ok (sel ++ [j]), s, e)) as ->.
  { unfold consider_slot, on_concurrency, zoom_opt, mbind, M_bind. by rewrite Hc. }
  rewrite (IH (sel ++ [j])), <- app_assoc. done.
Qed.
End dispatch.

(** ** Theorem *)

(** C14: over SQL the dispatcher is blind to dependencies and resources. Whatever
    the tracker and the pool, [select_eligible] answers what it answers without
    either, consumes the same slots and leaves both as they were; without a
    concurrency manager it is the backend's [dequeue]. *)
Theorem sql_dispatch_blind {T} `{SqlTable T} (s : System (SQLQueueBackend T)) limit qn e :
  Dispatcher.select_eligible limit qn s e =
    equip (sys_tracker s) (sys_pool s) (Dispatcher.select_eligible limit qn (equipped None None s) e) ∧
  (sys_concurrency s = None →
   Dispatcher.select_eligible limit qn s e = on_backend (dequeue limit None qn) s e).
Proof.
  unfold Dispatcher.select_eligible, on_backend, zoom, mbind, M_bind. simpl.
  pose proof (queued_unconstrained limit None qn (sys_backend s) e) as Hl.
  destruct (Repo.queued limit None qn (sys_backend s) e) as [[[l|x] b'] e'].
  - specialize (Hl l eq_refl). split.
    + rewrite !fold_unconstrained, <- fold_equipped by done. by destruct s.
    + intros Hc. by rewrite fold_unconstrained, fold_slots_free.
  - split; [|done]. by destruct s.
Qed.

(** "b" depends on "a" and has the higher priority; both are queued in a table. *)
Definition dependent_system : System (SQLQueueBackend (db_rows PostgreSQL)) :=
  mkSystem (mkSql (mkRows [job_to_row (sample_job "a" 0 1); job_to_row (sample_job "b" 5 2 <| depends_on := ["a"] |>)]))
    None (Some (Pool.new [])) (Some (with_edges (mkTracker []) "b" ["a"])).

Lemma sql_dispatch_blind_witness :
  let s := dependent_system in
  match answer (Dispatcher.select_eligible 1 None) s with Ok l => job_id <$> l | Err _ => [] end = ["b"] ∧
  Dispatcher.select_eligible 1 None s env0 = on_backend (dequeue 1 None None) s env0.
Proof.
  intros s. split; [by vm_compute|]. apply (proj2 (sql_dispatch_blind s 1 None env0)). reflexivity.
Defined.
